(** * control-diagram: the connector engine of the P&ID editor (src/util.ts)

    A shallow embedding of [CacEditor] and [recalculateTheLine], of the
    context menu ([initRightClickMenu]), of the [boundBoxFunc] of the resize
    transformer, of the normalisation of the icon set ([fetchPidIconSet]) and
    of the rotation of the tips ([initTip]).

    - JavaScript numbers are modelled as exact rationals ([Qc], rationals in
      lowest terms, so that numeric equality is Leibniz equality); the rounding
      of IEEE doubles is outside the model, except in [boundBoxFunc], where
      the rounding of a quotient and of a product is a parameter.  Positions
      are stated as the sums and quotients the code computes.
    - The Konva layer is modelled by the nodes the editor puts on it: the shape
      groups (group, path, label and hit box taken together), the lines and the
      anchor markers.  Lines are objects with an identity: the connectors of
      two shapes refer to one line, so they live in a store and are named by
      reference.  A destroyed line leaves the layer and stays in the store, as
      a destroyed Konva node stays reachable from whoever holds it.
    - Handlers run in a state monad over the editor with JavaScript exceptions:
      what a handler changed before it throws is kept.
    - The page around the editor holds the context menu, the entries that
      were registered with [addMenuEntry] and the nodes of the transformer;
      the callbacks of the entries are named and their calls are recorded.
    - The network, the address bar, the toolbox, the mouse cursor and the
      hover radius of the anchor markers are not modelled. *)

From Stdlib Require Import List ZArith QArith Qround Qcanon String Bool Lia Permutation.
Import ListNotations.

Close Scope Qc_scope.
Close Scope Q_scope.

(** [length] is the length of a list throughout. *)
Abbreviation length := List.length.

(** ** Numbers *)

Definition number : Type := Qc.

Definition num (z : Z) : number := Q2Qc (inject_Z z).

(** [a === b] on numbers. *)
Definition strictEq (a b : number) : bool := Qc_eq_bool a b.

(** [Math.floor]. *)
Definition floor (q : number) : number := num (Qfloor q).

(** [arr[i]] for a number [i]: defined when [i] is a natural number below the
    length, [undefined] otherwise. *)
Definition toIndex (i : number) : option nat :=
  if (Qden i =? 1)%positive && (0 <=? Qnum i)%Z then Some (Z.to_nat (Qnum i)) else None.

Definition getIndex {A : Type} (arr : list A) (i : number) : option A :=
  match toIndex i with
  | Some n => nth_error arr n
  | None => None
  end.

(** [arr.at(i)] for an integer literal [i]: negative indices count from the
    end. *)
Definition at_ {A : Type} (arr : list A) (i : Z) : option A :=
  if (0 <=? i)%Z then nth_error arr (Z.to_nat i)
  else if (0 <=? Z.of_nat (length arr) + i)%Z
       then nth_error arr (Z.to_nat (Z.of_nat (length arr) + i))
       else None.

(** ** Data model *)

Inductive PIDIconType : Type :=
| valve | pump | compressor | heat_exchanger | separator
| tank | pipe | fitting | instrument | control_valve.

Inductive AnchorType : Type := anchor_in | anchor_out | anchor_in_out.

Record IPidAnchor : Type := {
  anchor_type : AnchorType;
  anchor_x : number;
  anchor_y : number
}.

Record IPidShape : Type := {
  name : string;
  path : string;
  height : number;
  width : number;
  type : PIDIconType;
  anchors : list IPidAnchor
}.

(** An entry of [IDtoPidShape.c]: [{ l, sai, sid, eai }]. *)
Record IDtoConnection : Type := {
  conn_l : list number;
  conn_sai : number;
  conn_sid : number;
  conn_eai : number
}.

Record IDtoPidShape : Type := {
  dto_s : IPidShape;
  dto_x : number;
  dto_y : number;
  dto_id : number;
  dto_c : list IDtoConnection
}.

Record Vector2d : Type := { vx : number; vy : number }.

Inductive ConnectorType : Type := start | end_.

Definition isEnd (t : ConnectorType) : bool :=
  match t with end_ => true | start => false end.

(** [IConnector]: the line is held by reference. *)
Record IConnector : Type := {
  line : nat;
  anchorIndex : number;
  connector_type : ConnectorType
}.

(** ** Konva nodes *)

Inductive LineName : Type := cacCurrentLine | cacConnectorTwoPidShape.

Definition isCurrentLine (n : LineName) : bool :=
  match n with cacCurrentLine => true | cacConnectorTwoPidShape => false end.

Record Line : Type := {
  line_ref : nat;
  points : list number;
  line_name : LineName;
  cacStartAnchorIndex : number;
  cacStartPidShapeId : number;
  (** the line is a child of the layer *)
  line_onLayer : bool
}.

(** The group of [addShape] with its path [pidshapename]; the attributes
    [cacDto], [cacPidKonvaShape] and [cacConnectors] are those of the path. *)
Record PidNode : Type := {
  node_ref : nat;
  group_pos : Vector2d;
  cacPidKonvaShape : IPidShape;
  cacDto : IDtoPidShape;
  cacConnectors : option (list IConnector)
}.

(** An anchor marker ([cacAnchor]), with what its handlers close over. *)
Record AnchorShape : Type := {
  anchorShape_pos : Vector2d;
  anchorShape_path : nat;
  anchorShape_index : nat
}.

Record Editor : Type := {
  shapes : list PidNode;
  lines : list Line;
  anchorShapes : list AnchorShape;
  (** how many times [#fire] ran *)
  fired : nat;
  (** the next object identity *)
  next_ref : nat
}.

Definition initEditor : Editor :=
  {| shapes := []; lines := []; anchorShapes := []; fired := 0; next_ref := 0 |}.

(** ** The handler monad *)

Inductive error : Type :=
| TypeError
  (** a property of [undefined] was read or written *)
| Unmodelled
  (** a value asserted with [!] was [undefined] (it would go on as [NaN]), or
      a reference names no object: the model stops *).

Inductive outcome (A : Type) : Type :=
| Ok (a : A)
| Throw (e : error).

Arguments Ok {A} a.
Arguments Throw {A} e.

Definition M (A : Type) : Type := Editor -> outcome A * Editor.

Definition ret {A : Type} (a : A) : M A := fun E => (Ok a, E).

Definition throw {A : Type} (e : error) : M A := fun E => (Throw e, E).

Definition bind {A B : Type} (m : M A) (f : A -> M B) : M B :=
  fun E =>
    match m E with
    | (Ok a, E') => f a E'
    | (Throw e, E') => (Throw e, E')
    end.

Declare Scope monad_scope.
Delimit Scope monad_scope with monad.
Notation "x <- m ;; k" := (bind m (fun x => k))
  (at level 61, m at next level, right associativity) : monad_scope.
Notation "m ;; k" := (bind m (fun _ => k))
  (at level 61, right associativity) : monad_scope.
Open Scope monad_scope.

Definition get : M Editor := fun E => (Ok E, E).

Definition modify (f : Editor -> Editor) : M unit := fun E => (Ok tt, f E).

(** A value that must be there: [e] is thrown when it is not. *)
Definition orThrow {A : Type} (e : error) (o : option A) : M A :=
  match o with
  | Some a => ret a
  | None => throw e
  end.

Fixpoint forEach {A : Type} (arr : list A) (f : A -> M unit) : M unit :=
  match arr with
  | [] => ret tt
  | a :: arr' => f a ;; forEach arr' f
  end.

Fixpoint mapM {A B : Type} (f : A -> M B) (arr : list A) : M (list B) :=
  match arr with
  | [] => ret []
  | a :: arr' => b <- f a ;; bs <- mapM f arr' ;; ret (b :: bs)
  end.

(** The state a handler leaves, and what it returned. *)
Definition exec {A : Type} (m : M A) (E : Editor) : Editor := snd (m E).
Definition eval {A : Type} (m : M A) (E : Editor) : outcome A := fst (m E).

(** ** The object store *)

Definition findNode (r : nat) (ns : list PidNode) : option PidNode :=
  find (fun n => node_ref n =? r) ns.

Definition updateNode (r : nat) (f : PidNode -> PidNode) (ns : list PidNode) : list PidNode :=
  map (fun n => if node_ref n =? r then f n else n) ns.

Definition removeNode (r : nat) (ns : list PidNode) : list PidNode :=
  filter (fun n => negb (node_ref n =? r)) ns.

Definition findLine (r : nat) (ls : list Line) : option Line :=
  find (fun l => line_ref l =? r) ls.

Definition updateLine (r : nat) (f : Line -> Line) (ls : list Line) : list Line :=
  map (fun l => if line_ref l =? r then f l else l) ls.

Definition set_shapes (ns : list PidNode) (E : Editor) : Editor :=
  {| shapes := ns; lines := lines E; anchorShapes := anchorShapes E;
     fired := fired E; next_ref := next_ref E |}.

Definition set_lines (ls : list Line) (E : Editor) : Editor :=
  {| shapes := shapes E; lines := ls; anchorShapes := anchorShapes E;
     fired := fired E; next_ref := next_ref E |}.

Definition set_anchorShapes (a : list AnchorShape) (E : Editor) : Editor :=
  {| shapes := shapes E; lines := lines E; anchorShapes := a;
     fired := fired E; next_ref := next_ref E |}.

Definition set_fired (k : nat) (E : Editor) : Editor :=
  {| shapes := shapes E; lines := lines E; anchorShapes := anchorShapes E;
     fired := k; next_ref := next_ref E |}.

Definition set_points (p : list number) (l : Line) : Line :=
  {| line_ref := line_ref l; points := p; line_name := line_name l;
     cacStartAnchorIndex := cacStartAnchorIndex l;
     cacStartPidShapeId := cacStartPidShapeId l; line_onLayer := line_onLayer l |}.

Definition set_line_name (n : LineName) (l : Line) : Line :=
  {| line_ref := line_ref l; points := points l; line_name := n;
     cacStartAnchorIndex := cacStartAnchorIndex l;
     cacStartPidShapeId := cacStartPidShapeId l; line_onLayer := line_onLayer l |}.

Definition set_line_onLayer (b : bool) (l : Line) : Line :=
  {| line_ref := line_ref l; points := points l; line_name := line_name l;
     cacStartAnchorIndex := cacStartAnchorIndex l;
     cacStartPidShapeId := cacStartPidShapeId l; line_onLayer := b |}.

Definition set_group_pos (p : Vector2d) (n : PidNode) : PidNode :=
  {| node_ref := node_ref n; group_pos := p; cacPidKonvaShape := cacPidKonvaShape n;
     cacDto := cacDto n; cacConnectors := cacConnectors n |}.

Definition set_cacDto (d : IDtoPidShape) (n : PidNode) : PidNode :=
  {| node_ref := node_ref n; group_pos := group_pos n;
     cacPidKonvaShape := cacPidKonvaShape n; cacDto := d;
     cacConnectors := cacConnectors n |}.

Definition set_cacConnectors (cs : option (list IConnector)) (n : PidNode) : PidNode :=
  {| node_ref := node_ref n; group_pos := group_pos n;
     cacPidKonvaShape := cacPidKonvaShape n; cacDto := cacDto n;
     cacConnectors := cs |}.

Definition set_dto_pos (x y : number) (d : IDtoPidShape) : IDtoPidShape :=
  {| dto_s := dto_s d; dto_x := x; dto_y := y; dto_id := dto_id d; dto_c := dto_c d |}.

Definition set_dto_c (c : list IDtoConnection) (d : IDtoPidShape) : IDtoPidShape :=
  {| dto_s := dto_s d; dto_x := dto_x d; dto_y := dto_y d; dto_id := dto_id d; dto_c := c |}.

Definition set_conn_l (l : list number) (c : IDtoConnection) : IDtoConnection :=
  {| conn_l := l; conn_sai := conn_sai c; conn_sid := conn_sid c; conn_eai := conn_eai c |}.

(** [arr[index] = f(arr[index])], for an [index] in range. *)
Fixpoint updateAt {A : Type} (index : nat) (f : A -> A) (arr : list A) : list A :=
  match arr, index with
  | [], _ => []
  | a :: arr', O => f a :: arr'
  | a :: arr', S i => a :: updateAt i f arr'
  end.

Fixpoint mapi_from {A B : Type} (i : nat) (f : A -> nat -> B) (arr : list A) : list B :=
  match arr with
  | [] => []
  | a :: arr' => f a i :: mapi_from (S i) f arr'
  end.

(** [arr.map((a, index) => f(a, index))]. *)
Definition mapi {A B : Type} (f : A -> nat -> B) (arr : list A) : list B :=
  mapi_from 0 f arr.

(** [arr.forEach((a, index) => f(a, index))]. *)
Fixpoint forEachi_from {A : Type} (i : nat) (arr : list A) (f : A -> nat -> M unit) : M unit :=
  match arr with
  | [] => ret tt
  | a :: arr' => f a i ;; forEachi_from (S i) arr' f
  end.

Definition forEachi {A : Type} (arr : list A) (f : A -> nat -> M unit) : M unit :=
  forEachi_from 0 arr f.

Definition newRef : M nat :=
  fun E => (Ok (next_ref E),
            {| shapes := shapes E; lines := lines E; anchorShapes := anchorShapes E;
               fired := fired E; next_ref := S (next_ref E) |}).

Definition getNode (r : nat) : M PidNode :=
  E <- get ;; orThrow Unmodelled (findNode r (shapes E)).

Definition setNode (r : nat) (f : PidNode -> PidNode) : M unit :=
  modify (fun E => set_shapes (updateNode r f (shapes E)) E).

Definition getLine (r : nat) : M Line :=
  E <- get ;; orThrow Unmodelled (findLine r (lines E)).

Definition setLine (r : nat) (f : Line -> Line) : M unit :=
  modify (fun E => set_lines (updateLine r f (lines E)) E).

(** [new Line({ points, name })] followed by the two [setAttr]; the line is not
    on the layer yet. *)
Definition newLine (pts : list number) (n : LineName) (startAnchorIndex startPidShapeId : number)
  : M nat :=
  r <- newRef ;;
  modify (fun E =>
    set_lines (lines E ++ [{| line_ref := r; points := pts; line_name := n;
                              cacStartAnchorIndex := startAnchorIndex;
                              cacStartPidShapeId := startPidShapeId;
                              line_onLayer := false |}]) E) ;;
  ret r.

(** [this.layer.add(line)]. *)
Definition layerAddLine (r : nat) : M unit := setLine r (set_line_onLayer true).

(** [line.destroy()]. *)
Definition destroyLine (r : nat) : M unit := setLine r (set_line_onLayer false).

(** [this.layer.findOne('.cacCurrentLine')]. *)
Definition currentLine (E : Editor) : option Line :=
  find (fun l => line_onLayer l && isCurrentLine (line_name l)) (lines E).

Definition findOneCurrentLine : M (option nat) :=
  E <- get ;; ret (option_map line_ref (currentLine E)).

(** [this.layer.find('.pidshapename').find((s) => s.getAttr('cacDto').id === id)]. *)
Definition findPidShapeById (id : number) : M (option nat) :=
  E <- get ;;
  ret (option_map node_ref (find (fun n => strictEq (dto_id (cacDto n)) id) (shapes E))).

(** [#fire]: the registered callbacks run; the model counts the calls. *)
Definition fire : M unit := modify (fun E => set_fired (S (fired E)) E).

(** ** The connector line engine *)

(** [recalculateTheLine]: make the line with 90 degrees angles. *)
Definition recalculateTheLine (line : nat) (pos : Vector2d) : M (list number) :=
  l <- getLine line ;;
  startX <- orThrow Unmodelled (at_ (points l) 0) ;;
  startY <- orThrow Unmodelled (at_ (points l) 1) ;;
  let middleX := ((startX + vx pos) / num 2)%Qc in
  let points := [startX; startY; middleX; startY; middleX; vy pos; vx pos; vy pos] in
  setLine line (set_points points) ;;
  ret points.

(** ** The resize transformer *)

(** A Konva [Box]. *)
Record Box : Type := {
  box_x : number;
  box_y : number;
  box_width : number;
  box_height : number;
  box_rotation : number
}.

Definition set_box_width (w : number) (b : Box) : Box :=
  {| box_x := box_x b; box_y := box_y b; box_width := w; box_height := box_height b;
     box_rotation := box_rotation b |}.

Definition set_box_height (h : number) (b : Box) : Box :=
  {| box_x := box_x b; box_y := box_y b; box_width := box_width b; box_height := h;
     box_rotation := box_rotation b |}.

(** [a < b] on numbers. *)
Definition lessThan (a b : number) : bool := if Qclt_le_dec a b then true else false.

(** [Math.max(a, b)]. *)
Definition Math_max (a b : number) : number := if Qclt_le_dec a b then b else a.

(** The arithmetic of [boundBoxFunc].  A quotient and a product are rounded
    to a number: [round] is the identity in exact arithmetic and rounding to
    the nearest double in JavaScript.  A division by zero is outside the
    model. *)
Section BoundBox.

Variable round : number -> number.

(** [a / b]. *)
Definition fdiv (a b : number) : number := round (a / b)%Qc.

(** [a * b]. *)
Definition fmul (a b : number) : number := round (a * b)%Qc.

(** The [boundBoxFunc] of the transformer made by the constructor; the
    assignments to [newBox] are written as updates. *)
Definition boundBoxFunc (oldBox newBox : Box) : Box :=
  let ratio := fdiv (box_width oldBox) (box_height oldBox) in
  let newBox := set_box_width (Math_max (num 80) (box_width newBox)) newBox in
  let newBox := set_box_height (fdiv (box_width newBox) ratio) newBox in
  if lessThan (box_height newBox) (num 10) then
    let newBox := set_box_height (num 10) newBox in
    set_box_width (fmul (box_height newBox) ratio) newBox
  else newBox.

End BoundBox.

(** ** The icon set *)

(** An item of the fetched icon set, as the JSON has it: a property can be
    missing ([undefined] or [null]). *)
Record FetchedShape : Type := {
  fetched_name : option string;
  fetched_path : option string;
  fetched_height : option number;
  fetched_width : option number;
  fetched_type : option PIDIconType;
  fetched_anchors : option (list IPidAnchor)
}.

(** [s || d] on strings: the empty string is falsy. *)
Definition orString (s : option string) (d : string) : string :=
  match s with
  | Some s => if (s =? "")%string then d else s
  | None => d
  end.

(** [v || d] on values that are truthy when they are there. *)
Definition orElse {A : Type} (v : option A) (d : A) : A :=
  match v with
  | Some v => v
  | None => d
  end.

(** The body of the loop of [fetchPidIconSet]. *)
Definition normalizeItem (item : FetchedShape) : FetchedShape :=
  {| fetched_anchors := Some (orElse (fetched_anchors item) []);
     fetched_path := Some (orString (fetched_path item) "");
     fetched_type := Some (orElse (fetched_type item) valve);
     fetched_name := Some (orString (fetched_name item) "Unnamed");
     fetched_height := fetched_height item;
     fetched_width := fetched_width item |}.

(** [fetchPidIconSet], from the parsed response on: [data] is
    [pidIconSet.data]. *)
Definition fetchPidIconSet (data : option (list FetchedShape))
  : option (list FetchedShape) :=
  match data with
  | Some data => Some (map normalizeItem data)
  | None => None
  end.

(** The item as an [IPidShape], when it has every property of one. *)
Definition asPidShape (item : FetchedShape) : option IPidShape :=
  match fetched_name item, fetched_path item, fetched_height item, fetched_width item,
        fetched_type item, fetched_anchors item with
  | Some n, Some p, Some h, Some w, Some t, Some a =>
      Some {| name := n; path := p; height := h; width := w; type := t; anchors := a |}
  | _, _, _, _, _, _ => None
  end.

(** ** The tips (src/util.ts) *)

(** The element [tip] and the timers of [initTip]. *)
Record TipPage : Type := {
  tip_innerHTML : string;
  tip_index : nat;
  (** when the interval fires next, in milliseconds from the call of [initTip] *)
  tip_interval : Z;
  (** when the pending timeouts fire, the earliest first *)
  tip_timeouts : list Z
}.

(** [tips[i]] written to [innerHTML]; [undefined] is written as a string. *)
Definition tipText (tips : list string) (i : option nat) : string :=
  match i with
  | Some i =>
      match nth_error tips i with
      | Some t => t
      | None => "undefined"
      end
  | None => "undefined"
  end.

(** [index % tips.length], [NaN] when there is no tip. *)
Definition tipPlace (tips : list string) (index : nat) : option nat :=
  match length tips with
  | O => None
  | S n => Some (index mod S n)
  end.

(** [CAC_TIPS]; [isTouchDevice] is what the browser tells. *)
Definition CAC_TIPS (isTouchDevice : bool) : list string :=
  [ "You can add icons from the left menu";
    if isTouchDevice then "Double tap icons to edit them"
    else "Right click icons to edit them";
    "You can drag icons on the whiteboard" ]%string.

(** [initTip(tips)] when the page has the element [tip]. *)
Definition initTip (tips : list string) : TipPage :=
  {| tip_innerHTML := tipText tips (Some 0); tip_index := 0;
     tip_interval := 8000%Z; tip_timeouts := [] |}.

(** The callback of [setInterval], fired at [now]. *)
Definition tip_onInterval (now : Z) (s : TipPage) : TipPage :=
  {| tip_innerHTML := ""; tip_index := tip_index s;
     tip_interval := (now + 8000)%Z; tip_timeouts := tip_timeouts s ++ [(now + 1000)%Z] |}.

(** The callback of [setTimeout]. *)
Definition tip_onTimeout (tips : list string) (s : TipPage) : TipPage :=
  {| tip_innerHTML := tipText tips (tipPlace tips (S (tip_index s)));
     tip_index := S (tip_index s);
     tip_interval := tip_interval s; tip_timeouts := tl (tip_timeouts s) |}.

(** The timer that is due first fires. *)
Definition tip_fire (tips : list string) (s : TipPage) : TipPage :=
  match tip_timeouts s with
  | t :: _ => if (t <? tip_interval s)%Z then tip_onTimeout tips s
              else tip_onInterval (tip_interval s) s
  | [] => tip_onInterval (tip_interval s) s
  end.

(** The page after [k] timers have fired. *)
Fixpoint tip_after (tips : list string) (k : nat) : TipPage :=
  match k with
  | O => initTip tips
  | S k => tip_fire tips (tip_after tips k)
  end.

(** ** CacEditor *)

Section CacEditor.

(** Konva's [Path.getClientRect] is the library's: [pathClientRect data] is the
    top-left corner of the client rectangle of the path [data], drawn with
    [P.shapePathParams], in the coordinates of the path's group. *)
Variable pathClientRect : string -> Vector2d.

(** [pidKonvaPath.getClientRect({ relativeTo: this.layer })]: the group is a
    child of the layer and is only ever translated. *)
Definition getClientRect (n : PidNode) : Vector2d :=
  {| vx := (vx (group_pos n) + vx (pathClientRect (path (cacPidKonvaShape n))))%Qc;
     vy := (vy (group_pos n) + vy (pathClientRect (path (cacPidKonvaShape n))))%Qc |}.

Definition cleanAnchorShapes : M unit := modify (set_anchorShapes []).

(** [shape.getAttr('cacConnectors').push(conn)], on the empty array when the
    attribute was not set. *)
Definition pushConnector (conn : IConnector) (n : PidNode) : PidNode :=
  set_cacConnectors
    (Some (match cacConnectors n with Some cs => cs | None => [] end ++ [conn])) n.

(** [dto.c.push(connection)]. *)
Definition pushConnection (connection : IDtoConnection) (n : PidNode) : PidNode :=
  set_cacDto (set_dto_c (dto_c (cacDto n) ++ [connection]) (cacDto n)) n.

Definition addConnectorToPath (shape : option nat) (line : nat) (anchorIndex : number)
    (type : ConnectorType) (init : bool) : M unit :=
  match shape with
  | None => throw TypeError
  | Some shape =>
      _ <- getNode shape ;;
      let conn := {| line := line; anchorIndex := anchorIndex; connector_type := type |} in
      setNode shape (pushConnector conn) ;;
      if isEnd type then
        l <- getLine line ;;
        let anchorIndexStart := cacStartAnchorIndex l in
        let pidShapeStartId := cacStartPidShapeId l in
        let points := points l in
        setNode shape
          (pushConnection {| conn_l := points; conn_sai := anchorIndexStart;
                             conn_sid := pidShapeStartId; conn_eai := anchorIndex |}) ;;
        if init then ret tt else fire
      else ret tt
  end.

Definition endConnectingLine (pos : Vector2d) : M (option nat) :=
  line <- findOneCurrentLine ;;
  match line with
  | None => ret None
  | Some line =>
      _ <- recalculateTheLine line pos ;;
      setLine line (set_line_name cacConnectorTwoPidShape) ;;
      cleanAnchorShapes ;;
      l <- getLine line ;;
      let anchorIndexStart := cacStartAnchorIndex l in
      let pidShapeStartId := cacStartPidShapeId l in
      shapeStart <- findPidShapeById pidShapeStartId ;;
      addConnectorToPath shapeStart line anchorIndexStart start false ;;
      ret (Some line)
  end.

(** The [mouseup touchend] handler of an anchor marker. *)
Definition anchorShape_mouseup (a : AnchorShape) : M unit :=
  let pos := anchorShape_pos a in
  line <- endConnectingLine pos ;;
  match line with
  | Some line =>
      addConnectorToPath (Some (anchorShape_path a)) line
        (num (Z.of_nat (anchorShape_index a))) end_ false
  | None => ret tt
  end.

(** The [mousedown touchstart] handler of an anchor marker. *)
Definition anchorShape_mousedown (a : AnchorShape) : M unit :=
  line <- findOneCurrentLine ;;
  match line with
  | Some _ => ret tt
  | None =>
      let pos := anchorShape_pos a in
      n <- getNode (anchorShape_path a) ;;
      let dto := cacDto n in
      newLine <- newLine [vx pos; vy pos] cacCurrentLine
                   (num (Z.of_nat (anchorShape_index a))) (dto_id dto) ;;
      layerAddLine newLine
  end.

Definition createAnchorShapes (pidShape : IPidShape) (pidKonvaPath : nat)
  : M (list AnchorShape) :=
  cleanAnchorShapes ;;
  n <- getNode pidKonvaPath ;;
  let rect := getClientRect n in
  let created :=
    mapi (fun anchor anchorIndex =>
            {| anchorShape_pos := {| vx := (anchor_x anchor + vx rect)%Qc;
                                     vy := (anchor_y anchor + vy rect)%Qc |};
               anchorShape_path := pidKonvaPath;
               anchorShape_index := anchorIndex |})
         (anchors pidShape) in
  modify (fun E => set_anchorShapes (anchorShapes E ++ created) E) ;;
  ret created.

(** [Math.floor(Math.random() * 1000000)], the default of [addShape]'s [id];
    [random] is what [Math.random()] returned. *)
Definition randomId (random : number) : number := floor (random * num 1000000)%Qc.

Definition addShape (pidShape : IPidShape) (x y : number) (id : number) : M nat :=
  group <- newRef ;;
  let dto := {| dto_s := pidShape; dto_x := x; dto_y := y; dto_id := id; dto_c := [] |} in
  modify (fun E =>
    set_shapes (shapes E ++ [{| node_ref := group; group_pos := {| vx := x; vy := y |};
                                cacPidKonvaShape := pidShape; cacDto := dto;
                                cacConnectors := None |}]) E) ;;
  ret group.

(** [addShape(pidShape, x, y)], the [id] left out. *)
Definition addShape_defaultId (pidShape : IPidShape) (x y : number) (random : number) : M nat :=
  addShape pidShape x y (randomId random).

(** The [click tap] handler of a shape's group. *)
Definition group_click (pidShape : IPidShape) (pidKonvaPath : nat) : M unit :=
  _ <- createAnchorShapes pidShape pidKonvaPath ;; ret tt.

(** The [mouseover touchmove] handler of a shape's group. *)
Definition group_mouseover (pidShape : IPidShape) (pidKonvaPath : nat) : M unit :=
  line <- findOneCurrentLine ;;
  match line with
  | Some _ => _ <- createAnchorShapes pidShape pidKonvaPath ;; ret tt
  | None => ret tt
  end.

(** The [mousedown touchstart] handler of a shape's group. *)
Definition group_mousedown : M unit := cleanAnchorShapes.

(** The body of the [dragmove] handler's loop over the connectors. *)
Definition dragmove_connector (pidShape : IPidShape) (group : nat) (c : IConnector) : M unit :=
  n <- getNode group ;;
  let g := group_pos n in
  anchor <- orThrow TypeError (getIndex (anchors pidShape) (anchorIndex c)) ;;
  let g := {| vx := (vx g + anchor_x anchor)%Qc; vy := (vy g + anchor_y anchor)%Qc |} in
  match connector_type c with
  | end_ => _ <- recalculateTheLine (line c) g ;; ret tt
  | start =>
      l <- getLine (line c) ;;
      endX <- orThrow Unmodelled (at_ (points l) (-2)) ;;
      endY <- orThrow Unmodelled (at_ (points l) (-1)) ;;
      startX <- orThrow Unmodelled (at_ (points l) 0) ;;
      let middleX := ((startX + endX) / num 2)%Qc in
      let points := [vx g; vy g; middleX; vy g; middleX; endY; endX; endY] in
      setLine (line c) (set_points points)
  end.

(** The [dragmove] handler of a shape's group. *)
Definition group_dragmove (pidShape : IPidShape) (group : nat) : M unit :=
  n <- getNode group ;;
  match cacConnectors n with
  | None => ret tt
  | Some connectors => forEach connectors (dragmove_connector pidShape group)
  end.

(** The [dragend] handler of a shape's group. *)
Definition group_dragend (group : nat) : M unit :=
  n <- getNode group ;;
  let pos := group_pos n in
  setNode group (fun n => set_cacDto (set_dto_pos (vx pos) (vy pos) (cacDto n)) n) ;;
  fire.

(** The loop body of [#export] for one shape. *)
Definition export_shape (s : nat) : M unit :=
  n <- getNode s ;;
  match cacConnectors n with
  | None => ret tt
  | Some conns =>
      forEachi (filter (fun c => isEnd (connector_type c)) conns)
        (fun c index =>
           l <- getLine (line c) ;;
           n <- getNode s ;;
           match nth_error (dto_c (cacDto n)) index with
           | None => throw TypeError
           | Some _ =>
               setNode s (fun n =>
                 set_cacDto
                   (set_dto_c (updateAt index (set_conn_l (points l)) (dto_c (cacDto n)))
                              (cacDto n)) n)
           end)
  end.

Definition export : M (list IDtoPidShape) :=
  E <- get ;;
  let pidShapes := map node_ref (shapes E) in
  forEach pidShapes export_shape ;;
  mapM (fun s => n <- getNode s ;; ret (cacDto n)) pidShapes.

Definition exportJson : M (list IDtoPidShape) := export.

(** [groupAndPidShapes.find((g) => g.pidKonvaPath.attrs.cacDto.id === id)]. *)
Definition findGroupById (groupAndPidShapes : list nat) (id : number) : M (option nat) :=
  E <- get ;;
  ret (find (fun g =>
               match findNode g (shapes E) with
               | Some n => strictEq (dto_id (cacDto n)) id
               | None => false
               end) groupAndPidShapes).

(** The body of [importJson]'s inner loop. *)
Definition importJson_conn (groupAndPidShapes : list nat) (dto : IDtoPidShape)
    (conn : IDtoConnection) : M unit :=
  newLine <- newLine (conn_l conn) cacConnectorTwoPidShape (conn_sai conn) (conn_sid conn) ;;
  groupAndPidShapeStart <- findGroupById groupAndPidShapes (conn_sid conn) ;;
  match groupAndPidShapeStart with
  | None => ret tt
  | Some pathStart =>
      addConnectorToPath (Some pathStart) newLine (conn_sai conn) start false ;;
      groupAndPidShapeEnd <- findGroupById groupAndPidShapes (dto_id dto) ;;
      addConnectorToPath groupAndPidShapeEnd newLine (conn_eai conn) end_ true ;;
      layerAddLine newLine
  end.

Definition importJson (data : option (list IDtoPidShape)) : M (option (list nat)) :=
  match data with
  | None => ret None
  | Some data =>
      groupAndPidShapes <-
        mapM (fun i => addShape (dto_s i) (dto_x i) (dto_y i) (dto_id i)) data ;;
      forEach data (fun dto =>
        forEach (dto_c dto) (importJson_conn groupAndPidShapes dto)) ;;
      ret (Some groupAndPidShapes)
  end.

(** [this.layer.destroyChildren()]. *)
Definition clear : M unit :=
  modify (fun E =>
    {| shapes := []; lines := map (set_line_onLayer false) (lines E); anchorShapes := [];
       fired := fired E; next_ref := next_ref E |}).

Definition emptyEnd : IPidShape :=
  {| name := "";
     anchors := [ {| anchor_type := anchor_in_out; anchor_x := num 0; anchor_y := num 7 |};
                  {| anchor_type := anchor_in_out; anchor_x := num 14; anchor_y := num 7 |} ];
     path := "m 0 0 a 5 5 0 0 1 14 0 a 5 5 0 0 1 -14 0";
     height := num 10;
     width := num 10;
     type := valve |}.

(** [#createEmtpyShape]; the path is the child of the new group that has a
    [data] attribute. *)
Definition createEmtpyShape (pos : Vector2d) (random : number) : M (option nat) :=
  group <- addShape_defaultId emptyEnd (vx pos) (vy pos) random ;;
  ret (Some group).

(** The [click tap] handler of the stage, for a click whose target is the
    stage; [pos] is [this.stage.getPointerPosition()]. *)
Definition stage_click (pos : option Vector2d) (random : number) : M unit :=
  cleanAnchorShapes ;;
  match pos with
  | None =>
      line <- findOneCurrentLine ;;
      match line with
      | Some line => destroyLine line
      | None => ret tt
      end
  | Some pos =>
      current <- findOneCurrentLine ;;
      match current with
      | Some _ =>
          line <- endConnectingLine pos ;;
          emptyEnd <- createEmtpyShape pos random ;;
          match line with
          | Some line => addConnectorToPath emptyEnd line (num 0) end_ false
          | None => ret tt
          end
      | None => ret tt
      end
  end.

(** The [mousemove touchmove] handler of the stage. *)
Definition stage_mousemove (pos : option Vector2d) : M unit :=
  match pos with
  | None => ret tt
  | Some pos =>
      line <- findOneCurrentLine ;;
      match line with
      | Some line => _ <- recalculateTheLine line pos ;; ret tt
      | None => ret tt
      end
  end.

(** [#deleteShape(s)] for a shape [s] of the group [group]; a group that was
    destroyed is no parent any more. *)
Definition deleteShape (group : nat) : M unit :=
  cleanAnchorShapes ;;
  E <- get ;;
  match findNode group (shapes E) with
  | None => ret tt
  | Some n =>
      match cacConnectors n with
      | Some conns => forEach conns (fun c => destroyLine (line c))
      | None => ret tt
      end ;;
      modify (fun E => set_shapes (removeNode group (shapes E)) E) ;;
      fire
  end.

(** ** Events *)

(** What the page and the user do to an editor.  [random] is the value of
    [Math.random()] where the handler draws one. *)
Inductive event : Type :=
| Ev_addShape (pidShape : IPidShape) (x y : number) (id : option number) (random : number)
| Ev_exportJson
| Ev_importJson (data : option (list IDtoPidShape))
| Ev_clear
| Ev_group_click (group : nat)
| Ev_group_mouseover (group : nat)
| Ev_group_mousedown (group : nat)
| Ev_group_dragmove (group : nat) (pos : Vector2d)
| Ev_group_dragend (group : nat)
| Ev_anchor_mousedown (i : nat)
| Ev_anchor_mouseup (i : nat)
| Ev_stage_click (pos : option Vector2d) (random : number)
| Ev_stage_mousemove (pos : option Vector2d)
| Ev_contextmenu
| Ev_menu_delete (group : nat).

(** An event of a shape's group reaches the handlers of a group that is on
    the layer. *)
Definition onGroup (group : nat) (h : IPidShape -> M unit) : M unit :=
  E <- get ;;
  match findNode group (shapes E) with
  | Some n => h (cacPidKonvaShape n)
  | None => ret tt
  end.

(** An event of an anchor marker reaches the handlers of a marker that is on
    the layer. *)
Definition onAnchor (i : nat) (h : AnchorShape -> M unit) : M unit :=
  E <- get ;;
  match nth_error (anchorShapes E) i with
  | Some a => h a
  | None => ret tt
  end.

Definition handle (ev : event) : M unit :=
  match ev with
  | Ev_addShape pidShape x y (Some id) _ => _ <- addShape pidShape x y id ;; ret tt
  | Ev_addShape pidShape x y None random =>
      _ <- addShape_defaultId pidShape x y random ;; ret tt
  | Ev_exportJson => _ <- exportJson ;; ret tt
  | Ev_importJson data => _ <- importJson data ;; ret tt
  | Ev_clear => clear
  | Ev_group_click group => onGroup group (fun pidShape => group_click pidShape group)
  | Ev_group_mouseover group => onGroup group (fun pidShape => group_mouseover pidShape group)
  | Ev_group_mousedown group => onGroup group (fun _ => group_mousedown)
  | Ev_group_dragmove group pos =>
      (* Konva moves the dragged group, then fires [dragmove] *)
      onGroup group (fun pidShape =>
        setNode group (set_group_pos pos) ;; group_dragmove pidShape group)
  | Ev_group_dragend group => onGroup group (fun _ => group_dragend group)
  | Ev_anchor_mousedown i => onAnchor i anchorShape_mousedown
  | Ev_anchor_mouseup i => onAnchor i anchorShape_mouseup
  | Ev_stage_click pos random => stage_click pos random
  | Ev_stage_mousemove pos => stage_mousemove pos
  | Ev_contextmenu => cleanAnchorShapes
  | Ev_menu_delete group => deleteShape group
  end.

Definition step (E : Editor) (ev : event) : Editor := exec (handle ev) E.

(** The states an editor goes through, from [new CacEditor(config)] on. *)
Inductive reachable : Editor -> Prop :=
| reachable_init : reachable initEditor
| reachable_step : forall E ev, reachable E -> reachable (step E ev).

(** [events.reduce(step, E)]. *)
Definition run (E : Editor) (evs : list event) : Editor := fold_left step evs E.

(** ** The context menu *)

(** What a [contextmenu] or [dbltap] of the stage hits, when it is not the
    stage itself: a child of a shape's group (the path, the label or the hit
    box), a line or an anchor marker. *)
Inductive Target : Type :=
| onShape (group : nat)
| onLine (line : nat)
| onMarker (i : nat).

(** A button of the menu, as [createMenuItem(text, action)] makes it. *)
Record MenuButton : Type := {
  button_text : string;
  button_action : string
}.

(** An entry of [#customMenuItems]; the callback is a function of the page
    that uses the editor: it is named, and its calls are recorded. *)
Record CustomMenuItem : Type := {
  item_label : string;
  item_callback : nat
}.

(** [menuNode.style.display]. *)
Inductive Display : Type := display_none | display_initial.

Record Page : Type := {
  editor : Editor;
  (** [this.tr.nodes()] *)
  tr_nodes : list nat;
  customMenuItems : list CustomMenuItem;
  menu_display : Display;
  (** the children of [menuNode] *)
  menu_buttons : list MenuButton;
  (** [menuNode.style.left] and [menuNode.style.top], in pixels *)
  menu_position : option Vector2d;
  currentShape : option Target;
  (** the calls of the callbacks of the custom entries, the latest last *)
  called : list (nat * option Target)
}.

Definition initPage : Page :=
  {| editor := initEditor; tr_nodes := []; customMenuItems := [];
     menu_display := display_none; menu_buttons := []; menu_position := None;
     currentShape := None; called := [] |}.

Definition set_editor (E : Editor) (P : Page) : Page :=
  {| editor := E; tr_nodes := tr_nodes P; customMenuItems := customMenuItems P;
     menu_display := menu_display P; menu_buttons := menu_buttons P;
     menu_position := menu_position P; currentShape := currentShape P;
     called := called P |}.

Definition set_tr_nodes (nodes : list nat) (P : Page) : Page :=
  {| editor := editor P; tr_nodes := nodes; customMenuItems := customMenuItems P;
     menu_display := menu_display P; menu_buttons := menu_buttons P;
     menu_position := menu_position P; currentShape := currentShape P;
     called := called P |}.

Definition set_customMenuItems (items : list CustomMenuItem) (P : Page) : Page :=
  {| editor := editor P; tr_nodes := tr_nodes P; customMenuItems := items;
     menu_display := menu_display P; menu_buttons := menu_buttons P;
     menu_position := menu_position P; currentShape := currentShape P;
     called := called P |}.

Definition set_menu_display (d : Display) (P : Page) : Page :=
  {| editor := editor P; tr_nodes := tr_nodes P; customMenuItems := customMenuItems P;
     menu_display := d; menu_buttons := menu_buttons P;
     menu_position := menu_position P; currentShape := currentShape P;
     called := called P |}.

Definition set_menu_buttons (buttons : list MenuButton) (P : Page) : Page :=
  {| editor := editor P; tr_nodes := tr_nodes P; customMenuItems := customMenuItems P;
     menu_display := menu_display P; menu_buttons := buttons;
     menu_position := menu_position P; currentShape := currentShape P;
     called := called P |}.

Definition set_menu_position (p : option Vector2d) (P : Page) : Page :=
  {| editor := editor P; tr_nodes := tr_nodes P; customMenuItems := customMenuItems P;
     menu_display := menu_display P; menu_buttons := menu_buttons P;
     menu_position := p; currentShape := currentShape P;
     called := called P |}.

Definition set_currentShape (s : option Target) (P : Page) : Page :=
  {| editor := editor P; tr_nodes := tr_nodes P; customMenuItems := customMenuItems P;
     menu_display := menu_display P; menu_buttons := menu_buttons P;
     menu_position := menu_position P; currentShape := s;
     called := called P |}.

Definition set_called (c : list (nat * option Target)) (P : Page) : Page :=
  {| editor := editor P; tr_nodes := tr_nodes P; customMenuItems := customMenuItems P;
     menu_display := menu_display P; menu_buttons := menu_buttons P;
     menu_position := menu_position P; currentShape := currentShape P;
     called := c |}.

(** A handler of the editor, run on the editor of the page. *)
Definition onEditor {A : Type} (m : M A) (P : Page) : outcome A * Page :=
  let (o, E) := m (editor P) in (o, set_editor E P).

(** [addMenuEntry(label, callback)]. *)
Definition addMenuEntry (label : string) (callback : nat) (P : Page) : Page :=
  set_customMenuItems
    (customMenuItems P ++ [{| item_label := label; item_callback := callback |}]) P.

(** [#deleteShape(s)] for a line [s]: the parent of a line that is on the
    layer is the layer, no child of the layer has the attribute
    [cacConnectors], and [group.destroy()] destroys the layer with all its
    children; the editor goes on with the layer it holds, which is empty and
    no longer drawn. *)
Definition deleteShape_line (line : nat) : M unit :=
  cleanAnchorShapes ;;
  l <- getLine line ;;
  if line_onLayer l then clear ;; fire else ret tt.

(** [#deleteShape(s)]; the parent of a marker that [onShowMenu] has destroyed
    is [null]. *)
Definition deleteShape_of (s : option Target) : M unit :=
  match s with
  | None => cleanAnchorShapes ;; throw TypeError
  | Some (onShape group) => deleteShape group
  | Some (onLine line) => deleteShape_line line
  | Some (onMarker _) => cleanAnchorShapes
  end.

(** [group.moveToTop()]: the group becomes the last child of the layer. *)
Definition moveToTop (group : nat) : M unit :=
  E <- get ;;
  match findNode group (shapes E) with
  | Some n => modify (set_shapes (removeNode group (shapes E) ++ [n]))
  | None => throw TypeError
  end.

(** The branch [cacResize] of the callback of the menu.  For a line the
    parent is the layer, which the transformer cannot take: the model
    stops. *)
Definition resizeShape (s : option Target) (P : Page) : outcome unit * Page :=
  match s with
  | None => (Throw TypeError, P)
  | Some (onShape group) =>
      let P := set_editor (exec cleanAnchorShapes (editor P)) P in
      match findNode group (shapes (editor P)) with
      | Some _ => onEditor (moveToTop group) (set_tr_nodes [group] P)
      | None => (Throw TypeError, P)
      end
  | Some (onMarker _) =>
      (Throw TypeError, set_editor (exec cleanAnchorShapes (editor P)) P)
  | Some (onLine _) => (Throw Unmodelled, P)
  end.

(** The callback that [init] gives to [initRightClickMenu]. *)
Definition menu_callback (action : string) (s : option Target) (P : Page)
  : outcome unit * Page :=
  if (action =? "cacDelete")%string then onEditor (deleteShape_of s) P
  else if (action =? "cacResize")%string then resizeShape s P
  else
    match find (fun item => (item_label item =? action)%string) (customMenuItems P) with
    | Some item => (Ok tt, set_called (called P ++ [(item_callback item, s)]) P)
    | None => (Throw TypeError, P)
    end.

(** [onShowMenu]. *)
Definition onShowMenu (P : Page) : Page :=
  set_editor (exec cleanAnchorShapes (editor P)) (set_tr_nodes [] P).

Definition createMenuItem (text action : string) (P : Page) : Page :=
  set_menu_buttons
    (menu_buttons P ++ [{| button_text := text; button_action := action |}]) P.

(** The [contextmenu dbltap] handler of the stage; [target] is [None] when
    the stage itself is hit, [containerRect] is the corner of
    [stage.container().getBoundingClientRect()] and [pointer] is
    [stage.getPointerPosition()]. *)
Definition stage_contextmenu (target : option Target) (containerRect pointer : Vector2d)
    (P : Page) : Page :=
  let P := onShowMenu P in
  match target with
  | None => P
  | Some s =>
      let P := set_currentShape (Some s) P in
      let P := createMenuItem "Delete" "cacDelete" P in
      let P := fold_left (fun P item => createMenuItem (item_label item) (item_label item) P)
                 (customMenuItems P) P in
      let P := set_menu_display display_initial P in
      set_menu_position
        (Some {| vx := (vx containerRect + vx pointer + num 4)%Qc;
                 vy := (vy containerRect + vy pointer + num 4)%Qc |}) P
  end.

(** The [click] listener of the window. *)
Definition window_click (P : Page) : Page := set_menu_buttons [] P.

(** A click on the button at place [i] of the menu: the listener of the
    button runs, then the click reaches the window, whether the listener
    threw or not. *)
Definition button_click (i : nat) (P : Page) : outcome unit * Page :=
  match nth_error (menu_buttons P) i with
  | None => (Ok tt, P)
  | Some button =>
      let P := set_menu_display display_none P in
      let (o, P) := menu_callback (button_action button) (currentShape P) P in
      (o, window_click P)
  end.

(** What happens on the page: an event of the editor, a call of
    [addMenuEntry], a right click or double tap on the stage, a click on the
    window outside the menu, a click on a button of the menu. *)
Inductive page_event : Type :=
| Pev_editor (ev : event)
| Pev_addMenuEntry (label : string) (callback : nat)
| Pev_contextmenu (target : option Target) (containerRect pointer : Vector2d)
| Pev_window_click
| Pev_button_click (i : nat).

(** The handlers of a click on a shape and of a click on the stage start
    with [this.tr.nodes([])]. *)
Definition detach (ev : event) (P : Page) : Page :=
  match ev with
  | Ev_group_click group =>
      match findNode group (shapes (editor P)) with
      | Some _ => set_tr_nodes [] P
      | None => P
      end
  | Ev_stage_click _ _ => set_tr_nodes [] P
  | Ev_contextmenu => set_tr_nodes [] P
  | _ => P
  end.

(** The target is a node that is on the layer. *)
Definition hits (target : option Target) (E : Editor) : bool :=
  match target with
  | None => true
  | Some (onShape group) =>
      match findNode group (shapes E) with Some _ => true | None => false end
  | Some (onLine line) =>
      match findLine line (lines E) with Some l => line_onLayer l | None => false end
  | Some (onMarker i) =>
      match nth_error (anchorShapes E) i with Some _ => true | None => false end
  end.

(** An event of the stage hits the stage or a node that is on the layer. *)
Definition page_handle (pev : page_event) (P : Page) : outcome unit * Page :=
  match pev with
  | Pev_editor ev => onEditor (handle ev) (detach ev P)
  | Pev_addMenuEntry label callback => (Ok tt, addMenuEntry label callback P)
  | Pev_contextmenu target containerRect pointer =>
      if hits target (editor P)
      then (Ok tt, stage_contextmenu target containerRect pointer P)
      else (Ok tt, P)
  | Pev_window_click => (Ok tt, window_click P)
  | Pev_button_click i => button_click i P
  end.

Definition page_step (P : Page) (pev : page_event) : Page := snd (page_handle pev P).

(** [pevs.reduce(page_step, P)]. *)
Definition page_run (P : Page) (pevs : list page_event) : Page := fold_left page_step pevs P.

(** The states a page goes through. *)
Inductive page_reachable : Page -> Prop :=
| page_reachable_init : page_reachable initPage
| page_reachable_step :
    forall P pev, page_reachable P -> page_reachable (page_step P pev).

(** * Vocabulary of the properties *)

(** ** Routes *)

(** The staircase from (x0,y0) to (x1,y1). *)
Definition route (x0 y0 x1 y1 : number) : list number :=
  let mx := ((x0 + x1) / num 2)%Qc in
  [x0; y0; mx; y0; mx; y1; x1; y1].

Definition pointsOf (ls : list Line) (r : nat) : option (list number) :=
  option_map points (findLine r ls).

(** The route of the line [r], as rationals. *)
Definition routeOf (E : Editor) (r : nat) : option (list Q) :=
  option_map (fun l => map this (points l)) (findLine r (lines E)).

(** The routes of the lines on the layer, in layer order. *)
Definition layerRoutes (E : Editor) : list (list number) :=
  map points (filter line_onLayer (lines E)).

(** The line [l] belongs to one of the connectors [conns]. *)
Definition touches (conns : list IConnector) (l : Line) : bool :=
  existsb (fun c => line c =? line_ref l) conns.

(** ** Invariants *)

(** Object identities are handed out once. *)
Definition wf (E : Editor) : Prop :=
  NoDup (map node_ref (shapes E)) /\
  NoDup (map line_ref (lines E)) /\
  Forall (fun n => node_ref n < next_ref E) (shapes E) /\
  Forall (fun l => line_ref l < next_ref E) (lines E).

(** A line that [findOne('.cacCurrentLine')] can find. *)
Definition isCurrent (l : Line) : bool := line_onLayer l && isCurrentLine (line_name l).

(** The in-progress lines of the editor. *)
Definition currentLines (E : Editor) : list Line := filter isCurrent (lines E).

(** [wf] together with a property of the lines. *)
Definition InvL (P : list Line -> Prop) (E : Editor) : Prop := wf E /\ P (lines E).

(** Whatever the handler returns or throws, it leaves [Q] when started in [P]. *)
Definition triple {A : Type} (P : Editor -> Prop) (m : M A) (Q : Editor -> Prop) : Prop :=
  forall E, P E -> Q (exec m E).

(** The handler keeps [I]. *)
Abbreviation preserves I m := (triple I m I).

(** At most [k] in-progress lines. *)
Definition atMost (k : nat) (ls : list Line) : Prop := length (filter isCurrent ls) <= k.

(** Identities are handed out once and at most [k] lines are in progress. *)
Definition Inv (k : nat) : Editor -> Prop := InvL (atMost k).

(** While a connection is imported its line is not an in-progress one. *)
Definition importing (k r : nat) (ls : list Line) : Prop :=
  atMost k ls /\
  forall l, In l ls -> line_ref l = r -> isCurrentLine (line_name l) = false.

(** ** Anchor markers *)

(** The markers of the anchors [anchors], for the path [pidKonvaPath] whose
    client rectangle has its top-left corner at [rect]. *)
Definition markersAt (rect : Vector2d) (pidKonvaPath : nat) (anchors : list IPidAnchor)
  : list AnchorShape :=
  mapi (fun anchor anchorIndex =>
          {| anchorShape_pos := {| vx := (anchor_x anchor + vx rect)%Qc;
                                   vy := (anchor_y anchor + vy rect)%Qc |};
             anchorShape_path := pidKonvaPath;
             anchorShape_index := anchorIndex |}) anchors.

(** ** Documents *)

(** The ids of the shapes on the layer. *)
Definition ids (E : Editor) : list number := map (fun n => dto_id (cacDto n)) (shapes E).

(** The document of the shapes on the layer. *)
Definition docs (E : Editor) : list IDtoPidShape := map cacDto (shapes E).

(** The ids of the exported shapes, each with the [sid] of its connections. *)
Definition exportedIds (E : Editor) : outcome (list (number * list number)) :=
  match eval exportJson E with
  | Ok data => Ok (map (fun d => (dto_id d, map conn_sid (dto_c d))) data)
  | Throw e => Throw e
  end.

(** The routes recorded in a shape's [dto.c] are the points of the lines of
    its ['end'] connectors, in order; a shape without connectors has no
    connections. *)
Definition synced (ls : list Line) (n : PidNode) : Prop :=
  match cacConnectors n with
  | None => dto_c (cacDto n) = []
  | Some conns =>
      Forall2 (fun c connection => pointsOf ls (line c) = Some (conn_l connection))
              (filter (fun c => isEnd (connector_type c)) conns)
              (dto_c (cacDto n))
  end.

(** What [importJson] makes of a document, told on documents: the shapes come
    first, without connections ([strip]); then every connection whose [sid] is
    the id of a shape ([resolves]) is pushed on the first shape that has the id
    of the entry the connection comes from ([pushFirst]). *)

(** The entry [d] without its connections. *)
Definition strip (d : IDtoPidShape) : IDtoPidShape := set_dto_c [] d.

(** [d.id === id]. *)
Definition hasId (id : number) (d : IDtoPidShape) : bool := strictEq (dto_id d) id.

(** The connection's [sid] is the id of a shape of the document. *)
Definition resolves (ds : list IDtoPidShape) (conn : IDtoConnection) : bool :=
  existsb (hasId (conn_sid conn)) ds.

(** [conn] is pushed on the first entry that has the id [id]. *)
Fixpoint pushFirst (id : number) (conn : IDtoConnection) (ds : list IDtoPidShape)
  : list IDtoPidShape :=
  match ds with
  | [] => []
  | d :: ds' =>
      if hasId id d then set_dto_c (dto_c d ++ [conn]) d :: ds'
      else d :: pushFirst id conn ds'
  end.

(** One connection of the entry with the id [id]. *)
Definition importConn (id : number) (ds : list IDtoPidShape) (conn : IDtoConnection)
  : list IDtoPidShape :=
  if resolves ds conn then pushFirst id conn ds else ds.

(** The connections of the entry [dto], in order. *)
Definition importEntry (ds : list IDtoPidShape) (dto : IDtoPidShape) : list IDtoPidShape :=
  fold_left (importConn (dto_id dto)) (dto_c dto) ds.

(** The document [D], imported. *)
Definition imported (D : list IDtoPidShape) : list IDtoPidShape :=
  fold_left importEntry D (map strip D).

(** [dto.c.push(...cs)]. *)
Definition fill (cs : list IDtoConnection) (d : IDtoPidShape) : IDtoPidShape :=
  set_dto_c (dto_c d ++ cs) d.

(** The connections of the entries of [D] that have the id of [d]. *)
Definition connectionsFor (D : list IDtoPidShape) (d : IDtoPidShape) : list IDtoConnection :=
  flat_map (fun dto => if hasId (dto_id dto) d then dto_c dto else []) D.

(** ** Scenarios *)

(** The client rectangle of a path whose fill box starts at the origin of its
    group, drawn with the stroke of [P.shapePathParams] (width 1.4): Konva
    widens the box by half the stroke width on every side. *)
Definition strokedRect (data : string) : Vector2d :=
  {| vx := Q2Qc (-7 # 10); vy := Q2Qc (-7 # 10) |}.

(** A path whose client rectangle starts at the origin of its group. *)
Definition originRect (data : string) : Vector2d := {| vx := num 0; vy := num 0 |}.

(** A template with an anchor on its left and one on its right. *)
Definition twoAnchors : IPidShape :=
  {| name := "valve"; path := "M 0 0 L 10 10"; height := num 10; width := num 10;
     type := valve;
     anchors := [ {| anchor_type := anchor_in; anchor_x := num 0; anchor_y := num 5 |};
                  {| anchor_type := anchor_out; anchor_x := num 10; anchor_y := num 5 |} ] |}.

(** Shape A (id 1) and shape B (id 2) are added, A is selected, a line is
    started on the second anchor of A, the pointer goes over B and the line is
    released on the first anchor of B. *)
Definition connectAtoB : list event :=
  [ Ev_addShape twoAnchors (num 0) (num 0) (Some (num 1)) (num 0);
    Ev_addShape twoAnchors (num 100) (num 50) (Some (num 2)) (num 0);
    Ev_group_click 0;
    Ev_anchor_mousedown 1;
    Ev_group_mouseover 1;
    Ev_anchor_mouseup 0 ].

(** A connected to B, as [connectAtoB] leaves them. *)
Definition connectedAB : Editor := run initEditor connectAtoB.

(** A is connected to B as in [connectAtoB], and A has been dragged to (2,0). *)
Definition draggedOnce : Editor :=
  run initEditor (connectAtoB ++ [Ev_group_dragmove 0 {| vx := num 2; vy := num 0 |}]).

(** A line was started on the second anchor of a shape and is in progress. *)
Definition lineInProgress : Editor :=
  run initEditor
    [ Ev_addShape twoAnchors (num 0) (num 0) (Some (num 1)) (num 0);
      Ev_group_click 0;
      Ev_anchor_mousedown 1 ].

(** A line from (0,0), as [mousedown] on an anchor at (0,0) makes it. *)
Definition lineAtOrigin : Editor :=
  exec (newLine [num 0; num 0] cacCurrentLine (num 0) (num 1)) initEditor.

(** Shape A with id 1 and shape B with id 2; B holds a connection that starts
    at A. *)
Definition twoShapes : list IDtoPidShape :=
  [ {| dto_s := twoAnchors; dto_x := num 0; dto_y := num 0; dto_id := num 1; dto_c := [] |};
    {| dto_s := twoAnchors; dto_x := num 100; dto_y := num 50; dto_id := num 2;
       dto_c := [ {| conn_l := [num 10; num 5; num 55; num 5; num 55; num 55; num 100; num 55];
                     conn_sai := num 1; conn_sid := num 1; conn_eai := num 0 |} ] |} ].

(** One shape, with a connection whose [sid] is the id of no shape. *)
Definition danglingStart : list IDtoPidShape :=
  [ {| dto_s := twoAnchors; dto_x := num 0; dto_y := num 0; dto_id := num 1;
       dto_c := [ {| conn_l := [num 10; num 5; num 55; num 5; num 55; num 55; num 100; num 55];
                     conn_sai := num 1; conn_sid := num 7; conn_eai := num 0 |} ] |} ].

(** Two shapes and a line that starts at the first one, not yet connected. *)
Definition beforeConnect : Editor :=
  exec (newLine [num 10; num 5; num 55; num 5; num 55; num 55; num 100; num 55]
          cacConnectorTwoPidShape (num 1) (num 1))
    (exec (addShape twoAnchors (num 100) (num 50) (num 2))
       (exec (addShape twoAnchors (num 0) (num 0) (num 1)) initEditor)).

(** ** Handlers as Hoare triples *)

(** Started in [P], the handler returns some [a] and leaves [Q a], or throws
    some [e] and leaves [X e]. *)
Definition hoare {A : Type} (P : Editor -> Prop) (m : M A) (Q : A -> Editor -> Prop)
    (X : error -> Editor -> Prop) : Prop :=
  forall E, P E ->
    match m E with
    | (Ok a, E') => Q a E'
    | (Throw e, E') => X e E'
    end.

(** ** What the shapes hold of the lines *)

(** The lines of the connectors of a shape are objects of the store, and the
    shape's [dto.c] has one record for each of its ['end'] connectors. *)
Definition linked (ls : list Line) (n : PidNode) : Prop :=
  match cacConnectors n with
  | None => dto_c (cacDto n) = []
  | Some conns =>
      Forall (fun c => In (line c) (map line_ref ls)) conns /\
      length (filter (fun c => isEnd (connector_type c)) conns) = length (dto_c (cacDto n))
  end.

(** An in-progress line has a first point. *)
Definition startable (l : Line) : Prop :=
  isCurrentLine (line_name l) = true -> 2 <= length (points l).

(** Every shape is [linked], every line is [startable], and the lines [rs]
    are objects of the store. *)
Definition Sound (rs : list nat) (E : Editor) : Prop :=
  Forall (linked (lines E)) (shapes E) /\
  Forall startable (lines E) /\
  incl rs (map line_ref (lines E)).

(** [r], when there is one, and [rs]. *)
Definition withLine (o : option nat) (rs : list nat) : list nat :=
  match o with
  | Some r => r :: rs
  | None => rs
  end.

(** The anchor markers, when there are any, are those of one shape that is on
    the layer: one for each anchor of its template, in the order of the
    anchors, offset from some corner [rect]. *)
Definition markersOfOne (E : Editor) : Prop :=
  anchorShapes E = [] \/
  exists (n : PidNode) (rect : Vector2d),
    In n (shapes E) /\
    anchorShapes E = markersAt rect (node_ref n) (anchors (cacPidKonvaShape n)).

(** ** What [exportJson] returns *)

(** The records [recs] of a shape, each with the points of the line of the
    ['end'] connector at the same place. *)
Fixpoint refreshed (ls : list Line) (ends : list IConnector) (recs : list IDtoConnection)
  : list IDtoConnection :=
  match ends, recs with
  | c :: ends', rec :: recs' =>
      match findLine (line c) ls with
      | Some l => set_conn_l (points l) rec :: refreshed ls ends' recs'
      | None => rec :: recs'
      end
  | _, _ => recs
  end.

(** The [cacDto] of the shape [n], its routes taken from the lines [ls]. *)
Definition exportedDto (ls : list Line) (n : PidNode) : IDtoPidShape :=
  match cacConnectors n with
  | None => cacDto n
  | Some conns =>
      set_dto_c (refreshed ls (filter (fun c => isEnd (connector_type c)) conns)
                   (dto_c (cacDto n))) (cacDto n)
  end.

(** The editor after an export: every [cacDto] has the routes of the lines. *)
Definition exportedEditor (E : Editor) : Editor :=
  set_shapes (map (fun n => set_cacDto (exportedDto (lines E) n) n) (shapes E)) E.

(** ** Change notifications *)

(** The events whose handlers never call [#fire]. *)
Definition silent (ev : event) : bool :=
  match ev with
  | Ev_group_dragend _ | Ev_anchor_mouseup _ | Ev_stage_click _ _ | Ev_menu_delete _ => false
  | _ => true
  end.

(** ** Handlers that go on with defined values *)

(** Every line has a first and a last point. *)
Definition pointed (E : Editor) : Prop :=
  Forall (fun l => 2 <= length (points l)) (lines E).

(** The routes an event imports have two numbers at least. *)
Definition routed (ev : event) : Prop :=
  match ev with
  | Ev_importJson (Some data) =>
      Forall (fun dto => Forall (fun conn => 2 <= length (conn_l conn)) (dto_c dto)) data
  | _ => True
  end.

(** The states an editor goes through by events that are [ok]. *)
Inductive reachableBy (ok : event -> Prop) : Editor -> Prop :=
| reachableBy_init : reachableBy ok initEditor
| reachableBy_step :
    forall E ev, reachableBy ok E -> ok ev -> reachableBy ok (step E ev).

(** The lines are [pointed], the shapes [ns] are on the layer and the lines
    [rs] are objects of the store. *)
Definition Live (ns rs : list nat) (E : Editor) : Prop :=
  pointed E /\
  incl ns (map node_ref (shapes E)) /\
  incl rs (map line_ref (lines E)).

(** Started in [P], the handler returns some [a] and leaves [Q a], or throws a
    [TypeError]: it never goes on with a value that is not there. *)
Definition defined {A : Type} (P : Editor -> Prop) (m : M A) (Q : A -> Editor -> Prop)
  : Prop :=
  hoare P m Q (fun e _ => e = TypeError).

(** ** The buttons of the menu *)

(** The button [Delete]. *)
Definition deleteButton : MenuButton :=
  {| button_text := "Delete"; button_action := "cacDelete" |}.

(** The button of a custom entry. *)
Definition entryButton (item : CustomMenuItem) : MenuButton :=
  {| button_text := item_label item; button_action := item_label item |}.

(** The buttons a right click on a node adds to the menu. *)
Definition shownButtons (P : Page) : list MenuButton :=
  deleteButton :: map entryButton (customMenuItems P).

(** Every button of the menu is [Delete] or the button of a registered
    entry; while the menu has a button, the node that was hit is known; and a
    line that was hit is an object of the store. *)
Definition menuOk (P : Page) : Prop :=
  Forall (fun b => b = deleteButton \/
                   exists item, In item (customMenuItems P) /\ b = entryButton item)
         (menu_buttons P) /\
  (menu_buttons P <> [] -> currentShape P <> None) /\
  (forall line, currentShape P = Some (onLine line) ->
                In line (map line_ref (lines (editor P)))).

(** ** More scenarios *)

(** A shape is added and selected: its two markers are shown. *)
Definition selected : Editor :=
  run initEditor
    [ Ev_addShape twoAnchors (num 0) (num 0) (Some (num 1)) (num 0);
      Ev_group_click 0 ].

(** A line was started on A, the pointer is over B and the markers of B are
    shown. *)
Definition overB : Editor :=
  run initEditor
    [ Ev_addShape twoAnchors (num 0) (num 0) (Some (num 1)) (num 0);
      Ev_addShape twoAnchors (num 100) (num 50) (Some (num 2)) (num 0);
      Ev_group_click 0;
      Ev_anchor_mousedown 1;
      Ev_group_mouseover 1 ].

(** A line was started on a shape, and the shape was deleted. *)
Definition startDeleted : Editor :=
  run initEditor
    [ Ev_addShape twoAnchors (num 0) (num 0) (Some (num 1)) (num 0);
      Ev_group_click 0;
      Ev_anchor_mousedown 1;
      Ev_menu_delete 0 ].

(** The page of main.ts with its entry [Actions], a shape, and the menu
    opened on the shape. *)
Definition menuOpened : Page :=
  page_run initPage
    [ Pev_addMenuEntry "Actions" 0;
      Pev_editor (Ev_addShape twoAnchors (num 0) (num 0) (Some (num 1)) (num 0));
      Pev_contextmenu (Some (onShape 0)) {| vx := num 0; vy := num 40 |}
        {| vx := num 5; vy := num 5 |} ].

(** A page whose editor holds A connected to B. *)
Definition pageConnectedAB : Page := set_editor connectedAB initPage.

(** A box of 100 by 50, and the box of 40 by 7 a resize asks for. *)
Definition box100x50 : Box :=
  {| box_x := num 0; box_y := num 0; box_width := num 100; box_height := num 50;
     box_rotation := num 0 |}.

Definition box40x7 : Box :=
  {| box_x := num 3; box_y := num 4; box_width := num 40; box_height := num 7;
     box_rotation := num 0 |}.

(** An item without a name and without anchors. *)
Definition unnamedItem : FetchedShape :=
  {| fetched_name := None; fetched_path := Some "M 0 0 L 10 10"%string;
     fetched_height := Some (num 10); fetched_width := Some (num 10);
     fetched_type := None; fetched_anchors := None |}.

(** ** Importing beside what is there *)

(** The editor [E] with the shapes [ns] and the lines [ls] before its own. *)
Definition behind (ns : list PidNode) (ls : list Line) (E : Editor) : Editor :=
  {| shapes := ns ++ shapes E; lines := ls ++ lines E; anchorShapes := anchorShapes E;
     fired := fired E; next_ref := next_ref E |}.

(** The editor without its shapes and its lines. *)
Definition emptied (E : Editor) : Editor :=
  {| shapes := []; lines := []; anchorShapes := anchorShapes E; fired := fired E;
     next_ref := next_ref E |}.

(** Once the references go from [b] on, the handler [m] does the same with
    and without [ns] and [ls] before the shapes and the lines of the editor,
    and it leaves [ns] and [ls] as they are; what it returns satisfies [Q]. *)
Definition framed {A : Type} (ns : list PidNode) (ls : list Line) (b : nat) (m : M A)
    (Q : A -> Prop) : Prop :=
  forall E : Editor,
    b <= next_ref E ->
    m (behind ns ls E) = (fst (m E), behind ns ls (snd (m E))) /\
    b <= next_ref (snd (m E)) /\
    (forall a : A, fst (m E) = Ok a -> Q a).

(** A document with a connection that starts at the id of shape A of
    [connectAtoB], which the document does not hold. *)
Definition danglingShape : list IDtoPidShape :=
  [ {| dto_s := twoAnchors; dto_x := num 200; dto_y := num 0; dto_id := num 3;
       dto_c := [ {| conn_l := [num 10; num 5; num 200; num 5];
                     conn_sai := num 1; conn_sid := num 1; conn_eai := num 0 |} ] |} ].

(** ** Drawing a connection *)

(** The pointer moves over the stage. *)
Definition pointerMoves (ps : list Vector2d) : list event :=
  map (fun p => Ev_stage_mousemove (Some p)) ps.

(** The shape [gS] is selected and the pointer is pressed on its marker [i];
    the pointer moves, comes over the shape [gT], moves again and is released
    on the marker [j] of [gT]. *)
Definition drawConnection (gS i : nat) (ps : list Vector2d) (gT : nat)
    (ps' : list Vector2d) (j : nat) : list event :=
  [Ev_group_click gS; Ev_anchor_mousedown i] ++ pointerMoves ps ++
  [Ev_group_mouseover gT] ++ pointerMoves ps' ++ [Ev_anchor_mouseup j].

(** [f] changes the points of a line and nothing else. *)
Definition reroutes (f : Line -> Line) : Prop :=
  forall l : Line,
    line_ref (f l) = line_ref l /\
    line_name (f l) = line_name l /\
    cacStartAnchorIndex (f l) = cacStartAnchorIndex l /\
    cacStartPidShapeId (f l) = cacStartPidShapeId l /\
    line_onLayer (f l) = line_onLayer l.

(** ** The transformer *)

(** The label of a new entry is not the action of the resize branch. *)
Definition plainLabel (pev : page_event) : Prop :=
  match pev with
  | Pev_addMenuEntry label _ => label <> "cacResize"%string
  | _ => True
  end.

(** No node is attached to the transformer, and no entry and no button has
    the action of the resize branch. *)
Definition detached (P : Page) : Prop :=
  tr_nodes P = [] /\
  Forall (fun item => item_label item <> "cacResize"%string) (customMenuItems P) /\
  Forall (fun b => button_action b <> "cacResize"%string) (menu_buttons P).

(** An entry with the label of the resize branch is registered, two shapes
    are added, and the menu is opened on the first. *)
Definition resizeOpened : Page :=
  page_run initPage
    [ Pev_addMenuEntry "cacResize" 7;
      Pev_editor (Ev_addShape twoAnchors (num 0) (num 0) (Some (num 1)) (num 0));
      Pev_editor (Ev_addShape twoAnchors (num 100) (num 50) (Some (num 2)) (num 0));
      Pev_contextmenu (Some (onShape 0)) {| vx := num 0; vy := num 40 |}
        {| vx := num 5; vy := num 5 |} ].

(** ** The connections on the layer *)

(** The connectors of a shape. *)
Definition connectorsOf (n : PidNode) : list IConnector :=
  match cacConnectors n with
  | Some conns => conns
  | None => []
  end.

(** The connector is one of the type [t] to the line [r]. *)
Definition connects (t : ConnectorType) (r : nat) (c : IConnector) : bool :=
  (line c =? r) && Bool.eqb (isEnd (connector_type c)) (isEnd t).

(** The shapes that hold a connector of the type [t] to the line [r], each
    with the anchor index of that connector, in the order of the layer. *)
Definition holders (t : ConnectorType) (r : nat) (ns : list PidNode) : list (nat * number) :=
  flat_map (fun n => map (fun c => (node_ref n, anchorIndex c))
                       (filter (connects t r) (connectorsOf n))) ns.

(** The connections of a document, each with the entry it comes from, in the
    order [importJson] goes through them. *)
Definition connectionsIn (D : list IDtoPidShape) : list (IDtoPidShape * IDtoConnection) :=
  flat_map (fun dto => map (pair dto) (dto_c dto)) D.

(** The line [l] is the connection [conn] of the entry [dto], rebuilt on the
    shapes [ns]: it has the route and the start of [conn]; exactly one
    connector of the type ['start'] belongs to it, held at the anchor [sai] by
    the first shape that has the id [sid]; exactly one connector of the type
    ['end'] belongs to it, held at the anchor [eai] by the first shape that
    has the id of [dto], and that shape has the record [conn]. *)
Definition rebuilt (ns : list PidNode) (l : Line) (dc : IDtoPidShape * IDtoConnection)
  : Prop :=
  points l = conn_l (snd dc) /\
  cacStartAnchorIndex l = conn_sai (snd dc) /\
  cacStartPidShapeId l = conn_sid (snd dc) /\
  line_name l = cacConnectorTwoPidShape /\
  (exists nS : PidNode,
      find (fun n => strictEq (dto_id (cacDto n)) (conn_sid (snd dc))) ns = Some nS /\
      holders start (line_ref l) ns = [(node_ref nS, conn_sai (snd dc))]) /\
  (exists nE : PidNode,
      find (fun n => strictEq (dto_id (cacDto n)) (dto_id (fst dc))) ns = Some nE /\
      holders end_ (line_ref l) ns = [(node_ref nE, conn_eai (snd dc))] /\
      In (snd dc) (dto_c (cacDto nE))).

(** Every connector of the shape belongs to a line that is on the layer. *)
Definition attached (ls : list Line) (n : PidNode) : Prop :=
  Forall (fun c => exists l, findLine (line c) ls = Some l /\ line_onLayer l = true)
         (connectorsOf n).

(** The connections of [D] that [importJson] has gone through are rebuilt:
    the lines on the layer are, in order, those of the connections whose
    [sid] is the id of an entry of [D], and no shape holds another
    connector. *)
Definition rebuiltSoFar (D : list IDtoPidShape)
    (processed : list (IDtoPidShape * IDtoConnection)) (E : Editor) : Prop :=
  Forall2 (rebuilt (shapes E)) (filter line_onLayer (lines E))
          (filter (fun dc => resolves D (snd dc)) processed) /\
  Forall (attached (lines E)) (shapes E).

(** * Properties *)

(** ** The store *)

Lemma findLine_updateLine_same :
  forall (f : Line -> Line) (r : nat) (ls : list Line),
    (forall l, line_ref (f l) = line_ref l) ->
    findLine r (updateLine r f ls) = option_map f (findLine r ls).
Proof.
  intros f r ls Hf. unfold findLine, updateLine.
  induction ls as [|l ls IH]; simpl; [reflexivity|].
  destruct (line_ref l =? r) eqn:Hr; simpl.
  - rewrite Hf, Hr. reflexivity.
  - rewrite Hr. exact IH.
Qed.

Lemma findLine_updateLine_other :
  forall (f : Line -> Line) (r r' : nat) (ls : list Line),
    (forall l, line_ref (f l) = line_ref l) ->
    r <> r' ->
    findLine r' (updateLine r f ls) = findLine r' ls.
Proof.
  intros f r r' ls Hf Hne. unfold findLine, updateLine.
  induction ls as [|l ls IH]; simpl; [reflexivity|].
  destruct (line_ref l =? r) eqn:Hr; simpl.
  - rewrite Hf. apply Nat.eqb_eq in Hr.
    destruct (line_ref l =? r') eqn:Hr'.
    + apply Nat.eqb_eq in Hr'. congruence.
    + exact IH.
  - destruct (line_ref l =? r'); [reflexivity|exact IH].
Qed.

Lemma findNode_updateNode_same :
  forall (f : PidNode -> PidNode) (r : nat) (ns : list PidNode),
    (forall n, node_ref (f n) = node_ref n) ->
    findNode r (updateNode r f ns) = option_map f (findNode r ns).
Proof.
  intros f r ns Hf. unfold findNode, updateNode.
  induction ns as [|n ns IH]; simpl; [reflexivity|].
  destruct (node_ref n =? r) eqn:Hr; simpl.
  - rewrite Hf, Hr. reflexivity.
  - rewrite Hr. exact IH.
Qed.

Lemma findNode_updateNode_other :
  forall (f : PidNode -> PidNode) (r r' : nat) (ns : list PidNode),
    (forall n, node_ref (f n) = node_ref n) ->
    r <> r' ->
    findNode r' (updateNode r f ns) = findNode r' ns.
Proof.
  intros f r r' ns Hf Hne. unfold findNode, updateNode.
  induction ns as [|n ns IH]; simpl; [reflexivity|].
  destruct (node_ref n =? r) eqn:Hr; simpl.
  - rewrite Hf. apply Nat.eqb_eq in Hr.
    destruct (node_ref n =? r') eqn:Hr'.
    + apply Nat.eqb_eq in Hr'. congruence.
    + exact IH.
  - destruct (node_ref n =? r'); [reflexivity|exact IH].
Qed.

Lemma findNode_In :
  forall (r : nat) (ns : list PidNode) (n : PidNode),
    findNode r ns = Some n -> In n ns /\ node_ref n = r.
Proof.
  intros r ns n H. unfold findNode in H. apply find_some in H.
  destruct H as [Hin Hr]. apply Nat.eqb_eq in Hr. auto.
Qed.

Lemma findLine_In :
  forall (r : nat) (ls : list Line) (l : Line),
    findLine r ls = Some l -> In l ls /\ line_ref l = r.
Proof.
  intros r ls l H. unfold findLine in H. apply find_some in H.
  destruct H as [Hin Hr]. apply Nat.eqb_eq in Hr. auto.
Qed.

(** ** The monad *)

Lemma bind_Ok :
  forall {A B : Type} {m : M A} (f : A -> M B) {E E' : Editor} {a : A},
    m E = (Ok a, E') -> bind m f E = f a E'.
Proof. intros A B m f E E' a H. unfold bind. rewrite H. reflexivity. Qed.

Lemma bind_Throw :
  forall {A B : Type} {m : M A} (f : A -> M B) {E E' : Editor} {e : error},
    m E = (Throw e, E') -> bind m f E = (Throw e, E').
Proof. intros A B m f E E' e H. unfold bind. rewrite H. reflexivity. Qed.

(** Unfold the monad and the store accesses. *)
Tactic Notation "mcbv" :=
  cbv beta iota zeta delta
    [bind ret throw get modify orThrow getNode setNode getLine setLine fire
     findOneCurrentLine findPidShapeById layerAddLine destroyLine newRef newLine].

Tactic Notation "mcbv" "in" hyp(H) :=
  cbv beta iota zeta delta
    [bind ret throw get modify orThrow getNode setNode getLine setLine fire
     findOneCurrentLine findPidShapeById layerAddLine destroyLine newRef newLine] in H.

Lemma getNode_Some :
  forall {r : nat} {E : Editor} {n : PidNode},
    findNode r (shapes E) = Some n -> getNode r E = (Ok n, E).
Proof. intros r E n H. unfold getNode, bind, get. rewrite H. reflexivity. Qed.

Lemma getLine_Some :
  forall {r : nat} {E : Editor} {l : Line},
    findLine r (lines E) = Some l -> getLine r E = (Ok l, E).
Proof. intros r E l H. unfold getLine, bind, get. rewrite H. reflexivity. Qed.

(** ** Orthogonal routing *)

Lemma recalculateTheLine_run :
  forall {E : Editor} {line : nat} {l : Line} {x0 y0 : number} {rest : list number}
         (pos : Vector2d),
    findLine line (lines E) = Some l ->
    points l = x0 :: y0 :: rest ->
    recalculateTheLine line pos E =
      (Ok (route x0 y0 (vx pos) (vy pos)),
       set_lines (updateLine line (set_points (route x0 y0 (vx pos) (vy pos))) (lines E)) E).
Proof.
  intros E line l x0 y0 rest pos Hl Hp. unfold recalculateTheLine.
  rewrite (bind_Ok _ (getLine_Some Hl)). rewrite Hp. reflexivity.
Qed.

(** C1: from the start point (x0,y0) of a line to the end point (x1,y1),
    [recalculateTheLine] returns the eight numbers
    [x0,y0, mx,y0, mx,y1, x1,y1] with mx = (x0+x1)/2, and they are the points
    of the line afterwards. *)
Theorem recalculateTheLine_staircase :
  forall (E : Editor) (line : nat) (l : Line) (x0 y0 x1 y1 : number) (rest : list number),
    findLine line (lines E) = Some l ->
    points l = x0 :: y0 :: rest ->
    let mx := ((x0 + x1) / num 2)%Qc in
    let pos := {| vx := x1; vy := y1 |} in
    eval (recalculateTheLine line pos) E = Ok [x0; y0; mx; y0; mx; y1; x1; y1] /\
    option_map points (findLine line (lines (exec (recalculateTheLine line pos) E)))
      = Some [x0; y0; mx; y0; mx; y1; x1; y1].
Proof.
  intros E line l x0 y0 x1 y1 rest Hl Hp mx pos.
  unfold eval, exec. rewrite (recalculateTheLine_run pos Hl Hp). simpl. split.
  - reflexivity.
  - rewrite findLine_updateLine_same by reflexivity. rewrite Hl. reflexivity.
Qed.

(** ** Connecting *)

Lemma addConnectorToPath_start_run :
  forall {E : Editor} {shape : nat} {n : PidNode} (line : nat) (anchorIndex : number)
         (init : bool),
    findNode shape (shapes E) = Some n ->
    addConnectorToPath (Some shape) line anchorIndex start init E =
      (Ok tt,
       set_shapes
         (updateNode shape
            (pushConnector {| line := line; anchorIndex := anchorIndex;
                              connector_type := start |}) (shapes E)) E).
Proof.
  intros E shape n line anchorIndex init Hn. unfold addConnectorToPath.
  rewrite (bind_Ok _ (getNode_Some Hn)). reflexivity.
Qed.

Lemma addConnectorToPath_end_run :
  forall {E : Editor} {shape : nat} {n : PidNode} {line : nat} {l : Line}
         (anchorIndex : number) (init : bool),
    findNode shape (shapes E) = Some n ->
    findLine line (lines E) = Some l ->
    addConnectorToPath (Some shape) line anchorIndex end_ init E =
      (Ok tt,
       set_fired (if init then fired E else S (fired E))
         (set_shapes
            (updateNode shape
               (pushConnection {| conn_l := points l; conn_sai := cacStartAnchorIndex l;
                                  conn_sid := cacStartPidShapeId l;
                                  conn_eai := anchorIndex |})
               (updateNode shape
                  (pushConnector {| line := line; anchorIndex := anchorIndex;
                                    connector_type := end_ |}) (shapes E))) E)).
Proof.
  intros E shape n line l anchorIndex init Hn Hl. unfold addConnectorToPath.
  rewrite (bind_Ok _ (getNode_Some Hn)). mcbv. simpl.
  rewrite Hl. destruct init; reflexivity.
Qed.

(** C3, as the code has it: [#addConnectorToPath] with type ['end'] never looks
    at the template's anchor list.  For every anchor index, in range or not,
    it completes, appends the connector to the shape's connectors and the
    record [{ l, sai, sid, eai }] to the connection list of the end shape. *)
Theorem addConnectorToPath_end_appends :
  forall (E : Editor) (shape : nat) (n : PidNode) (line : nat) (l : Line)
         (anchorIndex : number) (init : bool),
    findNode shape (shapes E) = Some n ->
    findLine line (lines E) = Some l ->
    let connect := addConnectorToPath (Some shape) line anchorIndex end_ init in
    eval connect E = Ok tt /\
    option_map (fun n' => dto_c (cacDto n')) (findNode shape (shapes (exec connect E)))
      = Some (dto_c (cacDto n) ++
              [{| conn_l := points l; conn_sai := cacStartAnchorIndex l;
                  conn_sid := cacStartPidShapeId l; conn_eai := anchorIndex |}]) /\
    option_map cacConnectors (findNode shape (shapes (exec connect E)))
      = Some (Some (match cacConnectors n with Some cs => cs | None => [] end ++
                    [{| line := line; anchorIndex := anchorIndex;
                        connector_type := end_ |}])).
Proof.
  intros E shape n line l anchorIndex init Hn Hl connect.
  unfold connect, eval, exec. rewrite (addConnectorToPath_end_run anchorIndex init Hn Hl).
  simpl. repeat rewrite findNode_updateNode_same by reflexivity.
  rewrite Hn. simpl. auto.
Qed.

(** ** Identifiers *)

Lemma num_this : forall z : Z, (this (num z) == inject_Z z)%Q.
Proof. intros z. change (this (num z)) with (Qred (inject_Z z)). apply Qred_correct. Qed.

Lemma strictEq_true : forall a b : number, strictEq a b = true <-> a = b.
Proof.
  intros a b. unfold strictEq. split.
  - apply Qc_eq_bool_correct.
  - intros ->. unfold Qc_eq_bool. destruct (Qc_eq_dec b b); [reflexivity|congruence].
Qed.

Lemma strictEq_refl : forall a : number, strictEq a a = true.
Proof. intros a. apply strictEq_true. reflexivity. Qed.

Lemma randomId_range :
  forall random : number,
    (0 <= random)%Qc -> (random < 1)%Qc ->
    exists n : Z, (0 <= n <= 999999)%Z /\ randomId random = num n.
Proof.
  intros random H0 H1.
  exists (Qfloor (random * num 1000000)%Qc). split; [|reflexivity].
  assert (Hq : (this (random * num 1000000)%Qc == this random * inject_Z 1000000)%Q).
  { change (this (random * num 1000000)%Qc)
      with (Qred (this random * Qred (inject_Z 1000000))).
    rewrite Qred_correct. rewrite Qred_correct. reflexivity. }
  rewrite Hq. unfold Qcle in H0. unfold Qclt in H1. simpl in H0, H1.
  split.
  - change 0%Z with (Qfloor (inject_Z 0)). apply Qfloor_resp_le.
    apply Qmult_le_0_compat; [exact H0|discriminate].
  - assert (Hlt : (this random * inject_Z 1000000 < inject_Z 1000000)%Q).
    { setoid_replace (inject_Z 1000000) with (1 * inject_Z 1000000)%Q at 2 by ring.
      apply Qmult_lt_compat_r; [reflexivity|exact H1]. }
    pose proof (Qfloor_le (this random * inject_Z 1000000)) as Hf.
    assert (Hz : (inject_Z (Qfloor (this random * inject_Z 1000000)) < inject_Z 1000000)%Q).
    { eapply Qle_lt_trans; eassumption. }
    rewrite <- Zlt_Qlt in Hz. lia.
Qed.

Lemma addShape_run :
  forall (E : Editor) (pidShape : IPidShape) (x y id : number),
    addShape pidShape x y id E =
      (Ok (next_ref E),
       {| shapes := shapes E ++
                    [{| node_ref := next_ref E; group_pos := {| vx := x; vy := y |};
                        cacPidKonvaShape := pidShape;
                        cacDto := {| dto_s := pidShape; dto_x := x; dto_y := y;
                                     dto_id := id; dto_c := [] |};
                        cacConnectors := None |}];
          lines := lines E; anchorShapes := anchorShapes E; fired := fired E;
          next_ref := S (next_ref E) |}).
Proof. reflexivity. Qed.

(** C10: [addShape] without an id gives the new shape the id
    [Math.floor(random * 1000000)], a natural number from 0 to 999999, whatever
    the ids of the shapes already there; so the new id can be one that is in
    use. *)
Theorem addShape_defaultId_range :
  (forall (E : Editor) (pidShape : IPidShape) (x y random : number),
      (0 <= random)%Qc -> (random < 1)%Qc ->
      exists n : Z,
        (0 <= n <= 999999)%Z /\
        eval (addShape_defaultId pidShape x y random) E = Ok (next_ref E) /\
        ids (exec (addShape_defaultId pidShape x y random) E) = ids E ++ [num n]) /\
  (exists (E : Editor) (pidShape : IPidShape) (x y random : number),
      (0 <= random)%Qc /\ (random < 1)%Qc /\ reachable E /\
      In (randomId random) (ids E) /\
      ~ NoDup (ids (exec (addShape_defaultId pidShape x y random) E))).
Proof.
  split.
  - intros E pidShape x y random H0 H1.
    destruct (randomId_range random H0 H1) as [n [Hn Hid]].
    exists n. split; [exact Hn|]. unfold addShape_defaultId, eval, exec.
    rewrite addShape_run. simpl. split; [reflexivity|].
    unfold ids. simpl. rewrite map_app. simpl. rewrite Hid. reflexivity.
  - exists (step initEditor (Ev_addShape emptyEnd (num 0) (num 0) None (num 0))).
    exists emptyEnd, (num 0), (num 0), (num 0).
    split; [discriminate|]. split; [reflexivity|].
    split; [apply reachable_step; apply reachable_init|].
    split; [left; reflexivity|].
    intros H. inversion H as [|a l' Hnin Hnd]; subst. apply Hnin. left. reflexivity.
Qed.

(** ** Invariants of the editor *)

Lemma triple_bind :
  forall {A B : Type} {P R Q : Editor -> Prop} {m : M A} {f : A -> M B},
    triple P m R -> (forall E, R E -> Q E) -> (forall a, triple R (f a) Q) ->
    triple P (bind m f) Q.
Proof.
  intros A B P R Q m f Hm HRQ Hf E HP. specialize (Hm E HP).
  unfold exec, bind in *. destruct (m E) as [[a|e] E']; simpl in *.
  - apply (Hf a E' Hm).
  - apply HRQ. exact Hm.
Qed.

Lemma preserves_bind :
  forall {A B : Type} (I : Editor -> Prop) (m : M A) (f : A -> M B),
    preserves I m -> (forall a, preserves I (f a)) -> preserves I (bind m f).
Proof. intros A B I m f Hm Hf. apply (triple_bind Hm); auto. Qed.

Lemma triple_weaken :
  forall {A : Type} (P Q Q' : Editor -> Prop) (m : M A),
    triple P m Q -> (forall E, Q E -> Q' E) -> triple P m Q'.
Proof. intros A P Q Q' m H HQ E HP. apply HQ. apply H. exact HP. Qed.

Lemma preserves_ret : forall {A : Type} (I : Editor -> Prop) (a : A), preserves I (ret a).
Proof. intros A I a E H. exact H. Qed.

Lemma preserves_throw :
  forall {A : Type} (I : Editor -> Prop) (e : error), preserves I (@throw A e).
Proof. intros A I e E H. exact H. Qed.

Lemma preserves_get : forall (I : Editor -> Prop), preserves I get.
Proof. intros I E H. exact H. Qed.

Lemma preserves_orThrow :
  forall {A : Type} (I : Editor -> Prop) (e : error) (o : option A),
    preserves I (orThrow e o).
Proof. intros A I e [a|] E H; exact H. Qed.

Lemma preserves_forEach :
  forall {A : Type} (I : Editor -> Prop) (arr : list A) (f : A -> M unit),
    (forall a, preserves I (f a)) -> preserves I (forEach arr f).
Proof.
  intros A I arr f Hf. induction arr as [|a arr IH]; simpl.
  - apply preserves_ret.
  - apply preserves_bind; [apply Hf|intros _; exact IH].
Qed.

Lemma preserves_forEachi :
  forall {A : Type} (I : Editor -> Prop) (arr : list A) (f : A -> nat -> M unit),
    (forall a i, preserves I (f a i)) -> preserves I (forEachi arr f).
Proof.
  intros A I arr f Hf. unfold forEachi. generalize 0.
  induction arr as [|a arr IH]; intros i; simpl.
  - apply preserves_ret.
  - apply preserves_bind; [apply Hf|intros _; apply IH].
Qed.

Lemma preserves_mapM :
  forall {A B : Type} (I : Editor -> Prop) (f : A -> M B) (arr : list A),
    (forall a, preserves I (f a)) -> preserves I (mapM f arr).
Proof.
  intros A B I f arr Hf. induction arr as [|a arr IH]; simpl.
  - apply preserves_ret.
  - apply preserves_bind; [apply Hf|intros b].
    apply preserves_bind; [exact IH|intros bs; apply preserves_ret].
Qed.

Lemma map_updateNode_ref :
  forall (r : nat) (f : PidNode -> PidNode) (ns : list PidNode),
    (forall n, node_ref (f n) = node_ref n) ->
    map node_ref (updateNode r f ns) = map node_ref ns.
Proof.
  intros r f ns Hf. unfold updateNode. rewrite map_map. apply map_ext.
  intros n. destruct (node_ref n =? r); [apply Hf|reflexivity].
Qed.

Lemma map_updateLine_ref :
  forall (r : nat) (f : Line -> Line) (ls : list Line),
    (forall l, line_ref (f l) = line_ref l) ->
    map line_ref (updateLine r f ls) = map line_ref ls.
Proof.
  intros r f ls Hf. unfold updateLine. rewrite map_map. apply map_ext.
  intros l. destruct (line_ref l =? r); [apply Hf|reflexivity].
Qed.

Lemma Forall_map_iff :
  forall {A B : Type} (P : B -> Prop) (g : A -> B) (l : list A),
    Forall (fun a => P (g a)) l <-> Forall P (map g l).
Proof. intros A B P g l. rewrite Forall_map. reflexivity. Qed.

(** [wf] reads the identities only. *)
Lemma wf_same_refs :
  forall E E' : Editor,
    map node_ref (shapes E') = map node_ref (shapes E) ->
    map line_ref (lines E') = map line_ref (lines E) ->
    next_ref E' = next_ref E ->
    wf E -> wf E'.
Proof.
  intros E E' Hs Hl Hn (H1 & H2 & H3 & H4). unfold wf.
  rewrite Hs, Hl, Hn. repeat split; try assumption.
  - apply (Forall_map_iff (fun r => r < next_ref E) node_ref). rewrite Hs.
    apply Forall_map_iff. exact H3.
  - apply (Forall_map_iff (fun r => r < next_ref E) line_ref). rewrite Hl.
    apply Forall_map_iff. exact H4.
Qed.

Lemma preserves_setNode :
  forall (P : list Line -> Prop) (r : nat) (f : PidNode -> PidNode),
    (forall n, node_ref (f n) = node_ref n) ->
    preserves (InvL P) (setNode r f).
Proof.
  intros P r f Hf E [Hwf HP]. split; [|exact HP].
  apply (wf_same_refs E); try reflexivity; [|exact Hwf].
  apply map_updateNode_ref. exact Hf.
Qed.

Lemma preserves_setLine :
  forall (P : list Line -> Prop) (r : nat) (f : Line -> Line),
    (forall l, line_ref (f l) = line_ref l) ->
    (forall ls, P ls -> P (updateLine r f ls)) ->
    preserves (InvL P) (setLine r f).
Proof.
  intros P r f Hf HPf E [Hwf HP]. split; [|apply HPf; exact HP].
  apply (wf_same_refs E); try reflexivity; [|exact Hwf].
  apply map_updateLine_ref. exact Hf.
Qed.

(** A change of the markers or of the notification count. *)
Lemma preserves_modify_frame :
  forall (P : list Line -> Prop) (g : Editor -> Editor),
    (forall E, shapes (g E) = shapes E) ->
    (forall E, lines (g E) = lines E) ->
    (forall E, next_ref (g E) = next_ref E) ->
    preserves (InvL P) (modify g).
Proof.
  intros P g Hs Hl Hn E [Hwf HP]. unfold exec, modify. simpl. split.
  - apply (wf_same_refs E); [rewrite Hs|rewrite Hl|rewrite Hn|exact Hwf]; reflexivity.
  - rewrite Hl. exact HP.
Qed.

Lemma NoDup_app_fresh :
  forall (rs : list nat) (k : nat),
    NoDup rs -> Forall (fun r => r < k) rs -> NoDup (rs ++ [k]).
Proof.
  intros rs k Hnd Hlt. induction rs as [|r rs IH]; simpl.
  - constructor; [intros []|constructor].
  - inversion Hnd as [|? ? Hnin Hnd']; subst. inversion Hlt as [|? ? Hr Hlt']; subst.
    constructor; [|apply IH; assumption].
    rewrite in_app_iff. intros [Hin|[Hk|[]]]; [contradiction|lia].
Qed.

Lemma Forall_lt_S :
  forall {A : Type} (g : A -> nat) (k : nat) (l : list A),
    Forall (fun a => g a < k) l -> Forall (fun a => g a < S k) l.
Proof. intros A g k l H. eapply Forall_impl; [|exact H]. simpl. intros a Ha. lia. Qed.

Lemma preserves_addShape :
  forall (P : list Line -> Prop) (pidShape : IPidShape) (x y id : number),
    preserves (InvL P) (addShape pidShape x y id).
Proof.
  intros P pidShape x y id E [(H1 & H2 & H3 & H4) HP].
  unfold exec. rewrite addShape_run. simpl. split; [|exact HP].
  unfold wf. simpl. rewrite map_app. simpl. repeat split.
  - apply NoDup_app_fresh; [exact H1|]. apply Forall_map_iff. exact H3.
  - exact H2.
  - apply Forall_app. split; [apply Forall_lt_S; exact H3|].
    constructor; [simpl; lia|constructor].
  - apply Forall_lt_S. exact H4.
Qed.

Lemma preserves_newLine :
  forall (P : list Line -> Prop) (pts : list number) (n : LineName) (sai sid : number),
    (forall ls r, P ls ->
       P (ls ++ [{| line_ref := r; points := pts; line_name := n;
                    cacStartAnchorIndex := sai; cacStartPidShapeId := sid;
                    line_onLayer := false |}])) ->
    preserves (InvL P) (newLine pts n sai sid).
Proof.
  intros P pts n sai sid HPn E [(H1 & H2 & H3 & H4) HP].
  unfold exec, newLine. mcbv. simpl. split; [|apply HPn; exact HP].
  unfold wf. simpl. rewrite map_app. simpl. repeat split.
  - exact H1.
  - apply NoDup_app_fresh; [exact H2|]. apply Forall_map_iff. exact H4.
  - apply Forall_lt_S. exact H3.
  - apply Forall_app. split; [apply Forall_lt_S; exact H4|].
    constructor; [simpl; lia|constructor].
Qed.

Lemma NoDup_map_filter :
  forall {A : Type} (g : A -> nat) (p : A -> bool) (l : list A),
    NoDup (map g l) -> NoDup (map g (filter p l)).
Proof.
  intros A g p l H. induction l as [|a l IH]; simpl; [constructor|].
  simpl in H. inversion H as [|? ? Hnin Hnd]; subst.
  destruct (p a); simpl; [|apply IH; exact Hnd].
  constructor; [|apply IH; exact Hnd].
  intros Hin. apply Hnin. rewrite in_map_iff in *.
  destruct Hin as [b [Hb Hin]]. exists b. split; [exact Hb|].
  apply filter_In in Hin. tauto.
Qed.

Lemma preserves_removeNode :
  forall (P : list Line -> Prop) (r : nat),
    preserves (InvL P) (modify (fun E => set_shapes (removeNode r (shapes E)) E)).
Proof.
  intros P r E [(H1 & H2 & H3 & H4) HP]. unfold exec, modify. simpl.
  split; [|exact HP]. unfold wf. simpl. repeat split.
  - apply NoDup_map_filter. exact H1.
  - exact H2.
  - unfold removeNode. rewrite Forall_forall in *. intros n Hn.
    apply filter_In in Hn. apply H3. tauto.
  - exact H4.
Qed.

Lemma preserves_clear :
  forall (P : list Line -> Prop),
    (forall ls, P ls -> P (map (set_line_onLayer false) ls)) ->
    preserves (InvL P) clear.
Proof.
  intros P HPc E [(H1 & H2 & H3 & H4) HP]. unfold exec, clear, modify. simpl.
  split; [|apply HPc; exact HP]. unfold wf. simpl. rewrite map_map. simpl.
  repeat split.
  - constructor.
  - exact H2.
  - constructor.
  - rewrite Forall_map. simpl. exact H4.
Qed.

Lemma filter_updateLine_le :
  forall (r : nat) (f : Line -> Line) (ls : list Line),
    (forall l, isCurrent (f l) = true -> isCurrent l = true) ->
    length (filter isCurrent (updateLine r f ls)) <= length (filter isCurrent ls).
Proof.
  intros r f ls Hf. induction ls as [|l ls IH]; simpl; [lia|].
  destruct (line_ref l =? r).
  - destruct (isCurrent (f l)) eqn:Hfl.
    + rewrite (Hf l Hfl). simpl. lia.
    + destruct (isCurrent l); simpl; lia.
  - destruct (isCurrent l); simpl; lia.
Qed.

Lemma atMost_updateLine :
  forall (k r : nat) (f : Line -> Line) (ls : list Line),
    (forall l, isCurrent (f l) = true -> isCurrent l = true) ->
    atMost k ls -> atMost k (updateLine r f ls).
Proof.
  intros k r f ls Hf H. unfold atMost in *.
  pose proof (filter_updateLine_le r f ls Hf). lia.
Qed.

Lemma atMost_newLine :
  forall (k : nat) (ls : list Line) (l : Line),
    line_onLayer l = false -> atMost k ls -> atMost k (ls ++ [l]).
Proof.
  intros k ls l Hl H. unfold atMost in *. rewrite filter_app, length_app. simpl.
  unfold isCurrent at 2. rewrite Hl. simpl. lia.
Qed.

Lemma atMost_clear :
  forall (k : nat) (ls : list Line), atMost k (map (set_line_onLayer false) ls).
Proof.
  intros k ls. unfold atMost. induction ls as [|l ls IH]; simpl; lia.
Qed.

Lemma updateLine_fresh :
  forall (r : nat) (f : Line -> Line) (ls : list Line),
    Forall (fun l => line_ref l < r) ls -> updateLine r f ls = ls.
Proof.
  intros r f ls H. unfold updateLine. induction H as [|l ls Hl _ IH]; simpl; [reflexivity|].
  rewrite IH. destruct (line_ref l =? r) eqn:Hr; [|reflexivity].
  apply Nat.eqb_eq in Hr. lia.
Qed.

Lemma updateNode_fresh :
  forall (r : nat) (f : PidNode -> PidNode) (ns : list PidNode),
    Forall (fun n => node_ref n < r) ns -> updateNode r f ns = ns.
Proof.
  intros r f ns H. unfold updateNode. induction H as [|n ns Hn _ IH]; simpl; [reflexivity|].
  rewrite IH. destruct (node_ref n =? r) eqn:Hr; [|reflexivity].
  apply Nat.eqb_eq in Hr. lia.
Qed.

Lemma findNode_fresh :
  forall (r : nat) (ns : list PidNode),
    Forall (fun n => node_ref n < r) ns -> findNode r ns = None.
Proof.
  intros r ns H. unfold findNode. induction H as [|n ns Hn _ IH]; simpl; [reflexivity|].
  destruct (node_ref n =? r) eqn:Hr; [|exact IH].
  apply Nat.eqb_eq in Hr. lia.
Qed.

Lemma findLine_fresh :
  forall (r : nat) (ls : list Line),
    Forall (fun l => line_ref l < r) ls -> findLine r ls = None.
Proof.
  intros r ls H. unfold findLine. induction H as [|l ls Hl _ IH]; simpl; [reflexivity|].
  destruct (line_ref l =? r) eqn:Hr; [|exact IH].
  apply Nat.eqb_eq in Hr. lia.
Qed.

Lemma findNode_app :
  forall (r : nat) (ns ns' : list PidNode),
    findNode r (ns ++ ns') =
      match findNode r ns with Some n => Some n | None => findNode r ns' end.
Proof.
  intros r ns ns'. unfold findNode. induction ns as [|n ns IH]; simpl; [reflexivity|].
  destruct (node_ref n =? r); [reflexivity|exact IH].
Qed.

Lemma findLine_app :
  forall (r : nat) (ls ls' : list Line),
    findLine r (ls ++ ls') =
      match findLine r ls with Some l => Some l | None => findLine r ls' end.
Proof.
  intros r ls ls'. unfold findLine. induction ls as [|l ls IH]; simpl; [reflexivity|].
  destruct (line_ref l =? r); [reflexivity|exact IH].
Qed.

(** One step of a proof that a handler keeps an invariant. *)
Ltac pres_step :=
  lazymatch goal with
  | |- preserves _ (bind _ _) => apply preserves_bind; [ | intro ]
  | |- preserves _ (ret _) => apply preserves_ret
  | |- preserves _ (throw _) => apply preserves_throw
  | |- preserves _ get => apply preserves_get
  | |- preserves _ (orThrow _ _) => apply preserves_orThrow
  | |- preserves _ (forEach _ _) => apply preserves_forEach; intro
  | |- preserves _ (forEachi _ _) => apply preserves_forEachi; intros
  | |- preserves _ (mapM _ _) => apply preserves_mapM; intro
  | |- preserves _ (setNode _ _) => apply preserves_setNode; intro; reflexivity
  | |- preserves _ (getNode _) => unfold getNode
  | |- preserves _ (getLine _) => unfold getLine
  | |- preserves _ findOneCurrentLine => unfold findOneCurrentLine
  | |- preserves _ (findPidShapeById _) => unfold findPidShapeById
  | |- preserves _ (findGroupById _ _) => unfold findGroupById
  | |- preserves _ fire => apply preserves_modify_frame; intro; reflexivity
  | |- preserves _ cleanAnchorShapes => apply preserves_modify_frame; intro; reflexivity
  | |- preserves _ (addShape _ _ _ _) => apply preserves_addShape
  | |- preserves _ (match ?x with _ => _ end) => destruct x
  | |- preserves _ (if ?x then _ else _) => destruct x
  end.

Ltac pres := cbv zeta; repeat pres_step.

Lemma preserves_addConnectorToPath :
  forall (P : list Line -> Prop) (shape : option nat) (line : nat) (anchorIndex : number)
         (type : ConnectorType) (init : bool),
    preserves (InvL P) (addConnectorToPath shape line anchorIndex type init).
Proof. intros P shape line anchorIndex type init. unfold addConnectorToPath. pres. Qed.

Lemma preserves_createAnchorShapes :
  forall (P : list Line -> Prop) (pidShape : IPidShape) (pidKonvaPath : nat),
    preserves (InvL P) (createAnchorShapes pidShape pidKonvaPath).
Proof.
  intros P pidShape pidKonvaPath. unfold createAnchorShapes. pres.
  apply preserves_modify_frame; intro; reflexivity.
Qed.

Lemma preserves_setPoints :
  forall (k r : nat) (p : list number), preserves (Inv k) (setLine r (set_points p)).
Proof.
  intros k r p. apply preserves_setLine; [reflexivity|].
  intros ls. apply atMost_updateLine. intros l H. exact H.
Qed.

Lemma preserves_setLineName :
  forall (k r : nat),
    preserves (Inv k) (setLine r (set_line_name cacConnectorTwoPidShape)).
Proof.
  intros k r. apply preserves_setLine; [reflexivity|].
  intros ls. apply atMost_updateLine. intros l H.
  unfold isCurrent in H. simpl in H. rewrite andb_false_r in H. discriminate.
Qed.

Lemma preserves_destroyLine :
  forall (k r : nat), preserves (Inv k) (destroyLine r).
Proof.
  intros k r. apply preserves_setLine; [reflexivity|].
  intros ls. apply atMost_updateLine. intros l H. discriminate.
Qed.

Lemma preserves_recalculateTheLine :
  forall (k line : nat) (pos : Vector2d), preserves (Inv k) (recalculateTheLine line pos).
Proof.
  intros k line pos. unfold recalculateTheLine. pres. apply preserves_setPoints.
Qed.

Lemma preserves_endConnectingLine :
  forall (k : nat) (pos : Vector2d), preserves (Inv k) (endConnectingLine pos).
Proof.
  intros k pos. unfold endConnectingLine. pres.
  - apply preserves_recalculateTheLine.
  - apply preserves_setLineName.
  - apply preserves_addConnectorToPath.
Qed.

Lemma preserves_dragmove_connector :
  forall (k : nat) (pidShape : IPidShape) (group : nat) (c : IConnector),
    preserves (Inv k) (dragmove_connector pidShape group c).
Proof.
  intros k pidShape group c. unfold dragmove_connector. pres.
  - apply preserves_setPoints.
  - apply preserves_recalculateTheLine.
Qed.

Lemma preserves_export :
  forall (P : list Line -> Prop), preserves (InvL P) export.
Proof. intros P. unfold export, export_shape. pres. Qed.

Lemma layerAddLine_importing :
  forall (k r : nat), triple (InvL (importing k r)) (layerAddLine r) (Inv k).
Proof.
  intros k r E [Hwf [Hk Hr]]. split.
  - apply (wf_same_refs E); try reflexivity; [|exact Hwf].
    apply map_updateLine_ref. reflexivity.
  - simpl. unfold atMost in *.
    assert (Heq : filter isCurrent (updateLine r (set_line_onLayer true) (lines E))
                  = filter isCurrent (lines E)).
    { revert Hr. generalize (lines E). intros ls Hr.
      induction ls as [|l ls IH]; simpl; [reflexivity|].
      rewrite IH by (intros l' Hl'; apply Hr; right; exact Hl').
      destruct (line_ref l =? r) eqn:Hlr; [|reflexivity].
      apply Nat.eqb_eq in Hlr. specialize (Hr l (or_introl eq_refl) Hlr).
      unfold isCurrent. simpl. rewrite Hr. rewrite andb_false_r. reflexivity. }
    rewrite Heq. exact Hk.
Qed.

Lemma preserves_importJson_conn :
  forall (k : nat) (groupAndPidShapes : list nat) (dto : IDtoPidShape)
         (conn : IDtoConnection),
    preserves (Inv k) (importJson_conn groupAndPidShapes dto conn).
Proof.
  intros k gs dto conn E HI.
  assert (Hrest : forall r,
    triple (InvL (importing k r))
      (groupAndPidShapeStart <- findGroupById gs (conn_sid conn) ;;
       match groupAndPidShapeStart with
       | None => ret tt
       | Some pathStart =>
           addConnectorToPath (Some pathStart) r (conn_sai conn) start false ;;
           groupAndPidShapeEnd <- findGroupById gs (dto_id dto) ;;
           addConnectorToPath groupAndPidShapeEnd r (conn_eai conn) end_ true ;;
           layerAddLine r
       end) (Inv k)).
  { intros r.
    assert (Hw : forall E', InvL (importing k r) E' -> Inv k E').
    { intros E' [Hwf [Hk _]]. split; assumption. }
    apply (@triple_bind _ _ _ (InvL (importing k r))); [unfold findGroupById; pres|exact Hw|].
    intros [pathStart|]; [|intros E' HE'; apply Hw; exact HE'].
    apply (@triple_bind _ _ _ (InvL (importing k r)));
      [apply preserves_addConnectorToPath|exact Hw|intros _].
    apply (@triple_bind _ _ _ (InvL (importing k r))); [unfold findGroupById; pres|exact Hw|].
    intros groupAndPidShapeEnd.
    apply (@triple_bind _ _ _ (InvL (importing k r)));
      [apply preserves_addConnectorToPath|exact Hw|intros _].
    apply layerAddLine_importing. }
  unfold importJson_conn, exec. unfold bind at 1.
  destruct (newLine (conn_l conn) cacConnectorTwoPidShape (conn_sai conn) (conn_sid conn) E)
    as [[r|e] E1] eqn:Hnew.
  - apply (Hrest r). unfold newLine in Hnew. mcbv in Hnew. simpl in Hnew.
    injection Hnew as Hr HE1. subst r E1.
    destruct HI as [Hwf Hk]. split; [|split].
    + assert (HI' : Inv k (exec (newLine (conn_l conn) cacConnectorTwoPidShape
                                   (conn_sai conn) (conn_sid conn)) E)).
      { apply preserves_newLine; [|split; assumption].
        intros ls r Hls. apply atMost_newLine; [reflexivity|exact Hls]. }
      exact (proj1 HI').
    + simpl. apply atMost_newLine; [reflexivity|exact Hk].
    + simpl. intros l Hl Hlr. apply in_app_iff in Hl. destruct Hl as [Hl|[Hl|[]]].
      * destruct Hwf as (_ & _ & _ & H4). rewrite Forall_forall in H4.
        specialize (H4 l Hl). lia.
      * subst l. reflexivity.
  - unfold newLine in Hnew. mcbv in Hnew. discriminate.
Qed.

Lemma preserves_importJson :
  forall (k : nat) (data : option (list IDtoPidShape)),
    preserves (Inv k) (importJson data).
Proof.
  intros k data. unfold importJson. pres. apply preserves_importJson_conn.
Qed.

Lemma preserves_stage_click :
  forall (k : nat) (pos : option Vector2d) (random : number),
    preserves (Inv k) (stage_click pos random).
Proof.
  intros k pos random. unfold stage_click, createEmtpyShape, addShape_defaultId. pres.
  - apply preserves_endConnectingLine.
  - apply preserves_addConnectorToPath.
  - apply preserves_destroyLine.
Qed.

Lemma preserves_deleteShape :
  forall (k group : nat), preserves (Inv k) (deleteShape group).
Proof.
  intros k group. unfold deleteShape. pres.
  - apply preserves_destroyLine.
  - apply preserves_removeNode.
Qed.

Lemma currentLine_None :
  forall E : Editor, currentLine E = None -> currentLines E = [].
Proof.
  intros E H. unfold currentLine, currentLines in *.
  generalize (find_none _ _ H). clear H. generalize (lines E). intros ls H.
  induction ls as [|l ls IH]; simpl; [reflexivity|].
  unfold isCurrent at 1. rewrite (H l (or_introl eq_refl)).
  apply IH. intros l' Hl'. apply H. right. exact Hl'.
Qed.

Lemma anchorShape_mousedown_Inv :
  forall (a : AnchorShape) (E : Editor),
    Inv 1 E -> Inv 1 (exec (anchorShape_mousedown a) E).
Proof.
  intros a E HI. unfold anchorShape_mousedown, exec.
  unfold bind at 1. unfold findOneCurrentLine at 1. mcbv.
  destruct (currentLine E) as [l|] eqn:Hcur; simpl; [exact HI|].
  destruct (findNode (anchorShape_path a) (shapes E)) as [n|]; simpl; [|exact HI].
  destruct HI as [Hwf Hk]. pose proof Hwf as (H1 & H2 & H3 & H4). split.
  - unfold wf. simpl. rewrite map_updateLine_ref by reflexivity.
    rewrite map_app. simpl. repeat split.
    + exact H1.
    + apply NoDup_app_fresh; [exact H2|]. apply Forall_map_iff. exact H4.
    + apply Forall_lt_S. exact H3.
    + apply (Forall_map_iff (fun r => r < S (next_ref E)) line_ref).
      rewrite map_updateLine_ref by reflexivity. apply Forall_map_iff.
      apply Forall_app. split; [apply Forall_lt_S; exact H4|].
      constructor; [simpl; lia|constructor].
  - simpl. unfold atMost. unfold updateLine. rewrite map_app, filter_app, length_app.
    fold (updateLine (next_ref E) (set_line_onLayer true) (lines E)).
    rewrite (updateLine_fresh _ _ _ H4).
    pose proof (currentLine_None E Hcur) as Hnone. unfold currentLines in Hnone.
    rewrite Hnone. simpl. rewrite Nat.eqb_refl. simpl. lia.
Qed.

Lemma Inv_step :
  forall (E : Editor) (ev : event), Inv 1 E -> Inv 1 (step E ev).
Proof.
  intros E ev HI. unfold step.
  destruct ev as [pidShape x y [id|] random| |data| |group|group|group|group pos|group
                 |i|i|pos random|pos| |group]; revert E HI;
    change (preserves (Inv 1) (handle ?ev)) with (preserves (Inv 1) (handle ev)).
  - change (preserves (Inv 1) (_ <- addShape pidShape x y id ;; ret tt)). pres.
  - change (preserves (Inv 1) (_ <- addShape_defaultId pidShape x y random ;; ret tt)).
    unfold addShape_defaultId. pres.
  - change (preserves (Inv 1) (_ <- exportJson ;; ret tt)). pres.
    apply preserves_export.
  - change (preserves (Inv 1) (_ <- importJson data ;; ret tt)). pres.
    apply preserves_importJson.
  - change (preserves (Inv 1) clear). apply preserves_clear. intros ls _.
    apply atMost_clear.
  - change (preserves (Inv 1) (onGroup group (fun pidShape => group_click pidShape group))).
    unfold onGroup, group_click. pres. apply preserves_createAnchorShapes.
  - change (preserves (Inv 1)
              (onGroup group (fun pidShape => group_mouseover pidShape group))).
    unfold onGroup, group_mouseover. pres. apply preserves_createAnchorShapes.
  - change (preserves (Inv 1) (onGroup group (fun _ => group_mousedown))).
    unfold onGroup, group_mousedown. pres.
  - change (preserves (Inv 1)
              (onGroup group (fun pidShape =>
                 setNode group (set_group_pos pos) ;; group_dragmove pidShape group))).
    unfold onGroup, group_dragmove. pres. apply preserves_dragmove_connector.
  - change (preserves (Inv 1) (onGroup group (fun _ => group_dragend group))).
    unfold onGroup, group_dragend. pres.
  - intros E HI. simpl. unfold onAnchor, exec, bind, get.
    destruct (nth_error (anchorShapes E) i) as [a|]; [|exact HI].
    apply anchorShape_mousedown_Inv. exact HI.
  - change (preserves (Inv 1) (onAnchor i anchorShape_mouseup)).
    unfold onAnchor, anchorShape_mouseup. pres.
    + apply preserves_endConnectingLine.
    + apply preserves_addConnectorToPath.
  - apply preserves_stage_click.
  - change (preserves (Inv 1) (stage_mousemove pos)). unfold stage_mousemove. pres.
    apply preserves_recalculateTheLine.
  - change (preserves (Inv 1) cleanAnchorShapes). pres.
  - apply preserves_deleteShape.
Qed.

Lemma reachable_Inv : forall E : Editor, reachable E -> Inv 1 E.
Proof.
  intros E H. induction H as [|E ev _ IH].
  - split.
    + unfold wf. simpl. repeat split; constructor.
    + unfold atMost. simpl. lia.
  - apply Inv_step. exact IH.
Qed.

Lemma reachable_wf : forall E : Editor, reachable E -> wf E.
Proof. intros E H. exact (proj1 (reachable_Inv E H)). Qed.

(** C9: while an in-progress line exists, pressing down on an anchor marker
    changes nothing; and an editor never has more than one in-progress
    line. *)
Theorem anchor_mousedown_single_line :
  (forall (E : Editor) (a : AnchorShape),
      currentLine E <> None -> anchorShape_mousedown a E = (Ok tt, E)) /\
  (forall (E : Editor) (i : nat),
      currentLine E <> None -> step E (Ev_anchor_mousedown i) = E) /\
  (forall E : Editor, reachable E -> length (currentLines E) <= 1).
Proof.
  assert (Hnoop : forall (E : Editor) (a : AnchorShape),
             currentLine E <> None -> anchorShape_mousedown a E = (Ok tt, E)).
  { intros E a Hcur. unfold anchorShape_mousedown, findOneCurrentLine. mcbv.
    destruct (currentLine E); [reflexivity|congruence]. }
  split; [exact Hnoop|]. split.
  - intros E i Hcur. unfold step, exec. simpl. unfold onAnchor, bind, get.
    destruct (nth_error (anchorShapes E) i) as [a|]; [|reflexivity].
    rewrite (Hnoop E a Hcur). reflexivity.
  - intros E H. exact (proj2 (reachable_Inv E H)).
Qed.

(** ** Anchor markers *)

Lemma length_mapi_from :
  forall {A B : Type} (f : A -> nat -> B) (arr : list A) (i : nat),
    length (mapi_from i f arr) = length arr.
Proof.
  intros A B f arr. induction arr as [|a arr IH]; intros i; simpl; [reflexivity|].
  rewrite IH. reflexivity.
Qed.

Lemma nth_error_mapi_from :
  forall {A B : Type} (f : A -> nat -> B) (arr : list A) (i j : nat),
    nth_error (mapi_from i f arr) j = option_map (fun a => f a (i + j)) (nth_error arr j).
Proof.
  intros A B f arr. induction arr as [|a arr IH]; intros i j; simpl.
  - destruct j; reflexivity.
  - destruct j as [|j]; simpl.
    + rewrite Nat.add_0_r. reflexivity.
    + rewrite IH. replace (S i + j) with (i + S j) by lia. reflexivity.
Qed.

Lemma onGroup_found :
  forall {group : nat} (h : IPidShape -> M unit) {E : Editor} {n : PidNode},
    findNode group (shapes E) = Some n ->
    onGroup group h E = h (cacPidKonvaShape n) E.
Proof. intros group h E n H. unfold onGroup, bind, get. rewrite H. reflexivity. Qed.

Lemma createAnchorShapes_run :
  forall {E : Editor} (pidShape : IPidShape) {pidKonvaPath : nat} {n : PidNode},
    findNode pidKonvaPath (shapes E) = Some n ->
    createAnchorShapes pidShape pidKonvaPath E =
      (Ok (markersAt (getClientRect n) pidKonvaPath (anchors pidShape)),
       set_anchorShapes (markersAt (getClientRect n) pidKonvaPath (anchors pidShape)) E).
Proof.
  intros E pidShape pidKonvaPath n H. unfold createAnchorShapes, cleanAnchorShapes. mcbv.
  simpl. rewrite H. reflexivity.
Qed.

(** Selecting a shape on the layer shows one marker per anchor of its
    template, each at the anchor's offset from the top-left corner of the
    path's client rectangle. *)
Lemma group_click_markers :
  forall {E : Editor} {group : nat} {n : PidNode},
    findNode group (shapes E) = Some n ->
    step E (Ev_group_click group) =
      set_anchorShapes
        (markersAt (getClientRect n) group (anchors (cacPidKonvaShape n))) E.
Proof.
  intros E group n H. unfold step, exec. simpl handle.
  rewrite (onGroup_found _ H). unfold group_click.
  unfold bind. rewrite (createAnchorShapes_run _ H). reflexivity.
Qed.

Lemma group_mousedown_run :
  forall {E : Editor} {group : nat} {n : PidNode},
    findNode group (shapes E) = Some n ->
    step E (Ev_group_mousedown group) = set_anchorShapes [] E.
Proof.
  intros E group n H. unfold step, exec. simpl handle.
  rewrite (onGroup_found _ H). reflexivity.
Qed.

Lemma group_dragmove_unconnected :
  forall {E : Editor} {group : nat} {n : PidNode} (pos : Vector2d),
    findNode group (shapes E) = Some n ->
    cacConnectors n = None ->
    step E (Ev_group_dragmove group pos) =
      set_shapes (updateNode group (set_group_pos pos) (shapes E)) E.
Proof.
  intros E group n pos H Hc. unfold step, exec. simpl handle.
  rewrite (onGroup_found _ H). unfold group_dragmove. mcbv. simpl.
  rewrite findNode_updateNode_same by reflexivity. rewrite H. simpl.
  rewrite Hc. reflexivity.
Qed.

Lemma group_dragend_run :
  forall {E : Editor} {group : nat} {n : PidNode},
    findNode group (shapes E) = Some n ->
    step E (Ev_group_dragend group) =
      set_fired (S (fired E))
        (set_shapes
           (updateNode group
              (fun n' => set_cacDto (set_dto_pos (vx (group_pos n)) (vy (group_pos n))
                                       (cacDto n')) n')
              (shapes E)) E).
Proof.
  intros E group n H. unfold step, exec. simpl handle.
  rewrite (onGroup_found _ H). unfold group_dragend. mcbv. simpl.
  rewrite H. reflexivity.
Qed.

(** C7, as the code has it: after [addShape(t, x, y)], selecting the shape
    shows exactly one marker per anchor of [t], the i-th at
    (t.anchors[i].x + cx, t.anchors[i].y + cy), where (cx, cy) is the top-left
    corner of the client rectangle of the shape's path on the layer, that is
    (x, y) plus the corner of the path's own client rectangle; after the shape
    is dragged to a position (x', y') and dropped, selecting it again shows
    the markers computed anew in the same way from the client rectangle at
    (x', y').  The sums are those of the code. *)
Theorem select_shows_anchor_markers :
  forall (E : Editor) (t : IPidShape) (x y : number) (id : option number)
         (random : number),
    reachable E ->
    let group := next_ref E in
    let added := step E (Ev_addShape t x y id random) in
    let selected := step added (Ev_group_click group) in
    let rect := pathClientRect (path t) in
    length (anchorShapes selected) = length (anchors t) /\
    (forall i : nat,
        nth_error (anchorShapes selected) i =
          option_map (fun a =>
                        {| anchorShape_pos := {| vx := (anchor_x a + (x + vx rect))%Qc;
                                                 vy := (anchor_y a + (y + vy rect))%Qc |};
                           anchorShape_path := group;
                           anchorShape_index := i |})
                     (nth_error (anchors t) i)) /\
    (forall p : Vector2d,
        let again :=
          run selected
            [Ev_group_mousedown group; Ev_group_dragmove group p;
             Ev_group_dragend group; Ev_group_click group] in
        length (anchorShapes again) = length (anchors t) /\
        forall i : nat,
          nth_error (anchorShapes again) i =
            option_map (fun a =>
                          {| anchorShape_pos :=
                               {| vx := (anchor_x a + (vx p + vx rect))%Qc;
                                  vy := (anchor_y a + (vy p + vy rect))%Qc |};
                             anchorShape_path := group;
                             anchorShape_index := i |})
                       (nth_error (anchors t) i)).
Proof.
  intros E t x y id random Hreach group added selected rect.
  pose proof (reachable_wf E Hreach) as (_ & _ & H3 & _).
  set (theId := match id with Some i => i | None => randomId random end).
  set (n := {| node_ref := group; group_pos := {| vx := x; vy := y |};
               cacPidKonvaShape := t;
               cacDto := {| dto_s := t; dto_x := x; dto_y := y; dto_id := theId;
                            dto_c := [] |};
               cacConnectors := None |}).
  assert (Hadded : added =
            {| shapes := shapes E ++ [n]; lines := lines E;
               anchorShapes := anchorShapes E; fired := fired E;
               next_ref := S (next_ref E) |}).
  { unfold added, step, exec. destruct id as [i|]; reflexivity. }
  assert (Hfind : findNode group (shapes added) = Some n).
  { rewrite Hadded. simpl. rewrite findNode_app. unfold group at 1.
    rewrite (findNode_fresh _ _ H3).
    unfold findNode. simpl. unfold group. rewrite Nat.eqb_refl. reflexivity. }
  assert (Hsel : selected =
            set_anchorShapes
              (markersAt {| vx := (x + vx rect)%Qc; vy := (y + vy rect)%Qc |} group
                 (anchors t)) added).
  { unfold selected. rewrite (group_click_markers Hfind). reflexivity. }
  split; [|split].
  - rewrite Hsel. simpl. unfold markersAt, mapi. apply length_mapi_from.
  - intros i. rewrite Hsel. simpl. unfold markersAt, mapi.
    rewrite nth_error_mapi_from. destruct (nth_error (anchors t) i) as [a|]; reflexivity.
  - intros p again. unfold again, run. simpl fold_left.
    assert (Hfind1 : findNode group (shapes selected) = Some n).
    { rewrite Hsel. exact Hfind. }
    (* mousedown on the group *)
    rewrite (group_mousedown_run Hfind1).
    (* dragmove *)
    set (down := set_anchorShapes [] selected).
    assert (Hfind2 : findNode group (shapes down) = Some n) by exact Hfind1.
    rewrite (group_dragmove_unconnected p Hfind2 eq_refl).
    set (moved := set_shapes (updateNode group (set_group_pos p) (shapes down)) down).
    assert (Hfind3 : findNode group (shapes moved) = Some (set_group_pos p n)).
    { unfold moved. cbn [shapes set_fired set_shapes].
      rewrite findNode_updateNode_same by reflexivity.
      rewrite Hfind2. reflexivity. }
    (* dragend *)
    rewrite (group_dragend_run Hfind3).
    match goal with
    | |- context [step ?E (Ev_group_click group)] => set (ended := E)
    end.
    assert (Hfind4 : findNode group (shapes ended)
                     = Some (set_cacDto (set_dto_pos (vx p) (vy p) (cacDto n))
                               (set_group_pos p n))).
    { unfold ended. cbn [shapes set_fired set_shapes].
      rewrite findNode_updateNode_same by reflexivity.
      rewrite Hfind3. reflexivity. }
    rewrite (group_click_markers Hfind4).
    cbn [anchorShapes set_anchorShapes cacPidKonvaShape set_cacDto set_group_pos n].
    unfold markersAt, mapi. split.
    + apply length_mapi_from.
    + intros i. rewrite nth_error_mapi_from.
      destruct (nth_error (anchors t) i) as [a|]; reflexivity.
Qed.

(** ** Documents *)

Lemma pushFirst_ids :
  forall (id : number) (conn : IDtoConnection) (ds : list IDtoPidShape),
    map dto_id (pushFirst id conn ds) = map dto_id ds.
Proof.
  intros id conn ds. induction ds as [|d ds IH]; simpl; [reflexivity|].
  destruct (hasId id d); simpl; [reflexivity|]. rewrite IH. reflexivity.
Qed.

Lemma pushFirst_strip :
  forall (id : number) (conn : IDtoConnection) (ds : list IDtoPidShape),
    map strip (pushFirst id conn ds) = map strip ds.
Proof.
  intros id conn ds. induction ds as [|d ds IH]; simpl; [reflexivity|].
  destruct (hasId id d); simpl; [reflexivity|]. rewrite IH. reflexivity.
Qed.

Lemma resolves_ids :
  forall (ds ds' : list IDtoPidShape) (conn : IDtoConnection),
    map dto_id ds = map dto_id ds' -> resolves ds conn = resolves ds' conn.
Proof.
  intros ds ds' conn H. unfold resolves.
  assert (Hex : forall l, existsb (hasId (conn_sid conn)) l
                        = existsb (fun i => strictEq i (conn_sid conn)) (map dto_id l)).
  { intros l. induction l as [|d l IH]; simpl; [reflexivity|]. rewrite IH. reflexivity. }
  rewrite (Hex ds), (Hex ds'), H. reflexivity.
Qed.

Lemma importConn_ids :
  forall (id : number) (ds : list IDtoPidShape) (conn : IDtoConnection),
    map dto_id (importConn id ds conn) = map dto_id ds.
Proof.
  intros id ds conn. unfold importConn.
  destruct (resolves ds conn); [apply pushFirst_ids|reflexivity].
Qed.

Lemma importConn_strip :
  forall (id : number) (ds : list IDtoPidShape) (conn : IDtoConnection),
    map strip (importConn id ds conn) = map strip ds.
Proof.
  intros id ds conn. unfold importConn.
  destruct (resolves ds conn); [apply pushFirst_strip|reflexivity].
Qed.

Lemma importEntry_ids :
  forall (dto : IDtoPidShape) (ds : list IDtoPidShape),
    map dto_id (importEntry ds dto) = map dto_id ds.
Proof.
  intros dto ds. unfold importEntry. revert ds.
  induction (dto_c dto) as [|conn cs IH]; intros ds; simpl; [reflexivity|].
  rewrite IH. apply importConn_ids.
Qed.

Lemma importEntry_strip :
  forall (dto : IDtoPidShape) (ds : list IDtoPidShape),
    map strip (importEntry ds dto) = map strip ds.
Proof.
  intros dto ds. unfold importEntry. revert ds.
  induction (dto_c dto) as [|conn cs IH]; intros ds; simpl; [reflexivity|].
  rewrite IH. apply importConn_strip.
Qed.

Lemma pushFirst_connections :
  forall (id : number) (conn : IDtoConnection) (ds : list IDtoPidShape),
    In id (map dto_id ds) ->
    Permutation (flat_map dto_c (pushFirst id conn ds)) (flat_map dto_c ds ++ [conn]).
Proof.
  intros id conn ds. induction ds as [|d ds IH]; simpl; [intros []|].
  intros Hin. unfold hasId at 1. destruct (strictEq (dto_id d) id) eqn:Hid; simpl.
  - rewrite <- !app_assoc. apply Permutation_app_head.
    apply Permutation_app_comm.
  - destruct Hin as [Hd|Hin].
    + rewrite Hd, strictEq_refl in Hid. discriminate.
    + rewrite <- !app_assoc. apply Permutation_app_head. apply IH. exact Hin.
Qed.

Lemma importEntry_connections :
  forall (D : list IDtoPidShape) (dto : IDtoPidShape) (ds : list IDtoPidShape),
    map dto_id ds = map dto_id D ->
    In (dto_id dto) (map dto_id D) ->
    Permutation (flat_map dto_c (importEntry ds dto))
                (flat_map dto_c ds ++ filter (resolves D) (dto_c dto)).
Proof.
  intros D dto ds Hids Hin. unfold importEntry. revert ds Hids.
  induction (dto_c dto) as [|conn cs IH]; intros ds Hids; simpl.
  - rewrite app_nil_r. apply Permutation_refl.
  - rewrite IH by (rewrite importConn_ids; exact Hids).
    unfold importConn. rewrite (resolves_ids ds D conn Hids).
    destruct (resolves D conn).
    + rewrite pushFirst_connections by (rewrite Hids; exact Hin).
      rewrite <- app_assoc. reflexivity.
    + reflexivity.
Qed.

Lemma fold_importEntry_ids :
  forall (D' ds : list IDtoPidShape),
    map dto_id (fold_left importEntry D' ds) = map dto_id ds.
Proof.
  intros D'. induction D' as [|dto D' IH]; intros ds; simpl; [reflexivity|].
  rewrite IH. apply importEntry_ids.
Qed.

Lemma fold_importEntry_strip :
  forall (D' ds : list IDtoPidShape),
    map strip (fold_left importEntry D' ds) = map strip ds.
Proof.
  intros D'. induction D' as [|dto D' IH]; intros ds; simpl; [reflexivity|].
  rewrite IH. apply importEntry_strip.
Qed.

Lemma fold_importEntry_connections :
  forall (D D' ds : list IDtoPidShape),
    map dto_id ds = map dto_id D ->
    incl (map dto_id D') (map dto_id D) ->
    Permutation (flat_map dto_c (fold_left importEntry D' ds))
                (flat_map dto_c ds ++ filter (resolves D) (flat_map dto_c D')).
Proof.
  intros D D'. induction D' as [|dto D' IH]; intros ds Hids Hincl; simpl.
  - rewrite app_nil_r. apply Permutation_refl.
  - rewrite IH.
    + rewrite (importEntry_connections D dto ds Hids).
      * rewrite filter_app, app_assoc. reflexivity.
      * apply Hincl. left. reflexivity.
    + rewrite importEntry_ids. exact Hids.
    + intros i Hi. apply Hincl. right. exact Hi.
Qed.

Lemma strip_ids : forall D : list IDtoPidShape, map dto_id (map strip D) = map dto_id D.
Proof. intros D. rewrite map_map. reflexivity. Qed.

Lemma strip_connections : forall D : list IDtoPidShape, flat_map dto_c (map strip D) = [].
Proof. intros D. induction D as [|d D IH]; simpl; [reflexivity|exact IH]. Qed.

(** The shapes of the document are all there, and the connections are those of
    the document whose [sid] resolves. *)
Lemma imported_spec :
  forall D : list IDtoPidShape,
    map strip (imported D) = map strip D /\
    Permutation (flat_map dto_c (imported D))
                (filter (resolves D) (flat_map dto_c D)).
Proof.
  intros D. unfold imported. split.
  - rewrite fold_importEntry_strip. rewrite map_map. apply map_ext.
    intros d. reflexivity.
  - rewrite (fold_importEntry_connections D D (map strip D) (strip_ids D) (incl_refl _)).
    rewrite strip_connections. reflexivity.
Qed.

Lemma fill_nil : forall d : IDtoPidShape, fill [] d = d.
Proof. intros [s x y id c]. unfold fill, set_dto_c. simpl. rewrite app_nil_r. reflexivity. Qed.

Lemma fill_fill :
  forall (cs cs' : list IDtoConnection) (d : IDtoPidShape),
    fill cs' (fill cs d) = fill (cs ++ cs') d.
Proof. intros cs cs' d. unfold fill, set_dto_c. simpl. rewrite app_assoc. reflexivity. Qed.

Lemma hasId_In :
  forall (id : number) (d : IDtoPidShape) (ds : list IDtoPidShape),
    In d ds -> hasId id d = true -> In id (map dto_id ds).
Proof.
  intros id d ds Hin Hid. apply strictEq_true in Hid. subst id.
  apply in_map. exact Hin.
Qed.

Lemma map_id_in :
  forall {A : Type} (f : A -> A) (l : list A),
    (forall a, In a l -> f a = a) -> map f l = l.
Proof.
  intros A f l H. induction l as [|a l IH]; simpl; [reflexivity|].
  rewrite (H a (or_introl eq_refl)), IH; [reflexivity|].
  intros a' Ha'. apply H. right. exact Ha'.
Qed.

Lemma pushFirst_unique :
  forall (id : number) (conn : IDtoConnection) (ds : list IDtoPidShape),
    NoDup (map dto_id ds) ->
    pushFirst id conn ds = map (fun d => if hasId id d then fill [conn] d else d) ds.
Proof.
  intros id conn ds Hnd. induction ds as [|d ds IH]; simpl; [reflexivity|].
  simpl in Hnd. inversion Hnd as [|? ? Hnin Hnd']; subst.
  destruct (hasId id d) eqn:Hid.
  - f_equal. symmetry. apply map_id_in.
    intros d' Hd'. destruct (hasId id d') eqn:Hid'; [|reflexivity].
    exfalso. apply Hnin. apply strictEq_true in Hid. rewrite Hid.
    exact (hasId_In _ _ _ Hd' Hid').
  - rewrite (IH Hnd'). reflexivity.
Qed.

Lemma importEntry_unique :
  forall (id : number) (cs : list IDtoConnection) (ds : list IDtoPidShape),
    NoDup (map dto_id ds) ->
    (forall c, In c cs -> resolves ds c = true) ->
    fold_left (importConn id) cs ds = map (fun d => if hasId id d then fill cs d else d) ds.
Proof.
  intros id cs. induction cs as [|c cs IH]; intros ds Hnd Hres; simpl.
  - symmetry. apply map_id_in. intros d _.
    destruct (hasId id d); [rewrite fill_nil|]; reflexivity.
  - assert (Hc : importConn id ds c
                 = map (fun d => if hasId id d then fill [c] d else d) ds).
    { unfold importConn. rewrite (Hres c (or_introl eq_refl)).
      apply pushFirst_unique. exact Hnd. }
    rewrite Hc. rewrite IH.
    + rewrite map_map. apply map_ext. intros d.
      destruct (hasId id d) eqn:Hid.
      * change (hasId id (fill [c] d)) with (hasId id d). rewrite Hid.
        apply fill_fill.
      * rewrite Hid. reflexivity.
    + rewrite <- Hc, importConn_ids. exact Hnd.
    + intros c' Hc'. rewrite <- Hc.
      rewrite (resolves_ids _ ds c' (importConn_ids id ds c)).
      apply Hres. right. exact Hc'.
Qed.

Lemma fold_importEntry_unique :
  forall (D' ds : list IDtoPidShape),
    NoDup (map dto_id ds) ->
    (forall dto c, In dto D' -> In c (dto_c dto) -> resolves ds c = true) ->
    fold_left importEntry D' ds = map (fun d => fill (connectionsFor D' d) d) ds.
Proof.
  intros D'. induction D' as [|dto D' IH]; intros ds Hnd Hres; simpl.
  - symmetry. apply map_id_in. intros d _. rewrite fill_nil. reflexivity.
  - assert (He : importEntry ds dto
                 = map (fun d => if hasId (dto_id dto) d then fill (dto_c dto) d else d) ds).
    { unfold importEntry. apply importEntry_unique; [exact Hnd|].
      intros c Hc. apply (Hres dto c); [left; reflexivity|exact Hc]. }
    rewrite IH.
    + rewrite He, map_map. apply map_ext. intros d.
      destruct (hasId (dto_id dto) d) eqn:Hid.
      * rewrite fill_fill. unfold connectionsFor.
        change (hasId (dto_id dto) (fill (dto_c dto) d)) with (hasId (dto_id dto) d).
        reflexivity.
      * reflexivity.
    + rewrite importEntry_ids. exact Hnd.
    + intros dto' c Hd Hc. rewrite (resolves_ids _ ds c (importEntry_ids dto ds)).
      apply (Hres dto' c); [right; exact Hd|exact Hc].
Qed.

Lemma connectionsFor_unique :
  forall (D : list IDtoPidShape) (d : IDtoPidShape),
    NoDup (map dto_id D) -> In d D -> connectionsFor D d = dto_c d.
Proof.
  intros D d. unfold connectionsFor. induction D as [|d0 D IH]; simpl; [intros _ []|].
  intros Hnd Hin. inversion Hnd as [|? ? Hnin Hnd']; subst.
  assert (Hnone : forall d', dto_id d' = dto_id d0 ->
            flat_map (fun dto => if hasId (dto_id dto) d' then dto_c dto else []) D = []).
  { intros d' Hd'. clear IH Hin Hnd Hnd'. induction D as [|d1 D IH]; simpl; [reflexivity|].
    destruct (hasId (dto_id d1) d') eqn:Hid.
    - exfalso. apply Hnin. left. apply strictEq_true in Hid. congruence.
    - apply IH. intros H. apply Hnin. right. exact H. }
  destruct (hasId (dto_id d0) d) eqn:Hid.
  - apply strictEq_true in Hid. destruct Hin as [Hd|Hin].
    + subst d0. rewrite (Hnone d eq_refl). apply app_nil_r.
    + exfalso. apply Hnin. rewrite <- Hid. apply in_map. exact Hin.
  - destruct Hin as [Hd|Hin].
    + subst d0. unfold hasId in Hid. rewrite strictEq_refl in Hid. discriminate.
    + apply IH; assumption.
Qed.

(** A document whose ids are distinct and whose connections all resolve is
    imported as it is. *)
Lemma imported_id :
  forall D : list IDtoPidShape,
    NoDup (map dto_id D) ->
    (forall dto c, In dto D -> In c (dto_c dto) -> resolves D c = true) ->
    imported D = D.
Proof.
  intros D Hnd Hres. unfold imported. rewrite fold_importEntry_unique.
  - rewrite map_map. apply map_id_in. intros d Hd.
    change (connectionsFor D (strip d)) with (connectionsFor D d).
    rewrite (connectionsFor_unique D d Hnd Hd).
    destruct d as [s x y id c]. reflexivity.
  - rewrite strip_ids. exact Hnd.
  - intros dto c Hd Hc. rewrite (resolves_ids _ D c (strip_ids D)).
    exact (Hres dto c Hd Hc).
Qed.

(** ** Export *)

Lemma findNode_NoDup :
  forall (ns : list PidNode) (n : PidNode),
    NoDup (map node_ref ns) -> In n ns -> findNode (node_ref n) ns = Some n.
Proof.
  intros ns n Hnd Hin. unfold findNode. induction ns as [|n0 ns IH]; simpl; [destruct Hin|].
  simpl in Hnd. inversion Hnd as [|? ? Hnin Hnd']; subst.
  destruct Hin as [Heq|Hin].
  - subst n0. rewrite Nat.eqb_refl. reflexivity.
  - destruct (node_ref n0 =? node_ref n) eqn:Hr; [|apply IH; assumption].
    exfalso. apply Hnin. apply Nat.eqb_eq in Hr. rewrite Hr. apply in_map. exact Hin.
Qed.

Lemma updateNode_id :
  forall (r : nat) (f : PidNode -> PidNode) (ns : list PidNode) (n : PidNode),
    NoDup (map node_ref ns) -> findNode r ns = Some n -> f n = n ->
    updateNode r f ns = ns.
Proof.
  intros r f ns n Hnd Hfind Hf. unfold updateNode. apply map_id_in.
  intros n' Hn'. destruct (node_ref n' =? r) eqn:Hr; [|reflexivity].
  apply Nat.eqb_eq in Hr. subst r.
  rewrite (findNode_NoDup ns n' Hnd Hn') in Hfind. injection Hfind as ->. exact Hf.
Qed.

Lemma set_shapes_same : forall E : Editor, set_shapes (shapes E) E = E.
Proof. intros [s l a f k]. reflexivity. Qed.

Lemma updateAt_id :
  forall {A : Type} (f : A -> A) (pre : list A) (a : A) (post : list A),
    f a = a -> updateAt (length pre) f (pre ++ a :: post) = pre ++ a :: post.
Proof.
  intros A f pre a post Hf. induction pre as [|b pre IH]; simpl.
  - rewrite Hf. reflexivity.
  - rewrite IH. reflexivity.
Qed.

Lemma nth_error_middle :
  forall {A : Type} (pre : list A) (a : A) (post : list A),
    nth_error (pre ++ a :: post) (length pre) = Some a.
Proof. intros A pre a post. induction pre as [|b pre IH]; simpl; [reflexivity|exact IH]. Qed.

Lemma forEach_unchanged :
  forall {A : Type} (arr : list A) (f : A -> M unit) (E : Editor),
    (forall a, In a arr -> f a E = (Ok tt, E)) -> forEach arr f E = (Ok tt, E).
Proof.
  intros A arr f E H. induction arr as [|a arr IH]; simpl; [reflexivity|].
  rewrite (bind_Ok _ (H a (or_introl eq_refl))). apply IH.
  intros a' Ha'. apply H. right. exact Ha'.
Qed.

Lemma export_shape_synced :
  forall (E : Editor) (n : PidNode),
    NoDup (map node_ref (shapes E)) -> In n (shapes E) -> synced (lines E) n ->
    export_shape (node_ref n) E = (Ok tt, E).
Proof.
  intros E n Hnd Hin Hsync. unfold export_shape.
  pose proof (findNode_NoDup _ _ Hnd Hin) as Hfind.
  rewrite (bind_Ok _ (getNode_Some Hfind)).
  unfold synced in Hsync. destruct (cacConnectors n) as [conns|]; [|reflexivity].
  unfold forEachi. change 0 with (length (@nil IDtoConnection)).
  assert (Hpre : dto_c (cacDto n) = [] ++ dto_c (cacDto n)) by reflexivity.
  revert Hpre Hsync. generalize (@nil IDtoConnection) as pre.
  generalize (dto_c (cacDto n)) at 2 3 as recs.
  generalize (filter (fun c => isEnd (connector_type c)) conns) as cs.
  intros cs recs pre Hpre Hsync. revert pre Hpre.
  induction Hsync as [|c connection cs recs Hc _ IH]; intros pre Hpre; simpl.
  - reflexivity.
  - unfold pointsOf in Hc. destruct (findLine (line c) (lines E)) as [l|] eqn:Hl;
      [|discriminate]. simpl in Hc. injection Hc as Hc.
    match goal with
    | |- bind ?body _ E = _ => assert (Hbody : body E = (Ok tt, E))
    end.
    { rewrite (bind_Ok _ (getLine_Some Hl)).
      rewrite (bind_Ok _ (getNode_Some Hfind)).
      rewrite Hpre, nth_error_middle.
      unfold setNode, modify.
      rewrite (updateNode_id _ _ _ n Hnd Hfind).
      - rewrite set_shapes_same. reflexivity.
      - rewrite Hpre, Hc. rewrite updateAt_id by (destruct connection; reflexivity).
        rewrite <- Hpre. destruct n as [r p sh d cc]. destruct d. reflexivity. }
    rewrite (bind_Ok _ Hbody).
    replace (S (length pre)) with (length (pre ++ [connection]))
      by (rewrite length_app; simpl; lia).
    apply IH. rewrite Hpre, <- app_assoc. reflexivity.
Qed.

Lemma mapM_getDto :
  forall (E : Editor) (ns : list PidNode),
    NoDup (map node_ref (shapes E)) -> incl ns (shapes E) ->
    mapM (fun s => n <- getNode s ;; ret (cacDto n)) (map node_ref ns) E
      = (Ok (map cacDto ns), E).
Proof.
  intros E ns Hnd Hincl. induction ns as [|n ns IH]; simpl; [reflexivity|].
  assert (Hfind : findNode (node_ref n) (shapes E) = Some n).
  { apply findNode_NoDup; [exact Hnd|]. apply Hincl. left. reflexivity. }
  unfold bind at 1. unfold bind at 1. rewrite (getNode_Some Hfind). unfold ret at 1.
  rewrite (bind_Ok _ (IH (fun a Ha => Hincl a (or_intror Ha)))). reflexivity.
Qed.

(** When the recorded routes are those of the lines, exporting returns the
    document of the shapes and changes nothing. *)
Lemma export_synced :
  forall E : Editor,
    NoDup (map node_ref (shapes E)) ->
    Forall (synced (lines E)) (shapes E) ->
    export E = (Ok (docs E), E).
Proof.
  intros E Hnd Hsync. unfold export. unfold bind at 1. unfold get at 1.
  rewrite (@bind_Ok _ _ (forEach (map node_ref (shapes E)) export_shape) _ E E tt).
  - apply mapM_getDto; [exact Hnd|apply incl_refl].
  - apply forEach_unchanged. intros s Hs. apply in_map_iff in Hs.
    destruct Hs as [n [Hn Hin]]. subst s.
    apply export_shape_synced; [exact Hnd|exact Hin|].
    rewrite Forall_forall in Hsync. apply Hsync. exact Hin.
Qed.

(** ** Import *)

Lemma findNode_updateNode :
  forall (f : PidNode -> PidNode) (r r' : nat) (ns : list PidNode),
    (forall n, node_ref (f n) = node_ref n) ->
    findNode r' (updateNode r f ns)
      = option_map (fun n => if node_ref n =? r then f n else n) (findNode r' ns).
Proof.
  intros f r r' ns Hf. unfold findNode, updateNode.
  induction ns as [|n ns IH]; simpl; [reflexivity|].
  assert (Href : node_ref (if node_ref n =? r then f n else n) = node_ref n).
  { destruct (node_ref n =? r); [apply Hf|reflexivity]. }
  rewrite Href. destruct (node_ref n =? r'); [reflexivity|exact IH].
Qed.

Lemma find_updateNode :
  forall (p : PidNode -> bool) (f : PidNode -> PidNode) (r : nat) (ns : list PidNode),
    (forall n, p (f n) = p n) ->
    find p (updateNode r f ns)
      = option_map (fun n => if node_ref n =? r then f n else n) (find p ns).
Proof.
  intros p f r ns Hf. unfold updateNode.
  induction ns as [|n ns IH]; simpl; [reflexivity|].
  assert (Hp : p (if node_ref n =? r then f n else n) = p n).
  { destruct (node_ref n =? r); [apply Hf|reflexivity]. }
  rewrite Hp. destruct (p n); [reflexivity|exact IH].
Qed.

Lemma find_by_refs :
  forall (p : PidNode -> bool) (ns0 ns : list PidNode),
    (forall n, In n ns -> findNode (node_ref n) ns0 = Some n) ->
    find (fun g => match findNode g ns0 with Some n => p n | None => false end)
         (map node_ref ns)
      = option_map node_ref (find p ns).
Proof.
  intros p ns0 ns H. induction ns as [|n ns IH]; simpl; [reflexivity|].
  rewrite (H n (or_introl eq_refl)). destruct (p n); [reflexivity|].
  apply IH. intros n' Hn'. apply H. right. exact Hn'.
Qed.

Lemma findGroupById_run :
  forall (E : Editor) (id : number),
    NoDup (map node_ref (shapes E)) ->
    findGroupById (map node_ref (shapes E)) id E =
      (Ok (option_map node_ref
             (find (fun n => strictEq (dto_id (cacDto n)) id) (shapes E))), E).
Proof.
  intros E id Hnd. unfold findGroupById, bind, get, ret.
  rewrite (find_by_refs (fun n => strictEq (dto_id (cacDto n)) id) (shapes E) (shapes E)).
  - reflexivity.
  - intros n Hn. apply findNode_NoDup; assumption.
Qed.

Lemma resolves_find :
  forall (ns : list PidNode) (conn : IDtoConnection),
    resolves (map cacDto ns) conn
      = match find (fun n => strictEq (dto_id (cacDto n)) (conn_sid conn)) ns with
        | Some _ => true
        | None => false
        end.
Proof.
  intros ns conn. unfold resolves, hasId. induction ns as [|n ns IH]; simpl; [reflexivity|].
  destruct (strictEq (dto_id (cacDto n)) (conn_sid conn)); [reflexivity|exact IH].
Qed.

Lemma find_hasId :
  forall (ns : list PidNode) (id : number),
    In id (map dto_id (map cacDto ns)) ->
    exists n, find (fun n => strictEq (dto_id (cacDto n)) id) ns = Some n.
Proof.
  intros ns id. induction ns as [|n ns IH]; simpl; [intros []|].
  intros [Hn|Hin].
  - rewrite Hn, strictEq_refl. eexists. reflexivity.
  - destruct (strictEq (dto_id (cacDto n)) id); [eexists; reflexivity|apply IH; exact Hin].
Qed.

Lemma docs_updateNode_same :
  forall (r : nat) (f : PidNode -> PidNode) (ns : list PidNode),
    (forall n, cacDto (f n) = cacDto n) ->
    map cacDto (updateNode r f ns) = map cacDto ns.
Proof.
  intros r f ns Hf. unfold updateNode. rewrite map_map. apply map_ext.
  intros n. destruct (node_ref n =? r); [apply Hf|reflexivity].
Qed.

Lemma updateNode_id_notin :
  forall (r : nat) (f : PidNode -> PidNode) (ns : list PidNode),
    ~ In r (map node_ref ns) -> updateNode r f ns = ns.
Proof.
  intros r f ns H. unfold updateNode. apply map_id_in. intros n Hn.
  destruct (node_ref n =? r) eqn:Hr; [|reflexivity].
  exfalso. apply H. apply Nat.eqb_eq in Hr. rewrite <- Hr. apply in_map. exact Hn.
Qed.

Lemma docs_pushConnection :
  forall (id : number) (connection : IDtoConnection) (ns : list PidNode) (n : PidNode),
    NoDup (map node_ref ns) ->
    find (fun n => strictEq (dto_id (cacDto n)) id) ns = Some n ->
    map cacDto (updateNode (node_ref n) (pushConnection connection) ns)
      = pushFirst id connection (map cacDto ns).
Proof.
  intros id connection ns n Hnd. induction ns as [|n0 ns IH]; simpl; [discriminate|].
  simpl in Hnd. inversion Hnd as [|? ? Hnin Hnd']; subst.
  unfold hasId at 1. destruct (strictEq (dto_id (cacDto n0)) id) eqn:Hid.
  - intros Hfind. injection Hfind as <-. rewrite Nat.eqb_refl. simpl. f_equal.
    fold (updateNode (node_ref n0) (pushConnection connection) ns).
    rewrite updateNode_id_notin; [reflexivity|exact Hnin].
  - intros Hfind. pose proof (find_some _ _ Hfind) as [Hin _].
    destruct (node_ref n0 =? node_ref n) eqn:Hr.
    + exfalso. apply Hnin. apply Nat.eqb_eq in Hr. rewrite Hr. apply in_map. exact Hin.
    + f_equal. apply IH; assumption.
Qed.

Lemma pointsOf_app :
  forall (ls ls' : list Line) (r : nat) (pts : list number),
    pointsOf ls r = Some pts -> pointsOf (ls ++ ls') r = Some pts.
Proof.
  intros ls ls' r pts H. unfold pointsOf in *. rewrite findLine_app.
  destruct (findLine r ls); [exact H|discriminate].
Qed.

Lemma pointsOf_updateLine :
  forall (f : Line -> Line) (r r' : nat) (ls : list Line),
    (forall l, line_ref (f l) = line_ref l) ->
    (forall l, points (f l) = points l) ->
    pointsOf (updateLine r f ls) r' = pointsOf ls r'.
Proof.
  intros f r r' ls Href Hpts. unfold pointsOf, findLine, updateLine.
  induction ls as [|l ls IH]; simpl; [reflexivity|].
  assert (Hr : line_ref (if line_ref l =? r then f l else l) = line_ref l).
  { destruct (line_ref l =? r); [apply Href|reflexivity]. }
  rewrite Hr. destruct (line_ref l =? r'); [|exact IH].
  simpl. destruct (line_ref l =? r); [apply f_equal, Hpts|reflexivity].
Qed.

(** Lines are added and put on the layer: the routes on record stay. *)
Lemma synced_more_lines :
  forall (ls ls' : list Line) (n : PidNode),
    (forall r pts, pointsOf ls r = Some pts -> pointsOf ls' r = Some pts) ->
    synced ls n -> synced ls' n.
Proof.
  intros ls ls' n H. unfold synced. destruct (cacConnectors n) as [conns|]; [|auto].
  intros HF. induction HF as [|c connection cs recs Hc _ IH]; constructor; auto.
Qed.

Lemma synced_pushConnector_start :
  forall (ls : list Line) (n : PidNode) (line : nat) (anchorIndex : number),
    synced ls n ->
    synced ls (pushConnector {| line := line; anchorIndex := anchorIndex;
                                connector_type := start |} n).
Proof.
  intros ls n line anchorIndex H. unfold synced in *. simpl.
  rewrite filter_app. simpl. rewrite app_nil_r.
  destruct (cacConnectors n) as [conns|]; [exact H|]. simpl. rewrite H. constructor.
Qed.

Lemma synced_pushConnection_end :
  forall (ls : list Line) (n : PidNode) (line : nat) (anchorIndex : number)
         (connection : IDtoConnection),
    pointsOf ls line = Some (conn_l connection) ->
    synced ls n ->
    synced ls (pushConnection connection
                 (pushConnector {| line := line; anchorIndex := anchorIndex;
                                   connector_type := end_ |} n)).
Proof.
  intros ls n line anchorIndex connection Hp H. unfold synced in *. simpl.
  rewrite filter_app. simpl.
  destruct (cacConnectors n) as [conns|].
  - apply Forall2_app; [exact H|]. constructor; [exact Hp|constructor].
  - simpl. rewrite H. simpl. constructor; [exact Hp|constructor].
Qed.

Lemma updateNode_compose :
  forall (r : nat) (f g : PidNode -> PidNode) (ns : list PidNode),
    (forall n, node_ref (f n) = node_ref n) ->
    updateNode r g (updateNode r f ns) = updateNode r (fun n => g (f n)) ns.
Proof.
  intros r f g ns Hf. unfold updateNode. rewrite map_map. apply map_ext.
  intros n. destruct (node_ref n =? r) eqn:Hr.
  - rewrite Hf, Hr. reflexivity.
  - rewrite Hr. reflexivity.
Qed.

Lemma Forall_updateNode :
  forall (Q Q' : PidNode -> Prop) (r : nat) (f : PidNode -> PidNode) (ns : list PidNode),
    (forall n, Q n -> Q' n) -> (forall n, Q n -> Q' (f n)) ->
    Forall Q ns -> Forall Q' (updateNode r f ns).
Proof.
  intros Q Q' r f ns H1 H2 H. unfold updateNode. rewrite Forall_map.
  eapply Forall_impl; [|exact H]. simpl. intros n Hn.
  destruct (node_ref n =? r); auto.
Qed.

Lemma newLine_run :
  forall (E : Editor) (pts : list number) (n : LineName) (sai sid : number),
    newLine pts n sai sid E =
      (Ok (next_ref E),
       {| shapes := shapes E;
          lines := lines E ++ [{| line_ref := next_ref E; points := pts; line_name := n;
                                  cacStartAnchorIndex := sai; cacStartPidShapeId := sid;
                                  line_onLayer := false |}];
          anchorShapes := anchorShapes E; fired := fired E;
          next_ref := S (next_ref E) |}).
Proof. reflexivity. Qed.

Lemma conn_eta :
  forall conn : IDtoConnection,
    {| conn_l := conn_l conn; conn_sai := conn_sai conn; conn_sid := conn_sid conn;
       conn_eai := conn_eai conn |} = conn.
Proof. intros [l sai sid eai]. reflexivity. Qed.

(** One connection of the document, on the editor and on the document. *)
Lemma importJson_conn_effect :
  forall (E : Editor) (dto : IDtoPidShape) (conn : IDtoConnection),
    wf E ->
    Forall (synced (lines E)) (shapes E) ->
    In (dto_id dto) (map dto_id (docs E)) ->
    exists E' : Editor,
      importJson_conn (map node_ref (shapes E)) dto conn E = (Ok tt, E') /\
      Forall (synced (lines E')) (shapes E') /\
      map node_ref (shapes E') = map node_ref (shapes E) /\
      docs E' = importConn (dto_id dto) (docs E) conn /\
      layerRoutes E' =
        layerRoutes E ++ (if resolves (docs E) conn then [conn_l conn] else []).
Proof.
  intros E dto conn Hwf Hsync Hin.
  destruct Hwf as (Hnd & Hndl & Hlt & Hltl).
  set (r := next_ref E).
  set (nl := {| line_ref := r; points := conn_l conn; line_name := cacConnectorTwoPidShape;
                cacStartAnchorIndex := conn_sai conn; cacStartPidShapeId := conn_sid conn;
                line_onLayer := false |}).
  set (E1 := {| shapes := shapes E; lines := lines E ++ [nl];
                anchorShapes := anchorShapes E; fired := fired E;
                next_ref := S (next_ref E) |}).
  assert (Hnew : newLine (conn_l conn) cacConnectorTwoPidShape (conn_sai conn)
                   (conn_sid conn) E = (Ok r, E1)) by reflexivity.
  assert (Hmore : forall r' pts, pointsOf (lines E) r' = Some pts ->
                                 pointsOf (lines E ++ [nl]) r' = Some pts).
  { intros r' pts. apply pointsOf_app. }
  unfold docs. rewrite resolves_find.
  unfold importJson_conn. rewrite (bind_Ok _ Hnew).
  change (map node_ref (shapes E)) with (map node_ref (shapes E1)) at 1.
  rewrite (bind_Ok _ (findGroupById_run E1 (conn_sid conn) Hnd)).
  change (shapes E1) with (shapes E) at 1.
  destruct (find (fun n => strictEq (dto_id (cacDto n)) (conn_sid conn)) (shapes E))
    as [nS|] eqn:HfindS; cbn [option_map].
  - (* the start shape is found *)
    pose proof (find_some _ _ HfindS) as [HinS _].
    pose proof (findNode_NoDup _ _ Hnd HinS) as HnodeS.
    assert (HnodeS1 : findNode (node_ref nS) (shapes E1) = Some nS) by exact HnodeS.
    rewrite (bind_Ok _ (addConnectorToPath_start_run r (conn_sai conn) false HnodeS1)).
    set (cS := {| line := r; anchorIndex := conn_sai conn; connector_type := start |}).
    set (E2 := set_shapes (updateNode (node_ref nS) (pushConnector cS) (shapes E1)) E1).
    assert (Hrefs2 : map node_ref (shapes E2) = map node_ref (shapes E)).
    { apply map_updateNode_ref. reflexivity. }
    assert (Hnd2 : NoDup (map node_ref (shapes E2))) by (rewrite Hrefs2; exact Hnd).
    assert (Hg : findGroupById (map node_ref (shapes E)) (dto_id dto) E2 =
                 (Ok (option_map node_ref
                        (find (fun n => strictEq (dto_id (cacDto n)) (dto_id dto))
                              (shapes E2))), E2)).
    { rewrite <- Hrefs2. apply findGroupById_run. exact Hnd2. }
    rewrite (bind_Ok _ Hg).
    destruct (find_hasId (shapes E) (dto_id dto) Hin) as [nE HfindE].
    pose proof (find_some _ _ HfindE) as [HinE _].
    assert (HfindE2 : find (fun n => strictEq (dto_id (cacDto n)) (dto_id dto)) (shapes E2)
                      = Some (if node_ref nE =? node_ref nS
                              then pushConnector cS nE else nE)).
    { unfold E2. cbn [shapes set_shapes]. rewrite find_updateNode by reflexivity.
      change (shapes E1) with (shapes E). rewrite HfindE. reflexivity. }
    rewrite HfindE2. cbn [option_map].
    assert (HrefE : node_ref (if node_ref nE =? node_ref nS
                              then pushConnector cS nE else nE) = node_ref nE).
    { destruct (node_ref nE =? node_ref nS); reflexivity. }
    rewrite HrefE.
    assert (HnodeE2 : findNode (node_ref nE) (shapes E2)
                      = Some (if node_ref nE =? node_ref nS
                              then pushConnector cS nE else nE)).
    { unfold E2. cbn [shapes set_shapes]. rewrite findNode_updateNode by reflexivity.
      change (shapes E1) with (shapes E).
      rewrite (findNode_NoDup _ _ Hnd HinE). reflexivity. }
    assert (Hline2 : findLine r (lines E2) = Some nl).
    { unfold E2. cbn [lines set_shapes E1]. rewrite findLine_app.
      rewrite (findLine_fresh r _ Hltl). unfold findLine. simpl.
      rewrite Nat.eqb_refl. reflexivity. }
    rewrite (bind_Ok _ (addConnectorToPath_end_run (conn_eai conn) true HnodeE2 Hline2)).
    set (cE := {| line := r; anchorIndex := conn_eai conn; connector_type := end_ |}).
    cbn [points cacStartAnchorIndex cacStartPidShapeId nl]. rewrite conn_eta.
    unfold layerAddLine, setLine, modify.
    cbn [lines set_fired set_shapes E2 E1 fired shapes].
    rewrite updateNode_compose by reflexivity.
    set (S' := updateNode (node_ref nE)
                 (fun n => pushConnection conn (pushConnector cE n))
                 (updateNode (node_ref nS) (pushConnector cS) (shapes E))).
    set (L' := updateLine r (set_line_onLayer true) (lines E ++ [nl])).
    eexists. split; [reflexivity|]. cbn [shapes lines set_lines].
    assert (HL' : forall r' pts, pointsOf (lines E) r' = Some pts ->
                                 pointsOf L' r' = Some pts).
    { intros r' pts Hp. unfold L'. rewrite pointsOf_updateLine by reflexivity.
      apply Hmore. exact Hp. }
    assert (HL'r : pointsOf L' r = Some (conn_l conn)).
    { unfold L'. rewrite pointsOf_updateLine by reflexivity. unfold pointsOf.
      rewrite findLine_app, (findLine_fresh r _ Hltl). unfold findLine. simpl.
      rewrite Nat.eqb_refl. reflexivity. }
    split; [|split; [|split]]; unfold layerRoutes, docs;
      cbn [shapes lines set_lines set_fired set_shapes].
    + unfold S'.
      apply (Forall_updateNode (synced L') (synced L')); [auto| |].
      * intros n Hn. apply synced_pushConnection_end; assumption.
      * apply (Forall_updateNode (synced (lines E)) (synced L')); [| |exact Hsync].
        -- intros n Hn. apply (synced_more_lines (lines E)); assumption.
        -- intros n Hn. apply synced_pushConnector_start.
           apply (synced_more_lines (lines E)); assumption.
    + unfold S'. rewrite !map_updateNode_ref by reflexivity. reflexivity.
    + unfold S'. rewrite <- updateNode_compose by reflexivity.
      set (ns' := updateNode (node_ref nE) (pushConnector cE)
                    (updateNode (node_ref nS) (pushConnector cS) (shapes E))).
      set (nE' := pushConnector cE
                    (if node_ref nE =? node_ref nS then pushConnector cS nE else nE)).
      assert (Hfind' : find (fun n => strictEq (dto_id (cacDto n)) (dto_id dto)) ns'
                       = Some nE').
      { unfold ns'. rewrite find_updateNode by reflexivity.
        change (updateNode (node_ref nS) (pushConnector cS) (shapes E)) with (shapes E2).
        rewrite HfindE2. cbn [option_map]. rewrite HrefE, Nat.eqb_refl. reflexivity. }
      assert (Hnd' : NoDup (map node_ref ns')).
      { unfold ns'. rewrite !map_updateNode_ref by reflexivity. exact Hnd. }
      pose proof (docs_pushConnection (dto_id dto) conn ns' nE' Hnd' Hfind') as Hd.
      assert (Href' : node_ref nE' = node_ref nE) by exact HrefE.
      rewrite Href' in Hd. rewrite Hd. unfold ns'.
      rewrite !docs_updateNode_same by reflexivity.
      unfold importConn. rewrite resolves_find, HfindS. reflexivity.
    + unfold L', updateLine.
      rewrite map_app, filter_app, map_app.
      fold (updateLine r (set_line_onLayer true) (lines E)).
      rewrite (updateLine_fresh r _ _ Hltl). simpl. rewrite Nat.eqb_refl. reflexivity.
  - (* no shape has the id [sid]: the connection is skipped *)
    exists E1. split; [reflexivity|].
    split; [|split; [|split]].
    + eapply Forall_impl; [|exact Hsync]. intros n Hn.
      apply (synced_more_lines (lines E)); assumption.
    + reflexivity.
    + unfold importConn. rewrite resolves_find.
      change (shapes E1) with (shapes E). rewrite HfindS. reflexivity.
    + unfold layerRoutes. cbn [lines E1]. rewrite filter_app. simpl.
      rewrite !app_nil_r. reflexivity.
Qed.

Lemma importJson_conn_run :
  forall (E : Editor) (dto : IDtoPidShape) (conn : IDtoConnection),
    wf E ->
    Forall (synced (lines E)) (shapes E) ->
    In (dto_id dto) (map dto_id (docs E)) ->
    exists E' : Editor,
      importJson_conn (map node_ref (shapes E)) dto conn E = (Ok tt, E') /\
      wf E' /\
      Forall (synced (lines E')) (shapes E') /\
      map node_ref (shapes E') = map node_ref (shapes E) /\
      docs E' = importConn (dto_id dto) (docs E) conn /\
      layerRoutes E' =
        layerRoutes E ++ (if resolves (docs E) conn then [conn_l conn] else []).
Proof.
  intros E dto conn Hwf Hsync Hin.
  destruct (importJson_conn_effect E dto conn Hwf Hsync Hin) as [E' [Hrun Hrest]].
  exists E'. split; [exact Hrun|]. split; [|exact Hrest].
  assert (Hwf' : wf (exec (importJson_conn (map node_ref (shapes E)) dto conn) E)).
  { apply (preserves_importJson_conn
             (length (filter isCurrent (lines E))) (map node_ref (shapes E)) dto conn E).
    split; [exact Hwf|]. unfold atMost. lia. }
  unfold exec in Hwf'. rewrite Hrun in Hwf'. exact Hwf'.
Qed.

Lemma importJson_shapes_run :
  forall (D : list IDtoPidShape) (E : Editor),
    wf E ->
    Forall (synced (lines E)) (shapes E) ->
    exists (gs : list nat) (E' : Editor),
      mapM (fun i => addShape (dto_s i) (dto_x i) (dto_y i) (dto_id i)) D E = (Ok gs, E') /\
      wf E' /\
      Forall (synced (lines E')) (shapes E') /\
      map node_ref (shapes E') = map node_ref (shapes E) ++ gs /\
      docs E' = docs E ++ map strip D /\
      lines E' = lines E /\
      length gs = length D.
Proof.
  intros D. induction D as [|d D IH]; intros E Hwf Hsync.
  - exists [], E. simpl. unfold docs. rewrite !app_nil_r. auto 10.
  - simpl.
    pose proof (addShape_run E (dto_s d) (dto_x d) (dto_y d) (dto_id d)) as Hadd.
    set (E1 := snd (addShape (dto_s d) (dto_x d) (dto_y d) (dto_id d) E)).
    assert (Hwf1 : wf E1).
    { apply (preserves_addShape (fun _ => True) (dto_s d) (dto_x d) (dto_y d) (dto_id d) E).
      split; [exact Hwf|exact I]. }
    assert (HE1 : E1 = snd (addShape (dto_s d) (dto_x d) (dto_y d) (dto_id d) E))
      by reflexivity.
    rewrite Hadd in HE1. cbn [snd] in HE1. rewrite <- HE1 in Hadd.
    assert (Hsync1 : Forall (synced (lines E1)) (shapes E1)).
    { rewrite HE1. cbn [shapes lines]. apply Forall_app. split; [exact Hsync|].
      constructor; [|constructor]. reflexivity. }
    destruct (IH E1 Hwf1 Hsync1) as (gs & E' & Hrun & Hwf' & Hsync' & Hrefs & Hdocs & Hlines & Hlen).
    exists (next_ref E :: gs), E'.
    rewrite (bind_Ok _ Hadd). rewrite (bind_Ok _ Hrun).
    split; [reflexivity|]. split; [exact Hwf'|]. split; [exact Hsync'|].
    rewrite Hrefs, Hdocs, Hlines, HE1. unfold docs. cbn [shapes lines].
    rewrite !map_app, <- !app_assoc. simpl. rewrite Hlen. auto.
Qed.

Lemma importJson_entry_run :
  forall (gs : list nat) (dto : IDtoPidShape) (cs : list IDtoConnection) (E : Editor),
    wf E ->
    Forall (synced (lines E)) (shapes E) ->
    map node_ref (shapes E) = gs ->
    In (dto_id dto) (map dto_id (docs E)) ->
    exists E' : Editor,
      forEach cs (importJson_conn gs dto) E = (Ok tt, E') /\
      wf E' /\
      Forall (synced (lines E')) (shapes E') /\
      map node_ref (shapes E') = gs /\
      docs E' = fold_left (importConn (dto_id dto)) cs (docs E) /\
      layerRoutes E' = layerRoutes E ++ map conn_l (filter (resolves (docs E)) cs).
Proof.
  intros gs dto cs. induction cs as [|conn cs IH]; intros E Hwf Hsync Hgs Hin.
  - exists E. simpl. rewrite app_nil_r. auto 10.
  - simpl. subst gs.
    destruct (importJson_conn_run E dto conn Hwf Hsync Hin)
      as (E1 & Hrun & Hwf1 & Hsync1 & Hrefs1 & Hdocs1 & Hroutes1).
    assert (Hids1 : map dto_id (docs E1) = map dto_id (docs E)).
    { rewrite Hdocs1. apply importConn_ids. }
    destruct (IH E1 Hwf1 Hsync1 Hrefs1) as (E' & Hrun' & Hwf' & Hsync' & Hrefs' & Hdocs' & Hroutes').
    { rewrite Hids1. exact Hin. }
    exists E'. rewrite (bind_Ok _ Hrun). split; [exact Hrun'|].
    split; [exact Hwf'|]. split; [exact Hsync'|]. split; [exact Hrefs'|].
    split; [rewrite Hdocs', Hdocs1; reflexivity|].
    rewrite Hroutes', Hroutes1, <- app_assoc. f_equal.
    assert (Hres : filter (resolves (docs E1)) cs = filter (resolves (docs E)) cs).
    { apply filter_ext. intros c. apply resolves_ids. exact Hids1. }
    rewrite Hres. destruct (resolves (docs E) conn); reflexivity.
Qed.

Lemma importJson_entries_run :
  forall (gs : list nat) (D' : list IDtoPidShape) (E : Editor),
    wf E ->
    Forall (synced (lines E)) (shapes E) ->
    map node_ref (shapes E) = gs ->
    incl (map dto_id D') (map dto_id (docs E)) ->
    exists E' : Editor,
      forEach D' (fun dto => forEach (dto_c dto) (importJson_conn gs dto)) E = (Ok tt, E') /\
      wf E' /\
      Forall (synced (lines E')) (shapes E') /\
      map node_ref (shapes E') = gs /\
      docs E' = fold_left importEntry D' (docs E) /\
      layerRoutes E' =
        layerRoutes E ++ map conn_l (filter (resolves (docs E)) (flat_map dto_c D')).
Proof.
  intros gs D'. induction D' as [|dto D' IH]; intros E Hwf Hsync Hgs Hincl.
  - exists E. simpl. rewrite app_nil_r. auto 10.
  - simpl.
    destruct (importJson_entry_run gs dto (dto_c dto) E Hwf Hsync Hgs)
      as (E1 & Hrun & Hwf1 & Hsync1 & Hrefs1 & Hdocs1 & Hroutes1).
    { apply Hincl. left. reflexivity. }
    assert (Hids1 : map dto_id (docs E1) = map dto_id (docs E)).
    { rewrite Hdocs1. apply (importEntry_ids dto). }
    destruct (IH E1 Hwf1 Hsync1 Hrefs1) as (E' & Hrun' & Hwf' & Hsync' & Hrefs' & Hdocs' & Hroutes').
    { rewrite Hids1. intros i Hi. apply Hincl. right. exact Hi. }
    exists E'. rewrite (bind_Ok _ Hrun). split; [exact Hrun'|].
    split; [exact Hwf'|]. split; [exact Hsync'|]. split; [exact Hrefs'|].
    split; [rewrite Hdocs', Hdocs1; reflexivity|].
    rewrite Hroutes', Hroutes1, <- app_assoc, filter_app, map_app. f_equal. f_equal.
    f_equal. apply filter_ext. intros c. apply resolves_ids. exact Hids1.
Qed.

Lemma wf_init : wf initEditor.
Proof. unfold wf. simpl. repeat split; constructor. Qed.

(** Importing a document into a new editor. *)
Lemma importJson_run :
  forall D : list IDtoPidShape,
    exists (gs : list nat) (E' : Editor),
      importJson (Some D) initEditor = (Ok (Some gs), E') /\
      length gs = length D /\
      NoDup (map node_ref (shapes E')) /\
      Forall (synced (lines E')) (shapes E') /\
      docs E' = imported D /\
      layerRoutes E' = map conn_l (filter (resolves D) (flat_map dto_c D)).
Proof.
  intros D. unfold importJson.
  destruct (importJson_shapes_run D initEditor wf_init (Forall_nil _))
    as (gs & E1 & Hrun1 & Hwf1 & Hsync1 & Hrefs1 & Hdocs1 & Hlines1 & Hlen).
  simpl in Hrefs1, Hdocs1.
  destruct (importJson_entries_run gs D E1 Hwf1 Hsync1 Hrefs1)
    as (E' & Hrun' & Hwf' & Hsync' & Hrefs' & Hdocs' & Hroutes').
  { rewrite Hdocs1, strip_ids. apply incl_refl. }
  exists gs, E'. rewrite (bind_Ok _ Hrun1). rewrite (bind_Ok _ Hrun').
  split; [reflexivity|]. split; [exact Hlen|].
  split; [exact (proj1 Hwf')|]. split; [exact Hsync'|].
  split; [rewrite Hdocs', Hdocs1; reflexivity|].
  rewrite Hroutes'. unfold layerRoutes. rewrite Hlines1. simpl.
  f_equal. apply filter_ext. intros c. apply resolves_ids.
  rewrite Hdocs1. apply strip_ids.
Qed.

(** C2, as the code has it: a document whose ids are distinct and whose
    connections all start at a shape of the document comes back from
    [importJson] followed by [exportJson] on a new editor as it was: the same
    shapes in the same order, with the same templates, positions, ids and
    connections ([l], [sai], [sid] and [eai]). *)
Theorem import_export_roundtrip :
  forall D : list IDtoPidShape,
    NoDup (map dto_id D) ->
    (forall dto c, In dto D -> In c (dto_c dto) -> resolves D c = true) ->
    eval (_ <- importJson (Some D) ;; exportJson) initEditor = Ok D.
Proof.
  intros D Hnd Hres.
  destruct (importJson_run D) as (gs & E' & Hrun & _ & Hnd' & Hsync' & Hdocs' & _).
  unfold eval. rewrite (bind_Ok _ Hrun). unfold exportJson.
  rewrite (export_synced E' Hnd' Hsync'). simpl.
  rewrite Hdocs'. rewrite (imported_id D Hnd Hres). reflexivity.
Qed.

(** *** The connectors that [importJson] attaches *)

Lemma connectorsOf_pushConnector :
  forall (c : IConnector) (n : PidNode),
    connectorsOf (pushConnector c n) = connectorsOf n ++ [c].
Proof. intros c n. reflexivity. Qed.

Lemma filter_connects_other :
  forall (t : ConnectorType) (r : nat) (c : IConnector) (cs : list IConnector),
    connects t r c = false ->
    filter (connects t r) (cs ++ [c]) = filter (connects t r) cs.
Proof.
  intros t r c cs H. rewrite filter_app. simpl. rewrite H. apply app_nil_r.
Qed.

Lemma holders_updateNode_other :
  forall (t : ConnectorType) (r g : nat) (f : PidNode -> PidNode) (ns : list PidNode),
    (forall n, node_ref (f n) = node_ref n) ->
    (forall n, filter (connects t r) (connectorsOf (f n))
               = filter (connects t r) (connectorsOf n)) ->
    holders t r (updateNode g f ns) = holders t r ns.
Proof.
  intros t r g f ns Href Hf. unfold holders, updateNode.
  induction ns as [|n ns IH]; simpl; [reflexivity|].
  rewrite IH. f_equal. destruct (node_ref n =? g); [|reflexivity].
  rewrite Href, Hf. reflexivity.
Qed.

Lemma holders_updateNode_new :
  forall (t : ConnectorType) (r g : nat) (c : IConnector) (f : PidNode -> PidNode)
         (ns : list PidNode),
    (forall n, node_ref (f n) = node_ref n) ->
    (forall n, connectorsOf (f n) = connectorsOf n ++ [c]) ->
    connects t r c = true ->
    NoDup (map node_ref ns) ->
    In g (map node_ref ns) ->
    holders t r ns = [] ->
    holders t r (updateNode g f ns) = [(g, anchorIndex c)].
Proof.
  intros t r g c f ns Href Hf Hc. unfold holders, updateNode.
  induction ns as [|n ns IH]; intros Hnd Hin Hnone; [destruct Hin|].
  simpl in *. apply app_eq_nil in Hnone. destruct Hnone as [Hn Hns].
  inversion Hnd as [|? ? Hnotin Hnd']; subst.
  destruct (node_ref n =? g) eqn:Hg.
  - apply Nat.eqb_eq in Hg. rewrite Href, Hf, filter_app, map_app, Hn. simpl.
    rewrite Hc. simpl. rewrite Hg. f_equal.
    assert (Hsame : map (fun n0 => if node_ref n0 =? g then f n0 else n0) ns = ns).
    { rewrite <- (map_id ns) at 2. apply map_ext_in. intros n0 Hn0.
      destruct (node_ref n0 =? g) eqn:Hg0; [|reflexivity].
      exfalso. apply Hnotin. apply Nat.eqb_eq in Hg0. rewrite Hg, <- Hg0.
      apply in_map. exact Hn0. }
    rewrite Hsame. exact Hns.
  - rewrite Hn. simpl. apply IH; [exact Hnd'| |exact Hns].
    destruct Hin as [Hin|Hin]; [|exact Hin].
    apply Nat.eqb_neq in Hg. contradiction.
Qed.

Lemma holders_fresh :
  forall (t : ConnectorType) (r : nat) (ls : list Line) (ns : list PidNode),
    Forall (attached ls) ns ->
    Forall (fun l => line_ref l < r) ls ->
    holders t r ns = [].
Proof.
  intros t r ls ns Hatt Hlt. unfold holders.
  induction Hatt as [|n ns Hn _ IH]; simpl; [reflexivity|].
  rewrite IH, app_nil_r.
  assert (Hnone : filter (connects t r) (connectorsOf n) = []).
  { unfold attached in Hn. induction Hn as [|c cs (l & Hl & _) _ IHc]; simpl; [reflexivity|].
    rewrite IHc. unfold connects.
    destruct (line c =? r) eqn:Hr; [|reflexivity]. exfalso.
    apply Nat.eqb_eq in Hr. apply findLine_In in Hl. destruct Hl as [Hin Href].
    rewrite Forall_forall in Hlt. specialize (Hlt l Hin). lia. }
  rewrite Hnone. reflexivity.
Qed.

Lemma attached_more :
  forall (ls ls' : list Line) (n : PidNode), attached ls n -> attached (ls ++ ls') n.
Proof.
  intros ls ls' n H. unfold attached in *. eapply Forall_impl; [|exact H].
  intros c (l & Hl & Hon). exists l. rewrite findLine_app, Hl. auto.
Qed.

(** What the shapes held stays when a shape gets a connector to another
    line. *)
Lemma rebuilt_updateNode :
  forall (g : nat) (f : PidNode -> PidNode) (ns : list PidNode) (l : Line)
         (dc : IDtoPidShape * IDtoConnection),
    (forall n, node_ref (f n) = node_ref n) ->
    (forall n, dto_id (cacDto (f n)) = dto_id (cacDto n)) ->
    (forall n, incl (dto_c (cacDto n)) (dto_c (cacDto (f n)))) ->
    (forall t n, filter (connects t (line_ref l)) (connectorsOf (f n))
                 = filter (connects t (line_ref l)) (connectorsOf n)) ->
    rebuilt ns l dc -> rebuilt (updateNode g f ns) l dc.
Proof.
  intros g f ns l dc Href Hid Hc Hf (H1 & H2 & H3 & H4 & (nS & HS & HhS) & (nE & HE & HhE & Hin)).
  assert (Hfind : forall id n,
             find (fun n => strictEq (dto_id (cacDto n)) id) ns = Some n ->
             find (fun n => strictEq (dto_id (cacDto n)) id) (updateNode g f ns)
               = Some (if node_ref n =? g then f n else n)).
  { intros id n Hn. rewrite find_updateNode; [rewrite Hn; reflexivity|].
    intros n0. rewrite Hid. reflexivity. }
  assert (Hsame : forall n : PidNode, node_ref (if node_ref n =? g then f n else n)
                                      = node_ref n).
  { intros n. destruct (node_ref n =? g); [apply Href|reflexivity]. }
  repeat split; try assumption.
  - eexists. split; [apply Hfind; exact HS|]. rewrite Hsame.
    rewrite holders_updateNode_other; [exact HhS|exact Href|apply Hf].
  - eexists. split; [apply Hfind; exact HE|]. rewrite Hsame. split.
    + rewrite holders_updateNode_other; [exact HhE|exact Href|apply Hf].
    + destruct (node_ref nE =? g); [apply Hc|]; exact Hin.
Qed.

Lemma Forall2_impl_in :
  forall {A B : Type} (R R' : A -> B -> Prop) (xs : list A) (ys : list B),
    (forall x y, In x xs -> R x y -> R' x y) -> Forall2 R xs ys -> Forall2 R' xs ys.
Proof.
  intros A B R R' xs ys H HF. induction HF as [|x y xs ys Hxy _ IH]; constructor.
  - apply H; [left; reflexivity|exact Hxy].
  - apply IH. intros x' y' Hin. apply H. right. exact Hin.
Qed.

(** The state one connection of the document leaves. *)
Lemma importJson_conn_state :
  forall (E : Editor) (dto : IDtoPidShape) (conn : IDtoConnection),
    wf E ->
    In (dto_id dto) (map dto_id (docs E)) ->
    let r := next_ref E in
    let nl := fun on : bool =>
                {| line_ref := r; points := conn_l conn;
                   line_name := cacConnectorTwoPidShape;
                   cacStartAnchorIndex := conn_sai conn;
                   cacStartPidShapeId := conn_sid conn; line_onLayer := on |} in
    let cS := {| line := r; anchorIndex := conn_sai conn; connector_type := start |} in
    let cE := {| line := r; anchorIndex := conn_eai conn; connector_type := end_ |} in
    exists nE : PidNode,
      find (fun n => strictEq (dto_id (cacDto n)) (dto_id dto)) (shapes E) = Some nE /\
      exec (importJson_conn (map node_ref (shapes E)) dto conn) E =
        match find (fun n => strictEq (dto_id (cacDto n)) (conn_sid conn)) (shapes E) with
        | Some nS =>
            {| shapes :=
                 updateNode (node_ref nE)
                   (fun n => pushConnection conn (pushConnector cE n))
                   (updateNode (node_ref nS) (pushConnector cS) (shapes E));
               lines := lines E ++ [nl true];
               anchorShapes := anchorShapes E; fired := fired E; next_ref := S r |}
        | None =>
            {| shapes := shapes E; lines := lines E ++ [nl false];
               anchorShapes := anchorShapes E; fired := fired E; next_ref := S r |}
        end.
Proof.
  intros E dto conn Hwf Hin r nl cS cE.
  destruct Hwf as (Hnd & Hndl & Hlt & Hltl).
  destruct (find_hasId (shapes E) (dto_id dto) Hin) as [nE HfindE].
  exists nE. split; [exact HfindE|].
  set (E1 := {| shapes := shapes E; lines := lines E ++ [nl false];
                anchorShapes := anchorShapes E; fired := fired E;
                next_ref := S (next_ref E) |}).
  assert (Hnew : newLine (conn_l conn) cacConnectorTwoPidShape (conn_sai conn)
                   (conn_sid conn) E = (Ok r, E1)) by reflexivity.
  unfold exec, importJson_conn. rewrite (bind_Ok _ Hnew).
  change (map node_ref (shapes E)) with (map node_ref (shapes E1)) at 1.
  rewrite (bind_Ok _ (findGroupById_run E1 (conn_sid conn) Hnd)).
  change (shapes E1) with (shapes E) at 1.
  destruct (find (fun n => strictEq (dto_id (cacDto n)) (conn_sid conn)) (shapes E))
    as [nS|] eqn:HfindS; cbn [option_map]; [|reflexivity].
  pose proof (find_some _ _ HfindS) as [HinS _].
  pose proof (findNode_NoDup _ _ Hnd HinS) as HnodeS.
  assert (HnodeS1 : findNode (node_ref nS) (shapes E1) = Some nS) by exact HnodeS.
  rewrite (bind_Ok _ (addConnectorToPath_start_run r (conn_sai conn) false HnodeS1)).
  fold cS.
  set (E2 := set_shapes (updateNode (node_ref nS) (pushConnector cS) (shapes E1)) E1).
  assert (Hrefs2 : map node_ref (shapes E2) = map node_ref (shapes E)).
  { apply map_updateNode_ref. reflexivity. }
  assert (Hnd2 : NoDup (map node_ref (shapes E2))) by (rewrite Hrefs2; exact Hnd).
  assert (Hg : findGroupById (map node_ref (shapes E)) (dto_id dto) E2 =
               (Ok (option_map node_ref
                      (find (fun n => strictEq (dto_id (cacDto n)) (dto_id dto))
                            (shapes E2))), E2)).
  { rewrite <- Hrefs2. apply findGroupById_run. exact Hnd2. }
  rewrite (bind_Ok _ Hg).
  pose proof (find_some _ _ HfindE) as [HinE _].
  assert (HfindE2 : find (fun n => strictEq (dto_id (cacDto n)) (dto_id dto)) (shapes E2)
                    = Some (if node_ref nE =? node_ref nS
                            then pushConnector cS nE else nE)).
  { unfold E2. cbn [shapes set_shapes]. rewrite find_updateNode by reflexivity.
    change (shapes E1) with (shapes E). rewrite HfindE. reflexivity. }
  rewrite HfindE2. cbn [option_map].
  assert (HrefE : node_ref (if node_ref nE =? node_ref nS
                            then pushConnector cS nE else nE) = node_ref nE).
  { destruct (node_ref nE =? node_ref nS); reflexivity. }
  rewrite HrefE.
  assert (HnodeE2 : findNode (node_ref nE) (shapes E2)
                    = Some (if node_ref nE =? node_ref nS
                            then pushConnector cS nE else nE)).
  { unfold E2. cbn [shapes set_shapes]. rewrite findNode_updateNode by reflexivity.
    change (shapes E1) with (shapes E).
    rewrite (findNode_NoDup _ _ Hnd HinE). reflexivity. }
  assert (Hline2 : findLine r (lines E2) = Some (nl false)).
  { unfold E2. cbn [lines set_shapes E1]. rewrite findLine_app.
    rewrite (findLine_fresh r _ Hltl). unfold findLine. simpl.
    unfold r. rewrite Nat.eqb_refl. reflexivity. }
  rewrite (bind_Ok _ (addConnectorToPath_end_run (conn_eai conn) true HnodeE2 Hline2)).
  fold cE. cbn [points cacStartAnchorIndex cacStartPidShapeId nl]. rewrite conn_eta.
  unfold layerAddLine, setLine, modify.
  cbn [snd lines set_fired set_shapes set_lines E2 E1 fired shapes anchorShapes next_ref].
  rewrite updateNode_compose by reflexivity.
  f_equal. unfold updateLine. rewrite map_app.
  fold (updateLine r (set_line_onLayer true) (lines E)).
  rewrite (updateLine_fresh r _ _ Hltl). simpl. unfold r. rewrite Nat.eqb_refl.
  reflexivity.
Qed.

Lemma attached_pushConnector :
  forall (ls : list Line) (c : IConnector) (n : PidNode) (l : Line),
    findLine (line c) ls = Some l -> line_onLayer l = true ->
    attached ls n -> attached ls (pushConnector c n).
Proof.
  intros ls c n l Hl Hon H. unfold attached. rewrite connectorsOf_pushConnector.
  apply Forall_app. split; [exact H|]. constructor; [|constructor].
  exists l. auto.
Qed.

Lemma find_updateNode_first :
  forall (p : PidNode -> bool) (f : PidNode -> PidNode) (g : nat) (ns : list PidNode)
         (n : PidNode),
    (forall n0, p (f n0) = p n0) ->
    (forall n0, node_ref (f n0) = node_ref n0) ->
    find p ns = Some n ->
    find p (updateNode g f ns) = Some (if node_ref n =? g then f n else n) /\
    node_ref (if node_ref n =? g then f n else n) = node_ref n.
Proof.
  intros p f g ns n Hp Href H. split.
  - rewrite find_updateNode by exact Hp. rewrite H. reflexivity.
  - destruct (node_ref n =? g); [apply Href|reflexivity].
Qed.

(** One connection more is gone through: when its [sid] is the id of a
    shape, its line is on the layer and its two connectors and its record are
    where they belong; when not, nothing is attached. *)
Lemma importJson_conn_rebuilt :
  forall (D : list IDtoPidShape) (E : Editor) (dto : IDtoPidShape) (conn : IDtoConnection)
         (processed : list (IDtoPidShape * IDtoConnection)),
    wf E ->
    In (dto_id dto) (map dto_id (docs E)) ->
    map dto_id (docs E) = map dto_id D ->
    rebuiltSoFar D processed E ->
    rebuiltSoFar D (processed ++ [(dto, conn)])
      (exec (importJson_conn (map node_ref (shapes E)) dto conn) E).
Proof.
  intros D E dto conn processed Hwf Hin Hids [Hreb Hatt].
  destruct (importJson_conn_state E dto conn Hwf Hin) as (nE & HfindE & Hstate).
  cbv zeta in Hstate. rewrite Hstate. clear Hstate.
  destruct Hwf as (Hnd & Hndl & Hlt & Hltl).
  assert (Hres : resolves D conn =
                 match find (fun n => strictEq (dto_id (cacDto n)) (conn_sid conn))
                            (shapes E) with
                 | Some _ => true
                 | None => false
                 end).
  { rewrite <- (resolves_ids (docs E) D conn Hids). unfold docs. apply resolves_find. }
  assert (Hfresh : forall t, holders t (next_ref E) (shapes E) = []).
  { intros t. eapply holders_fresh; eassumption. }
  set (r := next_ref E) in *.
  destruct (find (fun n => strictEq (dto_id (cacDto n)) (conn_sid conn)) (shapes E))
    as [nS|] eqn:HfindS.
  - (* the connection is kept *)
    set (cS := {| line := r; anchorIndex := conn_sai conn; connector_type := start |}).
    set (cE := {| line := r; anchorIndex := conn_eai conn; connector_type := end_ |}).
    set (fE := fun n : PidNode => pushConnection conn (pushConnector cE n)).
    set (nl := {| line_ref := r; points := conn_l conn;
                  line_name := cacConnectorTwoPidShape;
                  cacStartAnchorIndex := conn_sai conn;
                  cacStartPidShapeId := conn_sid conn; line_onLayer := true |}).
    set (ns1 := updateNode (node_ref nS) (pushConnector cS) (shapes E)).
    pose proof (find_some _ _ HfindS) as [HinS _].
    pose proof (find_some _ _ HfindE) as [HinE _].
    assert (Hline : findLine r (lines E ++ [nl]) = Some nl).
    { rewrite findLine_app, (findLine_fresh r _ Hltl). unfold findLine. simpl.
      unfold r. rewrite Nat.eqb_refl. reflexivity. }
    assert (Hnd1 : NoDup (map node_ref ns1)).
    { unfold ns1. rewrite map_updateNode_ref by reflexivity. exact Hnd. }
    unfold rebuiltSoFar. cbn [shapes lines]. fold ns1.
    rewrite !filter_app. cbn [filter line_onLayer nl snd]. rewrite Hres. split.
    + apply Forall2_app.
      * apply (Forall2_impl_in (rebuilt (shapes E))); [|exact Hreb].
        intros l dc Hl Hr. apply filter_In in Hl. destruct Hl as [Hl _].
        assert (Hlr : (r =? line_ref l) = false).
        { apply Nat.eqb_neq. rewrite Forall_forall in Hltl. specialize (Hltl l Hl).
          unfold r. lia. }
        apply rebuilt_updateNode;
          [reflexivity|reflexivity|intros n; cbn; apply incl_appl, incl_refl| |].
        { intros t n. change (connectorsOf (fE n)) with (connectorsOf n ++ [cE]).
          apply filter_connects_other. unfold connects. cbn [line cE]. rewrite Hlr.
          reflexivity. }
        apply rebuilt_updateNode;
          [reflexivity|reflexivity|intros n; apply incl_refl| |exact Hr].
        intros t n. rewrite connectorsOf_pushConnector.
        apply filter_connects_other. unfold connects. cbn [line cS]. rewrite Hlr.
        reflexivity.
      * constructor; [|constructor].
        set (pS := fun n : PidNode => strictEq (dto_id (cacDto n)) (conn_sid conn)).
        set (pE := fun n : PidNode => strictEq (dto_id (cacDto n)) (dto_id dto)).
        destruct (find_updateNode_first pS (pushConnector cS) (node_ref nS) (shapes E) nS
                    (fun _ => eq_refl) (fun _ => eq_refl) HfindS) as [HS1 HrefS1].
        fold ns1 in HS1.
        destruct (find_updateNode_first pS fE (node_ref nE) ns1 _
                    (fun _ => eq_refl) (fun _ => eq_refl) HS1) as [HS2 HrefS2].
        destruct (find_updateNode_first pE (pushConnector cS) (node_ref nS) (shapes E) nE
                    (fun _ => eq_refl) (fun _ => eq_refl) HfindE) as [HE1 HrefE1].
        fold ns1 in HE1.
        destruct (find_updateNode_first pE fE (node_ref nE) ns1 _
                    (fun _ => eq_refl) (fun _ => eq_refl) HE1) as [HE2 HrefE2].
        unfold pS in HS2. unfold pE in HE2.
        unfold rebuilt. cbn [snd fst points cacStartAnchorIndex cacStartPidShapeId
                             line_name line_ref nl].
        split; [reflexivity|]. split; [reflexivity|]. split; [reflexivity|].
        split; [reflexivity|]. split.
        -- eexists. split; [exact HS2|]. rewrite HrefS2, HrefS1.
           rewrite holders_updateNode_other;
             [|reflexivity
              |intros n; change (connectorsOf (fE n)) with (connectorsOf n ++ [cE]);
               apply filter_connects_other; unfold connects; cbn [line cE connector_type isEnd];
               apply andb_false_r].
           apply (holders_updateNode_new start r (node_ref nS) cS);
             [reflexivity|apply connectorsOf_pushConnector| |exact Hnd| |apply Hfresh].
           ++ unfold connects. cbn [line cS connector_type isEnd]. rewrite Nat.eqb_refl.
              reflexivity.
           ++ apply in_map. exact HinS.
        -- eexists. split; [exact HE2|]. rewrite HrefE2, HrefE1. split.
           ++ apply (holders_updateNode_new end_ r (node_ref nE) cE);
                [reflexivity|reflexivity| |exact Hnd1| |].
              ** unfold connects. cbn [line cE connector_type isEnd]. rewrite Nat.eqb_refl.
                 reflexivity.
              ** unfold ns1. rewrite map_updateNode_ref by reflexivity.
                 apply in_map. exact HinE.
              ** unfold ns1. rewrite holders_updateNode_other; [apply Hfresh|reflexivity|].
                 intros n. rewrite connectorsOf_pushConnector.
                 apply filter_connects_other. unfold connects.
                 cbn [line cS connector_type isEnd]. apply andb_false_r.
           ++ rewrite Nat.eqb_refl. unfold fE. cbn [pushConnection cacDto set_cacDto
                                                            dto_c set_dto_c].
              apply in_or_app. right. left. reflexivity.
    + apply (Forall_updateNode (attached (lines E ++ [nl])) (attached (lines E ++ [nl])));
        [auto| |].
      * intros n Hn. unfold fE.
        change (attached (lines E ++ [nl]) (pushConnector cE n)).
        apply (attached_pushConnector _ cE n nl); [exact Hline|reflexivity|exact Hn].
      * unfold ns1.
        apply (Forall_updateNode (attached (lines E)) (attached (lines E ++ [nl])));
          [| |exact Hatt].
        -- intros n Hn. apply attached_more. exact Hn.
        -- intros n Hn. apply (attached_pushConnector _ cS n nl);
             [exact Hline|reflexivity|apply attached_more; exact Hn].
  - (* the connection is skipped *)
    unfold rebuiltSoFar. cbn [shapes lines].
    rewrite !filter_app. cbn [filter line_onLayer snd]. rewrite Hres, !app_nil_r.
    split; [exact Hreb|].
    eapply Forall_impl; [|exact Hatt]. intros n Hn. apply attached_more. exact Hn.
Qed.

Lemma importJson_entry_rebuilt :
  forall (D : list IDtoPidShape) (gs : list nat) (dto : IDtoPidShape)
         (cs : list IDtoConnection) (E : Editor)
         (processed : list (IDtoPidShape * IDtoConnection)),
    wf E ->
    Forall (synced (lines E)) (shapes E) ->
    map node_ref (shapes E) = gs ->
    In (dto_id dto) (map dto_id (docs E)) ->
    map dto_id (docs E) = map dto_id D ->
    rebuiltSoFar D processed E ->
    rebuiltSoFar D (processed ++ map (pair dto) cs)
      (exec (forEach cs (importJson_conn gs dto)) E).
Proof.
  intros D gs dto cs. induction cs as [|conn cs IH];
    intros E processed Hwf Hsync Hgs Hin Hids HJ.
  - simpl. rewrite app_nil_r. exact HJ.
  - subst gs.
    destruct (importJson_conn_run E dto conn Hwf Hsync Hin)
      as (E1 & Hrun & Hwf1 & Hsync1 & Hrefs1 & Hdocs1 & _).
    assert (Hids1 : map dto_id (docs E1) = map dto_id (docs E)).
    { rewrite Hdocs1. apply importConn_ids. }
    pose proof (importJson_conn_rebuilt D E dto conn processed Hwf Hin Hids HJ) as HJ1.
    unfold exec in HJ1. rewrite Hrun in HJ1. cbn [snd] in HJ1.
    assert (Hexec : exec (forEach (conn :: cs)
                            (importJson_conn (map node_ref (shapes E)) dto)) E
                    = exec (forEach cs (importJson_conn (map node_ref (shapes E)) dto)) E1).
    { unfold exec. simpl. rewrite (bind_Ok _ Hrun). reflexivity. }
    rewrite Hexec. simpl map.
    change (processed ++ (dto, conn) :: map (pair dto) cs)
      with (processed ++ [(dto, conn)] ++ map (pair dto) cs).
    rewrite app_assoc.
    apply IH; try assumption.
    + rewrite Hids1. exact Hin.
    + rewrite Hids1. exact Hids.
Qed.

Lemma importJson_entries_rebuilt :
  forall (D : list IDtoPidShape) (gs : list nat) (D' : list IDtoPidShape) (E : Editor)
         (processed : list (IDtoPidShape * IDtoConnection)),
    wf E ->
    Forall (synced (lines E)) (shapes E) ->
    map node_ref (shapes E) = gs ->
    incl (map dto_id D') (map dto_id (docs E)) ->
    map dto_id (docs E) = map dto_id D ->
    rebuiltSoFar D processed E ->
    rebuiltSoFar D (processed ++ connectionsIn D')
      (exec (forEach D' (fun dto => forEach (dto_c dto) (importJson_conn gs dto))) E).
Proof.
  intros D gs D'. induction D' as [|dto D' IH];
    intros E processed Hwf Hsync Hgs Hincl Hids HJ.
  - simpl. rewrite app_nil_r. exact HJ.
  - assert (Hin : In (dto_id dto) (map dto_id (docs E))) by (apply Hincl; left; reflexivity).
    destruct (importJson_entry_run gs dto (dto_c dto) E Hwf Hsync Hgs Hin)
      as (E1 & Hrun & Hwf1 & Hsync1 & Hrefs1 & Hdocs1 & _).
    assert (Hids1 : map dto_id (docs E1) = map dto_id (docs E)).
    { rewrite Hdocs1. apply (importEntry_ids dto). }
    pose proof (importJson_entry_rebuilt D gs dto (dto_c dto) E processed
                  Hwf Hsync Hgs Hin Hids HJ) as HJ1.
    unfold exec in HJ1. rewrite Hrun in HJ1. cbn [snd] in HJ1.
    assert (Hexec : exec (forEach (dto :: D')
                            (fun dto => forEach (dto_c dto) (importJson_conn gs dto))) E
                    = exec (forEach D'
                              (fun dto => forEach (dto_c dto) (importJson_conn gs dto))) E1).
    { unfold exec. simpl. rewrite (bind_Ok _ Hrun). reflexivity. }
    rewrite Hexec. unfold connectionsIn. simpl flat_map. fold (connectionsIn D').
    rewrite app_assoc.
    apply IH; try assumption.
    + rewrite Hids1. intros i Hi. apply Hincl. right. exact Hi.
    + rewrite Hids1. exact Hids.
Qed.

Lemma importJson_shapes_attached :
  forall (D : list IDtoPidShape) (E : Editor),
    Forall (attached (lines E)) (shapes E) ->
    let E' := exec (mapM (fun i => addShape (dto_s i) (dto_x i) (dto_y i) (dto_id i)) D) E in
    Forall (attached (lines E')) (shapes E').
Proof.
  intros D. induction D as [|d D IH]; intros E H; [exact H|].
  cbv zeta.
  set (E1 := exec (addShape (dto_s d) (dto_x d) (dto_y d) (dto_id d)) E).
  assert (Hexec :
            exec (mapM (fun i => addShape (dto_s i) (dto_x i) (dto_y i) (dto_id i)) (d :: D)) E
            = exec (mapM (fun i => addShape (dto_s i) (dto_x i) (dto_y i) (dto_id i)) D) E1).
  { unfold exec. simpl mapM.
    rewrite (bind_Ok _ (addShape_run E (dto_s d) (dto_x d) (dto_y d) (dto_id d))).
    unfold bind, E1, exec. rewrite addShape_run. cbn [snd].
    match goal with
    | |- context [mapM ?f D ?E2] => destruct (mapM f D E2) as [[bs|e] E3]; reflexivity
    end. }
  rewrite Hexec. apply IH. unfold E1, exec. rewrite addShape_run. cbn [snd shapes lines].
  apply Forall_app. split; [exact H|]. constructor; [constructor|constructor].
Qed.

(** [importJson(D)] on a new editor rebuilds the connections of [D] whose
    [sid] is the id of an entry of [D], each on the shapes it belongs to. *)
Lemma importJson_rebuilt :
  forall (D : list IDtoPidShape) (gs : list nat) (E' : Editor),
    importJson (Some D) initEditor = (Ok (Some gs), E') ->
    rebuiltSoFar D (connectionsIn D) E'.
Proof.
  intros D gs E' H. unfold importJson in H.
  destruct (importJson_shapes_run D initEditor wf_init (Forall_nil _))
    as (gs1 & E1 & Hrun1 & Hwf1 & Hsync1 & Hrefs1 & Hdocs1 & Hlines1 & Hlen).
  simpl in Hrefs1, Hdocs1.
  assert (Hids1 : map dto_id (docs E1) = map dto_id D).
  { rewrite Hdocs1. apply strip_ids. }
  destruct (importJson_entries_run gs1 D E1 Hwf1 Hsync1 Hrefs1)
    as (E2 & Hrun2 & _).
  { rewrite Hids1. apply incl_refl. }
  rewrite (bind_Ok _ Hrun1), (bind_Ok _ Hrun2) in H. injection H as _ <-.
  assert (HJ1 : rebuiltSoFar D [] E1).
  { split.
    - rewrite Hlines1. constructor.
    - pose proof (importJson_shapes_attached D initEditor (Forall_nil _)) as Ha.
      cbv zeta in Ha. unfold exec in Ha. rewrite Hrun1 in Ha. exact Ha. }
  pose proof (importJson_entries_rebuilt D gs1 D E1 [] Hwf1 Hsync1 Hrefs1) as HJ.
  unfold exec in HJ. rewrite Hrun2 in HJ. apply HJ; [|exact Hids1|exact HJ1].
  rewrite Hids1. apply incl_refl.
Qed.

(** C6: importing any document into a new editor completes; it makes the
    shapes of the document, in order, and of the connections of the document
    it rebuilds those whose [sid] is the id of a shape of the document and
    leaves out the others.  The records are those of [imported]: each
    connection that is kept is a record of the first shape that has the id of
    the entry it comes from.  The lines on the layer are, in the order of the
    document, those of the connections that are kept, each with the route and
    the start of its connection, with one ['start'] connector, held at the
    anchor [sai] by the first shape that has the id [sid], and with one
    ['end'] connector, held at the anchor [eai] by the shape that has the
    record; and no shape holds a connector to anything else. *)
Theorem import_skips_unresolved :
  forall D : list IDtoPidShape,
    exists (groupAndPidShapes : list nat) (E' : Editor),
      importJson (Some D) initEditor = (Ok (Some groupAndPidShapes), E') /\
      length groupAndPidShapes = length D /\
      map strip (docs E') = map strip D /\
      Permutation (flat_map dto_c (docs E')) (filter (resolves D) (flat_map dto_c D)) /\
      layerRoutes E' = map conn_l (filter (resolves D) (flat_map dto_c D)) /\
      eval exportJson E' = Ok (docs E') /\
      docs E' = imported D /\
      Forall2 (rebuilt (shapes E')) (filter line_onLayer (lines E'))
        (filter (fun dc => resolves D (snd dc)) (connectionsIn D)) /\
      Forall (attached (lines E')) (shapes E').
Proof.
  intros D.
  destruct (importJson_run D) as (gs & E' & Hrun & Hlen & Hnd' & Hsync' & Hdocs' & Hroutes).
  exists gs, E'. split; [exact Hrun|]. split; [exact Hlen|].
  destruct (imported_spec D) as [Hstrip Hperm].
  destruct (importJson_rebuilt D gs E' Hrun) as [Hreb Hatt].
  rewrite Hdocs'.
  split; [exact Hstrip|]. split; [exact Hperm|]. split; [exact Hroutes|].
  split; [|split; [reflexivity|split; assumption]].
  unfold eval, exportJson. rewrite (export_synced E' Hnd' Hsync'). simpl.
  rewrite Hdocs'. reflexivity.
Qed.

(** ** Deleting a connected shape *)

(** C4 on the code: with A connected to B, B holds the connection and its
    record names A as the start.  Deleting A takes A and the line off the
    layer, and leaves the record in B's [dto.c]: the next export still has a
    connection whose [sid] is A's id.  Deleting B, the shape that holds the
    record, leaves A without a connection. *)
Theorem deleteShape_start_side_keeps_record :
  let connected := run initEditor connectAtoB in
  exportedIds connected = Ok [(num 1, []); (num 2, [num 1])] /\
  exportedIds (step connected (Ev_menu_delete 0)) = Ok [(num 2, [num 1])] /\
  map line_onLayer (lines (step connected (Ev_menu_delete 0))) = [false] /\
  exportedIds (step connected (Ev_menu_delete 1)) = Ok [(num 1, [])].
Proof. vm_compute. repeat split; reflexivity. Qed.

Lemma destroy_connector_lines :
  forall (conns : list IConnector) (E : Editor),
    forEach conns (fun c => destroyLine (line c)) E =
      (Ok tt,
       set_lines
         (map (fun l => if touches conns l then set_line_onLayer false l else l) (lines E))
         E).
Proof.
  intros conns. induction conns as [|c conns IH]; intros E; simpl.
  - unfold ret. f_equal. destruct E as [s ls a f k]. unfold set_lines. simpl.
    rewrite map_id. reflexivity.
  - unfold bind at 1. unfold destroyLine at 1, setLine at 1, modify at 1.
    rewrite IH. f_equal. unfold set_lines. simpl. f_equal.
    unfold updateLine. rewrite map_map. apply map_ext. intros l.
    unfold touches. simpl.
    destruct (line_ref l =? line c) eqn:Hr.
    + rewrite Nat.eqb_sym in Hr. simpl. rewrite Hr. simpl.
      destruct (existsb (fun c0 => line c0 =? line_ref l) conns); reflexivity.
    + rewrite Nat.eqb_sym in Hr. rewrite Hr. reflexivity.
Qed.

(** Deleting a shape that is on the layer: the shape leaves the layer, the
    lines of its connectors leave the layer, the markers are removed and one
    change notification fires; the other shapes are as they were. *)
Theorem deleteShape_effect :
  forall (E : Editor) (group : nat) (n : PidNode),
    findNode group (shapes E) = Some n ->
    let conns := match cacConnectors n with Some conns => conns | None => [] end in
    let deleted := step E (Ev_menu_delete group) in
    eval (handle (Ev_menu_delete group)) E = Ok tt /\
    shapes deleted = removeNode group (shapes E) /\
    ~ In group (map node_ref (shapes deleted)) /\
    lines deleted =
      map (fun l => if touches conns l then set_line_onLayer false l else l) (lines E) /\
    anchorShapes deleted = [] /\
    fired deleted = S (fired E).
Proof.
  intros E group n Hn conns deleted.
  assert (Hrun : handle (Ev_menu_delete group) E =
                 (Ok tt,
                  {| shapes := removeNode group (shapes E);
                     lines := map (fun l => if touches conns l
                                            then set_line_onLayer false l else l) (lines E);
                     anchorShapes := []; fired := S (fired E);
                     next_ref := next_ref E |})).
  { simpl handle. unfold deleteShape.
    unfold bind at 1. unfold cleanAnchorShapes at 1, modify at 1.
    unfold bind at 1. unfold get at 1. cbn [shapes set_anchorShapes]. rewrite Hn.
    unfold conns. destruct (cacConnectors n) as [cs|].
    - rewrite (bind_Ok _ (destroy_connector_lines cs _)). reflexivity.
    - unfold bind, ret, modify, fire. simpl. rewrite map_id. reflexivity. }
  unfold deleted, step, exec, eval. rewrite Hrun. simpl.
  repeat split; try reflexivity.
  intros Hin. apply in_map_iff in Hin. destruct Hin as [n' [Hr Hin]].
  unfold removeNode in Hin. apply filter_In in Hin. destruct Hin as [_ Hneq].
  rewrite Hr, Nat.eqb_refl in Hneq. discriminate.
Qed.

(** ** Releasing a line over empty canvas *)

(** C8 on the code: a line is started on an anchor of shape A, A is deleted
    from the context menu while the line is in progress, and the line is
    released over empty canvas.  [#endConnectingLine] finds no shape with the
    id the line started from and [#addConnectorToPath] reads an attribute of
    [undefined]: the handler throws, no stub shape is added and no connection
    is recorded. *)
Theorem stage_click_after_start_deleted :
  let pos := {| vx := num 50; vy := num 20 |} in
  let E := run initEditor
             [ Ev_addShape twoAnchors (num 0) (num 0) (Some (num 1)) (num 0);
               Ev_group_click 0;
               Ev_anchor_mousedown 1;
               Ev_menu_delete 0 ] in
  reachable E /\
  length (currentLines E) = 1 /\
  eval (handle (Ev_stage_click (Some pos) (num 0))) E = Throw TypeError /\
  shapes (step E (Ev_stage_click (Some pos) (num 0))) = [].
Proof.
  cbv zeta. split.
  - unfold run. simpl fold_left. repeat apply reachable_step. apply reachable_init.
  - vm_compute. repeat split; reflexivity.
Qed.

Lemma findLine_NoDup :
  forall (ls : list Line) (l : Line),
    NoDup (map line_ref ls) -> In l ls -> findLine (line_ref l) ls = Some l.
Proof.
  intros ls l Hnd Hin. unfold findLine. induction ls as [|l0 ls IH]; simpl; [destruct Hin|].
  simpl in Hnd. inversion Hnd as [|? ? Hnin Hnd']; subst.
  destruct Hin as [Heq|Hin].
  - subst l0. rewrite Nat.eqb_refl. reflexivity.
  - destruct (line_ref l0 =? line_ref l) eqn:Hr; [|apply IH; assumption].
    exfalso. apply Hnin. apply Nat.eqb_eq in Hr. rewrite Hr. apply in_map. exact Hin.
Qed.

Lemma updateLine_notin :
  forall (r : nat) (f : Line -> Line) (ls : list Line),
    ~ In r (map line_ref ls) -> updateLine r f ls = ls.
Proof.
  intros r f ls H. unfold updateLine. apply map_id_in. intros l Hl.
  destruct (line_ref l =? r) eqn:Hr; [|reflexivity].
  exfalso. apply H. apply Nat.eqb_eq in Hr. rewrite <- Hr. apply in_map. exact Hl.
Qed.

(** When the one in-progress line is renamed, none is left. *)
Lemma no_currentLine_after_rename :
  forall (ls : list Line) (l : Line) (f : Line -> Line),
    NoDup (map line_ref ls) ->
    atMost 1 ls ->
    find isCurrent ls = Some l ->
    (forall l', isCurrent (f l') = false) ->
    find isCurrent (updateLine (line_ref l) f ls) = None.
Proof.
  intros ls l f Hnd Hk Hfind Hf. unfold atMost in Hk.
  induction ls as [|l0 ls IH]; simpl in *; [discriminate|].
  inversion Hnd as [|? ? Hnin Hnd']; subst.
  destruct (isCurrent l0) eqn:Hc0.
  - injection Hfind as ->. rewrite Nat.eqb_refl, Hf.
    simpl in Hk. assert (Hnone : filter isCurrent ls = []).
    { destruct (filter isCurrent ls); [reflexivity|simpl in Hk; lia]. }
    fold (updateLine (line_ref l) f ls).
    rewrite updateLine_notin by exact Hnin.
    destruct (find isCurrent ls) as [l'|] eqn:Hl'; [|reflexivity].
    apply find_some in Hl'. destruct Hl' as [Hin Hcur].
    assert (Hin' : In l' (filter isCurrent ls)) by (apply filter_In; auto).
    rewrite Hnone in Hin'. destruct Hin'.
  - pose proof (find_some _ _ Hfind) as [Hin _].
    destruct (line_ref l0 =? line_ref l) eqn:Hr.
    + exfalso. apply Hnin. apply Nat.eqb_eq in Hr. rewrite Hr. apply in_map. exact Hin.
    + rewrite Hc0. apply IH; assumption.
Qed.

Lemma endConnectingLine_run :
  forall (E : Editor) (pos : Vector2d) (l : Line) (x0 y0 : number) (rest : list number)
         (nS : PidNode),
    wf E ->
    currentLine E = Some l ->
    points l = x0 :: y0 :: rest ->
    find (fun n => strictEq (dto_id (cacDto n)) (cacStartPidShapeId l)) (shapes E)
      = Some nS ->
    endConnectingLine pos E =
      (Ok (Some (line_ref l)),
       set_shapes
         (updateNode (node_ref nS)
            (pushConnector {| line := line_ref l; anchorIndex := cacStartAnchorIndex l;
                              connector_type := start |}) (shapes E))
         (set_anchorShapes []
            (set_lines
               (updateLine (line_ref l) (set_line_name cacConnectorTwoPidShape)
                  (updateLine (line_ref l)
                     (set_points (route x0 y0 (vx pos) (vy pos))) (lines E))) E))).
Proof.
  intros E pos l x0 y0 rest nS (Hnd & Hndl & _ & _) Hcur Hp HfindS.
  pose proof (find_some _ _ Hcur) as [Hin _].
  pose proof (findLine_NoDup _ _ Hndl Hin) as Hl.
  pose proof (find_some _ _ HfindS) as [HinS _].
  pose proof (findNode_NoDup _ _ Hnd HinS) as HnodeS.
  unfold endConnectingLine.
  assert (Hone : findOneCurrentLine E = (Ok (Some (line_ref l)), E)).
  { unfold findOneCurrentLine, bind, get, ret. rewrite Hcur. reflexivity. }
  rewrite (bind_Ok _ Hone).
  rewrite (bind_Ok _ (recalculateTheLine_run pos Hl Hp)).
  set (r := route x0 y0 (vx pos) (vy pos)).
  unfold bind at 1. unfold setLine at 1, modify at 1.
  unfold bind at 1. unfold cleanAnchorShapes at 1, modify at 1.
  match goal with
  | |- bind _ _ ?E3 = _ => set (E3' := E3)
  end.
  assert (Hl3 : findLine (line_ref l) (lines E3')
                = Some (set_line_name cacConnectorTwoPidShape (set_points r l))).
  { unfold E3'. cbn [lines set_lines set_anchorShapes].
    rewrite !findLine_updateLine_same by reflexivity. rewrite Hl. reflexivity. }
  rewrite (bind_Ok _ (getLine_Some Hl3)).
  cbn [cacStartAnchorIndex cacStartPidShapeId set_line_name set_points].
  assert (Hfind3 : findPidShapeById (cacStartPidShapeId l) E3'
                   = (Ok (Some (node_ref nS)), E3')).
  { unfold findPidShapeById, bind, get, ret. unfold E3'.
    cbn [shapes set_lines set_anchorShapes]. rewrite HfindS. reflexivity. }
  rewrite (bind_Ok _ Hfind3).
  assert (HnodeS3 : findNode (node_ref nS) (shapes E3') = Some nS) by exact HnodeS.
  rewrite (bind_Ok _ (addConnectorToPath_start_run (line_ref l) (cacStartAnchorIndex l)
                        false HnodeS3)).
  reflexivity.
Qed.

(** Releasing an in-progress line over empty canvas while the shape it
    started from is on the layer: the line is routed to the pointer and becomes
    a connection, one stub shape (the two-anchor [emptyEnd]) is added at the
    pointer with a fresh random id, and the stub holds the one new connection,
    ending at its anchor 0; no in-progress line is left. *)
Theorem stage_click_creates_stub :
  forall (E : Editor) (pos : Vector2d) (random : number) (l : Line) (x0 y0 : number)
         (rest : list number) (nS : PidNode),
    reachable E ->
    currentLine E = Some l ->
    points l = x0 :: y0 :: rest ->
    find (fun n => strictEq (dto_id (cacDto n)) (cacStartPidShapeId l)) (shapes E)
      = Some nS ->
    let released := step E (Ev_stage_click (Some pos) random) in
    let connection :=
      {| conn_l := route x0 y0 (vx pos) (vy pos); conn_sai := cacStartAnchorIndex l;
         conn_sid := cacStartPidShapeId l; conn_eai := num 0 |} in
    let stub :=
      {| node_ref := next_ref E; group_pos := {| vx := vx pos; vy := vy pos |};
         cacPidKonvaShape := emptyEnd;
         cacDto := {| dto_s := emptyEnd; dto_x := vx pos; dto_y := vy pos;
                      dto_id := randomId random; dto_c := [connection] |};
         cacConnectors := Some [{| line := line_ref l; anchorIndex := num 0;
                                   connector_type := end_ |}] |} in
    eval (handle (Ev_stage_click (Some pos) random)) E = Ok tt /\
    shapes released =
      updateNode (node_ref nS)
        (pushConnector {| line := line_ref l; anchorIndex := cacStartAnchorIndex l;
                          connector_type := start |}) (shapes E) ++ [stub] /\
    docs released = docs E ++ [cacDto stub] /\
    pointsOf (lines released) (line_ref l) = Some (route x0 y0 (vx pos) (vy pos)) /\
    currentLine released = None.
Proof.
  intros E pos random l x0 y0 rest nS Hreach Hcur Hp HfindS released connection stub.
  pose proof (reachable_Inv E Hreach) as [Hwf Hk].
  pose proof Hwf as (Hnd & Hndl & Hlt & Hltl).
  pose proof (find_some _ _ Hcur) as [Hin _].
  pose proof (findLine_NoDup _ _ Hndl Hin) as Hl.
  set (cS := {| line := line_ref l; anchorIndex := cacStartAnchorIndex l;
                connector_type := start |}).
  set (L' := updateLine (line_ref l) (set_line_name cacConnectorTwoPidShape)
               (updateLine (line_ref l) (set_points (route x0 y0 (vx pos) (vy pos)))
                  (lines E))).
  set (S4 := updateNode (node_ref nS) (pushConnector cS) (shapes E)).
  set (stub0 := {| node_ref := next_ref E; group_pos := {| vx := vx pos; vy := vy pos |};
                   cacPidKonvaShape := emptyEnd;
                   cacDto := {| dto_s := emptyEnd; dto_x := vx pos; dto_y := vy pos;
                                dto_id := randomId random; dto_c := [] |};
                   cacConnectors := None |}).
  assert (Hrun : handle (Ev_stage_click (Some pos) random) E =
                 (Ok tt,
                  {| shapes := S4 ++ [stub]; lines := L'; anchorShapes := [];
                     fired := S (fired E); next_ref := S (next_ref E) |})).
  { simpl handle. unfold stage_click.
    unfold bind at 1. unfold cleanAnchorShapes at 1, modify at 1.
    set (E0 := set_anchorShapes [] E).
    assert (Hcur0 : currentLine E0 = Some l) by exact Hcur.
    assert (Hone : findOneCurrentLine E0 = (Ok (Some (line_ref l)), E0)).
    { unfold findOneCurrentLine, bind, get, ret. rewrite Hcur0. reflexivity. }
    rewrite (bind_Ok _ Hone).
    assert (Hwf0 : wf E0) by exact Hwf.
    assert (HfindS0 : find (fun n => strictEq (dto_id (cacDto n)) (cacStartPidShapeId l))
                        (shapes E0) = Some nS) by exact HfindS.
    rewrite (bind_Ok _ (endConnectingLine_run E0 pos l x0 y0 rest nS Hwf0 Hcur0 Hp HfindS0)).
    cbn [shapes lines set_anchorShapes E0]. fold cS. fold L'. fold S4.
    match goal with
    | |- bind _ _ ?E4 = _ => set (E4' := E4)
    end.
    unfold createEmtpyShape, addShape_defaultId.
    rewrite (bind_Ok _ (bind_Ok _ (addShape_run E4' emptyEnd (vx pos) (vy pos)
                                     (randomId random)))).
    match goal with
    | |- addConnectorToPath _ _ _ _ _ ?E5 = _ => set (E5' := E5)
    end.
    assert (Hlt4 : Forall (fun n => node_ref n < next_ref E) S4).
    { apply (Forall_map_iff (fun r => r < next_ref E) node_ref). unfold S4.
      rewrite map_updateNode_ref by reflexivity. apply Forall_map_iff. exact Hlt. }
    assert (Hnode5 : findNode (next_ref E4') (shapes E5') = Some stub0).
    { unfold E5', E4', E0. cbn [shapes next_ref set_shapes set_anchorShapes set_lines].
      rewrite findNode_app, (findNode_fresh _ _ Hlt4). unfold findNode. simpl.
      rewrite Nat.eqb_refl. reflexivity. }
    assert (Hline5 : findLine (line_ref l) (lines E5')
                     = Some (set_line_name cacConnectorTwoPidShape
                               (set_points (route x0 y0 (vx pos) (vy pos)) l))).
    { unfold E5', E4', E0. cbn [lines set_shapes set_anchorShapes set_lines]. unfold L'.
      rewrite !findLine_updateLine_same by reflexivity. rewrite Hl. reflexivity. }
    rewrite (addConnectorToPath_end_run (num 0) false Hnode5 Hline5).
    unfold E5', E4', E0. cbn [shapes lines fired next_ref anchorShapes set_shapes
                          set_anchorShapes set_lines set_fired points
                          cacStartAnchorIndex cacStartPidShapeId set_line_name set_points].
    unfold updateNode at 1 2. rewrite !map_app.
    fold (updateNode (next_ref E)
            (pushConnector {| line := line_ref l; anchorIndex := num 0;
                              connector_type := end_ |}) S4).
    rewrite (updateNode_fresh _ _ _ Hlt4).
    fold (updateNode (next_ref E)
            (pushConnection {| conn_l := route x0 y0 (vx pos) (vy pos);
                               conn_sai := cacStartAnchorIndex l;
                               conn_sid := cacStartPidShapeId l; conn_eai := num 0 |}) S4).
    rewrite (updateNode_fresh _ _ _ Hlt4).
    unfold set_fired, set_shapes, stub, connection.
    simpl. rewrite Nat.eqb_refl. simpl. rewrite Nat.eqb_refl. reflexivity. }
  unfold released, step, exec, eval. rewrite Hrun. simpl.
  split; [reflexivity|]. split; [reflexivity|]. split; [|split].
  - unfold docs. simpl. rewrite map_app. simpl. unfold S4.
    rewrite docs_updateNode_same by reflexivity. reflexivity.
  - unfold L'. rewrite pointsOf_updateLine by reflexivity. unfold pointsOf.
    rewrite findLine_updateLine_same by reflexivity. rewrite Hl. reflexivity.
  - unfold currentLine. simpl. unfold L'.
    assert (Hcomp : updateLine (line_ref l) (set_line_name cacConnectorTwoPidShape)
                      (updateLine (line_ref l)
                         (set_points (route x0 y0 (vx pos) (vy pos))) (lines E))
                    = updateLine (line_ref l)
                        (fun l' => set_line_name cacConnectorTwoPidShape
                                     (set_points (route x0 y0 (vx pos) (vy pos)) l'))
                        (lines E)).
    { unfold updateLine. rewrite map_map. apply map_ext. intros l'.
      destruct (line_ref l' =? line_ref l) eqn:Hr; simpl; rewrite Hr; reflexivity. }
    rewrite Hcomp. apply no_currentLine_after_rename; try assumption.
    intros l'. unfold isCurrent. simpl. apply andb_false_r.
Qed.

(** ** Hoare triples *)

Lemma hoare_bind :
  forall {A B : Type} {P : Editor -> Prop} {R : A -> Editor -> Prop}
         {Q : B -> Editor -> Prop} {X : error -> Editor -> Prop} {m : M A} {f : A -> M B},
    hoare P m R X -> (forall a, hoare (R a) (f a) Q X) -> hoare P (bind m f) Q X.
Proof.
  intros A B P R Q X m f Hm Hf E HP. specialize (Hm E HP). unfold bind.
  destruct (m E) as [[a|e] E']; [apply (Hf a E' Hm)|exact Hm].
Qed.

Lemma hoare_ret :
  forall {A : Type} (P : Editor -> Prop) (Q : A -> Editor -> Prop)
         (X : error -> Editor -> Prop) (a : A),
    (forall E, P E -> Q a E) -> hoare P (ret a) Q X.
Proof. intros A P Q X a H E HP. apply H. exact HP. Qed.

Lemma hoare_conseq :
  forall {A : Type} (P P' : Editor -> Prop) (Q Q' : A -> Editor -> Prop)
         (X X' : error -> Editor -> Prop) (m : M A),
    hoare P m Q X ->
    (forall E, P' E -> P E) -> (forall a E, Q a E -> Q' a E) ->
    (forall e E, X e E -> X' e E) ->
    hoare P' m Q' X'.
Proof.
  intros A P P' Q Q' X X' m H HP HQ HX E HP'. specialize (H E (HP E HP')).
  destruct (m E) as [[a|e] E']; [apply HQ|apply HX]; exact H.
Qed.

Lemma hoare_preserves :
  forall {A : Type} (I : Editor -> Prop) (m : M A),
    preserves I m -> hoare I m (fun _ => I) (fun _ => I).
Proof.
  intros A I m H E HI. specialize (H E HI). unfold exec in H.
  destruct (m E) as [[a|e] E']; exact H.
Qed.

Lemma preserves_hoare :
  forall {A : Type} (I : Editor -> Prop) (m : M A),
    hoare I m (fun _ => I) (fun _ => I) -> preserves I m.
Proof.
  intros A I m H E HI. specialize (H E HI). unfold exec.
  destruct (m E) as [[a|e] E']; exact H.
Qed.

Lemma preserves_modify :
  forall (I : Editor -> Prop) (g : Editor -> Editor),
    (forall E, I E -> I (g E)) -> preserves I (modify g).
Proof. intros I g H E HI. apply H. exact HI. Qed.

Lemma preserves_newRef :
  forall I : Editor -> Prop,
    (forall E, I E ->
       I {| shapes := shapes E; lines := lines E; anchorShapes := anchorShapes E;
            fired := fired E; next_ref := S (next_ref E) |}) ->
    preserves I newRef.
Proof. intros I H E HI. apply H. exact HI. Qed.

(** One step of a proof that a handler keeps an invariant, down to the
    changes of the state. *)
Ltac keep_step :=
  lazymatch goal with
  | |- preserves _ (bind _ _) => apply preserves_bind; [ | intro ]
  | |- preserves _ (ret _) => apply preserves_ret
  | |- preserves _ (throw _) => apply preserves_throw
  | |- preserves _ get => apply preserves_get
  | |- preserves _ (orThrow _ _) => apply preserves_orThrow
  | |- preserves _ (forEach _ _) => apply preserves_forEach; intro
  | |- preserves _ (forEachi _ _) => apply preserves_forEachi; intros
  | |- preserves _ (mapM _ _) => apply preserves_mapM; intro
  | |- preserves _ (getNode _) => unfold getNode
  | |- preserves _ (getLine _) => unfold getLine
  | |- preserves _ findOneCurrentLine => unfold findOneCurrentLine
  | |- preserves _ (findPidShapeById _) => unfold findPidShapeById
  | |- preserves _ (findGroupById _ _) => unfold findGroupById
  | |- preserves _ (setNode _ _) => unfold setNode
  | |- preserves _ (setLine _ _) => unfold setLine
  | |- preserves _ (layerAddLine _) => unfold layerAddLine
  | |- preserves _ (destroyLine _) => unfold destroyLine
  | |- preserves _ fire => unfold fire
  | |- preserves _ cleanAnchorShapes => unfold cleanAnchorShapes
  | |- preserves _ (newLine _ _ _ _) => unfold newLine
  | |- preserves _ (addShape _ _ _ _) => unfold addShape
  | |- preserves _ (recalculateTheLine _ _) => unfold recalculateTheLine
  | |- preserves _ clear => unfold clear
  | |- preserves _ (modify _) => apply preserves_modify
  | |- preserves _ newRef => apply preserves_newRef
  | |- preserves _ (match ?x with _ => _ end) => destruct x
  | |- preserves _ (if ?x then _ else _) => destruct x
  end.

Ltac keep := cbv zeta; repeat keep_step.

(** ** Change notifications *)

(** The handlers that never call [#fire] keep the number of notifications. *)
Ltac quiet := keep; intros ? ?; assumption.

Lemma quiet_addConnectorToPath :
  forall (k : nat) (shape : option nat) (line : nat) (anchorIndex : number)
         (type : ConnectorType) (init : bool),
    type = start \/ init = true ->
    preserves (fun E => fired E = k) (addConnectorToPath shape line anchorIndex type init).
Proof.
  intros k shape line anchorIndex type init H. unfold addConnectorToPath.
  destruct shape as [shape|]; [|quiet].
  destruct type; simpl isEnd; cbv iota.
  - quiet.
  - destruct H as [H|H]; [discriminate|subst init]. quiet.
Qed.

Lemma quiet_createAnchorShapes :
  forall (k : nat) (pidShape : IPidShape) (pidKonvaPath : nat),
    preserves (fun E => fired E = k) (createAnchorShapes pidShape pidKonvaPath).
Proof. intros k pidShape pidKonvaPath. unfold createAnchorShapes. quiet. Qed.

Lemma quiet_endConnectingLine :
  forall (k : nat) (pos : Vector2d),
    preserves (fun E => fired E = k) (endConnectingLine pos).
Proof.
  intros k pos. unfold endConnectingLine. keep; try (intros ? ?; assumption).
  apply quiet_addConnectorToPath. left. reflexivity.
Qed.

Lemma quiet_importJson :
  forall (k : nat) (data : option (list IDtoPidShape)),
    preserves (fun E => fired E = k) (importJson data).
Proof.
  intros k data. unfold importJson, importJson_conn. keep; try (intros ? ?; assumption).
  - apply quiet_addConnectorToPath. left. reflexivity.
  - apply quiet_addConnectorToPath. right. reflexivity.
Qed.

Lemma quiet_export :
  forall k : nat, preserves (fun E => fired E = k) export.
Proof. intros k. unfold export, export_shape. quiet. Qed.

Lemma quiet_dragmove_connector :
  forall (k : nat) (pidShape : IPidShape) (group : nat) (c : IConnector),
    preserves (fun E => fired E = k) (dragmove_connector pidShape group c).
Proof. intros k pidShape group c. unfold dragmove_connector. quiet. Qed.

(** A handler that keeps the count may be followed by one that adds at most
    one notification. *)
Lemma atMostOnce_bind :
  forall {A B : Type} (k : nat) (m : M A) (f : A -> M B),
    preserves (fun E => fired E = k) m ->
    (forall a, triple (fun E => fired E = k) (f a) (fun E => k <= fired E <= S k)) ->
    triple (fun E => fired E = k) (bind m f) (fun E => k <= fired E <= S k).
Proof.
  intros A B k m f Hm Hf. apply (triple_bind Hm); [|exact Hf].
  intros E H. simpl in H. lia.
Qed.

Lemma atMostOnce_quiet :
  forall {A : Type} (k : nat) (m : M A),
    preserves (fun E => fired E = k) m ->
    triple (fun E => fired E = k) m (fun E => k <= fired E <= S k).
Proof. intros A k m H E HE. specialize (H E HE). simpl in H. lia. Qed.

Lemma atMostOnce_fire :
  forall k : nat, triple (fun E => fired E = k) fire (fun E => k <= fired E <= S k).
Proof. intros k E H. unfold exec, fire, modify. simpl. lia. Qed.

Lemma atMostOnce_addConnectorToPath :
  forall (k : nat) (shape : option nat) (line : nat) (anchorIndex : number)
         (type : ConnectorType) (init : bool),
    triple (fun E => fired E = k) (addConnectorToPath shape line anchorIndex type init)
      (fun E => k <= fired E <= S k).
Proof.
  intros k shape line anchorIndex type init. unfold addConnectorToPath.
  destruct shape as [shape|]; [|apply atMostOnce_quiet; quiet].
  apply atMostOnce_bind; [quiet|intros _].
  apply atMostOnce_bind; [quiet|intros _].
  destruct (isEnd type); [|apply atMostOnce_quiet; quiet].
  apply atMostOnce_bind; [quiet|intros l].
  apply atMostOnce_bind; [quiet|intros _].
  destruct init; [apply atMostOnce_quiet; quiet|apply atMostOnce_fire].
Qed.


Lemma quiet_step :
  forall (k : nat) (ev : event),
    silent ev = true -> preserves (fun E => fired E = k) (handle ev).
Proof.
  intros k ev Hs.
  destruct ev as [pidShape x y [id|] random| |data| |group|group|group|group pos|group
                 |i|i|pos random|pos| |group]; try discriminate Hs; simpl handle.
  - quiet.
  - unfold addShape_defaultId. quiet.
  - keep. apply quiet_export.
  - keep. apply quiet_importJson.
  - quiet.
  - unfold onGroup, group_click. keep. apply quiet_createAnchorShapes.
  - unfold onGroup, group_mouseover. keep. apply quiet_createAnchorShapes.
  - unfold onGroup, group_mousedown. quiet.
  - unfold onGroup, group_dragmove. keep; try (intros ? ?; assumption).
    apply quiet_dragmove_connector.
  - unfold onAnchor, anchorShape_mousedown. quiet.
  - unfold stage_mousemove. quiet.
  - quiet.
Qed.

Lemma atMostOnce_step :
  forall (k : nat) (ev : event),
    triple (fun E => fired E = k) (handle ev) (fun E => k <= fired E <= S k).
Proof.
  intros k ev. destruct (silent ev) eqn:Hs.
  - apply atMostOnce_quiet. apply quiet_step. exact Hs.
  - destruct ev as [pidShape x y id random| |data| |group|group|group|group pos|group
                   |i|i|pos random|pos| |group]; try discriminate Hs; simpl handle.
    + unfold onGroup, group_dragend.
      apply atMostOnce_bind; [quiet|intros E0].
      destruct (findNode group (shapes E0)); [|apply atMostOnce_quiet; quiet].
      apply atMostOnce_bind; [quiet|intros n].
      apply atMostOnce_bind; [quiet|intros _]. apply atMostOnce_fire.
    + unfold onAnchor, anchorShape_mouseup.
      apply atMostOnce_bind; [quiet|intros E0].
      destruct (nth_error (anchorShapes E0) i); [|apply atMostOnce_quiet; quiet].
      apply atMostOnce_bind; [apply quiet_endConnectingLine|intros [line|]].
      * apply atMostOnce_addConnectorToPath.
      * apply atMostOnce_quiet. quiet.
    + unfold stage_click.
      apply atMostOnce_bind; [quiet|intros _].
      destruct pos as [pos|]; [|apply atMostOnce_quiet; quiet].
      apply atMostOnce_bind; [quiet|intros [current|]]; [|apply atMostOnce_quiet; quiet].
      apply atMostOnce_bind; [apply quiet_endConnectingLine|intros line].
      apply atMostOnce_bind; [unfold createEmtpyShape, addShape_defaultId; quiet|intros e].
      destruct line; [apply atMostOnce_addConnectorToPath|apply atMostOnce_quiet; quiet].
    + unfold deleteShape.
      apply atMostOnce_bind; [quiet|intros _].
      apply atMostOnce_bind; [quiet|intros E0].
      destruct (findNode group (shapes E0)); [|apply atMostOnce_quiet; quiet].
      apply atMostOnce_bind; [quiet|intros _].
      apply atMostOnce_bind; [quiet|intros _]. apply atMostOnce_fire.
Qed.

(** Change notifications ([onChange]): no event notifies more than once;
    adding a shape, importing, exporting, clearing, selecting, hovering,
    pressing, dragging (before the drop), starting a line and moving the
    pointer never notify; dropping a shape that is on the layer notifies
    exactly once. *)
Theorem change_notifications :
  forall (E : Editor) (ev : event),
    fired E <= fired (step E ev) <= S (fired E) /\
    (silent ev = true -> fired (step E ev) = fired E) /\
    (forall group, ev = Ev_group_dragend group ->
       In group (map node_ref (shapes E)) -> fired (step E ev) = S (fired E)).
Proof.
  intros E ev. split; [|split].
  - exact (atMostOnce_step (fired E) ev E eq_refl).
  - intros Hs. exact (quiet_step (fired E) ev Hs E eq_refl).
  - intros group -> Hin. unfold step, exec. simpl handle. unfold onGroup, group_dragend.
    unfold bind at 1. unfold get at 1.
    destruct (findNode group (shapes E)) as [n|] eqn:Hn.
    + rewrite (bind_Ok _ (getNode_Some Hn)). reflexivity.
    + exfalso. apply in_map_iff in Hin. destruct Hin as [n [Hr Hin]].
      unfold findNode in Hn. pose proof (find_none _ _ Hn n Hin) as Hf.
      simpl in Hf. rewrite Hr, Nat.eqb_refl in Hf. discriminate.
Qed.


(** ** What the shapes hold of the lines *)

Lemma linked_incl :
  forall (ls ls' : list Line) (n : PidNode),
    incl (map line_ref ls) (map line_ref ls') -> linked ls n -> linked ls' n.
Proof.
  intros ls ls' n Hincl. unfold linked. destruct (cacConnectors n) as [conns|]; [|auto].
  intros [Hin Hlen]. split; [|exact Hlen].
  eapply Forall_impl; [|exact Hin]. intros c Hc. apply Hincl. exact Hc.
Qed.

Lemma Sound_frame :
  forall (rs : list nat) (E E' : Editor),
    shapes E' = shapes E -> lines E' = lines E -> Sound rs E -> Sound rs E'.
Proof. intros rs E E' Hs Hl H. unfold Sound in *. rewrite Hs, Hl. exact H. Qed.

Lemma Sound_updateNode :
  forall (rs : list nat) (r : nat) (f : PidNode -> PidNode) (E : Editor),
    (forall n, linked (lines E) n -> linked (lines E) (f n)) ->
    Sound rs E -> Sound rs (set_shapes (updateNode r f (shapes E)) E).
Proof.
  intros rs r f E Hf (Hlinked & Hstart & Hrs). split; [|split; assumption].
  cbn [shapes lines set_shapes]. unfold updateNode. apply Forall_map.
  eapply Forall_impl; [|exact Hlinked]. intros n Hn.
  destruct (node_ref n =? r); [apply Hf|]; exact Hn.
Qed.

Lemma Sound_updateLine :
  forall (rs : list nat) (r : nat) (f : Line -> Line) (E : Editor),
    (forall l, line_ref (f l) = line_ref l) ->
    (forall l, startable l -> startable (f l)) ->
    Sound rs E -> Sound rs (set_lines (updateLine r f (lines E)) E).
Proof.
  intros rs r f E Href Hf (Hlinked & Hstart & Hrs).
  assert (Hrefs : map line_ref (updateLine r f (lines E)) = map line_ref (lines E))
    by (apply map_updateLine_ref; exact Href).
  split; [|split]; cbn [shapes lines set_lines].
  - eapply Forall_impl; [|exact Hlinked]. intros n. apply linked_incl.
    rewrite Hrefs. apply incl_refl.
  - unfold updateLine. apply Forall_map. eapply Forall_impl; [|exact Hstart].
    intros l Hl. destruct (line_ref l =? r); [apply Hf|]; exact Hl.
  - rewrite Hrefs. exact Hrs.
Qed.

Lemma Sound_newLine :
  forall (rs : list nat) (l : Line) (E : Editor),
    startable l -> Sound rs E -> Sound (line_ref l :: rs) (set_lines (lines E ++ [l]) E).
Proof.
  intros rs l E Hl (Hlinked & Hstart & Hrs).
  split; [|split]; cbn [shapes lines set_lines].
  - eapply Forall_impl; [|exact Hlinked]. intros n. apply linked_incl.
    rewrite map_app. apply incl_appl. apply incl_refl.
  - apply Forall_app. split; [exact Hstart|]. constructor; [exact Hl|constructor].
  - rewrite map_app. intros r [Hr|Hr]; apply in_or_app.
    + right. left. exact Hr.
    + left. apply Hrs. exact Hr.
Qed.

Lemma Sound_addNode :
  forall (rs : list nat) (n : PidNode) (E : Editor),
    linked (lines E) n -> Sound rs E -> Sound rs (set_shapes (shapes E ++ [n]) E).
Proof.
  intros rs n E Hn (Hlinked & Hstart & Hrs). split; [|split; assumption].
  cbn [shapes lines set_shapes]. apply Forall_app. split; [exact Hlinked|].
  constructor; [exact Hn|constructor].
Qed.

Lemma Sound_removeNode :
  forall (rs : list nat) (r : nat) (E : Editor),
    Sound rs E -> Sound rs (set_shapes (removeNode r (shapes E)) E).
Proof.
  intros rs r E (Hlinked & Hstart & Hrs). split; [|split; assumption].
  cbn [shapes lines set_shapes]. unfold removeNode. rewrite Forall_forall in *.
  intros n Hn. apply filter_In in Hn. apply Hlinked. tauto.
Qed.

Lemma Sound_weaken :
  forall (rs rs' : list nat) (E : Editor), incl rs' rs -> Sound rs E -> Sound rs' E.
Proof.
  intros rs rs' E Hincl (Hlinked & Hstart & Hrs). split; [|split]; try assumption.
  intros r Hr. apply Hrs. apply Hincl. exact Hr.
Qed.

Lemma length_updateAt :
  forall {A : Type} (index : nat) (f : A -> A) (arr : list A),
    length (updateAt index f arr) = length arr.
Proof.
  intros A index f arr. revert index.
  induction arr as [|a arr IH]; intros [|index]; simpl; try reflexivity.
  rewrite IH. reflexivity.
Qed.

Lemma filter_isEnd_app :
  forall (conns : list IConnector) (c : IConnector),
    filter (fun c => isEnd (connector_type c)) (conns ++ [c]) =
      filter (fun c => isEnd (connector_type c)) conns ++
      (if isEnd (connector_type c) then [c] else []).
Proof. intros conns c. rewrite filter_app. simpl. destruct (isEnd (connector_type c)); reflexivity. Qed.

Lemma linked_pushConnector_start :
  forall (ls : list Line) (line : nat) (anchorIndex : number) (n : PidNode),
    In line (map line_ref ls) -> linked ls n ->
    linked ls (pushConnector {| line := line; anchorIndex := anchorIndex;
                                connector_type := start |} n).
Proof.
  intros ls line anchorIndex n Hin. unfold linked, pushConnector. simpl.
  destruct (cacConnectors n) as [conns|].
  - intros [Hall Hlen]. split.
    + apply Forall_app. split; [exact Hall|]. constructor; [exact Hin|constructor].
    + rewrite filter_isEnd_app. simpl. rewrite app_nil_r. exact Hlen.
  - intros Hc. split.
    + constructor; [exact Hin|constructor].
    + rewrite Hc. reflexivity.
Qed.

Lemma linked_pushConnection_end :
  forall (ls : list Line) (line : nat) (anchorIndex : number) (connection : IDtoConnection)
         (n : PidNode),
    In line (map line_ref ls) -> linked ls n ->
    linked ls (pushConnection connection
                 (pushConnector {| line := line; anchorIndex := anchorIndex;
                                   connector_type := end_ |} n)).
Proof.
  intros ls line anchorIndex connection n Hin. unfold linked, pushConnection, pushConnector.
  simpl. destruct (cacConnectors n) as [conns|].
  - intros [Hall Hlen]. split.
    + apply Forall_app. split; [exact Hall|]. constructor; [exact Hin|constructor].
    + rewrite filter_isEnd_app. simpl. rewrite !length_app, Hlen. reflexivity.
  - intros Hc. split.
    + constructor; [exact Hin|constructor].
    + rewrite Hc. reflexivity.
Qed.

Lemma findLine_inStore :
  forall (r : nat) (ls : list Line),
    In r (map line_ref ls) -> exists l, findLine r ls = Some l.
Proof.
  intros r ls Hin. unfold findLine. destruct (find (fun l => line_ref l =? r) ls) eqn:Hf.
  - eexists. reflexivity.
  - exfalso. apply in_map_iff in Hin. destruct Hin as [l [Hr Hin]].
    pose proof (find_none _ _ Hf l Hin) as H. simpl in H.
    rewrite Hr, Nat.eqb_refl in H. discriminate.
Qed.

Lemma findNode_onLayer :
  forall (r : nat) (ns : list PidNode),
    In r (map node_ref ns) -> exists n, findNode r ns = Some n.
Proof.
  intros r ns Hin. unfold findNode. destruct (find (fun n => node_ref n =? r) ns) eqn:Hf.
  - eexists. reflexivity.
  - exfalso. apply in_map_iff in Hin. destruct Hin as [n [Hr Hin]].
    pose proof (find_none _ _ Hf n Hin) as H. simpl in H.
    rewrite Hr, Nat.eqb_refl in H. discriminate.
Qed.

Lemma findLine_ref :
  forall (r : nat) (ls : list Line) (l : Line),
    findLine r ls = Some l -> In l ls /\ line_ref l = r.
Proof.
  intros r ls l H. apply find_some in H. destruct H as [Hin Hr].
  apply Nat.eqb_eq in Hr. auto.
Qed.

Lemma findNode_ref :
  forall (r : nat) (ns : list PidNode) (n : PidNode),
    findNode r ns = Some n -> In n ns /\ node_ref n = r.
Proof.
  intros r ns n H. apply find_some in H. destruct H as [Hin Hr].
  apply Nat.eqb_eq in Hr. auto.
Qed.

Lemma sound_addConnectorToPath :
  forall (rs : list nat) (shape : option nat) (line : nat) (anchorIndex : number)
         (type : ConnectorType) (init : bool),
    In line rs ->
    preserves (Sound rs) (addConnectorToPath shape line anchorIndex type init).
Proof.
  intros rs shape line anchorIndex type init Hin E HS. unfold exec.
  destruct shape as [shape|]; [|exact HS].
  destruct (findNode shape (shapes E)) as [n|] eqn:Hn.
  - assert (Hstore : In line (map line_ref (lines E))).
    { destruct HS as (_ & _ & Hrs). apply Hrs. exact Hin. }
    destruct type.
    + rewrite (addConnectorToPath_start_run line anchorIndex init Hn). simpl.
      apply Sound_updateNode; [|exact HS].
      intros n'. apply linked_pushConnector_start. exact Hstore.
    + destruct (findLine_inStore line (lines E) Hstore) as [l Hl].
      rewrite (addConnectorToPath_end_run anchorIndex init Hn Hl). simpl.
      rewrite updateNode_compose by reflexivity.
      apply (Sound_frame rs
               (set_shapes
                  (updateNode shape
                     (fun n0 =>
                        pushConnection
                          {| conn_l := points l; conn_sai := cacStartAnchorIndex l;
                             conn_sid := cacStartPidShapeId l; conn_eai := anchorIndex |}
                          (pushConnector
                             {| line := line; anchorIndex := anchorIndex;
                                connector_type := end_ |} n0)) (shapes E)) E));
        [reflexivity|reflexivity|].
      apply Sound_updateNode; [|exact HS].
      intros n'. apply linked_pushConnection_end. exact Hstore.
  - unfold addConnectorToPath, getNode, bind, get. rewrite Hn. exact HS.
Qed.

Lemma linked_set_cacDto :
  forall (ls : list Line) (d : IDtoPidShape) (n : PidNode),
    length (dto_c d) = length (dto_c (cacDto n)) -> linked ls n -> linked ls (set_cacDto d n).
Proof.
  intros ls d n Hlen. unfold linked. simpl. destruct (cacConnectors n) as [conns|].
  - rewrite Hlen. auto.
  - intros Hc. rewrite Hc in Hlen. destruct (dto_c d); [reflexivity|discriminate].
Qed.

Lemma linked_set_group_pos :
  forall (ls : list Line) (p : Vector2d) (n : PidNode),
    linked ls n -> linked ls (set_group_pos p n).
Proof. intros ls p n H. exact H. Qed.

(** The changes of the state that keep [Sound]. *)
Ltac sound_leaf :=
  intros ? ?; cbv beta;
  first
    [ assumption
    | apply Sound_updateNode;
      [ intros ? ?;
        first [ apply linked_set_group_pos; assumption
              | apply linked_set_cacDto;
                [ cbn; rewrite ?length_updateAt; reflexivity | assumption ] ]
      | assumption ]
    | apply Sound_updateLine;
      [ reflexivity
      | intros ? ?; unfold startable in *; cbn in *; first [assumption | intros; lia | intros; discriminate]
      | assumption ]
    | apply Sound_removeNode; assumption
    | apply Sound_addNode; [reflexivity|assumption]
    | eapply Sound_frame; [ | | eassumption ]; reflexivity ].

Ltac sound := keep; try sound_leaf.

Lemma sound_recalculateTheLine :
  forall (rs : list nat) (line : nat) (pos : Vector2d),
    preserves (Sound rs) (recalculateTheLine line pos).
Proof. intros rs line pos. sound. Qed.

Lemma sound_createAnchorShapes :
  forall (rs : list nat) (pidShape : IPidShape) (pidKonvaPath : nat),
    preserves (Sound rs) (createAnchorShapes pidShape pidKonvaPath).
Proof. intros rs pidShape pidKonvaPath. unfold createAnchorShapes. sound. Qed.

Lemma sound_dragmove_connector :
  forall (rs : list nat) (pidShape : IPidShape) (group : nat) (c : IConnector),
    preserves (Sound rs) (dragmove_connector pidShape group c).
Proof. intros rs pidShape group c. unfold dragmove_connector. sound. Qed.

Lemma sound_export :
  forall rs : list nat, preserves (Sound rs) export.
Proof. intros rs. unfold export, export_shape. sound. Qed.


Lemma hoare_keep :
  forall {A : Type} (I X : Editor -> Prop) (m : M A),
    preserves I m -> (forall E, I E -> X E) -> hoare I m (fun _ => I) (fun _ => X).
Proof.
  intros A I X m H HX.
  apply (hoare_conseq I I (fun _ => I) (fun _ => I) (fun _ => I) (fun _ => X) m); auto.
  apply hoare_preserves. exact H.
Qed.

Lemma hoare_findOneCurrentLine :
  forall rs : list nat,
    hoare (Sound rs) findOneCurrentLine (fun o => Sound (withLine o rs))
      (fun _ => Sound rs).
Proof.
  intros rs E HS. unfold findOneCurrentLine, bind, get, ret.
  destruct (currentLine E) as [l|] eqn:Hcur; simpl; [|exact HS].
  apply find_some in Hcur. destruct Hcur as [Hin _].
  destruct HS as (Hlinked & Hstart & Hrs). split; [|split]; try assumption.
  intros r [Hr|Hr]; [subst r; apply in_map; exact Hin|apply Hrs; exact Hr].
Qed.

Lemma Sound_tail :
  forall (r : nat) (rs : list nat) (E : Editor), Sound (r :: rs) E -> Sound rs E.
Proof. intros r rs E. apply Sound_weaken. apply incl_tl. apply incl_refl. Qed.

Lemma hoare_endConnectingLine :
  forall (rs : list nat) (pos : Vector2d),
    hoare (Sound rs) (endConnectingLine pos) (fun o => Sound (withLine o rs))
      (fun _ => Sound rs).
Proof.
  intros rs pos. unfold endConnectingLine.
  apply (hoare_bind (hoare_findOneCurrentLine rs)). intros [line|]; simpl withLine.
  - assert (Hk : forall {A : Type} (m : M A),
               preserves (Sound (line :: rs)) m ->
               hoare (Sound (line :: rs)) m (fun _ => Sound (line :: rs))
                 (fun _ => Sound rs)).
    { intros A m H. apply hoare_keep; [exact H|apply Sound_tail]. }
    apply (hoare_bind (Hk _ _ (sound_recalculateTheLine _ line pos))). intros _.
    apply (@hoare_bind _ _ _ (fun _ => Sound (line :: rs))); [apply Hk; sound|intros _].
    apply (@hoare_bind _ _ _ (fun _ => Sound (line :: rs))); [apply Hk; sound|intros _].
    apply (@hoare_bind _ _ _ (fun _ => Sound (line :: rs))); [apply Hk; sound|intros l].
    apply (@hoare_bind _ _ _ (fun _ => Sound (line :: rs))); [apply Hk; sound|intros shapeStart].
    apply (@hoare_bind _ _ _ (fun _ => Sound (line :: rs))).
    + apply Hk. apply sound_addConnectorToPath. left. reflexivity.
    + intros _. apply hoare_ret. auto.
  - apply hoare_ret. auto.
Qed.

Lemma sound_endConnectingLine :
  forall (rs : list nat) (pos : Vector2d), preserves (Sound rs) (endConnectingLine pos).
Proof.
  intros rs pos. apply preserves_hoare.
  apply (hoare_conseq _ _ _ _ _ _ _ (hoare_endConnectingLine rs pos)); auto.
  intros [r|] E H; [exact (Sound_tail r rs E H)|exact H].
Qed.

Lemma hoare_newLine :
  forall (rs : list nat) (pts : list number) (n : LineName) (sai sid : number),
    (isCurrentLine n = true -> 2 <= length pts) ->
    hoare (Sound rs) (newLine pts n sai sid) (fun r => Sound (r :: rs))
      (fun _ => Sound rs).
Proof.
  intros rs pts n sai sid Hpts E HS. rewrite newLine_run.
  apply (Sound_frame (next_ref E :: rs)
           (set_lines
              (lines E ++ [{| line_ref := next_ref E; points := pts; line_name := n;
                              cacStartAnchorIndex := sai; cacStartPidShapeId := sid;
                              line_onLayer := false |}]) E)); [reflexivity|reflexivity|].
  apply (Sound_newLine rs
           {| line_ref := next_ref E; points := pts; line_name := n;
              cacStartAnchorIndex := sai; cacStartPidShapeId := sid;
              line_onLayer := false |}); [exact Hpts|exact HS].
Qed.

Lemma sound_anchorShape_mousedown :
  forall (rs : list nat) (a : AnchorShape), preserves (Sound rs) (anchorShape_mousedown a).
Proof.
  intros rs a. apply preserves_hoare. unfold anchorShape_mousedown.
  apply (@hoare_bind _ _ _ (fun _ => Sound rs)); [apply hoare_keep; [sound|auto]|].
  intros [line|]; [apply hoare_ret; auto|].
  apply (@hoare_bind _ _ _ (fun _ => Sound rs)); [apply hoare_keep; [sound|auto]|intros n].
  cbv zeta.
  eapply hoare_bind.
  - apply hoare_newLine. intros _. simpl. lia.
  - intros r. apply (hoare_conseq (Sound (r :: rs)) _ (fun _ => Sound (r :: rs)) _
                       (fun _ => Sound (r :: rs))).
    + apply hoare_preserves. sound.
    + auto.
    + intros _ E. apply Sound_tail.
    + intros E. apply Sound_tail.
Qed.

Lemma sound_anchorShape_mouseup :
  forall (rs : list nat) (a : AnchorShape), preserves (Sound rs) (anchorShape_mouseup a).
Proof.
  intros rs a. apply preserves_hoare. unfold anchorShape_mouseup. cbv zeta.
  apply (hoare_bind (hoare_endConnectingLine rs (anchorShape_pos a))).
  intros [line|]; simpl withLine; [|apply hoare_ret; auto].
  apply (hoare_conseq (Sound (line :: rs)) _ (fun _ => Sound (line :: rs)) _
           (fun _ => Sound (line :: rs))).
  - apply hoare_preserves. apply sound_addConnectorToPath. left. reflexivity.
  - auto.
  - intros _ E. apply Sound_tail.
  - intros E. apply Sound_tail.
Qed.

Lemma sound_stage_click :
  forall (rs : list nat) (pos : option Vector2d) (random : number),
    preserves (Sound rs) (stage_click pos random).
Proof.
  intros rs pos random. unfold stage_click.
  apply preserves_bind; [sound|intros _].
  destruct pos as [pos|]; [|sound].
  apply preserves_bind; [sound|intros [current|]]; [|sound].
  apply preserves_hoare.
  apply (hoare_bind (hoare_endConnectingLine rs pos)). intros line.
  apply (@hoare_bind _ _ _ (fun _ => Sound (withLine line rs))).
  - apply hoare_keep.
    + unfold createEmtpyShape, addShape_defaultId. sound.
    + destruct line as [line|]; simpl withLine; [intros E H; exact (Sound_tail _ _ _ H)|auto].
  - intros emptyEnd. destruct line as [line|]; simpl withLine; [|apply hoare_ret; auto].
    apply (hoare_conseq (Sound (line :: rs)) _ (fun _ => Sound (line :: rs)) _
             (fun _ => Sound (line :: rs))).
    + apply hoare_preserves. apply sound_addConnectorToPath. left. reflexivity.
    + auto.
    + intros _ E. apply Sound_tail.
    + intros E. apply Sound_tail.
Qed.

Lemma sound_importJson_conn :
  forall (rs : list nat) (groupAndPidShapes : list nat) (dto : IDtoPidShape)
         (conn : IDtoConnection),
    preserves (Sound rs) (importJson_conn groupAndPidShapes dto conn).
Proof.
  intros rs gs dto conn. apply preserves_hoare. unfold importJson_conn.
  eapply hoare_bind.
  - apply hoare_newLine. intros H. discriminate H.
  - intros r. apply (hoare_conseq (Sound (r :: rs)) _ (fun _ => Sound (r :: rs)) _
                       (fun _ => Sound (r :: rs))).
    + apply hoare_preserves. keep; try sound_leaf;
        apply sound_addConnectorToPath; left; reflexivity.
    + auto.
    + intros _ E. apply Sound_tail.
    + intros E. apply Sound_tail.
Qed.

Lemma sound_importJson :
  forall (rs : list nat) (data : option (list IDtoPidShape)),
    preserves (Sound rs) (importJson data).
Proof.
  intros rs data. unfold importJson. sound. apply sound_importJson_conn.
Qed.

Lemma sound_clear : forall rs : list nat, preserves (Sound rs) clear.
Proof.
  intros rs E (Hlinked & Hstart & Hrs). unfold exec, clear, modify. simpl.
  split; [|split]; simpl.
  - constructor.
  - apply Forall_map. eapply Forall_impl; [|exact Hstart]. intros l Hl. exact Hl.
  - rewrite map_map. simpl. exact Hrs.
Qed.

Lemma sound_deleteShape :
  forall (rs : list nat) (group : nat), preserves (Sound rs) (deleteShape group).
Proof. intros rs group. unfold deleteShape. sound. Qed.

Lemma Sound_step :
  forall (E : Editor) (ev : event), Sound [] E -> Sound [] (step E ev).
Proof.
  intros E ev. revert E. change (preserves (Sound []) (handle ev)).
  destruct ev as [pidShape x y [id|] random| |data| |group|group|group|group pos|group
                 |i|i|pos random|pos| |group]; simpl handle.
  - sound.
  - unfold addShape_defaultId. sound.
  - keep. apply sound_export.
  - keep. apply sound_importJson.
  - apply sound_clear.
  - unfold onGroup, group_click. keep. apply sound_createAnchorShapes.
  - unfold onGroup, group_mouseover. keep. apply sound_createAnchorShapes.
  - unfold onGroup, group_mousedown. sound.
  - unfold onGroup, group_dragmove. keep; try sound_leaf. apply sound_dragmove_connector.
  - unfold onGroup, group_dragend. sound.
  - unfold onAnchor. keep. apply sound_anchorShape_mousedown.
  - unfold onAnchor. keep. apply sound_anchorShape_mouseup.
  - apply sound_stage_click.
  - unfold stage_mousemove. sound.
  - sound.
  - apply sound_deleteShape.
Qed.

Lemma reachable_Sound : forall E : Editor, reachable E -> Sound [] E.
Proof.
  intros E H. induction H as [|E ev _ IH].
  - split; [|split]; simpl; try constructor. intros r [].
  - apply Sound_step. exact IH.
Qed.


(** ** The anchor markers and their shapes *)

Lemma markers_keep :
  forall E E' : Editor,
    anchorShapes E' = [] \/ anchorShapes E' = anchorShapes E ->
    (forall n, In n (shapes E) ->
       exists n', In n' (shapes E') /\ node_ref n' = node_ref n /\
                  cacPidKonvaShape n' = cacPidKonvaShape n) ->
    markersOfOne E -> markersOfOne E'.
Proof.
  intros E E' [Ha|Ha] Hs H; [left; exact Ha|].
  destruct H as [H|(n & rect & Hin & H)]; [left; rewrite Ha; exact H|].
  right. destruct (Hs n Hin) as (n' & Hin' & Hr & Ht).
  exists n', rect. split; [exact Hin'|]. rewrite Ha, Hr, Ht. exact H.
Qed.

Lemma owners_updateNode :
  forall (r : nat) (f : PidNode -> PidNode) (ns : list PidNode),
    (forall n, node_ref (f n) = node_ref n) ->
    (forall n, cacPidKonvaShape (f n) = cacPidKonvaShape n) ->
    forall n, In n ns ->
      exists n', In n' (updateNode r f ns) /\ node_ref n' = node_ref n /\
                 cacPidKonvaShape n' = cacPidKonvaShape n.
Proof.
  intros r f ns Hr Ht n Hin. exists (if node_ref n =? r then f n else n). split.
  - unfold updateNode. apply in_map_iff. exists n. auto.
  - destruct (node_ref n =? r); auto.
Qed.

Lemma owners_same :
  forall (ns : list PidNode) (n : PidNode),
    In n ns ->
    exists n', In n' ns /\ node_ref n' = node_ref n /\
               cacPidKonvaShape n' = cacPidKonvaShape n.
Proof. intros ns n Hin. exists n. auto. Qed.

Lemma owners_app :
  forall (ns ns' : list PidNode) (n : PidNode),
    In n ns ->
    exists n', In n' (ns ++ ns') /\ node_ref n' = node_ref n /\
               cacPidKonvaShape n' = cacPidKonvaShape n.
Proof. intros ns ns' n Hin. exists n. split; [apply in_or_app; left; exact Hin|auto]. Qed.

(** The changes of the state that keep the markers those of one shape. *)
Ltac markers_leaf :=
  let E := fresh "E" in
  let H := fresh "H" in
  intros E H; cbv beta;
  apply (markers_keep E);
  [ cbn; first [left; reflexivity | right; reflexivity]
  | cbn [shapes set_shapes set_lines set_anchorShapes set_fired];
    first [ apply owners_same
          | apply owners_updateNode; intro; reflexivity
          | apply owners_app ]
  | exact H ].

Ltac markers := keep; try markers_leaf.

(** The changes of the state that leave no marker. *)
Ltac unmarked := keep; intros ? ?; first [assumption | reflexivity].

Lemma createAnchorShapes_markers :
  forall (E : Editor) (pidKonvaPath : nat) (n : PidNode),
    findNode pidKonvaPath (shapes E) = Some n ->
    markersOfOne (exec (createAnchorShapes (cacPidKonvaShape n) pidKonvaPath) E).
Proof.
  intros E pidKonvaPath n Hn. unfold exec, createAnchorShapes.
  unfold bind at 1. unfold cleanAnchorShapes at 1, modify at 1.
  unfold getNode, bind, get. cbn [shapes set_anchorShapes]. rewrite Hn. simpl.
  right. exists n, (getClientRect n). apply findNode_ref in Hn. destruct Hn as [Hin Hr].
  split; [exact Hin|]. simpl. rewrite Hr. reflexivity.
Qed.

Lemma unmarked_deleteShape :
  forall (group : nat) (E : Editor), anchorShapes (exec (deleteShape group) E) = [].
Proof.
  intros group E.
  apply (@triple_bind _ _ (fun _ => True) (fun E => anchorShapes E = [])
           (fun E => anchorShapes E = []) cleanAnchorShapes
           (fun _ =>
              E <- get ;;
              match findNode group (shapes E) with
              | None => ret tt
              | Some n =>
                  match cacConnectors n with
                  | Some conns => forEach conns (fun c => destroyLine (line c))
                  | None => ret tt
                  end ;;
                  modify (fun E => set_shapes (removeNode group (shapes E)) E) ;;
                  fire
              end)); [| |intros _; unmarked|exact I].
  - intros E0 _. reflexivity.
  - auto.
Qed.

Lemma unmarked_endConnectingLine :
  forall pos : Vector2d,
    preserves (fun E => anchorShapes E = []) (endConnectingLine pos).
Proof.
  intros pos. unfold endConnectingLine, addConnectorToPath. unmarked.
Qed.

Lemma unmarked_stage_click :
  forall (pos : option Vector2d) (random : number) (E : Editor),
    anchorShapes (exec (stage_click pos random) E) = [].
Proof.
  intros pos random E. unfold stage_click.
  apply (@triple_bind _ _ (fun _ => True) (fun E => anchorShapes E = [])
           (fun E => anchorShapes E = []) cleanAnchorShapes); [| | |exact I].
  - intros E0 _. reflexivity.
  - auto.
  - intros _. destruct pos as [pos|]; [|unmarked].
    apply preserves_bind; [unmarked|intros [current|]]; [|unmarked].
    apply preserves_bind; [apply unmarked_endConnectingLine|intros line].
    unfold createEmtpyShape, addShape_defaultId, addConnectorToPath. unmarked.
Qed.

Lemma markers_step :
  forall (E : Editor) (ev : event), markersOfOne E -> markersOfOne (step E ev).
Proof.
  intros E ev. revert E. change (preserves markersOfOne (handle ev)).
  destruct ev as [pidShape x y [id|] random| |data| |group|group|group|group pos|group
                 |i|i|pos random|pos| |group]; simpl handle.
  - markers.
  - unfold addShape_defaultId. markers.
  - unfold exportJson, export, export_shape. markers.
  - unfold importJson, importJson_conn, addConnectorToPath. markers.
  - intros E _. left. reflexivity.
  - intros E H. unfold exec, onGroup, bind, get.
    destruct (findNode group (shapes E)) as [n|] eqn:Hn; [|exact H].
    unfold group_click, bind.
    pose proof (createAnchorShapes_markers E group n Hn) as Hc. unfold exec in Hc.
    destruct (createAnchorShapes (cacPidKonvaShape n) group E) as [[a|e] E']; exact Hc.
  - intros E H. unfold exec, onGroup, bind, get.
    destruct (findNode group (shapes E)) as [n|] eqn:Hn; [|exact H].
    unfold group_mouseover, findOneCurrentLine, bind, get, ret.
    destruct (option_map line_ref (currentLine E)); [|exact H].
    pose proof (createAnchorShapes_markers E group n Hn) as Hc. unfold exec in Hc.
    unfold bind.
    destruct (createAnchorShapes (cacPidKonvaShape n) group E) as [[a|e] E']; exact Hc.
  - unfold onGroup, group_mousedown. markers.
  - unfold onGroup, group_dragmove, dragmove_connector. markers.
  - unfold onGroup, group_dragend. markers.
  - unfold onAnchor, anchorShape_mousedown. markers.
  - unfold onAnchor, anchorShape_mouseup, endConnectingLine, addConnectorToPath. markers.
  - intros E _. left. apply unmarked_stage_click.
  - unfold stage_mousemove. markers.
  - markers.
  - intros E _. left. apply unmarked_deleteShape.
Qed.

Lemma reachable_markers : forall E : Editor, reachable E -> markersOfOne E.
Proof.
  intros E H. induction H as [|E ev _ IH].
  - left. reflexivity.
  - apply markers_step. exact IH.
Qed.


(** ** What [exportJson] returns *)

Lemma updateAt_middle :
  forall {A : Type} (f : A -> A) (pre : list A) (a : A) (post : list A),
    updateAt (length pre) f (pre ++ a :: post) = pre ++ f a :: post.
Proof.
  intros A f pre a post. induction pre as [|b pre IH]; simpl; [reflexivity|].
  rewrite IH. reflexivity.
Qed.

Lemma updateNode_ext_in :
  forall (r : nat) (f g : PidNode -> PidNode) (ns : list PidNode),
    (forall n, In n ns -> node_ref n = r -> f n = g n) ->
    updateNode r f ns = updateNode r g ns.
Proof.
  intros r f g ns H. unfold updateNode. apply map_ext_in. intros n Hin.
  destruct (node_ref n =? r) eqn:Hr; [|reflexivity].
  apply H; [exact Hin|]. apply Nat.eqb_eq. exact Hr.
Qed.

Lemma NoDup_same_ref :
  forall (ns : list PidNode) (n n' : PidNode),
    NoDup (map node_ref ns) -> In n ns -> In n' ns -> node_ref n' = node_ref n -> n' = n.
Proof.
  intros ns n n' Hnd Hn Hn' Hr.
  pose proof (findNode_NoDup ns n Hnd Hn) as H1.
  pose proof (findNode_NoDup ns n' Hnd Hn') as H2.
  rewrite Hr in H2. congruence.
Qed.

(** The records of one shape, refreshed from the lines one after the other. *)
Lemma export_records :
  forall (r : nat) (ends : list IConnector) (todo done : list IDtoConnection)
         (E : Editor) (n : PidNode),
    NoDup (map node_ref (shapes E)) ->
    findNode r (shapes E) = Some n ->
    dto_c (cacDto n) = done ++ todo ->
    Forall (fun c => In (line c) (map line_ref (lines E))) ends ->
    length ends = length todo ->
    forEachi_from (length done) ends
      (fun c index =>
         l <- getLine (line c) ;;
         n <- getNode r ;;
         match nth_error (dto_c (cacDto n)) index with
         | None => throw TypeError
         | Some _ =>
             setNode r (fun n =>
               set_cacDto
                 (set_dto_c (updateAt index (set_conn_l (points l)) (dto_c (cacDto n)))
                            (cacDto n)) n)
         end) E =
      (Ok tt,
       set_shapes
         (updateNode r
            (fun n => set_cacDto
                        (set_dto_c (done ++ refreshed (lines E) ends todo) (cacDto n)) n)
            (shapes E)) E).
Proof.
  intros r ends. induction ends as [|c ends IH]; intros todo done E n Hnd Hn Hc Hstore Hlen.
  - destruct todo; [|discriminate Hlen]. simpl. unfold ret. f_equal.
    rewrite (updateNode_id r _ (shapes E) n Hnd Hn).
    + rewrite set_shapes_same. reflexivity.
    + rewrite <- Hc. destruct n as [nr p sh d cc]. destruct d. reflexivity.
  - destruct todo as [|rec todo]; [discriminate Hlen|].
    inversion Hstore as [|? ? Hline Hstore']; subst.
    destruct (findLine_inStore (line c) (lines E) Hline) as [l Hl].
    simpl forEachi_from.
    set (rec' := set_conn_l (points l) rec).
    set (f1 := fun n0 : PidNode =>
                 set_cacDto
                   (set_dto_c (updateAt (length done) (set_conn_l (points l))
                                 (dto_c (cacDto n0))) (cacDto n0)) n0).
    set (E1 := set_shapes (updateNode r f1 (shapes E)) E).
    match goal with
    | |- bind ?body _ E = _ => assert (Hbody : body E = (Ok tt, E1))
    end.
    { rewrite (bind_Ok _ (getLine_Some Hl)). rewrite (bind_Ok _ (getNode_Some Hn)).
      rewrite Hc, nth_error_middle. reflexivity. }
    rewrite (bind_Ok _ Hbody).
    assert (Hn1 : findNode r (shapes E1) = Some (f1 n)).
    { unfold E1. cbn [shapes set_shapes]. rewrite findNode_updateNode_same by reflexivity.
      rewrite Hn. reflexivity. }
    assert (Hnd1 : NoDup (map node_ref (shapes E1))).
    { unfold E1. cbn [shapes set_shapes]. rewrite map_updateNode_ref by reflexivity.
      exact Hnd. }
    assert (Hc1 : dto_c (cacDto (f1 n)) = (done ++ [rec']) ++ todo).
    { unfold f1. simpl. rewrite Hc, updateAt_middle, <- app_assoc. reflexivity. }
    replace (S (length done)) with (length (done ++ [rec']))
      by (rewrite length_app; simpl; lia).
    rewrite (IH todo (done ++ [rec']) E1 (f1 n) Hnd1 Hn1 Hc1).
    + f_equal. unfold E1. cbn [shapes lines set_shapes]. unfold set_shapes. simpl. f_equal.
      rewrite updateNode_compose by reflexivity. rewrite Hl. fold rec'.
      rewrite <- app_assoc. simpl. apply updateNode_ext_in. intros n0 _ _.
      unfold f1. destruct n0 as [nr p sh d cc]. destruct d. reflexivity.
    + exact Hstore'.
    + simpl in Hlen. lia.
Qed.

Lemma export_shape_run :
  forall (E : Editor) (n : PidNode),
    NoDup (map node_ref (shapes E)) -> In n (shapes E) -> linked (lines E) n ->
    export_shape (node_ref n) E =
      (Ok tt,
       set_shapes
         (updateNode (node_ref n) (fun n' => set_cacDto (exportedDto (lines E) n') n')
            (shapes E)) E).
Proof.
  intros E n Hnd Hin Hlinked. unfold export_shape.
  pose proof (findNode_NoDup _ _ Hnd Hin) as Hfind.
  rewrite (bind_Ok _ (getNode_Some Hfind)).
  unfold linked in Hlinked. destruct (cacConnectors n) as [conns|] eqn:Hconns.
  - destruct Hlinked as [Hstore Hlen]. unfold forEachi.
    change 0 with (length (@nil IDtoConnection)).
    rewrite (export_records (node_ref n)
               (filter (fun c => isEnd (connector_type c)) conns)
               (dto_c (cacDto n)) [] E n Hnd Hfind eq_refl).
    + f_equal. unfold set_shapes. f_equal. apply updateNode_ext_in.
      intros n' Hn' Hr. rewrite (NoDup_same_ref _ _ _ Hnd Hin Hn' Hr).
      unfold exportedDto. rewrite Hconns. reflexivity.
    + rewrite Forall_forall in *. intros c Hc. apply Hstore.
      apply filter_In in Hc. tauto.
    + exact Hlen.
  - unfold ret. f_equal.
    rewrite (updateNode_id (node_ref n) _ (shapes E) n Hnd Hfind).
    + rewrite set_shapes_same. reflexivity.
    + unfold exportedDto. rewrite Hconns. destruct n as [nr p sh d cc]. reflexivity.
Qed.

Lemma updateNode_notin :
  forall (r : nat) (f : PidNode -> PidNode) (ns : list PidNode),
    ~ In r (map node_ref ns) -> updateNode r f ns = ns.
Proof.
  intros r f ns H. unfold updateNode. apply map_id_in. intros n Hn.
  destruct (node_ref n =? r) eqn:Hr; [|reflexivity].
  exfalso. apply H. apply Nat.eqb_eq in Hr. rewrite <- Hr. apply in_map. exact Hn.
Qed.

Lemma export_shapes_run :
  forall (ls : list Line) (todo done : list PidNode) (E : Editor),
    lines E = ls ->
    shapes E = map (fun n => set_cacDto (exportedDto ls n) n) done ++ todo ->
    NoDup (map node_ref (done ++ todo)) ->
    Forall (linked ls) todo ->
    forEach (map node_ref todo) export_shape E =
      (Ok tt,
       set_shapes (map (fun n => set_cacDto (exportedDto ls n) n) (done ++ todo)) E).
Proof.
  intros ls todo. induction todo as [|n todo IH]; intros done E Hls Hshapes Hnd Hlinked.
  - simpl. unfold ret. f_equal. rewrite app_nil_r in *. rewrite <- Hshapes.
    rewrite set_shapes_same. reflexivity.
  - simpl. inversion Hlinked as [|? ? Hn Hlinked']; subst.
    set (X := fun n0 : PidNode => set_cacDto (exportedDto (lines E) n0) n0) in *.
    assert (Hrefs : map node_ref (shapes E) = map node_ref (done ++ n :: todo)).
    { rewrite Hshapes, !map_app, map_map. reflexivity. }
    assert (Hnd0 : NoDup (map node_ref (shapes E))) by (rewrite Hrefs; exact Hnd).
    assert (Hin : In n (shapes E)).
    { rewrite Hshapes. apply in_or_app. right. left. reflexivity. }
    rewrite (bind_Ok _ (export_shape_run E n Hnd0 Hin Hn)). fold X.
    assert (Hupd : updateNode (node_ref n) X (shapes E) = map X (done ++ [n]) ++ todo).
    { rewrite Hshapes. unfold updateNode at 1. rewrite map_app. simpl.
      rewrite Nat.eqb_refl.
      fold (updateNode (node_ref n) X (map X done)).
      fold (updateNode (node_ref n) X todo).
      rewrite map_app in Hnd. apply NoDup_remove_2 in Hnd.
      rewrite !updateNode_notin.
      - rewrite map_app, <- app_assoc. reflexivity.
      - intros H. apply Hnd. apply in_or_app. right. exact H.
      - intros H. apply Hnd. apply in_or_app. left. rewrite map_map in H. exact H. }
    rewrite (IH (done ++ [n])
               (set_shapes (updateNode (node_ref n) X (shapes E)) E)).
    + f_equal. unfold set_shapes. simpl. rewrite <- app_assoc. reflexivity.
    + reflexivity.
    + exact Hupd.
    + rewrite <- app_assoc. exact Hnd.
    + exact Hlinked'.
Qed.

Lemma refreshed_refreshed :
  forall (ls : list Line) (ends : list IConnector) (recs : list IDtoConnection),
    refreshed ls ends (refreshed ls ends recs) = refreshed ls ends recs.
Proof.
  intros ls ends. induction ends as [|c ends IH]; intros [|rec recs]; simpl; try reflexivity.
  destruct (findLine (line c) ls) as [l|]; simpl; [|reflexivity].
  rewrite IH. reflexivity.
Qed.

Lemma length_refreshed :
  forall (ls : list Line) (ends : list IConnector) (recs : list IDtoConnection),
    length (refreshed ls ends recs) = length recs.
Proof.
  intros ls ends. induction ends as [|c ends IH]; intros [|rec recs]; simpl; try reflexivity.
  destruct (findLine (line c) ls); simpl; [rewrite IH|]; reflexivity.
Qed.

Lemma exportedDto_again :
  forall (ls : list Line) (n : PidNode),
    exportedDto ls (set_cacDto (exportedDto ls n) n) = exportedDto ls n.
Proof.
  intros ls n. unfold exportedDto. simpl. destruct (cacConnectors n) as [conns|];
    [|reflexivity].
  simpl. rewrite refreshed_refreshed. reflexivity.
Qed.

(** Exporting, for an editor whose shapes are [linked]. *)
Lemma export_run :
  forall E : Editor,
    wf E -> Forall (linked (lines E)) (shapes E) ->
    export E = (Ok (map (exportedDto (lines E)) (shapes E)), exportedEditor E).
Proof.
  intros E (Hnd & _) Hlinked. unfold export. unfold bind at 1. unfold get at 1.
  rewrite (bind_Ok _ (export_shapes_run (lines E) (shapes E) [] E eq_refl eq_refl
                        Hnd Hlinked)).
  cbn [app]. fold (exportedEditor E).
  assert (Hrefs : map node_ref (shapes E) = map node_ref (shapes (exportedEditor E))).
  { unfold exportedEditor. cbn [shapes set_shapes]. rewrite map_map. reflexivity. }
  rewrite Hrefs. rewrite mapM_getDto.
  - unfold exportedEditor at 1. cbn [shapes set_shapes]. rewrite map_map. reflexivity.
  - rewrite <- Hrefs. exact Hnd.
  - apply incl_refl.
Qed.

(** In every state an editor goes through, [exportJson] completes: it
    returns one entry for each shape on the layer, in the order of the layer,
    the shape's [cacDto] with the points of the lines of its ['end']
    connectors as the routes [l] of its records, and it stores these routes in
    the shapes; an export that follows returns the same document and changes
    nothing. *)
Theorem exportJson_reachable :
  forall E : Editor,
    reachable E ->
    let data := map (exportedDto (lines E)) (shapes E) in
    exportJson E = (Ok data, exportedEditor E) /\
    exportJson (exportedEditor E) = (Ok data, exportedEditor E) /\
    length data = length (shapes E) /\
    map strip data = map strip (docs E) /\
    map (fun d => length (dto_c d)) data = map (fun d => length (dto_c d)) (docs E).
Proof.
  intros E Hreach data.
  pose proof (reachable_wf E Hreach) as Hwf.
  pose proof (reachable_Sound E Hreach) as (Hlinked & _ & _).
  assert (Hrun : exportJson E = (Ok data, exportedEditor E))
    by (apply export_run; assumption).
  split; [exact Hrun|]. split; [|split; [|split]].
  - assert (Hreach' : reachable (exportedEditor E)).
    { replace (exportedEditor E) with (step E Ev_exportJson);
        [apply reachable_step; exact Hreach|].
      unfold step, exec. simpl handle. rewrite (bind_Ok _ Hrun). reflexivity. }
    pose proof (reachable_wf _ Hreach') as Hwf'.
    pose proof (reachable_Sound _ Hreach') as (Hlinked' & _ & _).
    unfold exportJson. rewrite (export_run _ Hwf' Hlinked').
    assert (Hsame : map (exportedDto (lines (exportedEditor E))) (shapes (exportedEditor E))
                    = data).
    { unfold exportedEditor at 1 2. cbn [shapes lines set_shapes]. rewrite map_map.
      apply map_ext. intros n. apply exportedDto_again. }
    rewrite Hsame. f_equal. unfold exportedEditor. cbn [shapes lines set_shapes].
    unfold set_shapes. simpl. f_equal. rewrite map_map. apply map_ext. intros n.
    rewrite exportedDto_again. reflexivity.
  - unfold data. apply length_map.
  - unfold data, docs. rewrite !map_map. apply map_ext. intros n.
    unfold exportedDto. destruct (cacConnectors n); reflexivity.
  - unfold data, docs. rewrite !map_map. apply map_ext. intros n.
    unfold exportedDto. destruct (cacConnectors n); [|reflexivity].
    simpl. apply length_refreshed.
Qed.


(** ** Clearing before an import *)

Lemma clear_run :
  forall E : Editor,
    clear E =
      (Ok tt,
       {| shapes := []; lines := map (set_line_onLayer false) (lines E); anchorShapes := [];
          fired := fired E; next_ref := next_ref E |}).
Proof. reflexivity. Qed.

Lemma layerRoutes_cleared :
  forall ls : list Line, map points (filter line_onLayer (map (set_line_onLayer false) ls)) = [].
Proof. intros ls. induction ls as [|l ls IH]; simpl; [reflexivity|exact IH]. Qed.

(** Importing a document into an editor without shapes. *)
Lemma importJson_run_empty :
  forall (D : list IDtoPidShape) (E : Editor),
    wf E -> shapes E = [] ->
    exists (gs : list nat) (E' : Editor),
      importJson (Some D) E = (Ok (Some gs), E') /\
      length gs = length D /\
      NoDup (map node_ref (shapes E')) /\
      Forall (synced (lines E')) (shapes E') /\
      docs E' = imported D /\
      layerRoutes E' = layerRoutes E ++ map conn_l (filter (resolves D) (flat_map dto_c D)).
Proof.
  intros D E Hwf Hempty. unfold importJson.
  assert (Hsync : Forall (synced (lines E)) (shapes E)) by (rewrite Hempty; constructor).
  destruct (importJson_shapes_run D E Hwf Hsync)
    as (gs & E1 & Hrun1 & Hwf1 & Hsync1 & Hrefs1 & Hdocs1 & Hlines1 & Hlen).
  unfold docs in Hdocs1. rewrite Hempty in Hrefs1, Hdocs1. simpl in Hrefs1, Hdocs1.
  destruct (importJson_entries_run gs D E1 Hwf1 Hsync1 Hrefs1)
    as (E' & Hrun' & Hwf' & Hsync' & Hrefs' & Hdocs' & Hroutes').
  { unfold docs. rewrite Hdocs1, strip_ids. apply incl_refl. }
  exists gs, E'. rewrite (bind_Ok _ Hrun1). rewrite (bind_Ok _ Hrun').
  split; [reflexivity|]. split; [exact Hlen|].
  split; [exact (proj1 Hwf')|]. split; [exact Hsync'|].
  split; [rewrite Hdocs'; unfold docs; rewrite Hdocs1; reflexivity|].
  rewrite Hroutes'. unfold layerRoutes. rewrite Hlines1.
  f_equal. f_equal. apply filter_ext. intros c. apply resolves_ids.
  unfold docs. rewrite Hdocs1. apply strip_ids.
Qed.

(** [clear()] followed by [importJson(D)] leaves the document and the
    connector lines of [importJson(D)] on a new editor, whatever the editor
    held before: the shapes are those of [D], the lines on the layer are those
    of the connections of [D] that [importJson] keeps, no line is in progress,
    and the export is the one a new editor gives. *)
Theorem clear_then_import :
  forall (E : Editor) (D : list IDtoPidShape),
    reachable E ->
    let fresh := exec (importJson (Some D)) initEditor in
    let again := exec (clear ;; importJson (Some D)) E in
    (exists groupAndPidShapes : list nat,
        eval (clear ;; importJson (Some D)) E = Ok (Some groupAndPidShapes) /\
        length groupAndPidShapes = length D) /\
    docs again = docs fresh /\
    layerRoutes again = layerRoutes fresh /\
    currentLine again = None /\
    anchorShapes again = [] /\
    eval exportJson again = eval exportJson fresh /\
    (NoDup (map dto_id D) ->
     (forall dto c, In dto D -> In c (dto_c dto) -> resolves D c = true) ->
     eval exportJson again = Ok D).
Proof.
  intros E D Hreach fresh again.
  pose proof (reachable_Inv E Hreach) as HI.
  set (E0 := {| shapes := []; lines := map (set_line_onLayer false) (lines E);
                anchorShapes := []; fired := fired E; next_ref := next_ref E |}).
  assert (HI0 : Inv 1 E0).
  { apply (preserves_clear (atMost 1)); [|exact HI]. intros ls _. apply atMost_clear. }
  destruct (importJson_run_empty D E0 (proj1 HI0) eq_refl)
    as (gs & E' & Hrun & Hlen & Hnd' & Hsync' & Hdocs' & Hroutes').
  destruct (importJson_run D) as (gs0 & F' & HrunF & _ & HndF & HsyncF & HdocsF & HroutesF).
  assert (Hagain : (clear ;; importJson (Some D)) E = (Ok (Some gs), E')).
  { rewrite (bind_Ok _ (clear_run E)). exact Hrun. }
  assert (HE' : again = E') by (unfold again, exec; rewrite Hagain; reflexivity).
  assert (HF' : fresh = F') by (unfold fresh, exec; rewrite HrunF; reflexivity).
  assert (Hexp : eval exportJson again = Ok (imported D)).
  { rewrite HE'. unfold eval, exportJson. rewrite (export_synced E' Hnd' Hsync').
    simpl. rewrite Hdocs'. reflexivity. }
  assert (HexpF : eval exportJson fresh = Ok (imported D)).
  { rewrite HF'. unfold eval, exportJson. rewrite (export_synced F' HndF HsyncF).
    simpl. rewrite HdocsF. reflexivity. }
  split; [exists gs; unfold eval; rewrite Hagain; auto|].
  split; [rewrite HE', HF', Hdocs', HdocsF; reflexivity|].
  split.
  { rewrite HE', HF', Hroutes', HroutesF. unfold layerRoutes at 1. simpl.
    rewrite layerRoutes_cleared. reflexivity. }
  split.
  { assert (Hnone : forall E1 : Editor,
               atMost 0 (lines E1) -> currentLine E1 = None).
    { intros E1 H0. unfold atMost in H0. unfold currentLine.
      destruct (find (fun l => line_onLayer l && isCurrentLine (line_name l)) (lines E1))
        as [l|] eqn:Hf; [|reflexivity].
      apply find_some in Hf. destruct Hf as [Hin Hc].
      assert (Hin' : In l (filter isCurrent (lines E1))) by (apply filter_In; auto).
      destruct (filter isCurrent (lines E1)); [destruct Hin'|simpl in H0; lia]. }
    apply Hnone.
    assert (HI00 : Inv 0 E0).
    { split; [exact (proj1 HI0)|]. apply atMost_clear. }
    pose proof (preserves_importJson 0 (Some D) E0 HI00) as H0.
    unfold exec in H0. rewrite Hrun in H0. rewrite HE'. exact (proj2 H0). }
  split.
  { rewrite HE'.
    assert (Hq : preserves (fun E1 => anchorShapes E1 = []) (importJson (Some D))).
    { unfold importJson, importJson_conn, addConnectorToPath. unmarked. }
    specialize (Hq E0 eq_refl). unfold exec in Hq. rewrite Hrun in Hq. exact Hq. }
  split; [rewrite Hexp, HexpF; reflexivity|].
  intros HndD Hres. rewrite Hexp. rewrite (imported_id D HndD Hres). reflexivity.
Qed.


(** At any time the anchor markers are those of a single shape that is on the
    layer: one for each anchor of its template, in the order of the anchors,
    the i-th with the index i and at the i-th anchor's offset from one
    corner. *)
Theorem markers_of_one_shape :
  forall E : Editor,
    reachable E ->
    anchorShapes E = [] \/
    exists (n : PidNode) (rect : Vector2d),
      In n (shapes E) /\
      length (anchorShapes E) = length (anchors (cacPidKonvaShape n)) /\
      forall (i : nat) (a : AnchorShape),
        nth_error (anchorShapes E) i = Some a ->
        anchorShape_path a = node_ref n /\
        anchorShape_index a = i /\
        exists anchor : IPidAnchor,
          nth_error (anchors (cacPidKonvaShape n)) i = Some anchor /\
          anchorShape_pos a = {| vx := (anchor_x anchor + vx rect)%Qc;
                                 vy := (anchor_y anchor + vy rect)%Qc |}.
Proof.
  intros E Hreach. destruct (reachable_markers E Hreach) as [H|(n & rect & Hin & H)];
    [left; exact H|].
  right. exists n, rect. split; [exact Hin|]. rewrite H. unfold markersAt, mapi. split.
  - apply length_mapi_from.
  - intros i a Ha. rewrite nth_error_mapi_from in Ha.
    destruct (nth_error (anchors (cacPidKonvaShape n)) i) as [anchor|]; [|discriminate].
    simpl in Ha. injection Ha as <-. simpl. split; [reflexivity|]. split; [reflexivity|].
    exists anchor. auto.
Qed.

(** ** The line in progress *)

Lemma currentLine_findLine :
  forall (E : Editor) (l : Line),
    wf E -> currentLine E = Some l -> findLine (line_ref l) (lines E) = Some l.
Proof.
  intros E l (_ & Hndl & _) Hcur. apply find_some in Hcur. destruct Hcur as [Hin _].
  apply findLine_NoDup; assumption.
Qed.

Lemma currentLine_points :
  forall (rs : list nat) (E : Editor) (l : Line),
    Sound rs E -> currentLine E = Some l ->
    exists (x0 y0 : number) (rest : list number), points l = x0 :: y0 :: rest.
Proof.
  intros rs E l (_ & Hstart & _) Hcur. apply find_some in Hcur. destruct Hcur as [Hin Hc].
  rewrite Forall_forall in Hstart. specialize (Hstart l Hin). unfold startable in Hstart.
  apply andb_prop in Hc. destruct Hc as [_ Hc]. specialize (Hstart Hc).
  destruct (points l) as [|x0 [|y0 rest]]; simpl in Hstart; try lia.
  exists x0, y0, rest. reflexivity.
Qed.

Lemma currentLine_updateLine :
  forall (ls : list Line) (l : Line) (f : Line -> Line),
    NoDup (map line_ref ls) ->
    find isCurrent ls = Some l ->
    (forall l', isCurrent (f l') = isCurrent l') ->
    (forall l', line_ref (f l') = line_ref l') ->
    find isCurrent (updateLine (line_ref l) f ls) = Some (f l).
Proof.
  intros ls l f Hnd Hfind Hc Hr. induction ls as [|l0 ls IH]; simpl in *; [discriminate|].
  inversion Hnd as [|? ? Hnin Hnd']; subst.
  destruct (isCurrent l0) eqn:Hc0.
  - injection Hfind as ->. rewrite Nat.eqb_refl, Hc, Hc0. reflexivity.
  - pose proof (find_some _ _ Hfind) as [Hin _].
    destruct (line_ref l0 =? line_ref l) eqn:Hr0.
    + exfalso. apply Hnin. apply Nat.eqb_eq in Hr0. rewrite Hr0. apply in_map. exact Hin.
    + rewrite Hc0. apply IH; assumption.
Qed.

Lemma updateLine_compose :
  forall (r : nat) (f g : Line -> Line) (ls : list Line),
    (forall l, line_ref (f l) = line_ref l) ->
    updateLine r g (updateLine r f ls) = updateLine r (fun l => g (f l)) ls.
Proof.
  intros r f g ls Hf. unfold updateLine. rewrite map_map. apply map_ext.
  intros l. destruct (line_ref l =? r) eqn:Hr.
  - rewrite Hf, Hr. reflexivity.
  - rewrite Hr. reflexivity.
Qed.

Lemma no_currentLine :
  forall E : Editor, atMost 0 (lines E) -> currentLine E = None.
Proof.
  intros E H0. unfold atMost in H0. unfold currentLine.
  destruct (find (fun l => line_onLayer l && isCurrentLine (line_name l)) (lines E))
    as [l|] eqn:Hf; [|reflexivity].
  apply find_some in Hf. destruct Hf as [Hin Hc].
  assert (Hin' : In l (filter isCurrent (lines E))) by (apply filter_In; auto).
  destruct (filter isCurrent (lines E)); [destruct Hin'|simpl in H0; lia].
Qed.

Lemma stage_mousemove_run :
  forall (E : Editor) (pos : Vector2d) (l : Line) (x0 y0 : number) (rest : list number),
    wf E -> currentLine E = Some l -> points l = x0 :: y0 :: rest ->
    handle (Ev_stage_mousemove (Some pos)) E =
      (Ok tt,
       set_lines
         (updateLine (line_ref l) (set_points (route x0 y0 (vx pos) (vy pos))) (lines E)) E).
Proof.
  intros E pos l x0 y0 rest Hwf Hcur Hp. simpl handle. unfold stage_mousemove.
  assert (Hone : findOneCurrentLine E = (Ok (Some (line_ref l)), E)).
  { unfold findOneCurrentLine, bind, get, ret. rewrite Hcur. reflexivity. }
  rewrite (bind_Ok _ Hone).
  rewrite (bind_Ok _ (recalculateTheLine_run pos (currentLine_findLine E l Hwf Hcur) Hp)).
  reflexivity.
Qed.

(** While a line is in progress it follows the pointer: a move of the pointer
    over the stage never fails, keeps the first point of the line and makes
    the line the staircase from there to the pointer; only the last position
    of the pointer counts, and without a line in progress a move changes
    nothing. *)
Theorem stage_mousemove_follows :
  forall (E : Editor) (pos : Vector2d),
    reachable E ->
    let moved := step E (Ev_stage_mousemove (Some pos)) in
    eval (handle (Ev_stage_mousemove (Some pos))) E = Ok tt /\
    (currentLine E = None -> moved = E) /\
    (forall l : Line,
        currentLine E = Some l ->
        exists (x0 y0 : number) (rest : list number),
          points l = x0 :: y0 :: rest /\
          moved =
            set_lines
              (updateLine (line_ref l) (set_points (route x0 y0 (vx pos) (vy pos)))
                 (lines E)) E /\
          currentLine moved = Some (set_points (route x0 y0 (vx pos) (vy pos)) l)) /\
    (forall pos' : Vector2d,
        step moved (Ev_stage_mousemove (Some pos')) =
          step E (Ev_stage_mousemove (Some pos'))).
Proof.
  intros E pos Hreach moved.
  pose proof (reachable_wf E Hreach) as Hwf.
  pose proof (reachable_Sound E Hreach) as HS.
  destruct (currentLine E) as [l|] eqn:Hcur.
  - destruct (currentLine_points [] E l HS Hcur) as (x0 & y0 & rest & Hp).
    assert (Hmoved : moved =
                     set_lines
                       (updateLine (line_ref l)
                          (set_points (route x0 y0 (vx pos) (vy pos))) (lines E)) E).
    { unfold moved, step, exec. rewrite (stage_mousemove_run E pos l x0 y0 rest Hwf Hcur Hp).
      reflexivity. }
    assert (Hcur' : currentLine moved
                    = Some (set_points (route x0 y0 (vx pos) (vy pos)) l)).
    { rewrite Hmoved. unfold currentLine. cbn [lines set_lines].
      apply (currentLine_updateLine (lines E) l); try reflexivity; [|exact Hcur].
      exact (proj1 (proj2 Hwf)). }
    split; [unfold eval; rewrite (stage_mousemove_run E pos l x0 y0 rest Hwf Hcur Hp);
            reflexivity|].
    split; [discriminate|]. split.
    + intros l' Hl'. injection Hl' as <-. exists x0, y0, rest. auto.
    + intros pos'.
      assert (Hreach' : reachable moved) by (apply reachable_step; exact Hreach).
      unfold step, exec.
      rewrite (stage_mousemove_run moved pos' _ x0 y0 _ (reachable_wf _ Hreach') Hcur'
                 eq_refl).
      rewrite (stage_mousemove_run E pos' l x0 y0 rest Hwf Hcur Hp).
      cbn [snd]. rewrite Hmoved. unfold set_lines. cbn [lines shapes anchorShapes fired
                                                     next_ref line_ref set_points].
      f_equal. rewrite updateLine_compose by reflexivity. reflexivity.
  - assert (Hrun : handle (Ev_stage_mousemove (Some pos)) E = (Ok tt, E)).
    { simpl handle. unfold stage_mousemove, findOneCurrentLine, bind, get, ret.
      rewrite Hcur. reflexivity. }
    assert (Hmoved : moved = E) by (unfold moved, step, exec; rewrite Hrun; reflexivity).
    split; [unfold eval; rewrite Hrun; reflexivity|].
    split; [intros _; exact Hmoved|]. split; [discriminate|].
    intros pos'. rewrite Hmoved. reflexivity.
Qed.


Lemma settled_destroyLine :
  forall (E : Editor) (l : Line),
    Inv 1 E -> currentLine E = Some l -> Inv 0 (exec (destroyLine (line_ref l)) E).
Proof.
  intros E l [Hwf Hk] Hcur. split.
  - apply (wf_same_refs E); try reflexivity; [|exact Hwf].
    apply map_updateLine_ref. reflexivity.
  - simpl. unfold atMost.
    pose proof (no_currentLine_after_rename (lines E) l (set_line_onLayer false)
                  (proj1 (proj2 Hwf)) Hk Hcur (fun _ => eq_refl)) as Hnone.
    pose proof (currentLine_None
                  (set_lines (updateLine (line_ref l) (set_line_onLayer false) (lines E)) E)
                  Hnone) as Hnil.
    unfold currentLines in Hnil. simpl in Hnil. rewrite Hnil. simpl. lia.
Qed.

Lemma settled_rename :
  forall (E : Editor) (l : Line) (pts : list number),
    Inv 1 E -> currentLine E = Some l ->
    Inv 0 (set_lines
             (updateLine (line_ref l) (set_line_name cacConnectorTwoPidShape)
                (updateLine (line_ref l) (set_points pts) (lines E))) E).
Proof.
  intros E l pts [Hwf Hk] Hcur. split.
  - apply (wf_same_refs E); try reflexivity; [|exact Hwf].
    cbn [lines set_lines]. rewrite !map_updateLine_ref by reflexivity. reflexivity.
  - cbn [lines set_lines]. rewrite updateLine_compose by reflexivity. unfold atMost.
    pose proof (no_currentLine_after_rename (lines E) l
                  (fun l' => set_line_name cacConnectorTwoPidShape (set_points pts l'))
                  (proj1 (proj2 Hwf)) Hk Hcur) as Hnone.
    pose proof (currentLine_None
                  (set_lines
                     (updateLine (line_ref l)
                        (fun l' => set_line_name cacConnectorTwoPidShape (set_points pts l'))
                        (lines E)) E)) as Hnil.
    unfold currentLines, currentLine in Hnil. cbn [lines set_lines] in Hnil.
    rewrite Hnil; [simpl; lia|]. apply Hnone.
    intros l'. unfold isCurrent. simpl. apply andb_false_r.
Qed.

Lemma settled_endConnectingLine :
  forall (E : Editor) (pos : Vector2d) (l : Line),
    Inv 1 E -> Sound [] E -> currentLine E = Some l ->
    Inv 0 (exec (endConnectingLine pos) E).
Proof.
  intros E pos l HI HS Hcur.
  destruct (currentLine_points [] E l HS Hcur) as (x0 & y0 & rest & Hp).
  unfold exec, endConnectingLine.
  assert (Hone : findOneCurrentLine E = (Ok (Some (line_ref l)), E)).
  { unfold findOneCurrentLine, bind, get, ret. rewrite Hcur. reflexivity. }
  rewrite (bind_Ok _ Hone).
  rewrite (bind_Ok _ (recalculateTheLine_run pos
                        (currentLine_findLine E l (proj1 HI) Hcur) Hp)).
  unfold bind at 1. unfold setLine at 1, modify at 1.
  cbn [lines set_lines].
  match goal with
  | |- Inv 0 (snd (?m ?E2)) => change (Inv 0 (exec m E2)); apply (@id (preserves (Inv 0) m))
  end.
  - pres. apply preserves_addConnectorToPath.
  - apply (settled_rename E l (route x0 y0 (vx pos) (vy pos)) HI Hcur).
Qed.

(** After a click or tap on the empty canvas no anchor marker is shown and no
    line is in progress, whether the pointer position is known or not and
    whether the handler completes or throws. *)
Theorem stage_click_settles :
  forall (E : Editor) (pos : option Vector2d) (random : number),
    reachable E ->
    let clicked := step E (Ev_stage_click pos random) in
    anchorShapes clicked = [] /\ currentLine clicked = None /\ currentLines clicked = [].
Proof.
  intros E pos random Hreach clicked.
  split; [apply unmarked_stage_click|].
  assert (H0 : Inv 0 clicked).
  { pose proof (reachable_Inv E Hreach) as HI.
    pose proof (reachable_Sound E Hreach) as HS.
    unfold clicked, step, exec. simpl handle. unfold stage_click.
    unfold bind at 1. unfold cleanAnchorShapes at 1, modify at 1.
    set (E0 := set_anchorShapes [] E).
    assert (HI0 : Inv 1 E0) by exact HI.
    assert (HS0 : Sound [] E0) by exact HS.
    destruct (currentLine E0) as [l|] eqn:Hcur.
    - assert (Hone : findOneCurrentLine E0 = (Ok (Some (line_ref l)), E0)).
      { unfold findOneCurrentLine, bind, get, ret. rewrite Hcur. reflexivity. }
      destruct pos as [pos|]; rewrite (bind_Ok _ Hone).
      + apply (@triple_bind _ _ (fun E1 => E1 = E0) (Inv 0) (Inv 0)
                 (endConnectingLine pos)); [| | |reflexivity].
        * intros E1 ->. apply (settled_endConnectingLine E0 pos l HI0 HS0 Hcur).
        * auto.
        * intros line. unfold createEmtpyShape, addShape_defaultId. pres.
          apply preserves_addConnectorToPath.
      + apply (settled_destroyLine E0 l HI0 Hcur).
    - assert (Hone : findOneCurrentLine E0 = (Ok None, E0)).
      { unfold findOneCurrentLine, bind, get, ret. rewrite Hcur. reflexivity. }
      assert (HI00 : Inv 0 E0).
      { split; [exact (proj1 HI0)|]. unfold atMost.
        pose proof (currentLine_None E0 Hcur) as Hnil. unfold currentLines in Hnil.
        rewrite Hnil. simpl. lia. }
      destruct pos as [pos|]; rewrite (bind_Ok _ Hone); exact HI00. }
  split; [apply no_currentLine; exact (proj2 H0)|].
  destruct H0 as [_ H0]. unfold atMost in H0. unfold currentLines.
  destruct (filter isCurrent (lines clicked)); [reflexivity|simpl in H0; lia].
Qed.


(** ** Starting and completing a connection *)

Lemma marker_owner :
  forall (E : Editor) (i : nat) (a : AnchorShape),
    wf E -> markersOfOne E -> nth_error (anchorShapes E) i = Some a ->
    exists (n : PidNode) (anchor : IPidAnchor),
      findNode (anchorShape_path a) (shapes E) = Some n /\
      anchorShape_index a = i /\
      nth_error (anchors (cacPidKonvaShape n)) i = Some anchor.
Proof.
  intros E i a (Hnd & _) [Hnone|(n & rect & Hin & Hm)] Ha.
  - rewrite Hnone in Ha. destruct i; discriminate.
  - rewrite Hm in Ha. unfold markersAt, mapi in Ha. rewrite nth_error_mapi_from in Ha.
    destruct (nth_error (anchors (cacPidKonvaShape n)) i) as [anchor|] eqn:Hanchor;
      [|discriminate].
    simpl in Ha. injection Ha as <-. simpl. exists n, anchor.
    split; [apply findNode_NoDup; assumption|]. auto.
Qed.

Lemma find_app_none :
  forall {A : Type} (p : A -> bool) (l l' : list A),
    find p l = None -> find p (l ++ l') = find p l'.
Proof.
  intros A p l l' H. induction l as [|a l IH]; simpl in *; [reflexivity|].
  destruct (p a); [discriminate|apply IH; exact H].
Qed.

Lemma anchor_mousedown_run :
  forall (E : Editor) (i : nat) (a : AnchorShape),
    reachable E ->
    nth_error (anchorShapes E) i = Some a ->
    currentLine E = None ->
    exists (n : PidNode) (anchor : IPidAnchor),
      findNode (anchorShape_path a) (shapes E) = Some n /\
      nth_error (anchors (cacPidKonvaShape n)) i = Some anchor /\
      handle (Ev_anchor_mousedown i) E =
        (Ok tt,
         {| shapes := shapes E;
            lines := lines E ++
                     [{| line_ref := next_ref E;
                         points := [vx (anchorShape_pos a); vy (anchorShape_pos a)];
                         line_name := cacCurrentLine;
                         cacStartAnchorIndex := num (Z.of_nat i);
                         cacStartPidShapeId := dto_id (cacDto n);
                         line_onLayer := true |}];
            anchorShapes := anchorShapes E; fired := fired E;
            next_ref := S (next_ref E) |}).
Proof.
  intros E i a Hreach Ha Hcur.
  pose proof (reachable_wf E Hreach) as Hwf.
  destruct (marker_owner E i a Hwf (reachable_markers E Hreach) Ha)
    as (n & anchor & Hn & Hidx & Hanchor).
  exists n, anchor. split; [exact Hn|]. split; [exact Hanchor|].
  simpl handle. unfold onAnchor, bind at 1, get at 1. rewrite Ha.
  unfold anchorShape_mousedown.
  assert (Hone : findOneCurrentLine E = (Ok None, E)).
  { unfold findOneCurrentLine, bind, get, ret. rewrite Hcur. reflexivity. }
  rewrite (bind_Ok _ Hone). rewrite (bind_Ok _ (getNode_Some Hn)). cbv zeta.
  rewrite (bind_Ok _ (newLine_run E _ _ _ _)).
  unfold layerAddLine, setLine, modify. cbn [lines]. unfold set_lines.
  cbn [shapes lines anchorShapes fired next_ref]. rewrite Hidx.
  f_equal. f_equal. unfold updateLine. rewrite map_app.
  fold (updateLine (next_ref E) (set_line_onLayer true) (lines E)).
  rewrite (updateLine_fresh _ _ _ (proj2 (proj2 (proj2 Hwf)))).
  simpl. rewrite Nat.eqb_refl. reflexivity.
Qed.

(** Pressing down on an anchor marker while no line is in progress starts
    one: a new line is put on the layer, from the marker's position, tagged
    with the marker's anchor index and with the id of the marker's shape; the
    index is the place of an anchor of that shape's template.  Nothing else
    changes, and the new line is the line in progress. *)
Theorem anchor_mousedown_starts :
  forall (E : Editor) (i : nat) (a : AnchorShape),
    reachable E ->
    nth_error (anchorShapes E) i = Some a ->
    currentLine E = None ->
    exists (n : PidNode) (anchor : IPidAnchor),
      findNode (anchorShape_path a) (shapes E) = Some n /\
      nth_error (anchors (cacPidKonvaShape n)) i = Some anchor /\
      let newLine :=
        {| line_ref := next_ref E;
           points := [vx (anchorShape_pos a); vy (anchorShape_pos a)];
           line_name := cacCurrentLine;
           cacStartAnchorIndex := num (Z.of_nat i);
           cacStartPidShapeId := dto_id (cacDto n);
           line_onLayer := true |} in
      handle (Ev_anchor_mousedown i) E =
        (Ok tt,
         {| shapes := shapes E; lines := lines E ++ [newLine];
            anchorShapes := anchorShapes E; fired := fired E;
            next_ref := S (next_ref E) |}) /\
      currentLine (step E (Ev_anchor_mousedown i)) = Some newLine.
Proof.
  intros E i a Hreach Ha Hcur.
  destruct (anchor_mousedown_run E i a Hreach Ha Hcur) as (n & anchor & Hn & Hanchor & Hrun).
  exists n, anchor. split; [exact Hn|]. split; [exact Hanchor|]. cbv zeta.
  split; [exact Hrun|].
  unfold step, exec. rewrite Hrun. cbn [snd]. unfold currentLine. cbn [lines].
  unfold currentLine in Hcur. rewrite (find_app_none _ _ _ Hcur). reflexivity.
Qed.

(** The run of the [mouseup touchend] handler of an anchor marker. *)
Lemma anchor_mouseup_run :
  forall (E : Editor) (i : nat) (a : AnchorShape) (l : Line) (nS : PidNode),
    reachable E ->
    nth_error (anchorShapes E) i = Some a ->
    currentLine E = Some l ->
    find (fun n => strictEq (dto_id (cacDto n)) (cacStartPidShapeId l)) (shapes E)
      = Some nS ->
    exists (x0 y0 : number) (rest : list number),
      points l = x0 :: y0 :: rest /\
      let pos := anchorShape_pos a in
      let r := route x0 y0 (vx pos) (vy pos) in
      let cS := {| line := line_ref l; anchorIndex := cacStartAnchorIndex l;
                   connector_type := start |} in
      let cE := {| line := line_ref l; anchorIndex := num (Z.of_nat i);
                   connector_type := end_ |} in
      let connection := {| conn_l := r; conn_sai := cacStartAnchorIndex l;
                           conn_sid := cacStartPidShapeId l;
                           conn_eai := num (Z.of_nat i) |} in
      handle (Ev_anchor_mouseup i) E =
        (Ok tt,
         {| shapes :=
              updateNode (anchorShape_path a)
                (fun n => pushConnection connection (pushConnector cE n))
                (updateNode (node_ref nS) (pushConnector cS) (shapes E));
            lines :=
              updateLine (line_ref l)
                (fun l' => set_line_name cacConnectorTwoPidShape (set_points r l'))
                (lines E);
            anchorShapes := [];
            fired := S (fired E);
            next_ref := next_ref E |}) /\
      In (anchorShape_path a) (map node_ref (shapes E)).
Proof.
  intros E i a l nS Hreach Ha Hcur HfindS.
  pose proof (reachable_Inv E Hreach) as HI. pose proof HI as [Hwf Hk].
  pose proof (reachable_Sound E Hreach) as HS.
  destruct (currentLine_points [] E l HS Hcur) as (x0 & y0 & rest & Hp).
  destruct (marker_owner E i a Hwf (reachable_markers E Hreach) Ha)
    as (n & anchor & Hn & Hidx & Hanchor).
  exists x0, y0, rest. split; [exact Hp|]. cbv zeta.
  set (pos := anchorShape_pos a).
  set (r := route x0 y0 (vx pos) (vy pos)).
  set (cS := {| line := line_ref l; anchorIndex := cacStartAnchorIndex l;
                connector_type := start |}).
  set (cE := {| line := line_ref l; anchorIndex := num (Z.of_nat i);
                connector_type := end_ |}).
  set (connection := {| conn_l := r; conn_sai := cacStartAnchorIndex l;
                        conn_sid := cacStartPidShapeId l;
                        conn_eai := num (Z.of_nat i) |}).
  set (L' := updateLine (line_ref l)
               (fun l' => set_line_name cacConnectorTwoPidShape (set_points r l'))
               (lines E)).
  assert (Hrun : handle (Ev_anchor_mouseup i) E =
                 (Ok tt,
                  {| shapes :=
                       updateNode (anchorShape_path a)
                         (fun n => pushConnection connection (pushConnector cE n))
                         (updateNode (node_ref nS) (pushConnector cS) (shapes E));
                     lines := L'; anchorShapes := []; fired := S (fired E);
                     next_ref := next_ref E |})).
  { simpl handle. unfold onAnchor, bind at 1, get at 1. rewrite Ha.
    unfold anchorShape_mouseup. cbv zeta. fold pos.
    rewrite (bind_Ok _ (endConnectingLine_run E pos l x0 y0 rest nS Hwf Hcur Hp HfindS)).
    fold r. fold cS.
    match goal with
    | |- addConnectorToPath _ _ _ _ _ ?E4 = _ => set (E4' := E4)
    end.
    assert (Hn4 : findNode (anchorShape_path a) (shapes E4')
                  = Some (if node_ref n =? node_ref nS then pushConnector cS n else n)).
    { unfold E4'. cbn [shapes set_shapes]. rewrite findNode_updateNode by reflexivity.
      rewrite Hn. reflexivity. }
    assert (Hl4 : findLine (line_ref l) (lines E4')
                  = Some (set_line_name cacConnectorTwoPidShape (set_points r l))).
    { unfold E4'. cbn [lines set_shapes set_anchorShapes set_lines].
      rewrite !findLine_updateLine_same by reflexivity.
      rewrite (currentLine_findLine E l Hwf Hcur). reflexivity. }
    rewrite Hidx.
    rewrite (addConnectorToPath_end_run (num (Z.of_nat i)) false Hn4 Hl4).
    unfold E4'. cbn [shapes lines fired next_ref anchorShapes set_shapes set_anchorShapes
                       set_lines set_fired points cacStartAnchorIndex cacStartPidShapeId
                       set_line_name set_points].
    fold cE. fold connection. rewrite updateNode_compose by reflexivity.
    unfold set_fired, set_shapes. cbn [shapes lines fired next_ref anchorShapes].
    f_equal. f_equal. unfold L'. rewrite updateLine_compose by reflexivity. reflexivity. }
  split; [exact Hrun|].
  apply findNode_ref in Hn. destruct Hn as [Hin Hr]. rewrite <- Hr. apply in_map. exact Hin.
Qed.

(** Releasing the line in progress on an anchor marker, while the shape the
    line started from is on the layer: the line becomes the staircase from its
    first point to the marker and a connection; the first shape that has the
    id the line is tagged with gets a ['start'] connector; the marker's shape
    gets an ['end'] connector with the marker's index and the record of the
    connection; the markers are removed, one change is notified and no line
    is in progress any more. *)
Theorem anchor_mouseup_connects :
  forall (E : Editor) (i : nat) (a : AnchorShape) (l : Line) (nS : PidNode),
    reachable E ->
    nth_error (anchorShapes E) i = Some a ->
    currentLine E = Some l ->
    find (fun n => strictEq (dto_id (cacDto n)) (cacStartPidShapeId l)) (shapes E)
      = Some nS ->
    exists (x0 y0 : number) (rest : list number),
      points l = x0 :: y0 :: rest /\
      let pos := anchorShape_pos a in
      let r := route x0 y0 (vx pos) (vy pos) in
      let cS := {| line := line_ref l; anchorIndex := cacStartAnchorIndex l;
                   connector_type := start |} in
      let cE := {| line := line_ref l; anchorIndex := num (Z.of_nat i);
                   connector_type := end_ |} in
      let connection := {| conn_l := r; conn_sai := cacStartAnchorIndex l;
                           conn_sid := cacStartPidShapeId l;
                           conn_eai := num (Z.of_nat i) |} in
      handle (Ev_anchor_mouseup i) E =
        (Ok tt,
         {| shapes :=
              updateNode (anchorShape_path a)
                (fun n => pushConnection connection (pushConnector cE n))
                (updateNode (node_ref nS) (pushConnector cS) (shapes E));
            lines :=
              updateLine (line_ref l)
                (fun l' => set_line_name cacConnectorTwoPidShape (set_points r l'))
                (lines E);
            anchorShapes := [];
            fired := S (fired E);
            next_ref := next_ref E |}) /\
      In (anchorShape_path a) (map node_ref (shapes E)) /\
      currentLine (step E (Ev_anchor_mouseup i)) = None.
Proof.
  intros E i a l nS Hreach Ha Hcur HfindS.
  pose proof (reachable_Inv E Hreach) as [Hwf Hk].
  destruct (anchor_mouseup_run E i a l nS Hreach Ha Hcur HfindS)
    as (x0 & y0 & rest & Hp & Hrun & Hin).
  exists x0, y0, rest. split; [exact Hp|]. cbv zeta in Hrun |- *.
  split; [exact Hrun|]. split; [exact Hin|].
  unfold step, exec. rewrite Hrun. cbn [snd]. unfold currentLine. cbn [lines].
  apply no_currentLine_after_rename; try assumption.
  - exact (proj1 (proj2 Hwf)).
  - intros l'. unfold isCurrent. simpl. apply andb_false_r.
Qed.


(** ** Dragging and dropping a shape *)

Lemma export_entries :
  forall E : Editor,
    reachable E ->
    exists data : list IDtoPidShape,
      eval exportJson E = Ok data /\ map strip data = map strip (docs E).
Proof.
  intros E Hreach.
  pose proof (reachable_wf E Hreach) as Hwf.
  pose proof (reachable_Sound E Hreach) as (Hlinked & _ & _).
  exists (map (exportedDto (lines E)) (shapes E)). split.
  - unfold eval, exportJson. rewrite (export_run E Hwf Hlinked). reflexivity.
  - unfold docs. rewrite !map_map. apply map_ext. intros n.
    unfold exportedDto. destruct (cacConnectors n); reflexivity.
Qed.




(** ** The resize transformer *)

Lemma Math_max_l : forall a b : number, (a <= Math_max a b)%Qc.
Proof.
  intros a b. unfold Math_max. destruct (Qclt_le_dec a b) as [H|H].
  - apply Qclt_le_weak. exact H.
  - apply Qcle_refl.
Qed.

(** Resizing with the transformer, whatever the rounding of the quotient and
    of the product, as long as it is monotone and leaves 10 and 80 as they
    are (exact arithmetic, and doubles rounded to nearest): when the ratio
    [oldBox.width / oldBox.height] is positive, the box the transformer may
    take has a width of at least 80 and a height of at least 10; its height is
    its width divided by the ratio, or it is 10 and the width is 10 times the
    ratio; its position and rotation are those asked for, and the height
    asked for is not looked at. *)
Theorem boundBoxFunc_keeps_ratio :
  forall (round : number -> number) (oldBox newBox : Box),
    (forall a b : number, (a <= b)%Qc -> (round a <= round b)%Qc) ->
    round (num 10) = num 10 ->
    round (num 80) = num 80 ->
    let ratio := fdiv round (box_width oldBox) (box_height oldBox) in
    (0 < ratio)%Qc ->
    let box := boundBoxFunc round oldBox newBox in
    (num 80 <= box_width box)%Qc /\
    (num 10 <= box_height box)%Qc /\
    (box_height box = fdiv round (box_width box) ratio \/
     box_height box = num 10 /\ box_width box = fmul round (num 10) ratio) /\
    box_x box = box_x newBox /\
    box_y box = box_y newBox /\
    box_rotation box = box_rotation newBox /\
    (forall h : number, boundBoxFunc round oldBox (set_box_height h newBox) = box).
Proof.
  intros round oldBox newBox Hmono H10r H80r ratio Hr box.
  assert (Hr0 : ratio <> 0%Qc).
  { intros H. rewrite H in Hr. exact (Qclt_not_eq _ _ Hr eq_refl). }
  set (W := Math_max (num 80) (box_width newBox)).
  assert (HW : (num 80 <= W)%Qc) by apply Math_max_l.
  unfold box, boundBoxFunc. cbv zeta. fold ratio.
  cbn [box_width box_height set_box_width set_box_height]. fold W.
  unfold lessThan. destruct (Qclt_le_dec (fdiv round W ratio) (num 10)) as [Hlt|Hge];
    cbn [box_width box_height box_x box_y box_rotation set_box_width set_box_height].
  - split; [|split; [apply Qcle_refl|split; [right; split; reflexivity|auto]]].
    unfold fmul. rewrite <- H80r. apply Hmono.
    destruct (Qclt_le_dec (num 10 * ratio)%Qc (num 80)) as [Hsmall|Hok]; [exfalso|exact Hok].
    assert (Hdiv : (num 10 <= W / ratio)%Qc).
    { destruct (Qclt_le_dec (W / ratio)%Qc (num 10)) as [Hq|Hq]; [exfalso|exact Hq].
      pose proof (Qcmult_lt_compat_r _ _ ratio Hr Hq) as Hm.
      rewrite (test_field W ratio Hr0) in Hm.
      assert (HWW : (W < W)%Qc).
      { eapply Qclt_trans; [exact Hm|]. eapply Qclt_le_trans; eassumption. }
      exact (Qclt_not_eq _ _ HWW eq_refl). }
    pose proof (Hmono _ _ Hdiv) as Hm. rewrite H10r in Hm. unfold fdiv in Hlt.
    exact (Qcle_not_lt _ _ Hm Hlt).
  - split; [exact HW|]. split; [exact Hge|]. split; [left; reflexivity|auto].
Qed.


(** ** Handlers that go on with defined values *)

Lemma pointed_updateLine :
  forall (r : nat) (f : Line -> Line) (E : Editor),
    (forall l, 2 <= length (points l) -> 2 <= length (points (f l))) ->
    pointed E -> pointed (set_lines (updateLine r f (lines E)) E).
Proof.
  intros r f E Hf H. unfold pointed in *. cbn [lines set_lines]. unfold updateLine.
  apply Forall_map. eapply Forall_impl; [|exact H]. intros l Hl.
  destruct (line_ref l =? r); [apply Hf|]; exact Hl.
Qed.

Lemma pointed_newLine :
  forall (l : Line) (E : Editor),
    2 <= length (points l) -> pointed E -> pointed (set_lines (lines E ++ [l]) E).
Proof.
  intros l E Hl H. unfold pointed in *. cbn [lines set_lines].
  apply Forall_app. split; [exact H|]. constructor; [exact Hl|constructor].
Qed.

(** The changes of the state that keep the lines [pointed]. *)
Ltac pointed_leaf :=
  intros ? ?; cbv beta;
  first
    [ assumption
    | apply pointed_updateLine; [intros ? ?; simpl; first [assumption | lia]|assumption]
    | apply pointed_newLine; [simpl; lia|assumption] ].

Ltac keeps_pointed := keep; try pointed_leaf.

Lemma preserves_forEach_in :
  forall {A : Type} (I : Editor -> Prop) (arr : list A) (f : A -> M unit),
    (forall a, In a arr -> preserves I (f a)) -> preserves I (forEach arr f).
Proof.
  intros A I arr f Hf. induction arr as [|a arr IH]; simpl.
  - apply preserves_ret.
  - apply preserves_bind; [apply Hf; left; reflexivity|intros _].
    apply IH. intros a' Ha'. apply Hf. right. exact Ha'.
Qed.

Lemma pointed_importJson :
  forall data : option (list IDtoPidShape),
    routed (Ev_importJson data) -> preserves pointed (importJson data).
Proof.
  intros [data|] Hr; [|apply preserves_ret]. simpl in Hr. unfold importJson.
  apply preserves_bind; [keeps_pointed|intros gs].
  apply preserves_bind; [|intros _; apply preserves_ret].
  apply preserves_forEach_in. intros dto Hdto.
  apply preserves_forEach_in. intros conn Hconn.
  rewrite Forall_forall in Hr. specialize (Hr dto Hdto).
  rewrite Forall_forall in Hr. specialize (Hr conn Hconn).
  unfold importJson_conn, addConnectorToPath. keeps_pointed.
Qed.

Lemma pointed_step :
  forall (E : Editor) (ev : event), routed ev -> pointed E -> pointed (step E ev).
Proof.
  intros E ev Hr. revert E. change (preserves pointed (handle ev)).
  destruct ev as [pidShape x y [id|] random| |data| |group|group|group|group pos|group
                 |i|i|pos random|pos| |group]; simpl handle.
  - keeps_pointed.
  - unfold addShape_defaultId. keeps_pointed.
  - unfold exportJson, export, export_shape. keeps_pointed.
  - apply preserves_bind; [apply pointed_importJson; exact Hr|intros; apply preserves_ret].
  - intros E H. unfold exec, clear, modify, pointed in *. simpl. apply Forall_map.
    eapply Forall_impl; [|exact H]. intros l Hl. exact Hl.
  - unfold onGroup, group_click, createAnchorShapes. keeps_pointed.
  - unfold onGroup, group_mouseover, createAnchorShapes. keeps_pointed.
  - unfold onGroup, group_mousedown. keeps_pointed.
  - unfold onGroup, group_dragmove, dragmove_connector. keeps_pointed.
  - unfold onGroup, group_dragend. keeps_pointed.
  - unfold onAnchor, anchorShape_mousedown. keeps_pointed.
  - unfold onAnchor, anchorShape_mouseup, endConnectingLine, addConnectorToPath.
    keeps_pointed.
  - unfold stage_click, endConnectingLine, createEmtpyShape, addShape_defaultId,
      addConnectorToPath. keeps_pointed.
  - unfold stage_mousemove. keeps_pointed.
  - keeps_pointed.
  - unfold deleteShape. keeps_pointed.
Qed.

Lemma reachableBy_reachable :
  forall (ok : event -> Prop) (E : Editor), reachableBy ok E -> reachable E.
Proof.
  intros ok E H. induction H as [|E ev _ IH _]; [apply reachable_init|].
  apply reachable_step. exact IH.
Qed.

Lemma reachableBy_pointed :
  forall E : Editor, reachableBy routed E -> pointed E.
Proof.
  intros E H. induction H as [|E ev _ IH Hr]; [constructor|].
  apply pointed_step; assumption.
Qed.


Lemma defined_bind :
  forall {A B : Type} {P : Editor -> Prop} {R : A -> Editor -> Prop}
         {Q : B -> Editor -> Prop} {m : M A} {f : A -> M B},
    defined P m R -> (forall a, defined (R a) (f a) Q) -> defined P (bind m f) Q.
Proof. intros A B P R Q m f. unfold defined. apply hoare_bind. Qed.

Lemma defined_ret :
  forall {A : Type} (P : Editor -> Prop) (Q : A -> Editor -> Prop) (a : A),
    (forall E, P E -> Q a E) -> defined P (ret a) Q.
Proof. intros A P Q a. unfold defined. apply hoare_ret. Qed.

Lemma defined_conseq :
  forall {A : Type} (P P' : Editor -> Prop) (Q Q' : A -> Editor -> Prop) (m : M A),
    defined P m Q ->
    (forall E, P' E -> P E) -> (forall a E, Q a E -> Q' a E) ->
    defined P' m Q'.
Proof.
  intros A P P' Q Q' m H HP HQ. unfold defined in *.
  apply (hoare_conseq P P' Q Q' _ _ m H HP HQ). auto.
Qed.

Lemma defined_modify :
  forall (P : Editor -> Prop) (Q : unit -> Editor -> Prop) (g : Editor -> Editor),
    (forall E, P E -> Q tt (g E)) -> defined P (modify g) Q.
Proof. intros P Q g H E HP. apply H. exact HP. Qed.

Lemma defined_get :
  forall (P : Editor -> Prop) (Q : Editor -> Editor -> Prop),
    (forall E, P E -> Q E E) -> defined P get Q.
Proof. intros P Q H E HP. apply H. exact HP. Qed.

Lemma defined_TypeError :
  forall {A : Type} (P : Editor -> Prop) (Q : A -> Editor -> Prop),
    defined P (throw TypeError) Q.
Proof. intros A P Q E HP. reflexivity. Qed.

Lemma defined_forEach :
  forall {A : Type} (I : Editor -> Prop) (arr : list A) (f : A -> M unit),
    (forall a, In a arr -> defined I (f a) (fun _ => I)) ->
    defined I (forEach arr f) (fun _ => I).
Proof.
  intros A I arr f Hf. induction arr as [|a arr IH]; simpl.
  - apply defined_ret. auto.
  - apply (defined_bind (Hf a (or_introl eq_refl))). intros _.
    apply IH. intros a' Ha'. apply Hf. right. exact Ha'.
Qed.

Lemma Live_weaken :
  forall (ns ns' rs rs' : list nat) (E : Editor),
    incl ns' ns -> incl rs' rs -> Live ns rs E -> Live ns' rs' E.
Proof.
  intros ns ns' rs rs' E Hn Hr (Hp & Hns & Hrs). split; [exact Hp|]. split.
  - intros r Hin. apply Hns. apply Hn. exact Hin.
  - intros r Hin. apply Hrs. apply Hr. exact Hin.
Qed.

Lemma Live_frame :
  forall (ns rs : list nat) (E E' : Editor),
    pointed E' ->
    incl (map node_ref (shapes E)) (map node_ref (shapes E')) ->
    incl (map line_ref (lines E)) (map line_ref (lines E')) ->
    Live ns rs E -> Live ns rs E'.
Proof.
  intros ns rs E E' Hp' Hs Hl (Hp & Hns & Hrs). split; [exact Hp'|]. split.
  - intros r Hin. apply Hs. apply Hns. exact Hin.
  - intros r Hin. apply Hl. apply Hrs. exact Hin.
Qed.

Lemma Live_updateNode :
  forall (ns rs : list nat) (r : nat) (f : PidNode -> PidNode) (E : Editor),
    (forall n, node_ref (f n) = node_ref n) ->
    Live ns rs E -> Live ns rs (set_shapes (updateNode r f (shapes E)) E).
Proof.
  intros ns rs r f E Hf H. apply (Live_frame ns rs E); [exact (proj1 H)| | |exact H].
  - cbn [shapes set_shapes]. rewrite map_updateNode_ref by exact Hf. apply incl_refl.
  - apply incl_refl.
Qed.

Lemma Live_updateLine :
  forall (ns rs : list nat) (r : nat) (f : Line -> Line) (E : Editor),
    (forall l, line_ref (f l) = line_ref l) ->
    (forall l, 2 <= length (points l) -> 2 <= length (points (f l))) ->
    Live ns rs E -> Live ns rs (set_lines (updateLine r f (lines E)) E).
Proof.
  intros ns rs r f E Href Hf H. apply (Live_frame ns rs E); [| | |exact H].
  - apply pointed_updateLine; [exact Hf|exact (proj1 H)].
  - apply incl_refl.
  - cbn [lines set_lines]. rewrite map_updateLine_ref by exact Href. apply incl_refl.
Qed.

Lemma defined_getNode :
  forall (ns rs : list nat) (r : nat),
    In r ns -> defined (Live ns rs) (getNode r) (fun _ => Live ns rs).
Proof.
  intros ns rs r Hin E HL. pose proof HL as (_ & Hns & _).
  destruct (findNode_onLayer r (shapes E) (Hns r Hin)) as [n Hn].
  rewrite (getNode_Some Hn). exact HL.
Qed.

Lemma defined_getLine :
  forall (ns rs : list nat) (r : nat),
    In r rs ->
    defined (Live ns rs) (getLine r)
      (fun l E => Live ns rs E /\ 2 <= length (points l)).
Proof.
  intros ns rs r Hin E HL. pose proof HL as (Hp & _ & Hrs).
  destruct (findLine_inStore r (lines E) (Hrs r Hin)) as [l Hl].
  rewrite (getLine_Some Hl). split; [exact HL|].
  apply findLine_ref in Hl. destruct Hl as [Hl _].
  unfold pointed in Hp. rewrite Forall_forall in Hp. apply Hp. exact Hl.
Qed.

Lemma defined_setNode :
  forall (ns rs : list nat) (r : nat) (f : PidNode -> PidNode),
    (forall n, node_ref (f n) = node_ref n) ->
    defined (Live ns rs) (setNode r f) (fun _ => Live ns rs).
Proof.
  intros ns rs r f Hf. apply defined_modify. intros E. apply Live_updateNode. exact Hf.
Qed.

Lemma defined_setLine :
  forall (ns rs : list nat) (r : nat) (f : Line -> Line),
    (forall l, line_ref (f l) = line_ref l) ->
    (forall l, 2 <= length (points l) -> 2 <= length (points (f l))) ->
    defined (Live ns rs) (setLine r f) (fun _ => Live ns rs).
Proof.
  intros ns rs r f Href Hf. apply defined_modify. intros E.
  apply Live_updateLine; assumption.
Qed.

Lemma defined_cleanAnchorShapes :
  forall ns rs : list nat,
    defined (Live ns rs) cleanAnchorShapes (fun _ => Live ns rs).
Proof. intros ns rs. apply defined_modify. intros E H. exact H. Qed.

Lemma defined_fire :
  forall ns rs : list nat, defined (Live ns rs) fire (fun _ => Live ns rs).
Proof. intros ns rs. apply defined_modify. intros E H. exact H. Qed.

Lemma defined_findOneCurrentLine :
  forall ns rs : list nat,
    defined (Live ns rs) findOneCurrentLine (fun o => Live ns (withLine o rs)).
Proof.
  intros ns rs E HL. unfold findOneCurrentLine, bind, get, ret.
  destruct (currentLine E) as [l|] eqn:Hcur; simpl; [|exact HL].
  apply find_some in Hcur. destruct Hcur as [Hin _].
  destruct HL as (Hp & Hns & Hrs). split; [exact Hp|]. split; [exact Hns|].
  intros r [Hr|Hr]; [subst r; apply in_map; exact Hin|apply Hrs; exact Hr].
Qed.

Lemma defined_findPidShapeById :
  forall (ns rs : list nat) (id : number),
    defined (Live ns rs) (findPidShapeById id) (fun o => Live (withLine o ns) rs).
Proof.
  intros ns rs id E HL. unfold findPidShapeById, bind, get, ret.
  destruct (find (fun n => strictEq (dto_id (cacDto n)) id) (shapes E)) as [n|] eqn:Hf;
    simpl; [|exact HL].
  apply find_some in Hf. destruct Hf as [Hin _].
  destruct HL as (Hp & Hns & Hrs). split; [exact Hp|]. split; [|exact Hrs].
  intros r [Hr|Hr]; [subst r; apply in_map; exact Hin|apply Hns; exact Hr].
Qed.

Lemma defined_findGroupById :
  forall (ns rs gs : list nat) (id : number),
    incl gs ns ->
    defined (Live ns rs) (findGroupById gs id) (fun o => Live (withLine o ns) rs).
Proof.
  intros ns rs gs id Hgs E HL. unfold findGroupById, bind, get, ret.
  match goal with
  | |- Live (withLine (find ?p gs) ns) rs E => destruct (find p gs) as [g|] eqn:Hf
  end; simpl; [|exact HL].
  apply find_some in Hf. destruct Hf as [Hin _].
  apply (Live_weaken ns _ rs rs E); [|apply incl_refl|exact HL].
  intros r [Hr|Hr]; [subst r; apply Hgs; exact Hin|exact Hr].
Qed.

Lemma defined_newLine :
  forall (ns rs : list nat) (pts : list number) (n : LineName) (sai sid : number),
    2 <= length pts ->
    defined (Live ns rs) (newLine pts n sai sid) (fun r => Live ns (r :: rs)).
Proof.
  intros ns rs pts n sai sid Hpts E (Hp & Hns & Hrs). rewrite newLine_run.
  split; [|split]; cbn [shapes lines].
  - unfold pointed. cbn [lines]. apply Forall_app. split; [exact Hp|].
    constructor; [exact Hpts|constructor].
  - exact Hns.
  - rewrite map_app. intros r [Hr|Hr]; apply in_or_app.
    + right. left. exact Hr.
    + left. apply Hrs. exact Hr.
Qed.

Lemma defined_addShape :
  forall (ns rs : list nat) (pidShape : IPidShape) (x y id : number),
    defined (Live ns rs) (addShape pidShape x y id) (fun g => Live (g :: ns) rs).
Proof.
  intros ns rs pidShape x y id E (Hp & Hns & Hrs). rewrite addShape_run.
  split; [|split]; cbn [shapes lines].
  - exact Hp.
  - rewrite map_app. intros r [Hr|Hr]; apply in_or_app.
    + right. left. exact Hr.
    + left. apply Hns. exact Hr.
  - exact Hrs.
Qed.

Lemma two_points :
  forall pts : list number,
    2 <= length pts -> exists (x0 y0 : number) (rest : list number), pts = x0 :: y0 :: rest.
Proof.
  intros [|x0 [|y0 rest]] H; simpl in H; try lia. exists x0, y0, rest. reflexivity.
Qed.

Lemma defined_recalculateTheLine :
  forall (ns rs : list nat) (line : nat) (pos : Vector2d),
    In line rs ->
    defined (Live ns rs) (recalculateTheLine line pos) (fun _ => Live ns rs).
Proof.
  intros ns rs line pos Hin E HL. pose proof HL as (Hp & _ & Hrs).
  destruct (findLine_inStore line (lines E) (Hrs line Hin)) as [l Hl].
  assert (Hl2 : 2 <= length (points l)).
  { pose proof (findLine_ref _ _ _ Hl) as [Hl' _].
    unfold pointed in Hp. rewrite Forall_forall in Hp. apply Hp. exact Hl'. }
  destruct (two_points _ Hl2) as (x0 & y0 & rest & Hpts).
  rewrite (recalculateTheLine_run pos Hl Hpts).
  apply Live_updateLine; [reflexivity| |exact HL]. intros l' _. simpl. lia.
Qed.

Lemma defined_addConnectorToPath :
  forall (ns rs : list nat) (shape : option nat) (line : nat) (anchorIndex : number)
         (type : ConnectorType) (init : bool),
    (forall s, shape = Some s -> In s ns) ->
    In line rs ->
    defined (Live ns rs) (addConnectorToPath shape line anchorIndex type init)
      (fun _ => Live ns rs).
Proof.
  intros ns rs shape line anchorIndex type init Hs Hin E HL.
  destruct shape as [shape|]; [|reflexivity].
  pose proof HL as (Hp & Hns & Hrs).
  destruct (findNode_onLayer shape (shapes E) (Hns shape (Hs shape eq_refl))) as [n Hn].
  destruct type.
  - rewrite (addConnectorToPath_start_run line anchorIndex init Hn).
    apply Live_updateNode; [reflexivity|exact HL].
  - destruct (findLine_inStore line (lines E) (Hrs line Hin)) as [l Hl].
    rewrite (addConnectorToPath_end_run anchorIndex init Hn Hl).
    apply (Live_frame ns rs E); [exact Hp| |apply incl_refl|exact HL].
    cbn [shapes set_fired set_shapes]. rewrite !map_updateNode_ref by reflexivity.
    apply incl_refl.
Qed.

Lemma defined_endConnectingLine :
  forall (ns rs : list nat) (pos : Vector2d),
    defined (Live ns rs) (endConnectingLine pos) (fun o => Live ns (withLine o rs)).
Proof.
  intros ns rs pos. unfold endConnectingLine.
  apply (defined_bind (defined_findOneCurrentLine ns rs)).
  intros [line|]; simpl withLine; [|apply defined_ret; auto].
  assert (Hin : In line (line :: rs)) by (left; reflexivity).
  apply (defined_bind (defined_recalculateTheLine ns (line :: rs) line pos Hin)). intros _.
  apply (@defined_bind _ _ _ (fun _ => Live ns (line :: rs))).
  { apply defined_setLine; [reflexivity|intros l H; exact H]. }
  intros _. apply (defined_bind (defined_cleanAnchorShapes ns (line :: rs))). intros _.
  apply (defined_bind (defined_getLine ns (line :: rs) line Hin)). intros l. cbv zeta.
  apply (@defined_bind _ _ _ (fun o => Live (withLine o ns) (line :: rs))).
  { apply (defined_conseq _ _ _ _ _
             (defined_findPidShapeById ns (line :: rs) (cacStartPidShapeId l))); [|auto].
    intros E [H _]. exact H. }
  intros shapeStart.
  apply (@defined_bind _ _ _ (fun _ => Live (withLine shapeStart ns) (line :: rs))).
  { apply defined_addConnectorToPath; [|exact Hin].
    intros s ->. left. reflexivity. }
  intros _. apply defined_ret. intros E. apply Live_weaken; [|apply incl_refl].
  destruct shapeStart; [apply incl_tl|]; apply incl_refl.
Qed.


Lemma defined_anchorShape_mouseup :
  forall (ns rs : list nat) (a : AnchorShape),
    In (anchorShape_path a) ns ->
    defined (Live ns rs) (anchorShape_mouseup a) (fun _ _ => True).
Proof.
  intros ns rs a Hin. unfold anchorShape_mouseup. cbv zeta.
  apply (defined_bind (defined_endConnectingLine ns rs (anchorShape_pos a))).
  intros [line|]; simpl withLine; [|apply defined_ret; auto].
  apply (defined_conseq (Live ns (line :: rs)) _ (fun _ => Live ns (line :: rs)));
    [|auto|auto].
  apply defined_addConnectorToPath; [|left; reflexivity].
  intros s Hs. injection Hs as <-. exact Hin.
Qed.

Lemma defined_stage_click :
  forall (ns rs : list nat) (pos : option Vector2d) (random : number),
    defined (Live ns rs) (stage_click pos random) (fun _ _ => True).
Proof.
  intros ns rs pos random. unfold stage_click.
  apply (defined_bind (defined_cleanAnchorShapes ns rs)). intros _.
  destruct pos as [pos|].
  - apply (defined_bind (defined_findOneCurrentLine ns rs)).
    intros [current|]; simpl withLine; [|apply defined_ret; auto].
    apply (defined_bind (defined_endConnectingLine ns (current :: rs) pos)). intros line.
    set (rs' := withLine line (current :: rs)).
    apply (@defined_bind _ _ _ (fun o => Live (withLine o ns) rs')).
    { unfold createEmtpyShape, addShape_defaultId.
      apply (defined_bind (defined_addShape ns rs' emptyEnd (vx pos) (vy pos)
                             (randomId random))).
      intros group. apply defined_ret. auto. }
    intros e. destruct line as [line|]; [|apply defined_ret; auto].
    apply (defined_conseq (Live (withLine e ns) rs') _ (fun _ => Live (withLine e ns) rs'));
      [|auto|auto].
    apply defined_addConnectorToPath; [|left; reflexivity].
    intros s ->. left. reflexivity.
  - apply (defined_bind (defined_findOneCurrentLine ns rs)).
    intros [line|]; simpl withLine; [|apply defined_ret; auto].
    apply (defined_conseq (Live ns (line :: rs)) _ (fun _ => Live ns (line :: rs)));
      [|auto|auto].
    apply defined_setLine; [reflexivity|intros l H; exact H].
Qed.

Lemma at_defined :
  forall pts : list number,
    2 <= length pts ->
    exists a b c : number,
      at_ pts (-2) = Some a /\ at_ pts (-1) = Some b /\ at_ pts 0 = Some c.
Proof.
  intros pts H. unfold at_.
  assert (H2 : (0 <=? Z.of_nat (length pts) + -2)%Z = true) by (apply Z.leb_le; lia).
  assert (H1 : (0 <=? Z.of_nat (length pts) + -1)%Z = true) by (apply Z.leb_le; lia).
  rewrite H2, H1. simpl.
  destruct (nth_error pts (Z.to_nat (Z.of_nat (length pts) + -2))) as [a|] eqn:Ha;
    [|apply nth_error_None in Ha; lia].
  destruct (nth_error pts (Z.to_nat (Z.of_nat (length pts) + -1))) as [b|] eqn:Hb;
    [|apply nth_error_None in Hb; lia].
  destruct pts as [|c pts]; [simpl in H; lia|].
  exists a, b, c. auto.
Qed.

Lemma defined_dragmove_connector :
  forall (ns rs : list nat) (pidShape : IPidShape) (group : nat) (c : IConnector),
    In group ns -> In (line c) rs ->
    defined (Live ns rs) (dragmove_connector pidShape group c) (fun _ => Live ns rs).
Proof.
  intros ns rs pidShape group c Hg Hc. unfold dragmove_connector.
  apply (defined_bind (defined_getNode ns rs group Hg)). intros n. cbv zeta.
  destruct (getIndex (anchors pidShape) (anchorIndex c)) as [anchor|]; simpl orThrow.
  - apply (@defined_bind _ _ _ (fun _ => Live ns rs)); [apply defined_ret; auto|].
    intros anchor'. destruct (connector_type c).
    + apply (defined_bind (defined_getLine ns rs (line c) Hc)). intros l E [HL Hl].
      destruct (at_defined (points l) Hl) as (a & b & c0 & Ha & Hb & Hc0).
      rewrite Ha, Hb, Hc0. simpl.
      apply Live_updateLine; [reflexivity| |exact HL]. intros l' _. simpl. lia.
    + apply (defined_bind (defined_recalculateTheLine ns rs (line c) _ Hc)).
      intros _. apply defined_ret. auto.
  - intros E HL. reflexivity.
Qed.

Lemma defined_mapM_addShape :
  forall (data : list IDtoPidShape) (ns rs : list nat),
    defined (Live ns rs)
      (mapM (fun i => addShape (dto_s i) (dto_x i) (dto_y i) (dto_id i)) data)
      (fun gs => Live (gs ++ ns) rs).
Proof.
  intros data. induction data as [|d data IH]; intros ns rs; simpl.
  - apply defined_ret. auto.
  - apply (defined_bind (defined_addShape ns rs _ _ _ _)). intros g.
    apply (defined_bind (IH (g :: ns) rs)). intros gs.
    apply defined_ret. intros E. apply Live_weaken; [|apply incl_refl].
    intros r Hr. simpl in Hr. apply in_or_app. destruct Hr as [Hr|Hr].
    + right. left. exact Hr.
    + apply in_app_or in Hr. destruct Hr as [Hr|Hr]; [left; exact Hr|].
      right. right. exact Hr.
Qed.

Lemma defined_importJson_conn :
  forall (ns rs gs : list nat) (dto : IDtoPidShape) (conn : IDtoConnection),
    incl gs ns -> 2 <= length (conn_l conn) ->
    defined (Live ns rs) (importJson_conn gs dto conn) (fun _ => Live ns rs).
Proof.
  intros ns rs gs dto conn Hgs Hl. unfold importJson_conn.
  apply (defined_bind (defined_newLine ns rs _ _ _ _ Hl)). intros r.
  apply (defined_bind (defined_findGroupById ns (r :: rs) gs (conn_sid conn) Hgs)).
  intros [pathStart|]; simpl withLine.
  - set (ns1 := pathStart :: ns).
    apply (@defined_bind _ _ _ (fun _ => Live ns1 (r :: rs))).
    { apply defined_addConnectorToPath; [|left; reflexivity].
      intros s Hs. injection Hs as <-. left. reflexivity. }
    intros _.
    assert (Hgs1 : incl gs ns1) by (apply incl_tl; exact Hgs).
    apply (defined_bind (defined_findGroupById ns1 (r :: rs) gs (dto_id dto) Hgs1)).
    intros e.
    apply (@defined_bind _ _ _ (fun _ => Live (withLine e ns1) (r :: rs))).
    { apply defined_addConnectorToPath; [|left; reflexivity].
      intros s ->. left. reflexivity. }
    intros _.
    apply (defined_conseq (Live (withLine e ns1) (r :: rs)) _
             (fun _ => Live (withLine e ns1) (r :: rs))); [|auto|].
    + apply defined_setLine; [reflexivity|intros l H; exact H].
    + intros _ E. apply Live_weaken; [|apply incl_tl; apply incl_refl].
      unfold ns1. destruct e; simpl; repeat apply incl_tl; apply incl_refl.
  - apply defined_ret. intros E. apply Live_weaken; [apply incl_refl|].
    apply incl_tl. apply incl_refl.
Qed.

Lemma defined_importJson :
  forall (ns rs : list nat) (data : option (list IDtoPidShape)),
    routed (Ev_importJson data) ->
    defined (Live ns rs) (importJson data) (fun _ _ => True).
Proof.
  intros ns rs [data|] Hr; [|apply defined_ret; auto]. simpl in Hr. unfold importJson.
  apply (defined_bind (defined_mapM_addShape data ns rs)). intros gs.
  apply (@defined_bind _ _ _ (fun _ => Live (gs ++ ns) rs)); [|intros; apply defined_ret; auto].
  apply defined_forEach. intros dto Hdto.
  apply defined_forEach. intros conn Hconn.
  apply defined_importJson_conn; [apply incl_appl; apply incl_refl|].
  rewrite Forall_forall in Hr. specialize (Hr dto Hdto).
  rewrite Forall_forall in Hr. exact (Hr conn Hconn).
Qed.

Lemma defined_eval :
  forall {A : Type} (P : Editor -> Prop) (m : M A) (Q : A -> Editor -> Prop) (E : Editor),
    defined P m Q -> P E -> eval m E <> Throw Unmodelled.
Proof.
  intros A P m Q E H HP. specialize (H E HP). unfold eval.
  destruct (m E) as [[a|e] E']; simpl; [discriminate|]. rewrite H. discriminate.
Qed.

(** In an editor whose imported routes have two numbers at least, every
    handler goes on with values that are there: the node it reads an attribute
    of is on the layer or held by a live marker, the line it reads is an object
    of the store, and the points it asserts with [!] exist.  A handler
    completes or throws a [TypeError]. *)
Theorem handlers_read_defined_values :
  forall (E : Editor) (ev : event),
    reachableBy routed E -> routed ev ->
    eval (handle ev) E = Ok tt \/ eval (handle ev) E = Throw TypeError.
Proof.
  intros E ev HE Hev.
  assert (Hgoal : eval (handle ev) E <> Throw Unmodelled).
  { pose proof (reachableBy_reachable _ _ HE) as Hreach.
    pose proof (reachable_wf E Hreach) as Hwf.
    pose proof (reachable_Sound E Hreach) as HS.
    pose proof (reachable_markers E Hreach) as Hm.
    pose proof (reachableBy_pointed E HE) as Hp.
    assert (HL : Live [] [] E).
    { split; [exact Hp|]. split; intros r []. }
    destruct ev as [pidShape x y [id|] random| |data| |group|group|group|group pos|group
                   |i|i|pos random|pos| |group].
    - discriminate.
    - discriminate.
    - destruct (export_entries E Hreach) as (data & Hexp & _).
      unfold eval in *. simpl handle. unfold bind.
      destruct (exportJson E) as [[d|e] E']; simpl in *; [discriminate|discriminate Hexp].
    - simpl handle.
      apply (defined_eval (Live [] []) _ (fun _ _ => True)); [|exact HL].
      apply (defined_bind (defined_importJson [] [] data Hev)). intros _.
      apply defined_ret. auto.
    - discriminate.
    - unfold eval. simpl handle. unfold onGroup, bind at 1, get at 1.
      destruct (findNode group (shapes E)) as [n|] eqn:Hn; [|discriminate].
      unfold group_click, bind. rewrite (createAnchorShapes_run _ Hn). discriminate.
    - unfold eval. simpl handle. unfold onGroup, bind at 1, get at 1.
      destruct (findNode group (shapes E)) as [n|] eqn:Hn; [|discriminate].
      unfold group_mouseover, findOneCurrentLine, bind, get, ret.
      destruct (option_map line_ref (currentLine E)); [|discriminate].
      rewrite (createAnchorShapes_run _ Hn). discriminate.
    - unfold eval. simpl handle. unfold onGroup, bind, get.
      destruct (findNode group (shapes E)); discriminate.
    - unfold eval. simpl handle. unfold onGroup, bind at 1, get at 1.
      destruct (findNode group (shapes E)) as [n|] eqn:Hn; [|discriminate].
      unfold bind at 1. unfold setNode at 1, modify at 1.
      set (E1 := set_shapes (updateNode group (set_group_pos pos) (shapes E)) E).
      assert (Hn1 : findNode group (shapes E1) = Some (set_group_pos pos n)).
      { unfold E1. cbn [shapes set_shapes].
        rewrite findNode_updateNode_same by reflexivity. rewrite Hn. reflexivity. }
      unfold group_dragmove. rewrite (bind_Ok _ (getNode_Some Hn1)).
      cbn [cacConnectors set_group_pos].
      destruct (cacConnectors n) as [conns|] eqn:Hconns; [|discriminate].
      assert (HL1 : Live [group] (map line conns) E1).
      { split; [exact Hp|]. split.
        - intros r [<-|[]]. apply findNode_ref in Hn1. destruct Hn1 as [Hin Hr].
          rewrite <- Hr at 1. apply in_map. exact Hin.
        - destruct HS as (Hlinked & _). rewrite Forall_forall in Hlinked.
          apply findNode_ref in Hn. destruct Hn as [Hin _].
          specialize (Hlinked n Hin). unfold linked in Hlinked. rewrite Hconns in Hlinked.
          destruct Hlinked as [Hall _]. rewrite Forall_forall in Hall.
          intros r Hr. apply in_map_iff in Hr. destruct Hr as (c & <- & Hc).
          apply Hall. exact Hc. }
      apply (defined_eval (Live [group] (map line conns)) _
               (fun _ => Live [group] (map line conns)) E1); [|exact HL1].
      apply defined_forEach. intros c Hc.
      apply defined_dragmove_connector; [left; reflexivity|apply in_map; exact Hc].
    - unfold eval. simpl handle. unfold onGroup, bind at 1, get at 1.
      destruct (findNode group (shapes E)) as [n|] eqn:Hn; [|discriminate].
      unfold group_dragend. rewrite (bind_Ok _ (getNode_Some Hn)). discriminate.
    - unfold eval. destruct (nth_error (anchorShapes E) i) as [a|] eqn:Ha.
      + destruct (currentLine E) as [l|] eqn:Hcur.
        * simpl handle. unfold onAnchor, bind at 1, get at 1. rewrite Ha.
          unfold anchorShape_mousedown, findOneCurrentLine, bind, get, ret.
          rewrite Hcur. discriminate.
        * destruct (anchor_mousedown_run E i a Hreach Ha Hcur) as (n & anchor & _ & _ & Hrun).
          rewrite Hrun. discriminate.
      + simpl handle. unfold onAnchor, bind, get. rewrite Ha. discriminate.
    - unfold eval. simpl handle. unfold onAnchor, bind at 1, get at 1.
      destruct (nth_error (anchorShapes E) i) as [a|] eqn:Ha; [|discriminate].
      destruct (marker_owner E i a Hwf Hm Ha) as (n & anchor & Hn & _ & _).
      apply (defined_eval (Live [anchorShape_path a] []) _ (fun _ _ => True) E).
      + apply defined_anchorShape_mouseup. left. reflexivity.
      + split; [exact Hp|]. split; [|intros r []].
        intros r [<-|[]]. apply findNode_ref in Hn. destruct Hn as [Hin Hr].
        rewrite <- Hr. apply in_map. exact Hin.
    - simpl handle.
      apply (defined_eval (Live [] []) _ (fun _ _ => True)); [|exact HL].
      apply defined_stage_click.
    - simpl handle. unfold stage_mousemove. destruct pos as [pos|]; [|discriminate].
      apply (defined_eval (Live [] []) _ (fun _ _ => True)); [|exact HL].
      apply (defined_bind (defined_findOneCurrentLine [] [])).
      intros [line|]; simpl withLine; [|apply defined_ret; auto].
      apply (defined_bind (defined_recalculateTheLine [] [line] line pos
                             (or_introl eq_refl))).
      intros _. apply defined_ret. auto.
    - discriminate.
    - unfold eval. simpl handle. unfold deleteShape.
      unfold bind at 1. unfold cleanAnchorShapes at 1, modify at 1.
      unfold bind at 1. unfold get at 1. cbn [shapes set_anchorShapes].
      destruct (findNode group (shapes E)) as [n|]; [|discriminate].
      destruct (cacConnectors n) as [cs|].
      + rewrite (bind_Ok _ (destroy_connector_lines cs _)). discriminate.
      + discriminate. }
  destruct (eval (handle ev) E) as [[]|[|]]; [left; reflexivity|right; reflexivity|].
  exfalso. apply Hgoal. reflexivity.
Qed.


(** ** The context menu *)

Lemma onEditor_run :
  forall {A : Type} (m : M A) (P : Page),
    onEditor m P = (eval m (editor P), set_editor (exec m (editor P)) P).
Proof.
  intros A m P. unfold onEditor, eval, exec. destruct (m (editor P)). reflexivity.
Qed.

Lemma fold_createMenuItem :
  forall (items : list CustomMenuItem) (P : Page),
    fold_left (fun P item => createMenuItem (item_label item) (item_label item) P) items P
      = set_menu_buttons (menu_buttons P ++ map entryButton items) P.
Proof.
  intros items. induction items as [|item items IH]; intros P; simpl.
  - rewrite app_nil_r. destruct P. reflexivity.
  - rewrite IH. unfold createMenuItem, set_menu_buttons. simpl.
    rewrite <- app_assoc. reflexivity.
Qed.

Lemma stage_contextmenu_run :
  forall (s : Target) (containerRect pointer : Vector2d) (P : Page),
    stage_contextmenu (Some s) containerRect pointer P =
      {| editor := set_anchorShapes [] (editor P);
         tr_nodes := [];
         customMenuItems := customMenuItems P;
         menu_display := display_initial;
         menu_buttons := menu_buttons P ++ shownButtons P;
         menu_position :=
           Some {| vx := (vx containerRect + vx pointer + num 4)%Qc;
                   vy := (vy containerRect + vy pointer + num 4)%Qc |};
         currentShape := Some s;
         called := called P |}.
Proof.
  intros s containerRect pointer P. unfold stage_contextmenu. cbv zeta.
  rewrite fold_createMenuItem. unfold shownButtons. simpl. rewrite <- app_assoc.
  reflexivity.
Qed.

(** The lines of the store stay in the store. *)
Ltac stored_leaf :=
  intros ? ?; cbv beta;
  first
    [ assumption
    | cbn [lines set_lines]; rewrite map_updateLine_ref by reflexivity; assumption
    | cbn [lines set_lines]; rewrite map_app; apply in_or_app; left; assumption
    | cbn [lines]; rewrite map_map; assumption ].

Lemma stored_step :
  forall (r : nat) (E : Editor) (ev : event),
    In r (map line_ref (lines E)) -> In r (map line_ref (lines (step E ev))).
Proof.
  intros r E ev. revert E.
  change (preserves (fun E => In r (map line_ref (lines E))) (handle ev)).
  destruct ev as [pidShape x y [id|] random| |data| |group|group|group|group pos|group
                 |i|i|pos random|pos| |group]; simpl handle;
    unfold addShape_defaultId, exportJson, export, export_shape, importJson,
      importJson_conn, onGroup, onAnchor, group_click, group_mouseover, group_mousedown,
      group_dragmove, group_dragend, dragmove_connector, anchorShape_mousedown,
      anchorShape_mouseup, stage_click, stage_mousemove, deleteShape, endConnectingLine,
      createEmtpyShape, addShape_defaultId, createAnchorShapes, addConnectorToPath;
    keep; try stored_leaf.
Qed.

Lemma stored_deleteShape_of :
  forall (r : nat) (s : option Target) (E : Editor),
    In r (map line_ref (lines E)) ->
    In r (map line_ref (lines (exec (deleteShape_of s) E))).
Proof.
  intros r s. change (preserves (fun E => In r (map line_ref (lines E))) (deleteShape_of s)).
  destruct s as [[group|line|i]|]; unfold deleteShape_of, deleteShape_line, deleteShape;
    keep; try stored_leaf.
Qed.

Lemma menuOk_step :
  forall (P : Page) (pev : page_event), menuOk P -> menuOk (page_step P pev).
Proof.
  intros P pev (Hb & Hs & Hl). unfold page_step.
  destruct pev as [ev|label callback|target containerRect pointer| |i]; simpl page_handle.
  - rewrite onEditor_run. cbn [snd].
    assert (Hd : menu_buttons (detach ev P) = menu_buttons P /\
                 customMenuItems (detach ev P) = customMenuItems P /\
                 currentShape (detach ev P) = currentShape P /\
                 editor (detach ev P) = editor P).
    { unfold detach. destruct ev; try (repeat split; reflexivity).
      destruct (findNode group (shapes (editor P))); repeat split; reflexivity. }
    destruct Hd as (Hd1 & Hd2 & Hd3 & Hd4).
    split; [|split]; cbn [menu_buttons customMenuItems currentShape editor set_editor].
    + rewrite Hd1, Hd2. exact Hb.
    + rewrite Hd1, Hd3. exact Hs.
    + rewrite Hd3, Hd4. intros line Hline. apply stored_step. apply Hl. exact Hline.
  - cbn [snd]. split; [|split]; cbn; try assumption.
    eapply Forall_impl; [|exact Hb]. intros b [Hd|(item & Hin & Hi)]; [left; exact Hd|].
    right. exists item. split; [apply in_or_app; left; exact Hin|exact Hi].
  - destruct (hits target (editor P)) eqn:Hhit; cbn [snd]; [|split; [|split]; assumption].
    destruct target as [s|].
    + rewrite stage_contextmenu_run. split; [|split]; cbn.
      * apply Forall_app. split; [exact Hb|]. constructor; [left; reflexivity|].
        apply Forall_forall. intros b Hin. apply in_map_iff in Hin.
        destruct Hin as (item & <- & Hin). right. exists item. auto.
      * discriminate.
      * intros line Hline. injection Hline as ->. simpl in Hhit.
        destruct (findLine line (lines (editor P))) as [l|] eqn:Hfind; [|discriminate].
        apply findLine_ref in Hfind. destruct Hfind as [Hin Hr]. rewrite <- Hr.
        apply in_map. exact Hin.
    + split; [|split]; cbn; assumption.
  - cbn [snd]. split; [|split]; cbn; try assumption; [constructor|].
    intros H. exfalso. apply H. reflexivity.
  - unfold button_click. destruct (nth_error (menu_buttons P) i) as [b|];
      [|cbn [snd]; split; [|split]; assumption].
    cbv zeta.
    destruct (menu_callback (button_action b) (currentShape (set_menu_display display_none P))
                (set_menu_display display_none P)) as [o P'] eqn:Hcall.
    cbn [snd]. split; [|split]; cbn [menu_buttons window_click set_menu_buttons
                                       currentShape customMenuItems editor].
    + constructor.
    + intros H. exfalso. apply H. reflexivity.
    + intros line Hline. unfold menu_callback in Hcall.
      destruct (button_action b =? "cacDelete")%string.
      * rewrite onEditor_run in Hcall. injection Hcall as _ <-.
        cbn [currentShape editor set_editor set_menu_display] in *.
        apply stored_deleteShape_of. apply Hl. exact Hline.
      * destruct (button_action b =? "cacResize")%string.
        -- unfold resizeShape in Hcall.
           cbn [currentShape set_menu_display] in Hcall.
           destruct (currentShape P) as [[group|line'|i']|] eqn:Hcur.
           ++ cbn [editor set_editor set_menu_display shapes] in Hcall.
              destruct (findNode group
                          (shapes (exec cleanAnchorShapes (editor P)))) eqn:Hn.
              ** rewrite onEditor_run in Hcall. injection Hcall as _ <-.
                 cbn [currentShape set_editor set_tr_nodes set_menu_display] in Hline.
                 rewrite Hcur in Hline. discriminate.
              ** injection Hcall as _ <-.
                 cbn [currentShape set_editor set_menu_display] in Hline.
                 rewrite Hcur in Hline. discriminate.
           ++ injection Hcall as _ <-. cbn in Hline |- *. rewrite ?Hcur in Hline.
              apply Hl. exact Hline.
           ++ injection Hcall as _ <-. cbn in Hline. rewrite ?Hcur in Hline. discriminate.
           ++ injection Hcall as _ <-. cbn in Hline. rewrite ?Hcur in Hline. discriminate.
        -- destruct (find (fun item => (item_label item =? button_action b)%string)
                       (customMenuItems (set_menu_display display_none P))).
           ++ injection Hcall as _ <-. cbn in Hline |- *. apply Hl. exact Hline.
           ++ injection Hcall as _ <-. cbn in Hline |- *. apply Hl. exact Hline.
Qed.

Lemma page_reachable_menuOk : forall P : Page, page_reachable P -> menuOk P.
Proof.
  intros P H. induction H as [|P pev _ IH].
  - split; [constructor|]. split; [intros H; exfalso; apply H; reflexivity|].
    intros line H. discriminate H.
  - apply menuOk_step. exact IH.
Qed.


Lemma deleteShape_run :
  forall (E : Editor) (group : nat),
    deleteShape group E =
      (Ok tt,
       match findNode group (shapes E) with
       | Some n =>
           {| shapes := removeNode group (shapes E);
              lines := map (fun l =>
                              if touches (match cacConnectors n with
                                          | Some conns => conns
                                          | None => []
                                          end) l
                              then set_line_onLayer false l else l) (lines E);
              anchorShapes := []; fired := S (fired E); next_ref := next_ref E |}
       | None => set_anchorShapes [] E
       end).
Proof.
  intros E group. unfold deleteShape.
  unfold bind at 1. unfold cleanAnchorShapes at 1, modify at 1.
  unfold bind at 1. unfold get at 1. cbn [shapes set_anchorShapes].
  destruct (findNode group (shapes E)) as [n|]; [|reflexivity].
  destruct (cacConnectors n) as [cs|].
  - rewrite (bind_Ok _ (destroy_connector_lines cs _)). reflexivity.
  - unfold bind, ret, modify, fire. simpl. rewrite map_id. reflexivity.
Qed.

Lemma deleteShape_line_run :
  forall (E : Editor) (line : nat) (l : Line),
    findLine line (lines E) = Some l ->
    deleteShape_line line E =
      (Ok tt,
       if line_onLayer l
       then {| shapes := []; lines := map (set_line_onLayer false) (lines E);
               anchorShapes := []; fired := S (fired E); next_ref := next_ref E |}
       else set_anchorShapes [] E).
Proof.
  intros E line l Hl. unfold deleteShape_line.
  unfold bind at 1. unfold cleanAnchorShapes at 1, modify at 1.
  assert (Hl' : findLine line (lines (set_anchorShapes [] E)) = Some l) by exact Hl.
  rewrite (bind_Ok _ (getLine_Some Hl')). destruct (line_onLayer l); reflexivity.
Qed.

Lemma deleteShape_of_completes :
  forall (E : Editor) (s : Target),
    (forall line, s = onLine line -> In line (map line_ref (lines E))) ->
    eval (deleteShape_of (Some s)) E = Ok tt.
Proof.
  intros E [group|line|i] Hs; unfold eval, deleteShape_of.
  - rewrite deleteShape_run. reflexivity.
  - destruct (findLine_inStore line (lines E) (Hs line eq_refl)) as [l Hl].
    rewrite (deleteShape_line_run E line l Hl). reflexivity.
  - reflexivity.
Qed.

(** A choice in the context menu.  Every button of the menu is [Delete] or
    the button of a registered entry, and the node that was right-clicked is
    known.  The choice hides the menu and empties it.  [Delete], and any
    entry whose label is [cacDelete], runs [#deleteShape] on that node and
    calls no callback: for a shape this is the deletion of the shape.  An
    entry with another label (but [cacResize]) leaves the editor as it is and
    calls, once, the callback of the first entry registered with that
    label. *)
Theorem menu_choice :
  forall (P : Page) (i : nat) (b : MenuButton),
    page_reachable P ->
    nth_error (menu_buttons P) i = Some b ->
    let chosen := page_step P (Pev_button_click i) in
    menu_display chosen = display_none /\
    menu_buttons chosen = [] /\
    (b = deleteButton \/ exists item, In item (customMenuItems P) /\ b = entryButton item) /\
    exists s : Target,
      currentShape P = Some s /\
      (button_action b = "cacDelete"%string ->
       fst (page_handle (Pev_button_click i) P) = Ok tt /\
       editor chosen = exec (deleteShape_of (Some s)) (editor P) /\
       (forall group, s = onShape group ->
                      editor chosen = step (editor P) (Ev_menu_delete group)) /\
       called chosen = called P) /\
      (button_action b <> "cacDelete"%string -> button_action b <> "cacResize"%string ->
       exists item : CustomMenuItem,
         find (fun item => (item_label item =? button_action b)%string)
           (customMenuItems P) = Some item /\
         fst (page_handle (Pev_button_click i) P) = Ok tt /\
         editor chosen = editor P /\
         called chosen = called P ++ [(item_callback item, Some s)]).
Proof.
  intros P i b Hreach Hb chosen.
  destruct (page_reachable_menuOk P Hreach) as (Hbuttons & Hshape & Hline).
  assert (Hkind : b = deleteButton \/
                  exists item, In item (customMenuItems P) /\ b = entryButton item).
  { rewrite Forall_forall in Hbuttons. apply Hbuttons. eapply nth_error_In. exact Hb. }
  destruct (currentShape P) as [s|] eqn:Hcur.
  2:{ exfalso. apply Hshape; [|reflexivity]. intros H. rewrite H in Hb.
      destruct i; discriminate. }
  assert (Hstep : page_handle (Pev_button_click i) P =
                  (let (o, P') := menu_callback (button_action b) (Some s)
                                    (set_menu_display display_none P) in
                   (o, window_click P'))).
  { simpl page_handle. unfold button_click. rewrite Hb. cbv zeta.
    cbn [currentShape set_menu_display]. rewrite Hcur. reflexivity. }
  assert (Hmenu : menu_display chosen = display_none /\ menu_buttons chosen = []).
  { unfold chosen, page_step. rewrite Hstep. unfold menu_callback.
    destruct (button_action b =? "cacDelete")%string.
    - rewrite onEditor_run. split; reflexivity.
    - destruct (button_action b =? "cacResize")%string.
      + unfold resizeShape. destruct s as [group|line|j].
        * cbn [editor set_editor set_menu_display shapes].
          destruct (findNode group (shapes (exec cleanAnchorShapes (editor P))));
            [rewrite onEditor_run|]; split; reflexivity.
        * split; reflexivity.
        * split; reflexivity.
      + destruct (find (fun item => (item_label item =? button_action b)%string)
                    (customMenuItems (set_menu_display display_none P)));
          split; reflexivity. }
  split; [exact (proj1 Hmenu)|]. split; [exact (proj2 Hmenu)|]. split; [exact Hkind|].
  exists s. split; [reflexivity|]. split.
  - intros Hdel.
    assert (Hrun : page_handle (Pev_button_click i) P =
                   (eval (deleteShape_of (Some s)) (editor P),
                    window_click
                      (set_editor (exec (deleteShape_of (Some s)) (editor P))
                         (set_menu_display display_none P)))).
    { rewrite Hstep. unfold menu_callback. rewrite Hdel. simpl String.eqb.
      rewrite onEditor_run. reflexivity. }
    assert (Hed : editor chosen = exec (deleteShape_of (Some s)) (editor P))
      by (unfold chosen, page_step; rewrite Hrun; reflexivity).
    split; [|split; [exact Hed|split]].
    + rewrite Hrun. cbn [fst]. apply deleteShape_of_completes.
      intros line ->. apply Hline. reflexivity.
    + intros group ->. rewrite Hed. reflexivity.
    + unfold chosen, page_step. rewrite Hrun. reflexivity.
  - intros Hdel Hres.
    assert (Hfind : exists item,
               find (fun item => (item_label item =? button_action b)%string)
                 (customMenuItems P) = Some item).
    { destruct Hkind as [->|(item & Hin & ->)]; [exfalso; apply Hdel; reflexivity|].
      simpl button_action.
      destruct (find (fun item0 => (item_label item0 =? item_label item)%string)
                  (customMenuItems P)) as [item'|] eqn:Hf; [exists item'; reflexivity|].
      pose proof (find_none _ _ Hf item Hin) as Hn. simpl in Hn.
      rewrite String.eqb_refl in Hn. discriminate. }
    destruct Hfind as [item Hitem]. exists item. split; [exact Hitem|].
    apply String.eqb_neq in Hdel. apply String.eqb_neq in Hres.
    assert (Hrun : page_handle (Pev_button_click i) P =
                   (Ok tt,
                    window_click
                      (set_called (called P ++ [(item_callback item, Some s)])
                         (set_menu_display display_none P)))).
    { rewrite Hstep. unfold menu_callback. rewrite Hdel, Hres.
      cbn [customMenuItems set_menu_display]. rewrite Hitem. reflexivity. }
    unfold chosen, page_step. rewrite Hrun. repeat split; reflexivity.
Qed.

(** [Delete], chosen for a connector line: the parent of the line is the
    layer, and [#deleteShape] destroys the layer and every node on it.  After
    a right click on a line that is on the layer and the choice of [Delete],
    no shape, no line and no marker is left on the layer, one change is
    notified, and an export returns the empty document. *)
Theorem menu_delete_on_line :
  forall (P : Page) (line : nat) (l : Line) (containerRect pointer : Vector2d),
    findLine line (lines (editor P)) = Some l ->
    line_onLayer l = true ->
    menu_buttons P = [] ->
    let opened := page_step P (Pev_contextmenu (Some (onLine line)) containerRect pointer) in
    let chosen := page_step opened (Pev_button_click 0) in
    nth_error (menu_buttons opened) 0 = Some deleteButton /\
    menu_display opened = display_initial /\
    fst (page_handle (Pev_button_click 0) opened) = Ok tt /\
    shapes (editor chosen) = [] /\
    lines (editor chosen) = map (set_line_onLayer false) (lines (editor P)) /\
    layerRoutes (editor chosen) = [] /\
    anchorShapes (editor chosen) = [] /\
    fired (editor chosen) = S (fired (editor P)) /\
    exportJson (editor chosen) = (Ok [], editor chosen) /\
    menu_display chosen = display_none.
Proof.
  intros P line l containerRect pointer Hl Hon Hempty opened chosen.
  assert (Hopened : opened =
                    stage_contextmenu (Some (onLine line)) containerRect pointer P).
  { unfold opened, page_step. simpl page_handle. simpl hits. rewrite Hl, Hon. reflexivity. }
  rewrite stage_contextmenu_run in Hopened.
  assert (Hbutton : nth_error (menu_buttons opened) 0 = Some deleteButton).
  { rewrite Hopened. cbn [menu_buttons]. rewrite Hempty. reflexivity. }
  assert (Hl' : findLine line (lines (editor opened)) = Some l).
  { rewrite Hopened. exact Hl. }
  assert (Hrun : page_handle (Pev_button_click 0) opened =
                 (Ok tt,
                  window_click
                    (set_editor
                       {| shapes := [];
                          lines := map (set_line_onLayer false) (lines (editor P));
                          anchorShapes := []; fired := S (fired (editor P));
                          next_ref := next_ref (editor P) |}
                       (set_menu_display display_none opened)))).
  { simpl page_handle. unfold button_click. rewrite Hbutton. cbv zeta.
    unfold menu_callback. simpl button_action. simpl String.eqb.
    rewrite onEditor_run. unfold eval, exec.
    assert (Hcur : currentShape (set_menu_display display_none opened)
                   = Some (onLine line)) by (rewrite Hopened; reflexivity).
    rewrite Hcur. unfold deleteShape_of.
    cbn [editor set_menu_display].
    rewrite (deleteShape_line_run (editor opened) line l Hl'). rewrite Hon.
    rewrite Hopened. reflexivity. }
  split; [exact Hbutton|]. split; [rewrite Hopened; reflexivity|].
  split; [rewrite Hrun; reflexivity|].
  unfold chosen, page_step. rewrite Hrun. cbn [snd editor window_click set_menu_buttons
                                               set_editor shapes lines anchorShapes fired
                                               menu_display set_menu_display].
  repeat split; try reflexivity.
  unfold layerRoutes. cbn [lines]. apply layerRoutes_cleared.
Qed.


(** ** The icon set *)

Lemma orString_nonempty :
  forall (s : option string) (d : string), d <> ""%string -> orString s d <> ""%string.
Proof.
  intros [s|] d Hd; simpl; [|exact Hd].
  destruct (s =? "")%string eqn:Hs; [exact Hd|]. apply String.eqb_neq. exact Hs.
Qed.

Lemma orString_again :
  forall (s : option string) (d : string), orString (Some (orString s d)) d = orString s d.
Proof.
  intros [s|] d; simpl.
  - destruct (s =? "")%string eqn:Hs.
    + destruct (d =? "")%string; reflexivity.
    + rewrite Hs. reflexivity.
  - destruct (d =? "")%string; reflexivity.
Qed.

(** What [fetchPidIconSet] makes of the items it fetched: as many items, in
    the same order.  An item keeps the anchors, the type, the path and the
    name it has; anchors that are missing become [[]], a type that is missing
    becomes ['valve'], a path that is missing becomes [''], and a name that is
    missing or empty becomes ['Unnamed'].  So every item has anchors, a path, a
    type and a name that is not empty; the width and the height are left as
    they were, so that an item is a complete [IPidShape] exactly when the JSON
    gave it a width and a height; an item that was complete and had a name is
    unchanged, and normalising twice changes nothing more. *)
Theorem fetchPidIconSet_normalizes :
  forall (data : list FetchedShape),
    exists items : list FetchedShape,
      fetchPidIconSet (Some data) = Some items /\
      length items = length data /\
      fetchPidIconSet (Some items) = Some items /\
      (forall (i : nat) (item : FetchedShape),
          nth_error data i = Some item ->
          exists item' : FetchedShape,
            nth_error items i = Some item' /\
            fetched_anchors item' =
              Some (match fetched_anchors item with Some a => a | None => [] end) /\
            fetched_type item' =
              Some (match fetched_type item with Some t => t | None => valve end) /\
            fetched_path item' =
              Some (match fetched_path item with Some p => p | None => ""%string end) /\
            fetched_name item' =
              Some (match fetched_name item with
                    | Some n => if (n =? "")%string then "Unnamed"%string else n
                    | None => "Unnamed"%string
                    end) /\
            (exists n, fetched_name item' = Some n /\ n <> ""%string) /\
            fetched_anchors item' <> None /\
            fetched_path item' <> None /\
            fetched_type item' <> None /\
            fetched_width item' = fetched_width item /\
            fetched_height item' = fetched_height item /\
            (asPidShape item' <> None <->
             fetched_width item <> None /\ fetched_height item <> None) /\
            (forall shape, asPidShape item = Some shape -> name shape <> ""%string ->
                           item' = item)).
Proof.
  intros data. exists (map normalizeItem data). split; [reflexivity|].
  split; [apply length_map|]. split.
  - simpl. f_equal. rewrite map_map. apply map_ext. intros item.
    unfold normalizeItem.
    cbn [fetched_anchors fetched_path fetched_type fetched_name fetched_height
         fetched_width orElse].
    rewrite !orString_again. reflexivity.
  - intros i item Hi. exists (normalizeItem item). split.
    + rewrite nth_error_map, Hi. reflexivity.
    + split; [|split; [|split; [|split; [|split; [|split; [|split; [|split; [|split;
        [|split; [|split]]]]]]]]]]; try discriminate; try reflexivity.
      * unfold normalizeItem. cbn [fetched_path]. f_equal.
        destruct (fetched_path item) as [p|]; [|reflexivity]. simpl.
        destruct (p =? "")%string eqn:Hp; [|reflexivity].
        apply String.eqb_eq in Hp. symmetry. exact Hp.
      * eexists. split; [reflexivity|]. apply orString_nonempty. discriminate.
      * unfold asPidShape, normalizeItem. simpl.
        destruct (fetched_height item), (fetched_width item); split;
          try (intros [H1 H2]); try (intros H); try split; try discriminate;
          try congruence.
      * intros shape Hshape Hname. unfold asPidShape in Hshape.
        destruct item as [[n|] [p|] [h|] [w|] [t|] [a|]]; simpl in Hshape;
          try discriminate.
        injection Hshape as <-. simpl in Hname. unfold normalizeItem. simpl.
        apply String.eqb_neq in Hname. rewrite Hname.
        destruct (p =? "")%string eqn:Hp; [|reflexivity].
        apply String.eqb_eq in Hp. subst p. reflexivity.
Qed.

(** ** The tips *)

Lemma tip_after_even :
  forall (tips : list string) (n : nat),
    tip_after tips (2 * n) =
      {| tip_innerHTML := tipText tips (if n =? 0 then Some 0 else tipPlace tips n);
         tip_index := n; tip_interval := (8000 * Z.of_nat (S n))%Z; tip_timeouts := [] |}.
Proof.
  intros tips n. induction n as [|n IH].
  - reflexivity.
  - replace (2 * S n) with (S (S (2 * n))) by lia.
    cbn [tip_after]. rewrite IH. unfold tip_fire at 2. cbn [tip_timeouts tip_interval].
    unfold tip_onInterval. cbn [tip_timeouts tip_interval tip_index app].
    unfold tip_fire. cbn [tip_timeouts tip_interval].
    assert (Hlt : (8000 * Z.of_nat (S n) + 1000 <? 8000 * Z.of_nat (S n) + 8000)%Z = true)
      by (apply Z.ltb_lt; lia).
    rewrite Hlt. unfold tip_onTimeout. cbn [tip_index tip_interval tip_timeouts tl].
    f_equal. lia.
Qed.

(** The tips rotate: the first tip is shown at once; each time the interval
    fires the text is emptied, and the timeout that follows shows the next tip,
    starting again from the first after the last.  After the [n]-th pair of
    timers the tip at place [n mod length] is shown, and every tip comes
    back. *)
Theorem tips_rotate :
  forall (tips : list string) (n : nat),
    tips <> [] ->
    nth_error tips (n mod length tips) =
      Some (tip_innerHTML (tip_after tips (2 * n))) /\
    tip_innerHTML (tip_after tips (2 * n + 1)) = ""%string /\
    tip_interval (tip_after tips (2 * n)) = (8000 * (Z.of_nat n + 1))%Z /\
    tip_innerHTML (tip_after tips (2 * (n + length tips)))
      = tip_innerHTML (tip_after tips (2 * n)).
Proof.
  intros tips n Htips.
  assert (Hlen : length tips <> 0) by (destruct tips; [congruence|discriminate]).
  assert (Hshow : forall k,
             nth_error tips (k mod length tips)
             = Some (tip_innerHTML (tip_after tips (2 * k)))).
  { intros k. rewrite tip_after_even. cbn [tip_innerHTML].
    assert (Hplace : (if k =? 0 then Some 0 else tipPlace tips k)
                     = Some (k mod length tips)).
    { destruct (k =? 0) eqn:Hk.
      - apply Nat.eqb_eq in Hk. subst k. rewrite Nat.Div0.mod_0_l. reflexivity.
      - unfold tipPlace. destruct (length tips); [congruence|reflexivity]. }
    rewrite Hplace. unfold tipText.
    destruct (nth_error tips (k mod length tips)) as [t|] eqn:Ht; [reflexivity|].
    apply nth_error_None in Ht. pose proof (Nat.mod_upper_bound k (length tips) Hlen). lia. }
  split; [apply Hshow|]. split; [|split].
  - replace (2 * n + 1) with (S (2 * n)) by lia. cbn [tip_after]. rewrite tip_after_even.
    reflexivity.
  - rewrite tip_after_even. cbn [tip_interval]. lia.
  - pose proof (Hshow (n + length tips)) as H1. pose proof (Hshow n) as H2.
    replace ((n + length tips) mod length tips) with (n mod length tips) in H1.
    + rewrite H2 in H1. injection H1 as H1. symmetry. exact H1.
    + rewrite <- (Nat.Div0.add_mod_idemp_r n (length tips)).
      rewrite Nat.Div0.mod_same, Nat.add_0_r. reflexivity.
Qed.

(** ** Importing beside what is there *)

Lemma NoDup_app_disjoint :
  forall {A : Type} (l1 l2 : list A) (a : A),
    NoDup (l1 ++ l2) -> In a l1 -> In a l2 -> False.
Proof.
  intros A l1 l2 a Hnd H1 H2. induction l1 as [|x l1 IH]; [destruct H1|].
  simpl in Hnd. inversion Hnd as [|? ? Hnin Hnd']; subst.
  destruct H1 as [->|H1].
  - apply Hnin. apply in_or_app. right. exact H2.
  - apply IH; assumption.
Qed.

Lemma find_ext_Forall :
  forall {A : Type} (p q : A -> bool) (l : list A),
    Forall (fun x => p x = q x) l -> find p l = find q l.
Proof.
  intros A p q l H. induction H as [|x l Hx _ IH]; simpl; [reflexivity|].
  rewrite Hx, IH. reflexivity.
Qed.

Lemma behind_emptied :
  forall E : Editor, behind (shapes E) (lines E) (emptied E) = E.
Proof. intros [ns ls a f k]. unfold behind, emptied. simpl. rewrite !app_nil_r. reflexivity. Qed.

Section Framed.

Variables (ns : list PidNode) (ls : list Line) (b : nat).
Hypothesis Hns : Forall (fun n => node_ref n < b) ns.
Hypothesis Hls : Forall (fun l => line_ref l < b) ls.

Lemma nodes_below : forall r : nat, b <= r -> Forall (fun n => node_ref n < r) ns.
Proof. intros r Hr. eapply Forall_impl; [|exact Hns]. simpl. intros n Hn. lia. Qed.

Lemma lines_below : forall r : nat, b <= r -> Forall (fun l => line_ref l < r) ls.
Proof. intros r Hr. eapply Forall_impl; [|exact Hls]. simpl. intros l Hl. lia. Qed.

Lemma framed_bind :
  forall {A B : Type} (m : M A) (f : A -> M B) (Q : A -> Prop) (R : B -> Prop),
    framed ns ls b m Q -> (forall a, Q a -> framed ns ls b (f a) R) ->
    framed ns ls b (bind m f) R.
Proof.
  intros A B m f Q R Hm Hf E Hb. destruct (Hm E Hb) as (H1 & H2 & H3).
  unfold bind. rewrite H1. destruct (m E) as [[a|e] E1]; simpl in *.
  - apply (Hf a (H3 a eq_refl) E1 H2).
  - split; [reflexivity|]. split; [exact H2|]. intros a Ha. discriminate Ha.
Qed.

Lemma framed_ret :
  forall {A : Type} (a : A) (Q : A -> Prop), Q a -> framed ns ls b (ret a) Q.
Proof.
  intros A a Q Ha E Hb. split; [reflexivity|]. split; [exact Hb|].
  intros a' H. injection H as <-. exact Ha.
Qed.

Lemma framed_throw :
  forall {A : Type} (e : error) (Q : A -> Prop), framed ns ls b (throw e) Q.
Proof.
  intros A e Q E Hb. split; [reflexivity|]. split; [exact Hb|].
  intros a H. discriminate H.
Qed.

Lemma framed_conseq :
  forall {A : Type} (m : M A) (Q Q' : A -> Prop),
    framed ns ls b m Q -> (forall a, Q a -> Q' a) -> framed ns ls b m Q'.
Proof.
  intros A m Q Q' Hm HQ E Hb. destruct (Hm E Hb) as (H1 & H2 & H3).
  split; [exact H1|]. split; [exact H2|]. intros a Ha. apply HQ, H3, Ha.
Qed.

Lemma framed_getNode :
  forall r : nat, b <= r -> framed ns ls b (getNode r) (fun _ => True).
Proof.
  intros r Hr E Hb. unfold getNode, bind, get, orThrow. cbn [behind shapes].
  rewrite findNode_app, (findNode_fresh r ns (nodes_below r Hr)).
  destruct (findNode r (shapes E)); simpl; auto.
Qed.

Lemma framed_setNode :
  forall (r : nat) (f : PidNode -> PidNode),
    b <= r -> framed ns ls b (setNode r f) (fun _ => True).
Proof.
  intros r f Hr E Hb. unfold setNode, modify, set_shapes, behind. simpl.
  split; [|auto]. f_equal. f_equal. unfold updateNode. rewrite map_app. f_equal.
  apply (updateNode_fresh r f ns (nodes_below r Hr)).
Qed.

Lemma framed_getLine :
  forall r : nat, b <= r -> framed ns ls b (getLine r) (fun _ => True).
Proof.
  intros r Hr E Hb. unfold getLine, bind, get, orThrow. cbn [behind lines].
  rewrite findLine_app, (findLine_fresh r ls (lines_below r Hr)).
  destruct (findLine r (lines E)); simpl; auto.
Qed.

Lemma framed_setLine :
  forall (r : nat) (f : Line -> Line),
    b <= r -> framed ns ls b (setLine r f) (fun _ => True).
Proof.
  intros r f Hr E Hb. unfold setLine, modify, set_lines, behind. simpl.
  split; [|auto]. f_equal. f_equal. unfold updateLine. rewrite map_app. f_equal.
  apply (updateLine_fresh r f ls (lines_below r Hr)).
Qed.

Lemma framed_fire : framed ns ls b fire (fun _ => True).
Proof. intros E Hb. unfold fire, modify, set_fired, behind. simpl. auto. Qed.

Lemma framed_newLine :
  forall (pts : list number) (n : LineName) (sai sid : number),
    framed ns ls b (newLine pts n sai sid) (fun r => b <= r).
Proof.
  intros pts n sai sid E Hb. rewrite !newLine_run. unfold behind. simpl.
  rewrite app_assoc. split; [reflexivity|]. split; [lia|].
  intros r H. injection H as <-. exact Hb.
Qed.

Lemma framed_addShape :
  forall (pidShape : IPidShape) (x y id : number),
    framed ns ls b (addShape pidShape x y id) (fun r => b <= r).
Proof.
  intros pidShape x y id E Hb. unfold addShape, bind, newRef, modify, ret, set_shapes, behind.
  simpl. rewrite app_assoc. split; [reflexivity|]. split; [lia|].
  intros r H. injection H as <-. exact Hb.
Qed.

Lemma framed_forEach :
  forall {A : Type} (arr : list A) (f : A -> M unit),
    (forall a, framed ns ls b (f a) (fun _ => True)) ->
    framed ns ls b (forEach arr f) (fun _ => True).
Proof.
  intros A arr f Hf. induction arr as [|a arr IH]; simpl.
  - apply framed_ret. exact I.
  - eapply framed_bind; [apply Hf|]. intros _ _. exact IH.
Qed.

Lemma framed_mapM :
  forall {A B : Type} (f : A -> M B) (arr : list A) (Q : B -> Prop),
    (forall a, framed ns ls b (f a) Q) ->
    framed ns ls b (mapM f arr) (Forall Q).
Proof.
  intros A B f arr Q Hf. induction arr as [|a arr IH]; simpl.
  - apply framed_ret. constructor.
  - eapply framed_bind; [apply Hf|]. intros r Hr.
    eapply framed_bind; [exact IH|]. intros rs Hrs.
    apply framed_ret. constructor; assumption.
Qed.

Lemma framed_findGroupById :
  forall (gs : list nat) (id : number),
    Forall (fun g => b <= g) gs ->
    framed ns ls b (findGroupById gs id) (fun o => forall g, o = Some g -> b <= g).
Proof.
  intros gs id Hgs E Hb. unfold findGroupById, bind, get, ret. cbn [behind shapes fst snd].
  split; [|split; [exact Hb|]].
  - f_equal. f_equal. apply find_ext_Forall. eapply Forall_impl; [|exact Hgs].
    simpl. intros g Hg.
    rewrite findNode_app, (findNode_fresh g ns (nodes_below g Hg)). reflexivity.
  - intros o Ho g Hg. injection Ho as <-. apply find_some in Hg.
    rewrite Forall_forall in Hgs. apply Hgs. exact (proj1 Hg).
Qed.

Lemma framed_addConnectorToPath :
  forall (shape : option nat) (line : nat) (anchorIndex : number) (type : ConnectorType)
         (init : bool),
    (forall g, shape = Some g -> b <= g) -> b <= line ->
    framed ns ls b (addConnectorToPath shape line anchorIndex type init) (fun _ => True).
Proof.
  intros shape line anchorIndex type init Hshape Hline. unfold addConnectorToPath.
  destruct shape as [g|]; [|apply framed_throw].
  specialize (Hshape g eq_refl).
  eapply framed_bind; [apply framed_getNode; exact Hshape|]. intros _ _. cbv zeta.
  eapply framed_bind; [apply framed_setNode; exact Hshape|]. intros _ _.
  destruct (isEnd type); [|apply framed_ret; exact I].
  eapply framed_bind; [apply framed_getLine; exact Hline|]. intros l _.
  eapply framed_bind; [apply framed_setNode; exact Hshape|]. intros _ _.
  destruct init; [apply framed_ret; exact I|apply framed_fire].
Qed.

Lemma framed_importJson_conn :
  forall (gs : list nat) (dto : IDtoPidShape) (conn : IDtoConnection),
    Forall (fun g => b <= g) gs ->
    framed ns ls b (importJson_conn gs dto conn) (fun _ => True).
Proof.
  intros gs dto conn Hgs. unfold importJson_conn.
  eapply framed_bind; [apply framed_newLine|]. intros r Hr.
  eapply framed_bind; [apply framed_findGroupById; exact Hgs|]. intros [pathStart|] Hstart.
  - eapply framed_bind.
    { apply framed_addConnectorToPath; [|exact Hr]. intros g Hg. apply Hstart. exact Hg. }
    intros _ _.
    eapply framed_bind; [apply framed_findGroupById; exact Hgs|]. intros o Ho.
    eapply framed_bind; [apply framed_addConnectorToPath; [exact Ho|exact Hr]|].
    intros _ _. apply framed_setLine. exact Hr.
  - apply framed_ret. exact I.
Qed.

Lemma framed_importJson :
  forall data : option (list IDtoPidShape),
    framed ns ls b (importJson data) (fun _ => True).
Proof.
  intros [D|]; unfold importJson; [|apply framed_ret; exact I].
  eapply framed_bind.
  { apply (framed_mapM _ D (fun r => b <= r)). intros i. apply framed_addShape. }
  intros gs Hgs.
  eapply framed_bind.
  { apply framed_forEach. intros dto. apply framed_forEach. intros conn.
    apply framed_importJson_conn. exact Hgs. }
  intros _ _. apply framed_ret. exact I.
Qed.

End Framed.

(** The routes on record are those of the lines: the export has them
    already. *)
Lemma exportedDto_synced :
  forall (ls : list Line) (n : PidNode), synced ls n -> exportedDto ls n = cacDto n.
Proof.
  intros ls n. unfold synced, exportedDto.
  destruct (cacConnectors n) as [conns|]; [|reflexivity].
  intros H. destruct (cacDto n) as [s x y id c]. unfold set_dto_c. simpl in *. f_equal.
  induction H as [|conn rec ends recs Hc _ IH]; [reflexivity|].
  simpl. unfold pointsOf in Hc. destruct (findLine (line conn) ls) as [l|]; [|discriminate].
  simpl in Hc. injection Hc as Hc. rewrite Hc, IH. destruct rec. reflexivity.
Qed.

(** More lines in the store do not change what the export takes from the
    lines of a shape. *)
Lemma exportedDto_more :
  forall (ls ls' : list Line) (n : PidNode),
    linked ls n -> exportedDto (ls ++ ls') n = exportedDto ls n.
Proof.
  intros ls ls' n. unfold linked, exportedDto.
  destruct (cacConnectors n) as [conns|]; [|reflexivity].
  intros [Hin _]. f_equal.
  assert (Hends : Forall (fun c => In (line c) (map line_ref ls))
                    (filter (fun c => isEnd (connector_type c)) conns)).
  { rewrite Forall_forall in *. intros c Hc. apply filter_In in Hc. apply Hin, Hc. }
  clear Hin. revert Hends. generalize (dto_c (cacDto n)).
  induction (filter (fun c => isEnd (connector_type c)) conns) as [|c ends IH];
    intros recs Hends; [reflexivity|].
  inversion Hends as [|? ? Hc Hends']; subst. destruct recs as [|rec recs]; [reflexivity|].
  simpl. rewrite findLine_app. destruct (findLine_inStore _ _ Hc) as [l Hl]. rewrite Hl.
  f_equal. apply IH. exact Hends'.
Qed.

(** [importJson(D)] on an editor that is not empty adds to what is there what
    it puts on a new editor.  The shapes and the lines that were there are as
    they were; the shapes of [D] come after them, with the connections that
    [importJson(D)] keeps on a new editor: a connection of [D] is resolved
    among the shapes of [D] only, also when a shape that was there has the id
    it starts from.  No marker is touched and no change is notified, and the
    export is the export from before followed by the one of [D] imported
    alone. *)
Theorem importJson_appends :
  forall (E : Editor) (D : list IDtoPidShape),
    reachable E ->
    let added := exec (importJson (Some D)) E in
    let fresh := exec (importJson (Some D)) initEditor in
    (exists groupAndPidShapes : list nat,
        eval (importJson (Some D)) E = Ok (Some groupAndPidShapes) /\
        length groupAndPidShapes = length D) /\
    firstn (length (shapes E)) (shapes added) = shapes E /\
    length (shapes added) = length (shapes E) + length D /\
    docs added = docs E ++ docs fresh /\
    firstn (length (lines E)) (lines added) = lines E /\
    layerRoutes added = layerRoutes E ++ layerRoutes fresh /\
    anchorShapes added = anchorShapes E /\
    fired added = fired E /\
    exists old new : list IDtoPidShape,
      eval exportJson E = Ok old /\
      eval exportJson fresh = Ok new /\
      eval exportJson added = Ok (old ++ new).
Proof.
  intros E D Hreach added fresh.
  pose proof (reachable_wf E Hreach) as Hwf.
  destruct Hwf as (Hnd & Hndl & Hlt & Hltl).
  assert (Hwf0 : wf (emptied E)).
  { unfold wf, emptied. simpl. repeat split; constructor. }
  destruct (importJson_run_empty D (emptied E) Hwf0 eq_refl)
    as (gs & E' & Hrun & Hlen & Hnd' & Hsync' & Hdocs' & Hroutes').
  destruct (importJson_run D) as (gs0 & F' & HrunF & _ & HndF & HsyncF & HdocsF & HroutesF).
  destruct (framed_importJson (shapes E) (lines E) (next_ref E) Hlt Hltl (Some D)
              (emptied E) (le_n _)) as (Hframe & _ & _).
  rewrite behind_emptied, Hrun in Hframe. cbn [fst snd] in Hframe.
  assert (Hadded : added = behind (shapes E) (lines E) E').
  { unfold added, exec. rewrite Hframe. reflexivity. }
  assert (HF' : fresh = F') by (unfold fresh, exec; rewrite HrunF; reflexivity).
  assert (Hlen' : length (shapes E') = length D).
  { rewrite <- (length_map cacDto). fold (docs E'). rewrite Hdocs'.
    rewrite <- (length_map strip D), <- (length_map strip (imported D)).
    f_equal. exact (proj1 (imported_spec D)). }
  split; [exists gs; unfold eval; rewrite Hframe; auto|].
  rewrite Hadded, HF'. cbn [behind shapes lines anchorShapes fired].
  split; [rewrite firstn_app, Nat.sub_diag, firstn_all; simpl; apply app_nil_r|].
  split; [rewrite length_app, Hlen'; reflexivity|].
  split; [unfold docs; cbn [behind shapes]; rewrite map_app; fold (docs E'); fold (docs F');
          rewrite Hdocs', HdocsF; reflexivity|].
  split; [rewrite firstn_app, Nat.sub_diag, firstn_all; simpl; apply app_nil_r|].
  split.
  { unfold layerRoutes at 1. cbn [behind lines]. rewrite filter_app, map_app.
    fold (layerRoutes E). fold (layerRoutes E'). rewrite Hroutes', HroutesF. reflexivity. }
  split.
  { assert (Hq : preserves (fun E1 => anchorShapes E1 = anchorShapes E)
                   (importJson (Some D))).
    { unfold importJson, importJson_conn, addConnectorToPath. unmarked. }
    specialize (Hq (emptied E) eq_refl). unfold exec in Hq. rewrite Hrun in Hq. exact Hq. }
  split.
  { pose proof (quiet_importJson (fired E) (Some D) (emptied E) eq_refl) as Hq.
    unfold exec in Hq. rewrite Hrun in Hq. exact Hq. }
  exists (map (exportedDto (lines E)) (shapes E)), (imported D).
  split; [unfold eval; rewrite (proj1 (exportJson_reachable E Hreach)); reflexivity|].
  split.
  { unfold eval, exportJson. rewrite (export_synced F' HndF HsyncF). simpl.
    rewrite HdocsF. reflexivity. }
  assert (Hreach' : reachable (behind (shapes E) (lines E) E')).
  { assert (Hstep : step E (Ev_importJson (Some D)) = behind (shapes E) (lines E) E').
    { unfold step, exec, handle. rewrite (bind_Ok _ Hframe). reflexivity. }
    rewrite <- Hstep. apply reachable_step. exact Hreach. }
  unfold eval. rewrite (proj1 (exportJson_reachable _ Hreach')). simpl.
  rewrite map_app. f_equal. f_equal.
  - apply map_ext_in. intros n Hn. apply exportedDto_more.
    pose proof (reachable_Sound E Hreach) as (Hlinked & _ & _).
    rewrite Forall_forall in Hlinked. apply Hlinked. exact Hn.
  - rewrite <- Hdocs'. unfold docs. apply map_ext_in. intros n Hn.
    apply exportedDto_synced.
    rewrite Forall_forall in Hsync'. apply (synced_more_lines (lines E')); [|auto].
    intros r pts Hp. unfold pointsOf in *. rewrite findLine_app.
    destruct (findLine r (lines E)) as [l|] eqn:Hl; [|exact Hp]. exfalso.
    destruct (findLine r (lines E')) as [l'|] eqn:Hl'; [|discriminate].
    apply findLine_In in Hl, Hl'.
    pose proof (reachable_wf _ Hreach') as (_ & Hndl' & _ & _).
    cbn [behind lines] in Hndl'. rewrite map_app in Hndl'.
    apply (NoDup_app_disjoint _ _ r Hndl').
    + rewrite <- (proj2 Hl). apply in_map. exact (proj1 Hl).
    + rewrite <- (proj2 Hl'). apply in_map. exact (proj1 Hl').
Qed.

(** ** Drawing a connection *)

Lemma reachable_run :
  forall (evs : list event) (E : Editor), reachable E -> reachable (run E evs).
Proof.
  unfold run. induction evs as [|ev evs IH]; intros E H; simpl; [exact H|].
  apply IH. apply reachable_step. exact H.
Qed.

Lemma run_app :
  forall (E : Editor) (evs evs' : list event), run E (evs ++ evs') = run (run E evs) evs'.
Proof. intros E evs evs'. unfold run. apply fold_left_app. Qed.

Lemma updateLine_same :
  forall (r : nat) (ls : list Line), updateLine r (fun l => l) ls = ls.
Proof.
  intros r ls. unfold updateLine. rewrite <- (map_id ls) at 2. apply map_ext.
  intros l. destruct (line_ref l =? r); reflexivity.
Qed.

Lemma set_lines_same : forall E : Editor, set_lines (lines E) E = E.
Proof. intros []. reflexivity. Qed.

Lemma nth_error_markersAt :
  forall (rect : Vector2d) (pidKonvaPath : nat) (anchors : list IPidAnchor) (i : nat)
         (anchor : IPidAnchor),
    nth_error anchors i = Some anchor ->
    nth_error (markersAt rect pidKonvaPath anchors) i =
      Some {| anchorShape_pos := {| vx := (anchor_x anchor + vx rect)%Qc;
                                    vy := (anchor_y anchor + vy rect)%Qc |};
              anchorShape_path := pidKonvaPath;
              anchorShape_index := i |}.
Proof.
  intros rect pidKonvaPath anchors i anchor H. unfold markersAt, mapi.
  rewrite nth_error_mapi_from, H. reflexivity.
Qed.

(** The moves of the pointer re-route the line in progress and change
    nothing else. *)
Lemma pointerMoves_run :
  forall (ps : list Vector2d) (X : Editor) (l : Line) (x0 y0 : number) (rest : list number),
    reachable X -> currentLine X = Some l -> points l = x0 :: y0 :: rest ->
    exists (f : Line -> Line) (rest' : list number),
      run X (pointerMoves ps) = set_lines (updateLine (line_ref l) f (lines X)) X /\
      reroutes f /\
      points (f l) = x0 :: y0 :: rest'.
Proof.
  induction ps as [|p ps IH]; intros X l x0 y0 rest Hreach Hcur Hp.
  - exists (fun l => l), rest. split; [|split; [|exact Hp]].
    + unfold run. simpl. rewrite updateLine_same, set_lines_same. reflexivity.
    + intros l'. repeat split.
  - pose proof (reachable_wf X Hreach) as Hwf.
    pose proof (stage_mousemove_run X p l x0 y0 rest Hwf Hcur Hp) as Hrun.
    set (f1 := set_points (route x0 y0 (vx p) (vy p))) in *.
    set (X1 := set_lines (updateLine (line_ref l) f1 (lines X)) X) in *.
    assert (Hstep : step X (Ev_stage_mousemove (Some p)) = X1).
    { unfold step, exec. rewrite Hrun. reflexivity. }
    assert (Hreach1 : reachable X1).
    { rewrite <- Hstep. apply reachable_step. exact Hreach. }
    assert (Hcur1 : currentLine X1 = Some (f1 l)).
    { unfold currentLine, X1. cbn [lines set_lines].
      apply currentLine_updateLine;
        [exact (proj1 (proj2 Hwf))|exact Hcur|intros l'; reflexivity|intros l'; reflexivity]. }
    destruct (IH X1 (f1 l) x0 y0 _ Hreach1 Hcur1 eq_refl) as (f & rest' & Hrun' & Hf & Hp').
    exists (fun l' => f (f1 l')), rest'. split; [|split; [|exact Hp']].
    + change (run (step X (Ev_stage_mousemove (Some p))) (pointerMoves ps) =
              set_lines (updateLine (line_ref l) (fun l' => f (f1 l')) (lines X)) X).
      rewrite Hstep, Hrun'. unfold X1. cbn [lines set_lines f1 line_ref set_points].
      rewrite updateLine_compose by reflexivity. reflexivity.
    + intros l'. destruct (Hf (f1 l')) as (H1 & H2 & H3 & H4 & H5).
      repeat split; assumption.
Qed.

(** The last record of a shape, refreshed from the line of its last ['end']
    connector. *)
Lemma refreshed_last :
  forall (L : list Line) (ends : list IConnector) (recs : list IDtoConnection)
         (c : IConnector) (rec : IDtoConnection) (l : Line),
    Forall (fun c => In (line c) (map line_ref L)) ends ->
    length ends = length recs ->
    findLine (line c) L = Some l ->
    refreshed L (ends ++ [c]) (recs ++ [rec])
      = refreshed L ends recs ++ [set_conn_l (points l) rec].
Proof.
  intros L ends. induction ends as [|e ends IH]; intros recs c rec l Hin Hlen Hl.
  - destruct recs; [|discriminate]. simpl. rewrite Hl. reflexivity.
  - destruct recs as [|r recs]; [discriminate|].
    inversion Hin as [|? ? He Hin']; subst. simpl.
    destruct (findLine_inStore _ _ He) as [le Hle]. rewrite Hle. simpl. f_equal.
    apply IH; auto.
Qed.


(** Drawing a connection from the marker [i] of the shape S to the marker
    [j] of the shape T, while no line is in progress and S is the first shape
    with its id: S is selected, the pointer is pressed on the marker, moves,
    comes over T, moves again and is released on the marker of T.  Whatever
    the moves of the pointer, T gets one record more, the connection from the
    anchor [i] of S to its anchor [j] with the staircase from the one marker
    to the other, and no other document changes; the line of the connection is
    on the layer, no line is in progress, the markers are gone, one change is
    notified and the export has the record as the last of the entry of T. *)
Theorem draw_connection :
  forall (E : Editor) (gS gT i j : nat) (ps ps' : list Vector2d) (nS nT : PidNode)
         (aS aT : IPidAnchor),
    reachable E ->
    currentLine E = None ->
    findNode gS (shapes E) = Some nS ->
    findNode gT (shapes E) = Some nT ->
    nth_error (anchors (cacPidKonvaShape nS)) i = Some aS ->
    nth_error (anchors (cacPidKonvaShape nT)) j = Some aT ->
    find (fun n => strictEq (dto_id (cacDto n)) (dto_id (cacDto nS))) (shapes E) = Some nS ->
    let drawn := run E (drawConnection gS i ps gT ps' j) in
    let rS := getClientRect nS in
    let rT := getClientRect nT in
    let connection :=
      {| conn_l := route (anchor_x aS + vx rS)%Qc (anchor_y aS + vy rS)%Qc
                         (anchor_x aT + vx rT)%Qc (anchor_y aT + vy rT)%Qc;
         conn_sai := num (Z.of_nat i);
         conn_sid := dto_id (cacDto nS);
         conn_eai := num (Z.of_nat j) |} in
    docs drawn =
      map (fun n => if node_ref n =? gT then fill [connection] (cacDto n) else cacDto n)
        (shapes E) /\
    layerRoutes drawn = layerRoutes E ++ [conn_l connection] /\
    currentLine drawn = None /\
    anchorShapes drawn = [] /\
    fired drawn = S (fired E) /\
    exists (data : list IDtoPidShape) (recs : list IDtoConnection),
      eval exportJson drawn = Ok data /\
      length recs = length (dto_c (cacDto nT)) /\
      In (set_dto_c (recs ++ [connection]) (cacDto nT)) data.
Proof.
  intros E gS gT i j ps ps' nS nT aS aT Hreach Hcur HS HT HaS HaT Hfirst
         drawn rS rT connection.
  pose proof (reachable_wf E Hreach) as Hwf.
  destruct (findNode_In _ _ _ HS) as [HinS HrefS].
  destruct (findNode_In _ _ _ HT) as [HinT HrefT].
  (* the shape S is selected *)
  set (mS := {| anchorShape_pos := {| vx := (anchor_x aS + vx rS)%Qc;
                                      vy := (anchor_y aS + vy rS)%Qc |};
                anchorShape_path := gS; anchorShape_index := i |}).
  set (E1 := set_anchorShapes (markersAt rS gS (anchors (cacPidKonvaShape nS))) E).
  assert (Hstep1 : step E (Ev_group_click gS) = E1) by exact (group_click_markers HS).
  assert (Hreach1 : reachable E1) by (rewrite <- Hstep1; apply reachable_step; exact Hreach).
  assert (Hm1 : nth_error (anchorShapes E1) i = Some mS).
  { unfold E1. cbn [anchorShapes set_anchorShapes]. apply nth_error_markersAt. exact HaS. }
  (* the pointer is pressed on the marker *)
  destruct (anchor_mousedown_run E1 i mS Hreach1 Hm1 Hcur) as (n & anchor & Hn & _ & Hrun2).
  change (findNode gS (shapes E) = Some n) in Hn. rewrite HS in Hn. injection Hn as <-.
  set (l2 := {| line_ref := next_ref E;
                points := [vx (anchorShape_pos mS); vy (anchorShape_pos mS)];
                line_name := cacCurrentLine;
                cacStartAnchorIndex := num (Z.of_nat i);
                cacStartPidShapeId := dto_id (cacDto nS);
                line_onLayer := true |}) in *.
  set (E2 := {| shapes := shapes E; lines := lines E ++ [l2];
                anchorShapes := anchorShapes E1; fired := fired E;
                next_ref := S (next_ref E) |}) in *.
  assert (Hstep2 : step E1 (Ev_anchor_mousedown i) = E2).
  { unfold step, exec. rewrite Hrun2. reflexivity. }
  assert (Hreach2 : reachable E2) by (rewrite <- Hstep2; apply reachable_step; exact Hreach1).
  assert (Hcur2 : currentLine E2 = Some l2).
  { unfold currentLine, E2. cbn [lines]. unfold currentLine in Hcur.
    rewrite (find_app_none _ _ _ Hcur). reflexivity. }
  (* the pointer moves *)
  destruct (pointerMoves_run ps E2 l2 _ _ [] Hreach2 Hcur2 eq_refl)
    as (f & rest & Hrunm & Hf & Hpf).
  set (E2m := set_lines (updateLine (line_ref l2) f (lines E2)) E2) in *.
  assert (Hreach2m : reachable E2m) by (rewrite <- Hrunm; apply reachable_run; exact Hreach2).
  assert (Hcurrent : forall g : Line -> Line, reroutes g -> forall l, isCurrent (g l) = isCurrent l).
  { intros g Hg l. destruct (Hg l) as (_ & Hname & _ & _ & Hon). unfold isCurrent.
    rewrite Hname, Hon. reflexivity. }
  assert (Hcur2m : currentLine E2m = Some (f l2)).
  { unfold currentLine, E2m. cbn [lines set_lines].
    apply currentLine_updateLine.
    - exact (proj1 (proj2 (reachable_wf E2 Hreach2))).
    - exact Hcur2.
    - apply Hcurrent. exact Hf.
    - intros l. apply Hf. }
  (* the pointer comes over T *)
  set (E3 := set_anchorShapes (markersAt rT gT (anchors (cacPidKonvaShape nT))) E2m).
  assert (Hstep3 : step E2m (Ev_group_mouseover gT) = E3).
  { assert (HT' : findNode gT (shapes E2m) = Some nT) by exact HT.
    unfold step, exec. simpl handle. rewrite (onGroup_found _ HT').
    unfold group_mouseover.
    assert (Hone : findOneCurrentLine E2m = (Ok (Some (line_ref (f l2))), E2m)).
    { unfold findOneCurrentLine, bind, get, ret. rewrite Hcur2m. reflexivity. }
    rewrite (bind_Ok _ Hone). rewrite (bind_Ok _ (createAnchorShapes_run _ HT')).
    reflexivity. }
  assert (Hreach3 : reachable E3) by (rewrite <- Hstep3; apply reachable_step; exact Hreach2m).
  assert (Hcur3 : currentLine E3 = Some (f l2)) by exact Hcur2m.
  clearbody rS rT.
  (* the pointer moves again *)
  destruct (pointerMoves_run ps' E3 (f l2) _ _ rest Hreach3 Hcur3 Hpf)
    as (f' & rest' & Hrunm' & Hf' & Hpf').
  set (E3m := set_lines (updateLine (line_ref (f l2)) f' (lines E3)) E3) in *.
  assert (Hreach3m : reachable E3m) by (rewrite <- Hrunm'; apply reachable_run; exact Hreach3).
  assert (Hcur3m : currentLine E3m = Some (f' (f l2))).
  { unfold currentLine, E3m. cbn [lines set_lines].
    apply currentLine_updateLine.
    - exact (proj1 (proj2 (reachable_wf E3 Hreach3))).
    - exact Hcur3.
    - apply Hcurrent. exact Hf'.
    - intros l. apply Hf'. }
  set (mT := {| anchorShape_pos := {| vx := (anchor_x aT + vx rT)%Qc;
                                      vy := (anchor_y aT + vy rT)%Qc |};
                anchorShape_path := gT; anchorShape_index := j |}).
  assert (Hm3 : nth_error (anchorShapes E3m) j = Some mT).
  { unfold E3m, E3. cbn [anchorShapes set_anchorShapes set_lines].
    apply nth_error_markersAt. exact HaT. }
  destruct (Hf' (f l2)) as (Href' & Hname' & Hsai' & Hsid' & Hon').
  destruct (Hf l2) as (Href & Hname & Hsai & Hsid & Hon).
  assert (Hfind3 : find (fun n => strictEq (dto_id (cacDto n))
                                    (cacStartPidShapeId (f' (f l2)))) (shapes E3m)
                   = Some nS).
  { rewrite Hsid', Hsid. exact Hfirst. }
  (* the pointer is released on the marker of T *)
  destruct (anchor_mouseup_run E3m j mT (f' (f l2)) nS Hreach3m Hm3 Hcur3m Hfind3)
    as (x0 & y0 & rest4 & Hp4 & Hrun4 & _).
  rewrite Hpf' in Hp4. injection Hp4 as <- <- _.
  cbv zeta in Hrun4. rewrite Hsai', Hsai, Hsid', Hsid, Href', Href in Hrun4.
  cbn [l2 line_ref cacStartAnchorIndex cacStartPidShapeId anchorShape_pos anchorShape_path
       mS mT vx vy] in Hrun4.
  fold connection in Hrun4.
  set (cS := {| line := next_ref E; anchorIndex := num (Z.of_nat i);
                connector_type := start |}) in *.
  set (cE := {| line := next_ref E; anchorIndex := num (Z.of_nat j);
                connector_type := end_ |}) in *.
  set (G := fun l' : Line =>
              set_line_name cacConnectorTwoPidShape (set_points (conn_l connection) l')).
  set (l4 := G (f' (f l2))).
  assert (HL : updateLine (next_ref E) G (lines E3m) = lines E ++ [l4]).
  { unfold E3m, E3, E2m, E2. cbn [lines set_lines set_anchorShapes]. rewrite Href.
    cbn [l2 line_ref]. rewrite !updateLine_compose by (intros l; first [apply Hf|apply Hf']).
    unfold updateLine. rewrite map_app.
    fold (updateLine (next_ref E) (fun l => G (f' (f l))) (lines E)).
    rewrite (updateLine_fresh _ _ _ (proj2 (proj2 (proj2 Hwf)))).
    simpl. rewrite Nat.eqb_refl. reflexivity. }
  set (E4 := {| shapes :=
                  updateNode gT (fun n => pushConnection connection (pushConnector cE n))
                    (updateNode (node_ref nS) (pushConnector cS) (shapes E));
                lines := lines E ++ [l4]; anchorShapes := []; fired := S (fired E);
                next_ref := S (next_ref E) |}).
  assert (Hdrawn : drawn = E4).
  { unfold drawn, drawConnection. rewrite !run_app.
    change (run E [Ev_group_click gS; Ev_anchor_mousedown i])
      with (step (step E (Ev_group_click gS)) (Ev_anchor_mousedown i)).
    rewrite Hstep1, Hstep2, Hrunm.
    change (run E2m [Ev_group_mouseover gT]) with (step E2m (Ev_group_mouseover gT)).
    rewrite Hstep3, Hrunm'.
    change (run E3m [Ev_anchor_mouseup j]) with (step E3m (Ev_anchor_mouseup j)).
    unfold step, exec. rewrite Hrun4. cbn [snd]. unfold E4. rewrite <- HL. reflexivity. }
  assert (Hreach4 : reachable E4) by (rewrite <- Hdrawn; apply reachable_run; exact Hreach).
  rewrite Hdrawn. clear Hdrawn.
  split.
  { unfold docs, E4. cbn [shapes]. unfold updateNode. rewrite !map_map. apply map_ext.
    intros n. rewrite HrefS.
    destruct (node_ref n =? gS); cbn [node_ref pushConnector set_cacConnectors];
      destruct (node_ref n =? gT); reflexivity. }
  split.
  { unfold layerRoutes, E4. cbn [lines]. rewrite filter_app, map_app. f_equal.
    cbn [filter]. replace (line_onLayer l4) with true; [reflexivity|].
    unfold l4, G. cbn [line_onLayer set_line_name set_points]. rewrite Hon', Hon.
    reflexivity. }
  split.
  { unfold currentLine, E4. cbn [lines]. unfold currentLine in Hcur.
    rewrite (find_app_none _ _ _ Hcur). simpl. rewrite andb_false_r. reflexivity. }
  split; [reflexivity|]. split; [reflexivity|].
  (* the export *)
  pose proof (exportJson_reachable E4 Hreach4) as (Hexp & _).
  set (n3 := if node_ref nT =? node_ref nS then pushConnector cS nT else nT).
  set (n4 := pushConnection connection (pushConnector cE n3)).
  assert (Hn4 : findNode gT (shapes E4) = Some n4).
  { unfold E4. cbn [shapes]. rewrite findNode_updateNode_same by reflexivity.
    rewrite findNode_updateNode by reflexivity. rewrite HT. reflexivity. }
  destruct (findNode_In _ _ _ Hn4) as [Hin4 _].
  pose proof (reachable_Sound E4 Hreach4) as (Hlinked & _ & _).
  rewrite Forall_forall in Hlinked. pose proof (Hlinked n4 Hin4) as Hl4.
  set (conns3 := match cacConnectors n3 with Some cs => cs | None => [] end).
  assert (Hdto3 : cacDto n3 = cacDto nT).
  { unfold n3. destruct (node_ref nT =? node_ref nS); reflexivity. }
  assert (Hconns4 : cacConnectors n4 = Some (conns3 ++ [cE])) by reflexivity.
  assert (Hdto4 : cacDto n4 = set_dto_c (dto_c (cacDto nT) ++ [connection]) (cacDto nT)).
  { unfold n4. cbn [pushConnection cacDto set_cacDto pushConnector set_cacConnectors].
    rewrite Hdto3. reflexivity. }
  unfold linked in Hl4. rewrite Hconns4, Hdto4 in Hl4. cbn [dto_c set_dto_c] in Hl4.
  destruct Hl4 as [HinL Hlen]. rewrite filter_app in Hlen. cbn [filter cE connector_type isEnd]
    in Hlen. rewrite !length_app in Hlen. cbn [length] in Hlen.
  assert (Hline4 : findLine (line cE) (lines E4) = Some l4).
  { unfold E4. cbn [lines cE line]. rewrite findLine_app.
    rewrite (findLine_fresh _ _ (proj2 (proj2 (proj2 Hwf)))).
    unfold findLine. cbn [find]. unfold l4, G. cbn [line_ref set_line_name set_points].
    rewrite Href', Href. cbn [l2 line_ref]. rewrite Nat.eqb_refl. reflexivity. }
  exists (map (exportedDto (lines E4)) (shapes E4)),
         (refreshed (lines E4) (filter (fun c => isEnd (connector_type c)) conns3)
            (dto_c (cacDto nT))).
  split; [unfold eval; rewrite Hexp; reflexivity|].
  split; [apply length_refreshed|].
  apply in_map_iff. exists n4. split; [|exact Hin4].
  unfold exportedDto. rewrite Hconns4, Hdto4. cbn [dto_c set_dto_c dto_s dto_x dto_y dto_id].
  rewrite filter_app. cbn [filter cE connector_type isEnd].
  rewrite (refreshed_last _ _ _ _ _ l4); [| |lia|exact Hline4].
  - unfold set_dto_c. cbn [dto_s dto_x dto_y dto_id]. reflexivity.
  - rewrite Forall_forall in *. intros c Hc. apply filter_In in Hc. apply HinL.
    apply in_or_app. left. exact (proj1 Hc).
Qed.

(** ** The transformer *)

Lemma detached_step :
  forall (P : Page) (pev : page_event),
    detached P -> plainLabel pev -> detached (page_step P pev).
Proof.
  intros P pev (Ht & Hi & Hb) Hpev. unfold page_step.
  destruct pev as [ev|label callback|target containerRect pointer| |i]; simpl page_handle.
  - rewrite onEditor_run. cbn [snd]. unfold detached.
    cbn [tr_nodes customMenuItems menu_buttons set_editor].
    assert (Hd : tr_nodes (detach ev P) = [] /\
                 customMenuItems (detach ev P) = customMenuItems P /\
                 menu_buttons (detach ev P) = menu_buttons P).
    { unfold detach. destruct ev; try (repeat split; solve [reflexivity|exact Ht]).
      destruct (findNode group (shapes (editor P))); repeat split;
        solve [reflexivity|exact Ht]. }
    destruct Hd as (Hd1 & Hd2 & Hd3). rewrite Hd1, Hd2, Hd3. auto.
  - cbn [snd]. unfold detached, addMenuEntry. cbn. split; [exact Ht|]. split; [|exact Hb].
    apply Forall_app. split; [exact Hi|]. constructor; [exact Hpev|constructor].
  - destruct (hits target (editor P)); cbn [snd]; [|split; [|split]; assumption].
    destruct target as [s|].
    + rewrite stage_contextmenu_run. unfold detached. cbn. split; [reflexivity|].
      split; [exact Hi|]. apply Forall_app. split; [exact Hb|].
      constructor; [discriminate|]. apply Forall_map. exact Hi.
    + unfold detached. cbn. auto.
  - cbn [snd]. unfold detached. cbn. auto.
  - unfold button_click. destruct (nth_error (menu_buttons P) i) as [b|] eqn:Hnth;
      [|cbn [snd]; split; [|split]; assumption].
    cbv zeta.
    assert (Hact : (button_action b =? "cacResize")%string = false).
    { apply String.eqb_neq. rewrite Forall_forall in Hb. apply Hb.
      eapply nth_error_In. exact Hnth. }
    unfold menu_callback. rewrite Hact.
    destruct (button_action b =? "cacDelete")%string.
    + rewrite onEditor_run. cbn [snd]. unfold detached. cbn. auto.
    + destruct (find (fun item => (item_label item =? button_action b)%string)
                  (customMenuItems (set_menu_display display_none P)));
        cbn [snd]; unfold detached; cbn; auto.
Qed.

(** The resize branch of the menu.  The menu never has a button for it of
    its own: unless an entry is registered with the label [cacResize], no
    shape is ever attached to the transformer.  With such an entry, its
    choice for a shape that is on the layer attaches the group of the shape to
    the transformer and moves it to the top, so that the shape comes last in
    the layer and in the export; the markers are removed, no change is
    notified, and the callback of the entry is not called. *)
Theorem resize_only_by_label :
  (forall pevs : list page_event,
      Forall plainLabel pevs -> tr_nodes (page_run initPage pevs) = []) /\
  (forall (P : Page) (i : nat) (b : MenuButton) (group : nat) (n : PidNode),
      nth_error (menu_buttons P) i = Some b ->
      button_action b = "cacResize"%string ->
      currentShape P = Some (onShape group) ->
      findNode group (shapes (editor P)) = Some n ->
      let chosen := page_step P (Pev_button_click i) in
      fst (page_handle (Pev_button_click i) P) = Ok tt /\
      tr_nodes chosen = [group] /\
      shapes (editor chosen) = removeNode group (shapes (editor P)) ++ [n] /\
      lines (editor chosen) = lines (editor P) /\
      anchorShapes (editor chosen) = [] /\
      fired (editor chosen) = fired (editor P) /\
      called chosen = called P).
Proof.
  split.
  - intros pevs Hpevs.
    assert (Hd : forall P, detached P -> detached (page_run P pevs)).
    { unfold page_run. induction Hpevs as [|pev pevs Hpev _ IH]; intros P HP; simpl.
      - exact HP.
      - apply IH. apply detached_step; assumption. }
    apply Hd. repeat split; constructor.
  - intros P i b group n Hnth Hact Hcur Hn chosen. unfold chosen, page_step.
    simpl page_handle. unfold button_click. rewrite Hnth. cbv zeta.
    unfold menu_callback. rewrite Hact. cbn [String.eqb Ascii.eqb Bool.eqb].
    unfold resizeShape. cbn [currentShape set_menu_display]. rewrite Hcur.
    cbn [editor set_editor set_menu_display].
    change (shapes (exec cleanAnchorShapes (editor P))) with (shapes (editor P)).
    rewrite Hn. rewrite onEditor_run.
    cbn [editor set_editor set_tr_nodes set_menu_display].
    unfold moveToTop, eval, exec, bind, get, cleanAnchorShapes.
    change (shapes (snd (modify (set_anchorShapes []) (editor P))))
      with (shapes (editor P)).
    rewrite Hn. cbn. repeat split; reflexivity.
Qed.

End CacEditor.

(** * Examples *)

Lemma num_inj : forall a b : Z, num a = num b -> a = b.
Proof.
  intros a b H. apply (f_equal this) in H.
  assert (Hq : (inject_Z a == inject_Z b)%Q).
  { rewrite <- (num_this a), <- (num_this b), H. reflexivity. }
  unfold Qeq in Hq. simpl in Hq. lia.
Qed.

Lemma half_0_10 : ((num 0 + num 10) / num 2)%Qc = num 5.
Proof. apply Qc_is_canon. reflexivity. Qed.

(** C1 at start (0,0) and end (10,20): the route is
    [0,0, 5,0, 5,20, 10,20]. *)
Lemma recalculateTheLine_example :
  eval (recalculateTheLine 0 {| vx := num 10; vy := num 20 |}) lineAtOrigin
    = Ok [num 0; num 0; num 5; num 0; num 5; num 20; num 10; num 20] /\
  option_map points
    (findLine 0 (lines (exec (recalculateTheLine 0 {| vx := num 10; vy := num 20 |})
                          lineAtOrigin)))
    = Some [num 0; num 0; num 5; num 0; num 5; num 20; num 10; num 20].
Proof.
  pose proof (recalculateTheLine_staircase lineAtOrigin 0
                {| line_ref := 0; points := [num 0; num 0]; line_name := cacCurrentLine;
                   cacStartAnchorIndex := num 0; cacStartPidShapeId := num 1;
                   line_onLayer := false |}
                (num 0) (num 0) (num 10) (num 20) [] eq_refl eq_refl) as H.
  cbv zeta in H. rewrite half_0_10 in H. exact H.
Defined.

(** C2 on a document of two connected shapes. *)
Lemma import_export_roundtrip_example :
  eval (_ <- importJson (Some twoShapes) ;; exportJson) initEditor = Ok twoShapes.
Proof.
  apply import_export_roundtrip.
  - repeat constructor; simpl.
    + intros [H|[]]. apply num_inj in H. discriminate.
    + intros [].
  - intros dto c [Hd|[Hd|[]]] Hc; subst dto; simpl in Hc.
    + destruct Hc.
    + destruct Hc as [Hc|[]]. subst c. vm_compute. reflexivity.
Defined.

(** C2 as stated fails: the connection of [danglingStart] does not come back
    from import and export. *)
Lemma import_export_drops_dangling :
  eval (_ <- importJson (Some danglingStart) ;; exportJson) initEditor
    = Ok (map strip danglingStart) /\
  eval (_ <- importJson (Some danglingStart) ;; exportJson) initEditor
    <> Ok danglingStart.
Proof.
  assert (H : eval (_ <- importJson (Some danglingStart) ;; exportJson) initEditor
              = Ok (map strip danglingStart)) by (vm_compute; reflexivity).
  split; [exact H|]. rewrite H. intros Heq. discriminate Heq.
Qed.

(** C6 on a document with a connection that resolves and one that does not:
    A, B and a third shape are made; the line of the connection from A to B
    is on the layer, with its ['start'] connector on A at the anchor 1 and its
    ['end'] connector on B at the anchor 0; the line of the other connection
    is not on the layer and no shape holds a connector to it. *)
Lemma import_skips_unresolved_example :
  exists (groupAndPidShapes : list nat) (E' : Editor),
    importJson (Some (twoShapes ++ danglingStart)) initEditor
      = (Ok (Some groupAndPidShapes), E') /\
    length groupAndPidShapes = 3 /\
    map strip (docs E') = map strip (twoShapes ++ danglingStart) /\
    Permutation (flat_map dto_c (docs E')) (flat_map dto_c twoShapes) /\
    layerRoutes E' = map conn_l (flat_map dto_c twoShapes) /\
    eval exportJson E' = Ok (docs E') /\
    docs E' = imported (twoShapes ++ danglingStart) /\
    Forall2 (rebuilt (shapes E')) (filter line_onLayer (lines E'))
      (filter (fun dc => resolves (twoShapes ++ danglingStart) (snd dc))
         (connectionsIn (twoShapes ++ danglingStart))) /\
    Forall (attached (lines E')) (shapes E') /\
    map line_ref (filter line_onLayer (lines E')) = [3] /\
    holders start 3 (shapes E') = [(0, num 1)] /\
    holders end_ 3 (shapes E') = [(1, num 0)] /\
    holders start 4 (shapes E') = [] /\
    holders end_ 4 (shapes E') = [].
Proof.
  destruct (import_skips_unresolved (twoShapes ++ danglingStart))
    as (gs & E' & H1 & H2 & H3 & H4 & H5 & H6 & H7 & H8 & H9).
  exists gs, E'.
  assert (HE' : E' = exec (importJson (Some (twoShapes ++ danglingStart))) initEditor).
  { unfold exec. rewrite H1. reflexivity. }
  repeat (split; [assumption|]).
  rewrite HE'. vm_compute. repeat split; reflexivity.
Defined.

(** C3 as stated fails: the template has the anchors 0 and 1, and connecting
    at the end anchor index 5 completes and appends the connection. *)
Lemma addConnectorToPath_out_of_range :
  getIndex (anchors twoAnchors) (num 5) = None /\
  eval (addConnectorToPath (Some 1) 2 (num 5) end_ false) beforeConnect = Ok tt /\
  option_map (fun n => map conn_eai (dto_c (cacDto n)))
    (findNode 1 (shapes (exec (addConnectorToPath (Some 1) 2 (num 5) end_ false)
                           beforeConnect)))
    = Some [num 5].
Proof. vm_compute. repeat split; reflexivity. Qed.

(** C3 on the same connection. *)
Lemma addConnectorToPath_end_appends_example :
  exists (n : PidNode) (l : Line),
    findNode 1 (shapes beforeConnect) = Some n /\
    findLine 2 (lines beforeConnect) = Some l /\
    eval (addConnectorToPath (Some 1) 2 (num 5) end_ false) beforeConnect = Ok tt /\
    option_map (fun n' => dto_c (cacDto n'))
      (findNode 1 (shapes (exec (addConnectorToPath (Some 1) 2 (num 5) end_ false)
                             beforeConnect)))
      = Some (dto_c (cacDto n) ++
              [{| conn_l := points l; conn_sai := cacStartAnchorIndex l;
                  conn_sid := cacStartPidShapeId l; conn_eai := num 5 |}]).
Proof.
  eexists. eexists. split; [reflexivity|]. split; [reflexivity|].
  match goal with
  | |- _ /\ option_map _ _ = Some (dto_c (cacDto ?n) ++ [{| conn_l := points ?l |}]) =>
      destruct (addConnectorToPath_end_appends beforeConnect 1 n 2 l (num 5) false
                  eq_refl eq_refl) as (H1 & H2 & _)
  end.
  split; [exact H1|exact H2].
Defined.

(** C5: A is connected to B and dragged in two moves, to (2,0) and on to
    (4,0).  The end of the line stays at (100,55).  After the first move the
    vertical segment of the line is where it was, at x = 55; the second move
    puts it at x = 56, the middle of the start before that move (12) and the
    end (100): it is neither kept nor at the middle of the line. *)
Theorem dragmove_start_bend_lags :
  routeOf (connectedAB originRect) 2
    = Some [inject_Z 10; inject_Z 5; inject_Z 55; inject_Z 5;
            inject_Z 55; inject_Z 55; inject_Z 100; inject_Z 55] /\
  routeOf (step originRect (connectedAB originRect)
             (Ev_group_dragmove 0 {| vx := num 2; vy := num 0 |})) 2
    = Some [inject_Z 12; inject_Z 5; inject_Z 55; inject_Z 5;
            inject_Z 55; inject_Z 55; inject_Z 100; inject_Z 55] /\
  routeOf (step originRect
             (step originRect (connectedAB originRect)
                (Ev_group_dragmove 0 {| vx := num 2; vy := num 0 |}))
             (Ev_group_dragmove 0 {| vx := num 4; vy := num 0 |})) 2
    = Some [inject_Z 14; inject_Z 5; inject_Z 56; inject_Z 5;
            inject_Z 56; inject_Z 55; inject_Z 100; inject_Z 55].
Proof. vm_compute. repeat split; reflexivity. Qed.

(** C7 as stated fails: a shape is added at (10,20) and selected; with the
    stroke counted in the client rectangle its markers are at (9.3, 24.3) and
    (19.3, 24.3), not at (10,25) and (20,25). *)
Lemma markers_follow_client_rect :
  map (fun a => (this (vx (anchorShape_pos a)), this (vy (anchorShape_pos a))))
    (anchorShapes
       (run strokedRect initEditor
          [ Ev_addShape twoAnchors (num 10) (num 20) (Some (num 1)) (num 0);
            Ev_group_click 0 ]))
    = [ ((93 # 10)%Q, (243 # 10)%Q); ((193 # 10)%Q, (243 # 10)%Q) ] /\
  map (fun a => (this (num 10 + anchor_x a)%Qc, this (num 20 + anchor_y a)%Qc))
    (anchors twoAnchors)
    = [ ((10 # 1)%Q, (25 # 1)%Q); ((20 # 1)%Q, (25 # 1)%Q) ].
Proof. vm_compute. split; reflexivity. Qed.

(** C7 on a shape added at (10,20) to a new editor: it has two markers, and
    after it is dragged to (30,40) its second marker is at the second anchor's
    offset from the client rectangle at (30,40). *)
Lemma select_shows_anchor_markers_example :
  length
    (anchorShapes
       (step strokedRect
          (step strokedRect initEditor
             (Ev_addShape twoAnchors (num 10) (num 20) (Some (num 1)) (num 0)))
          (Ev_group_click 0)))
  = 2 /\
  nth_error
    (anchorShapes
       (run strokedRect
          (step strokedRect
             (step strokedRect initEditor
                (Ev_addShape twoAnchors (num 10) (num 20) (Some (num 1)) (num 0)))
             (Ev_group_click 0))
          [Ev_group_mousedown 0; Ev_group_dragmove 0 {| vx := num 30; vy := num 40 |};
           Ev_group_dragend 0; Ev_group_click 0])) 1
  = Some {| anchorShape_pos :=
              {| vx := (num 10 + (num 30 + vx (strokedRect (path twoAnchors))))%Qc;
                 vy := (num 5 + (num 40 + vy (strokedRect (path twoAnchors))))%Qc |};
            anchorShape_path := 0;
            anchorShape_index := 1 |}.
Proof.
  pose proof (select_shows_anchor_markers strokedRect initEditor twoAnchors
                (num 10) (num 20) (Some (num 1)) (num 0) (reachable_init strokedRect))
    as H.
  cbv zeta in H. destruct H as (H1 & _ & H3).
  split; [exact H1|].
  exact (proj2 (H3 {| vx := num 30; vy := num 40 |}) 1).
Defined.

(** C9 on an editor where a line was started on the second anchor of a
    shape: pressing down on the first anchor changes nothing. *)
Lemma anchor_mousedown_single_line_example :
  step originRect
    (run originRect initEditor
       [ Ev_addShape twoAnchors (num 0) (num 0) (Some (num 1)) (num 0);
         Ev_group_click 0;
         Ev_anchor_mousedown 1 ])
    (Ev_anchor_mousedown 0)
  = run originRect initEditor
      [ Ev_addShape twoAnchors (num 0) (num 0) (Some (num 1)) (num 0);
        Ev_group_click 0;
        Ev_anchor_mousedown 1 ].
Proof.
  apply (proj1 (proj2 (anchor_mousedown_single_line originRect))).
  discriminate.
Defined.

(** C10 with [Math.random()] = 1/2: the id is 500000. *)
Lemma addShape_defaultId_example :
  exists n : Z,
    (0 <= n <= 999999)%Z /\
    eval (addShape_defaultId twoAnchors (num 0) (num 0) (Q2Qc (1 # 2))) initEditor = Ok 0 /\
    ids (exec (addShape_defaultId twoAnchors (num 0) (num 0) (Q2Qc (1 # 2))) initEditor)
      = [] ++ [num n].
Proof.
  apply (proj1 (addShape_defaultId_range originRect) initEditor twoAnchors
           (num 0) (num 0) (Q2Qc (1 # 2))).
  - discriminate.
  - reflexivity.
Defined.

(** Releasing the line of [lineInProgress] at (50,20) adds the stub and its
    connection. *)
Lemma stage_click_creates_stub_example :
  exists (l : Line) (nS : PidNode),
    currentLine (lineInProgress originRect) = Some l /\
    find (fun n => strictEq (dto_id (cacDto n)) (cacStartPidShapeId l))
      (shapes (lineInProgress originRect)) = Some nS /\
    docs (step originRect (lineInProgress originRect)
            (Ev_stage_click (Some {| vx := num 50; vy := num 20 |}) (num 0)))
    = docs (lineInProgress originRect) ++
      [ {| dto_s := emptyEnd; dto_x := num 50; dto_y := num 20;
           dto_id := randomId (num 0);
           dto_c := [ {| conn_l := route (num 0 + num 10)%Qc (num 0 + num 5)%Qc
                                     (num 50) (num 20);
                         conn_sai := num 1; conn_sid := num 1; conn_eai := num 0 |} ] |} ].
Proof.
  assert (Hreach : reachable originRect (lineInProgress originRect)).
  { unfold lineInProgress, run. simpl fold_left. repeat apply reachable_step.
    apply reachable_init. }
  eexists. eexists. split; [reflexivity|]. split; [reflexivity|].
  match goal with
  | |- docs (step _ _ (Ev_stage_click (Some ?pos) ?random)) = _ =>
      exact (proj1 (proj2 (proj2
               (stage_click_creates_stub originRect (lineInProgress originRect) pos random _
                  (num 0 + num 10)%Qc (num 0 + num 5)%Qc [] _
                  Hreach eq_refl eq_refl eq_refl))))
  end.
Defined.

(** Deleting A from [connectedAB]. *)
Lemma deleteShape_effect_example :
  exists n : PidNode,
    findNode 0 (shapes (connectedAB originRect)) = Some n /\
    shapes (step originRect (connectedAB originRect) (Ev_menu_delete 0))
      = removeNode 0 (shapes (connectedAB originRect)) /\
    fired (step originRect (connectedAB originRect) (Ev_menu_delete 0)) = S (fired (connectedAB originRect)).
Proof.
  eexists. split; [reflexivity|].
  match goal with
  | |- shapes (step _ ?E (Ev_menu_delete ?g)) = _ /\ _ =>
      destruct (deleteShape_effect originRect E g _ eq_refl) as (_ & H1 & _ & _ & _ & H2)
  end.
  split; assumption.
Defined.

Lemma reachable_connectedAB : reachable originRect (connectedAB originRect).
Proof.
  unfold connectedAB, connectAtoB, run. simpl fold_left. repeat apply reachable_step.
  apply reachable_init.
Qed.

Lemma reachable_lineInProgress : reachable originRect (lineInProgress originRect).
Proof.
  unfold lineInProgress, run. simpl fold_left. repeat apply reachable_step.
  apply reachable_init.
Qed.

Lemma reachable_selected : reachable originRect (selected originRect).
Proof.
  unfold selected, run. simpl fold_left. repeat apply reachable_step.
  apply reachable_init.
Qed.

(** On A connected to B: an import notifies nothing, the drop of A notifies
    once. *)
Lemma change_notifications_example :
  fired (step originRect (connectedAB originRect) (Ev_importJson (Some twoShapes)))
    = fired (connectedAB originRect) /\
  fired (step originRect (connectedAB originRect) (Ev_group_dragend 0))
    = S (fired (connectedAB originRect)).
Proof.
  split.
  - apply (proj1 (proj2 (change_notifications originRect (connectedAB originRect)
                           (Ev_importJson (Some twoShapes))))).
    reflexivity.
  - apply (proj2 (proj2 (change_notifications originRect (connectedAB originRect)
                           (Ev_group_dragend 0))) 0 eq_refl).
    vm_compute. left. reflexivity.
Defined.

(** After A was dragged, B still records the route as it was when the
    connection was made; the export has the route of the line as it is. *)
Lemma exportJson_reachable_example :
  map (fun d => map (fun c => map this (conn_l c)) (dto_c d)) (docs (draggedOnce originRect))
    = [ []; [ [inject_Z 10; inject_Z 5; inject_Z 55; inject_Z 5;
               inject_Z 55; inject_Z 55; inject_Z 100; inject_Z 55] ] ] /\
  map (fun d => map (fun c => map this (conn_l c)) (dto_c d))
    (map (exportedDto (lines (draggedOnce originRect))) (shapes (draggedOnce originRect)))
    = [ []; [ [inject_Z 12; inject_Z 5; inject_Z 55; inject_Z 5;
               inject_Z 55; inject_Z 55; inject_Z 100; inject_Z 55] ] ] /\
  exportJson (draggedOnce originRect)
    = (Ok (map (exportedDto (lines (draggedOnce originRect)))
             (shapes (draggedOnce originRect))),
       exportedEditor (draggedOnce originRect)) /\
  exportJson (exportedEditor (draggedOnce originRect))
    = (Ok (map (exportedDto (lines (draggedOnce originRect)))
             (shapes (draggedOnce originRect))),
       exportedEditor (draggedOnce originRect)).
Proof.
  assert (Hreach : reachable originRect (draggedOnce originRect)).
  { unfold draggedOnce, connectAtoB, run. simpl app. simpl fold_left.
    repeat apply reachable_step. apply reachable_init. }
  split; [vm_compute; reflexivity|]. split; [vm_compute; reflexivity|].
  destruct (exportJson_reachable originRect (draggedOnce originRect) Hreach)
    as (H1 & H2 & _).
  split; [exact H1|exact H2].
Defined.

(** With A connected to B on the canvas, clearing and importing a document
    leaves that document. *)
Lemma clear_then_import_example :
  eval exportJson (exec (clear ;; importJson (Some twoShapes)) (connectedAB originRect))
    = Ok twoShapes.
Proof.
  apply (proj2 (proj2 (proj2 (proj2 (proj2 (proj2
           (clear_then_import originRect (connectedAB originRect) twoShapes
              reachable_connectedAB))))))).
  - repeat constructor; simpl.
    + intros [H|[]]. apply num_inj in H. discriminate.
    + intros [].
  - intros dto c [Hd|[Hd|[]]] Hc; subst dto; simpl in Hc.
    + destruct Hc.
    + destruct Hc as [Hc|[]]. subst c. vm_compute. reflexivity.
Defined.

(** The markers of a selected shape. *)
Lemma markers_of_one_shape_example :
  anchorShapes (selected originRect) = [] \/
  exists (n : PidNode) (rect : Vector2d),
    In n (shapes (selected originRect)) /\
    length (anchorShapes (selected originRect)) = length (anchors (cacPidKonvaShape n)).
Proof.
  destruct (markers_of_one_shape originRect (selected originRect) reachable_selected)
    as [H|(n & rect & Hin & Hlen & _)].
  - left. exact H.
  - right. exists n, rect. split; assumption.
Defined.

(** The line of [lineInProgress] follows the pointer to (50,20) and on to
    (70,30). *)
Lemma stage_mousemove_follows_example :
  eval (handle originRect (Ev_stage_mousemove (Some {| vx := num 50; vy := num 20 |})))
    (lineInProgress originRect) = Ok tt /\
  step originRect
    (step originRect (lineInProgress originRect)
       (Ev_stage_mousemove (Some {| vx := num 50; vy := num 20 |})))
    (Ev_stage_mousemove (Some {| vx := num 70; vy := num 30 |}))
  = step originRect (lineInProgress originRect)
      (Ev_stage_mousemove (Some {| vx := num 70; vy := num 30 |})).
Proof.
  destruct (stage_mousemove_follows originRect (lineInProgress originRect)
              {| vx := num 50; vy := num 20 |} reachable_lineInProgress)
    as (H1 & _ & _ & H4).
  split; [exact H1|apply H4].
Defined.

(** The click that throws, on [startDeleted], leaves no line in progress. *)
Lemma stage_click_settles_example :
  eval (handle originRect (Ev_stage_click (Some {| vx := num 50; vy := num 20 |}) (num 0)))
    (startDeleted originRect) = Throw TypeError /\
  anchorShapes
    (step originRect (startDeleted originRect)
       (Ev_stage_click (Some {| vx := num 50; vy := num 20 |}) (num 0))) = [] /\
  currentLine
    (step originRect (startDeleted originRect)
       (Ev_stage_click (Some {| vx := num 50; vy := num 20 |}) (num 0))) = None.
Proof.
  assert (Hreach : reachable originRect (startDeleted originRect)).
  { unfold startDeleted, run. simpl fold_left. repeat apply reachable_step.
    apply reachable_init. }
  split; [vm_compute; reflexivity|].
  destruct (stage_click_settles originRect (startDeleted originRect)
              (Some {| vx := num 50; vy := num 20 |}) (num 0) Hreach) as (H1 & H2 & _).
  split; assumption.
Defined.

(** Pressing down on the second marker of the selected shape starts a
    line. *)
Lemma anchor_mousedown_starts_example :
  exists (n : PidNode) (anchor : IPidAnchor),
    findNode 0 (shapes (selected originRect)) = Some n /\
    nth_error (anchors (cacPidKonvaShape n)) 1 = Some anchor /\
    option_map (fun l => (line_name l, cacStartPidShapeId l))
      (currentLine (step originRect (selected originRect) (Ev_anchor_mousedown 1)))
    = Some (cacCurrentLine, dto_id (cacDto n)).
Proof.
  destruct (anchor_mousedown_starts originRect (selected originRect) 1 _
              reachable_selected eq_refl eq_refl) as (n & anchor & H1 & H2 & H3 & H4).
  exists n, anchor. split; [exact H1|]. split; [exact H2|]. rewrite H4. reflexivity.
Defined.

(** Releasing the line started on A on the first marker of B. *)
Lemma anchor_mouseup_connects_example :
  eval (handle originRect (Ev_anchor_mouseup 0)) (overB originRect) = Ok tt /\
  currentLine (step originRect (overB originRect) (Ev_anchor_mouseup 0)) = None /\
  fired (step originRect (overB originRect) (Ev_anchor_mouseup 0))
    = S (fired (overB originRect)).
Proof.
  assert (Hreach : reachable originRect (overB originRect)).
  { unfold overB, run. simpl fold_left. repeat apply reachable_step.
    apply reachable_init. }
  destruct (anchor_mouseup_connects originRect (overB originRect) 0 _ _ _
              Hreach eq_refl eq_refl eq_refl)
    as (x0 & y0 & rest & Hp & Hrun & Hin & Hcur).
  unfold eval, step, exec. rewrite Hrun. split; [reflexivity|]. split; [|reflexivity].
  unfold step, exec in Hcur. rewrite Hrun in Hcur. exact Hcur.
Defined.


(** A box of 100 by 50 resized to 40 by 7, in exact arithmetic. *)
Lemma boundBoxFunc_keeps_ratio_example :
  (num 80 <= box_width (boundBoxFunc (fun q => q) box100x50 box40x7))%Qc /\
  (num 10 <= box_height (boundBoxFunc (fun q => q) box100x50 box40x7))%Qc /\
  boundBoxFunc (fun q => q) box100x50 (set_box_height (num 1000) box40x7)
    = boundBoxFunc (fun q => q) box100x50 box40x7.
Proof.
  assert (H : (0 < fdiv (fun q => q) (box_width box100x50) (box_height box100x50))%Qc)
    by (vm_compute; reflexivity).
  destruct (boundBoxFunc_keeps_ratio (fun q => q) box100x50 box40x7
              (fun a b Hab => Hab) eq_refl eq_refl H)
    as (Hw & Hh & _ & _ & _ & _ & Hsame).
  split; [exact Hw|]. split; [exact Hh|apply Hsame].
Defined.

(** A second move of A, connected to B. *)
Lemma handlers_read_defined_values_example :
  eval (handle originRect (Ev_group_dragmove 0 {| vx := num 4; vy := num 0 |}))
    (draggedOnce originRect) = Ok tt \/
  eval (handle originRect (Ev_group_dragmove 0 {| vx := num 4; vy := num 0 |}))
    (draggedOnce originRect) = Throw TypeError.
Proof.
  apply handlers_read_defined_values; [|exact I].
  unfold draggedOnce, connectAtoB, run. simpl app. simpl fold_left.
  repeat (apply reachableBy_step; [|exact I]). apply reachableBy_init.
Defined.

(** The entry [Actions] is chosen for a shape. *)
Lemma menu_choice_example :
  exists (item : CustomMenuItem) (s : Target),
    currentShape (menuOpened originRect) = Some s /\
    find (fun item => (item_label item =? "Actions")%string)
      (customMenuItems (menuOpened originRect)) = Some item /\
    editor (page_step originRect (menuOpened originRect) (Pev_button_click 1))
      = editor (menuOpened originRect) /\
    called (page_step originRect (menuOpened originRect) (Pev_button_click 1))
      = called (menuOpened originRect) ++ [(item_callback item, Some s)].
Proof.
  assert (Hreach : page_reachable originRect (menuOpened originRect)).
  { unfold menuOpened, page_run. simpl fold_left. repeat apply page_reachable_step.
    apply page_reachable_init. }
  destruct (menu_choice originRect (menuOpened originRect) 1 _ Hreach eq_refl)
    as (_ & _ & _ & s & Hs & _ & Hcustom).
  destruct Hcustom as (item & Hitem & _ & Hed & Hcalled); [discriminate|discriminate|].
  exists item, s. repeat split; assumption.
Defined.

(** [Delete] is chosen for the line from A to B. *)
Lemma menu_delete_on_line_example :
  shapes (editor (page_step originRect
                    (page_step originRect (pageConnectedAB originRect)
                       (Pev_contextmenu (Some (onLine 2)) {| vx := num 0; vy := num 40 |}
                          {| vx := num 50; vy := num 5 |}))
                    (Pev_button_click 0))) = [] /\
  eval exportJson
    (editor (page_step originRect
               (page_step originRect (pageConnectedAB originRect)
                  (Pev_contextmenu (Some (onLine 2)) {| vx := num 0; vy := num 40 |}
                     {| vx := num 50; vy := num 5 |}))
               (Pev_button_click 0))) = Ok [].
Proof.
  destruct (menu_delete_on_line originRect (pageConnectedAB originRect) 2 _
              {| vx := num 0; vy := num 40 |} {| vx := num 50; vy := num 5 |}
              eq_refl eq_refl eq_refl)
    as (_ & _ & _ & Hshapes & _ & _ & _ & _ & Hexport & _).
  split; [exact Hshapes|]. unfold eval. rewrite Hexport. reflexivity.
Defined.

(** An item without a name, a type and anchors. *)
Lemma fetchPidIconSet_normalizes_example :
  exists items : list FetchedShape,
    fetchPidIconSet (Some [unnamedItem]) = Some items /\
    length items = 1 /\
    fetchPidIconSet (Some items) = Some items /\
    exists item' : FetchedShape,
      nth_error items 0 = Some item' /\
      fetched_name item' = Some "Unnamed"%string /\
      fetched_type item' = Some valve /\
      fetched_anchors item' = Some [] /\
      fetched_path item' = Some "M 0 0 L 10 10"%string.
Proof.
  destruct (fetchPidIconSet_normalizes [unnamedItem]) as (items & H1 & H2 & H3 & H4).
  exists items. split; [exact H1|]. split; [exact H2|]. split; [exact H3|].
  destruct (H4 0 unnamedItem eq_refl) as (item' & Hi & Ha & Ht & Hp & Hn & _).
  exists item'. split; [exact Hi|]. split; [exact Hn|]. split; [exact Ht|].
  split; [exact Ha|exact Hp].
Defined.

(** The tips of a desktop browser after four rounds. *)
Lemma tips_rotate_example :
  nth_error (CAC_TIPS false) (4 mod length (CAC_TIPS false))
    = Some (tip_innerHTML (tip_after (CAC_TIPS false) (2 * 4))) /\
  tip_innerHTML (tip_after (CAC_TIPS false) (2 * 4 + 1)) = ""%string /\
  tip_innerHTML (tip_after (CAC_TIPS false) (2 * 4))
    = "Right click icons to edit them"%string.
Proof.
  assert (H : CAC_TIPS false <> []) by discriminate.
  destruct (tips_rotate (CAC_TIPS false) 4 H) as (H1 & H2 & _).
  split; [exact H1|]. split; [exact H2|]. vm_compute. reflexivity.
Defined.

(** A shape whose connection starts at the id of A is imported beside A and
    B: the shape is added, the connection is not made. *)
Lemma importJson_appends_example :
  docs (exec (importJson (Some danglingShape)) (connectedAB originRect))
    = docs (connectedAB originRect) ++ map strip danglingShape /\
  layerRoutes (exec (importJson (Some danglingShape)) (connectedAB originRect))
    = layerRoutes (connectedAB originRect) /\
  fired (exec (importJson (Some danglingShape)) (connectedAB originRect))
    = fired (connectedAB originRect).
Proof.
  destruct (importJson_appends originRect (connectedAB originRect) danglingShape
              reachable_connectedAB)
    as (_ & _ & _ & Hdocs & _ & Hroutes & _ & Hfired & _).
  split; [rewrite Hdocs; f_equal; vm_compute; reflexivity|].
  split; [|exact Hfired].
  rewrite Hroutes.
  replace (layerRoutes (exec (importJson (Some danglingShape)) initEditor))
    with (@nil (list number)) by (vm_compute; reflexivity).
  apply app_nil_r.
Defined.

(** A second connection is drawn from the second anchor of A to the first
    anchor of B, by way of (50,20). *)
Lemma draw_connection_example :
  length (layerRoutes (run originRect (connectedAB originRect)
                         (drawConnection 0 1 [{| vx := num 50; vy := num 20 |}] 1 [] 0)))
    = S (length (layerRoutes (connectedAB originRect))) /\
  currentLine (run originRect (connectedAB originRect)
                 (drawConnection 0 1 [{| vx := num 50; vy := num 20 |}] 1 [] 0)) = None /\
  fired (run originRect (connectedAB originRect)
           (drawConnection 0 1 [{| vx := num 50; vy := num 20 |}] 1 [] 0))
    = S (fired (connectedAB originRect)).
Proof.
  destruct (draw_connection originRect (connectedAB originRect) 0 1 1 0
              [{| vx := num 50; vy := num 20 |}] [] _ _ _ _
              reachable_connectedAB eq_refl eq_refl eq_refl eq_refl eq_refl eq_refl)
    as (_ & Hroutes & Hcur & _ & Hfired & _).
  split; [|split; assumption].
  rewrite Hroutes, length_app. simpl. lia.
Defined.

(** With the entry [Actions] no shape is attached to the transformer; with an
    entry labelled [cacResize], its choice attaches the shape and calls no
    callback. *)
Lemma resize_only_by_label_example :
  tr_nodes (page_run originRect initPage
              [ Pev_addMenuEntry "Actions" 0;
                Pev_editor (Ev_addShape twoAnchors (num 0) (num 0) (Some (num 1)) (num 0));
                Pev_contextmenu (Some (onShape 0)) {| vx := num 0; vy := num 40 |}
                  {| vx := num 5; vy := num 5 |};
                Pev_button_click 1 ]) = [] /\
  tr_nodes (page_step originRect (resizeOpened originRect) (Pev_button_click 1)) = [0] /\
  called (page_step originRect (resizeOpened originRect) (Pev_button_click 1)) = [].
Proof.
  destruct (resize_only_by_label originRect) as [Hnever Hlabel].
  split.
  - apply Hnever.
    repeat (apply Forall_cons; [first [exact I|discriminate]|]). apply Forall_nil.
  - destruct (Hlabel (resizeOpened originRect) 1 _ 0 _ eq_refl eq_refl eq_refl eq_refl)
      as (_ & Htr & _ & _ & _ & _ & Hcalled).
    split; [exact Htr|exact Hcalled].
Defined.
